(** * JTBot: the ingestion / filter / dispatch pipeline of [jtbot.py]

    A shallow embedding of the parts of [jtbot.py] that carry the
    invariants of the keyword monitor: [KeywordManager], [FilterManager],
    [BlacklistManager], [RecordManager], the two [TTLCache] gates of
    [JTBot.handle_new_message], [DMAccountManager] (pool, quota and the
    SpamBot reply classifier), [DMTemplateManager] (ids and the text
    obfuscation) and [DMRecordManager] (the sent registry).

    Conventions.
    - A Python [str] is a list of Unicode code points ([pystr]); [len],
      [in], [replace], [split] and [strip] work on code points, as in
      Python.  Literals are written [u "..."], which decodes the UTF-8
      bytes of the Rocq literal.
    - Mutable objects are threaded explicitly: a method that mutates
      [self] takes the old field and returns the new one.  Writing the
      JSON files ([save_*]) and logging do not change the in-memory state
      and are left out.
    - Wall-clock readings ([datetime.now()], [time.time()], the timer of
      [TTLCache]) are inputs of the operations, counted in microseconds.
    - [str.lower] and the ISO-8601 codec of [datetime] are interfaces of
      the Python runtime ([PyText], [PyClock]); every theorem holds for
      any implementation of them.
    - [random] is a stream of draws consumed in program order;
      [random.randint] on an empty range raises without drawing.
    - Of the calls that [handle_new_message] and [_auto_send_dm] await,
      the sender and chat lookup and the transport of a private message
      are taken to return: their results are fields of the event or of
      the dispatch environment.  The alert sent to the monitor chat
      returns or raises, as the event says; what it raises is caught by
      the [except] of the handler, which ends the handling of the event.
      An event is handled to its end before the next one; in the source
      no [await] separates the check of a gate from its insertion. *)

From stdpp Require Import base list strings gmap pretty.
From Stdlib Require Import ZArith NArith Lia.

Local Open Scope Z_scope.

(** ** Python strings *)

Abbreviation pystr := (list N).

Fixpoint bytes_of (s : string) : list N :=
  match s with
  | EmptyString => []
  | String a s' => Ascii.N_of_ascii a :: bytes_of s'
  end.

(** UTF-8 decoding of a byte list; an ill-formed byte is kept as it is. *)
Fixpoint utf8_decode (fuel : nat) (bs : list N) : list N :=
  match fuel with
  | O => []
  | S fuel' =>
      match bs with
      | [] => []
      | b :: rest =>
          if (b <? 128)%N then b :: utf8_decode fuel' rest
          else if (b <? 224)%N then
            match rest with
            | b1 :: rest' =>
                ((b - 192) * 64 + (b1 - 128))%N :: utf8_decode fuel' rest'
            | _ => b :: utf8_decode fuel' rest
            end
          else if (b <? 240)%N then
            match rest with
            | b1 :: b2 :: rest' =>
                ((b - 224) * 4096 + (b1 - 128) * 64 + (b2 - 128))%N
                  :: utf8_decode fuel' rest'
            | _ => b :: utf8_decode fuel' rest
            end
          else
            match rest with
            | b1 :: b2 :: b3 :: rest' =>
                ((b - 240) * 262144 + (b1 - 128) * 4096
                 + (b2 - 128) * 64 + (b3 - 128))%N
                  :: utf8_decode fuel' rest'
            | _ => b :: utf8_decode fuel' rest
            end
      end
  end.

Definition u (s : string) : pystr :=
  let bs := bytes_of s in utf8_decode (length bs) bs.

(** [str(n)] for an [int]. *)
Definition str_of_Z (n : Z) : pystr := bytes_of (pretty n).

(** [p == q] on strings. *)
Definition str_eqb (p q : pystr) : bool := bool_decide (p = q).

(** [s.startswith(p)]. *)
Fixpoint startswith (p s : pystr) : bool :=
  match p, s with
  | [], _ => true
  | _ :: _, [] => false
  | a :: p', b :: s' => (a =? b)%N && startswith p' s'
  end.

(** [p in s]: [p] occurs in [s] as a contiguous run. *)
Fixpoint contains (p s : pystr) : bool :=
  startswith p s ||
  match s with
  | [] => false
  | _ :: s' => contains p s'
  end.

(** [s.replace(src, dst)]: the occurrences of [src] are replaced from the
    left and do not overlap.  [skip] counts the characters of the
    occurrence being replaced that are still to be passed over. *)
Fixpoint replace_go (src dst : pystr) (skip : nat) (s : pystr) : pystr :=
  match s with
  | [] => []
  | c :: s' =>
      match skip with
      | S k => replace_go src dst k s'
      | O =>
          if startswith src s
          then dst ++ replace_go src dst (length src - 1) s'
          else c :: replace_go src dst 0 s'
      end
  end.

Definition replace (src dst s : pystr) : pystr :=
  match src with
  | [] => dst ++ flat_map (fun c => c :: dst) s
  | _ :: _ => replace_go src dst 0 s
  end.

(** [s.split(sep)] for a one-character separator. *)
Fixpoint split_go (sep : N) (cur : pystr) (s : pystr) : list pystr :=
  match s with
  | [] => [reverse cur]
  | c :: s' =>
      if (c =? sep)%N then reverse cur :: split_go sep [] s'
      else split_go sep (c :: cur) s'
  end.

Definition split (sep : N) (s : pystr) : list pystr := split_go sep [] s.

(** [str.isspace] on one code point: the characters [str.strip()] removes. *)
Definition isspace (c : N) : bool :=
  ((9 <=? c) && (c <=? 13) || (28 <=? c) && (c <=? 32) || (c =? 133)
   || (c =? 160) || (c =? 5760) || (8192 <=? c) && (c <=? 8202)
   || (c =? 8232) || (c =? 8233) || (c =? 8239) || (c =? 8287)
   || (c =? 12288))%N.

Fixpoint lstrip (s : pystr) : pystr :=
  match s with
  | [] => []
  | c :: s' => if isspace c then lstrip s' else s
  end.

Definition strip (s : pystr) : pystr := reverse (lstrip (reverse (lstrip s))).

(** The part of Python's text model that is taken as an interface. *)
Class PyText := { lower : pystr -> pystr }.

(** [str.lower] on ASCII text; used to run the model on ASCII inputs. *)
Definition ascii_lower_char (c : N) : N :=
  if ((65 <=? c) && (c <=? 90))%N then (c + 32)%N else c.

Definition ascii_text : PyText := {| lower := map ascii_lower_char |}.

(** Truth value of an optional string: [None] and [''] are falsy. *)
Definition truthy (o : option pystr) : bool :=
  match o with
  | Some (_ :: _) => true
  | _ => false
  end.

(** [o or ''] *)
Definition or_empty (o : option pystr) : pystr := default [] o.

Definition seconds (n : Z) : Z := n * 1000000.
Definition hours (n : Z) : Z := seconds (n * 3600).

(** ** KeywordManager *)

Module KeywordManager.

(** One turn of the [for keyword in keywords] loop of [add_keywords]:
    the state is [(self.keywords, added)]. *)
Definition add_keywords_step (st : list pystr * nat) (keyword : pystr)
  : list pystr * nat :=
  let keyword := strip keyword in
  if (10 <? length keyword)%nat then st
  else if negb (str_eqb keyword []) && negb (bool_decide (keyword ∈ st.1))
       then (st.1 ++ [keyword], S st.2)
       else st.

Definition add_keywords (self_keywords : list pystr) (keywords : list pystr)
  : list pystr * nat :=
  foldl add_keywords_step (self_keywords, O) keywords.

(** [list.remove] deletes the first occurrence. *)
Fixpoint list_remove (x : pystr) (l : list pystr) : list pystr :=
  match l with
  | [] => []
  | y :: l' => if str_eqb y x then l' else y :: list_remove x l'
  end.

Definition remove_keyword (self_keywords : list pystr) (keyword : pystr)
  : list pystr * bool :=
  if bool_decide (keyword ∈ self_keywords)
  then (list_remove keyword self_keywords, true)
  else (self_keywords, false).

Fixpoint match_loop `{PyText} (text_lower : pystr) (keywords : list pystr)
  : list pystr :=
  match keywords with
  | [] => []
  | keyword :: rest =>
      if contains (lower keyword) text_lower
      then keyword :: match_loop text_lower rest
      else match_loop text_lower rest
  end.

Definition match_ `{PyText} (self_keywords : list pystr) (text : pystr)
  : list pystr :=
  match text with
  | [] => []
  | _ :: _ => match_loop (lower text) self_keywords
  end.

End KeywordManager.

(** ** FilterManager *)

Record User := {
  user_id : Z;
  user_username : option pystr;
  user_first_name : option pystr;
  user_last_name : option pystr;
  user_photo : bool
}.

Module FilterManager.

Record settings := {
  cooldown_minutes : Z;
  max_message_length : Z;
  filter_no_username : bool;
  filter_no_avatar : bool;
  min_account_age_days : Z
}.

Definition defaults : settings :=
  {| cooldown_minutes := 5; max_message_length := 100;
     filter_no_username := true; filter_no_avatar := false;
     min_account_age_days := 7 |}.

Definition _estimate_account_age (uid : Z) : Z :=
  if uid <? 1000000000 then 365 * 5
  else if uid <? 2000000000 then 365 * 2
  else if uid <? 5000000000 then 180
  else 30.

Definition check_user_filter (self : settings) (user : User)
  : bool * pystr :=
  if filter_no_username self && negb (truthy (user_username user))
  then (false, u "无用户名")
  else if filter_no_avatar self && negb (user_photo user)
  then (false, u "无头像")
  else
    let min_age_days := min_account_age_days self in
    if (0 <? min_age_days)
       && (_estimate_account_age (user_id user) <? min_age_days)
    then (false, u "账号年龄不足" ++ str_of_Z min_age_days ++ u "天")
    else (true, []).

End FilterManager.

(** ** RecordManager *)

Module RecordManager.

Record record := {
  r_user_id : Z;
  r_username : pystr;
  r_name : pystr;
  r_chat_id : Z;
  r_chat_title : pystr;
  r_keyword : pystr;
  r_message : pystr;
  r_time : Z;
  r_monitor_account : pystr
}.

(** [self.records.append(record)], then keep the last 10000. *)
Definition add_record (self_records : list record) (r : record)
  : list record :=
  let records := self_records ++ [r] in
  if (Z.to_nat 10000 <? length records)%nat
  then drop (length records - Z.to_nat 10000) records
  else records.

End RecordManager.

(** ** BlacklistManager: the two lookup sets *)

Module BlacklistManager.

Record t := { _user_ids : gset Z; _chat_ids : gset Z }.

Definition empty : t := {| _user_ids := ∅; _chat_ids := ∅ |}.

Definition is_user_blocked (self : t) (uid : Z) : bool :=
  bool_decide (uid ∈ _user_ids self).

Definition is_chat_blocked (self : t) (cid : Z) : bool :=
  bool_decide (cid ∈ _chat_ids self).

End BlacklistManager.

(** ** cachetools.TTLCache

    The cache of the [cachetools] package, with [getsizeof] counting one
    per item: an ordered dictionary of links, oldest first, each with the
    time at which it expires.  [__contains__] looks the link up and compares
    the timer with its expiry without touching the order; [__setitem__]
    first unlinks the expired links at the front, makes room by popping the
    oldest links while the cache is full, and links the key at the end with
    expiry [time + ttl]. *)

Module TTLCache.

Record link := Link { key : pystr; value : Z; expires : Z }.

Record t := Cache { maxsize : nat; ttl : Z; links : list link }.

Definition create (maxsize : nat) (ttl : Z) : t := Cache maxsize ttl [].

(** [expire(time)]: [while curr is not root and not (time < curr.expires)]. *)
Fixpoint expire (time : Z) (ls : list link) : list link :=
  match ls with
  | [] => []
  | l :: ls' => if time <? expires l then ls else expire time ls'
  end.

(** [self.__links[key]] *)
Fixpoint getlink (k : pystr) (ls : list link) : option link :=
  match ls with
  | [] => None
  | l :: ls' => if str_eqb (key l) k then Some l else getlink k ls'
  end.

Fixpoint unlink (k : pystr) (ls : list link) : list link :=
  match ls with
  | [] => []
  | l :: ls' => if str_eqb (key l) k then ls' else l :: unlink k ls'
  end.

(** [key in cache] at timer reading [time]. *)
Definition contains (time : Z) (k : pystr) (c : t) : bool :=
  match getlink k (links c) with
  | None => false
  | Some l => time <? expires l
  end.

(** [cache[key] = v] at timer reading [time].  A cache of [maxsize] 0
    rejects every item ([ValueError]) and stays as it is. *)
Definition setitem (time : Z) (k : pystr) (v : Z) (c : t) : t :=
  match maxsize c with
  | O => c
  | S _ =>
      let ls := expire time (links c) in
      let new := Link k v (time + ttl c) in
      match getlink k ls with
      | Some _ => Cache (maxsize c) (ttl c) (unlink k ls ++ [new])
      | None =>
          Cache (maxsize c) (ttl c)
                (drop (length ls + 1 - maxsize c) ls ++ [new])
      end
  end.

End TTLCache.

(** ** JTBot: the monitoring side *)

Record Chat := {
  chat_ident : Z;
  chat_title : option pystr;
  chat_username : option pystr
}.

(** What [handle_new_message] reads from a Telethon event, with the
    results of the awaited [get_sender] ([None] when the sender is not a
    [User]) and [get_chat], the clock at which the event is handled, and
    for each keyword whether the awaited [bot.send_message] of its alert
    returns ([true]) or raises ([false]). *)
Record NewMessage := {
  ev_time : Z;
  ev_chat_id : Z;
  ev_msg_id : Z;
  ev_text : option pystr;
  ev_sender : option User;
  ev_chat : option Chat;
  ev_monitor_phone : pystr;
  ev_alert_sent : pystr -> bool
}.

Record Stats := {
  messages_received : Z;
  keywords_matched : Z;
  filtered_count : Z
}.

(** What the handler sends out, and the alert whose sending raised. *)
Inductive Effect :=
  | SendAlert (sender_id : Z) (keyword : pystr) (ev : NewMessage)
  | AlertNotSent (sender_id : Z) (keyword : pystr) (ev : NewMessage)
  | SaveRecord (r : RecordManager.record)
  | CreateTask (sender : User).

Record JTBot := {
  keyword_manager : list pystr;
  filter_manager : FilterManager.settings;
  record_manager : list RecordManager.record;
  blacklist_manager : BlacklistManager.t;
  cooldown_cache : TTLCache.t;
  processed_messages : TTLCache.t;
  stats : Stats
}.

Definition cache_maxsize : nat := Z.to_nat 10000.

(** The state that [JTBot.__init__] builds from the loaded managers. *)
Definition JTBot_init (keywords : list pystr) (fs : FilterManager.settings)
    (records : list RecordManager.record) (bl : BlacklistManager.t) : JTBot :=
  {| keyword_manager := keywords;
     filter_manager := fs;
     record_manager := records;
     blacklist_manager := bl;
     cooldown_cache :=
       TTLCache.create cache_maxsize
                       (seconds (FilterManager.cooldown_minutes fs * 60));
     processed_messages := TTLCache.create cache_maxsize (seconds 300);
     stats := {| messages_received := 0; keywords_matched := 0;
                 filtered_count := 0 |} |}.

Definition with_stats (self : JTBot) (st : Stats) : JTBot :=
  {| keyword_manager := keyword_manager self;
     filter_manager := filter_manager self;
     record_manager := record_manager self;
     blacklist_manager := blacklist_manager self;
     cooldown_cache := cooldown_cache self;
     processed_messages := processed_messages self;
     stats := st |}.

Definition with_processed (self : JTBot) (c : TTLCache.t) : JTBot :=
  {| keyword_manager := keyword_manager self;
     filter_manager := filter_manager self;
     record_manager := record_manager self;
     blacklist_manager := blacklist_manager self;
     cooldown_cache := cooldown_cache self;
     processed_messages := c;
     stats := stats self |}.

Definition with_cooldown (self : JTBot) (c : TTLCache.t) : JTBot :=
  {| keyword_manager := keyword_manager self;
     filter_manager := filter_manager self;
     record_manager := record_manager self;
     blacklist_manager := blacklist_manager self;
     cooldown_cache := c;
     processed_messages := processed_messages self;
     stats := stats self |}.

Definition with_records (self : JTBot) (rs : list RecordManager.record)
  : JTBot :=
  {| keyword_manager := keyword_manager self;
     filter_manager := filter_manager self;
     record_manager := rs;
     blacklist_manager := blacklist_manager self;
     cooldown_cache := cooldown_cache self;
     processed_messages := processed_messages self;
     stats := stats self |}.

Definition count_received (self : JTBot) : JTBot :=
  with_stats self
    {| messages_received := messages_received (stats self) + 1;
       keywords_matched := keywords_matched (stats self);
       filtered_count := filtered_count (stats self) |}.

Definition count_matched (self : JTBot) : JTBot :=
  with_stats self
    {| messages_received := messages_received (stats self);
       keywords_matched := keywords_matched (stats self) + 1;
       filtered_count := filtered_count (stats self) |}.

Definition count_filtered (self : JTBot) : JTBot :=
  with_stats self
    {| messages_received := messages_received (stats self);
       keywords_matched := keywords_matched (stats self);
       filtered_count := filtered_count (stats self) + 1 |}.

(** [f"{chat_id}_{msg_id}"] and [f"{sender.id}_{keyword}"] *)
Definition msg_key (chat_id msg_id : Z) : pystr :=
  str_of_Z chat_id ++ u "_" ++ str_of_Z msg_id.

Definition cache_key (sender_id : Z) (keyword : pystr) : pystr :=
  str_of_Z sender_id ++ u "_" ++ keyword.

Definition trigger_record (ev : NewMessage) (sender : User) (chat_id : Z)
    (text keyword : pystr) : RecordManager.record :=
  {| RecordManager.r_user_id := user_id sender;
     RecordManager.r_username := or_empty (user_username sender);
     RecordManager.r_name :=
       strip (or_empty (user_first_name sender) ++ u " "
              ++ or_empty (user_last_name sender));
     RecordManager.r_chat_id := chat_id;
     RecordManager.r_chat_title :=
       default (u "私聊") (ev_chat ev ≫= chat_title);
     RecordManager.r_keyword := keyword;
     RecordManager.r_message := text;
     RecordManager.r_time := ev_time ev;
     RecordManager.r_monitor_account := ev_monitor_phone ev |}.

(** The [for keyword in matched_keywords] loop of [handle_new_message].
    The cooldown entry and the counter are written before the alert is
    sent; when the sending raises, the handler leaves the loop: no
    record, no task, and the keywords that follow are not looked at. *)
Fixpoint cooldown_loop (ev : NewMessage) (sender : User) (chat_id : Z)
    (text : pystr) (matched_keywords : list pystr) (self : JTBot)
  : JTBot * list Effect :=
  match matched_keywords with
  | [] => (self, [])
  | keyword :: rest =>
      let ck := cache_key (user_id sender) keyword in
      if TTLCache.contains (ev_time ev) ck (cooldown_cache self)
      then cooldown_loop ev sender chat_id text rest self
      else
        let self :=
          with_cooldown self
            (TTLCache.setitem (ev_time ev) ck (ev_time ev)
                              (cooldown_cache self)) in
        let self := count_matched self in
        if ev_alert_sent ev keyword then
          let r := trigger_record ev sender chat_id text keyword in
          let self :=
            with_records self
              (RecordManager.add_record (record_manager self) r) in
          let '(self, effects) :=
            cooldown_loop ev sender chat_id text rest self in
          (self,
           SendAlert (user_id sender) keyword ev :: SaveRecord r
             :: CreateTask sender :: effects)
        else (self, [AlertNotSent (user_id sender) keyword ev])
  end.

Definition handle_new_message `{PyText} (ev : NewMessage) (self : JTBot)
  : JTBot * list Effect :=
  let self := count_received self in
  let mk := msg_key (ev_chat_id ev) (ev_msg_id ev) in
  if TTLCache.contains (ev_time ev) mk (processed_messages self)
  then (self, [])
  else
    let self :=
      with_processed self
        (TTLCache.setitem (ev_time ev) mk (ev_time ev)
                          (processed_messages self)) in
    let text := or_empty (ev_text ev) in
    match text, ev_sender ev with
    | [], _ => (self, [])
    | _ :: _, None => (self, [])
    | _ :: _, Some sender =>
        let chat_id := from_option chat_ident 0 (ev_chat ev) in
        if BlacklistManager.is_user_blocked (blacklist_manager self)
                                            (user_id sender)
        then (count_filtered self, [])
        else if BlacklistManager.is_chat_blocked (blacklist_manager self)
                                                 chat_id
        then (count_filtered self, [])
        else if FilterManager.max_message_length (filter_manager self)
                <? Z.of_nat (length text)
        then (count_filtered self, [])
        else
          let matched_keywords :=
            KeywordManager.match_ (keyword_manager self) text in
          match matched_keywords with
          | [] => (self, [])
          | _ :: _ =>
              if (FilterManager.check_user_filter (filter_manager self)
                                                  sender).1
              then cooldown_loop ev sender chat_id text matched_keywords self
              else (count_filtered self, [])
          end
    end.

(** The monitor handling a sequence of events, one after the other. *)
Fixpoint run `{PyText} (evs : list NewMessage) (self : JTBot)
  : JTBot * list Effect :=
  match evs with
  | [] => (self, [])
  | ev :: rest =>
      let '(self, e1) := handle_new_message ev self in
      let '(self, e2) := run rest self in
      (self, e1 ++ e2)
  end.

(** [receive_cooldown]: the admin sets the cooldown, which re-creates the
    cache.  ([handle_input] and [run_inputs] below run it between the
    messages.) *)
Definition receive_cooldown (minutes : Z) (self : JTBot) : JTBot :=
  if (1 <=? minutes) && (minutes <=? 60) then
    {| keyword_manager := keyword_manager self;
       filter_manager :=
         {| FilterManager.cooldown_minutes := minutes;
            FilterManager.max_message_length :=
              FilterManager.max_message_length (filter_manager self);
            FilterManager.filter_no_username :=
              FilterManager.filter_no_username (filter_manager self);
            FilterManager.filter_no_avatar :=
              FilterManager.filter_no_avatar (filter_manager self);
            FilterManager.min_account_age_days :=
              FilterManager.min_account_age_days (filter_manager self) |};
       record_manager := record_manager self;
       blacklist_manager := blacklist_manager self;
       cooldown_cache := TTLCache.create cache_maxsize (seconds (minutes * 60));
       processed_messages := processed_messages self;
       stats := stats self |}
  else self.

(** What reaches the monitor: a message, or a cooldown set by the
    admin. *)
Inductive Input :=
  | Message (ev : NewMessage)
  | SetCooldown (minutes : Z).

Definition handle_input `{PyText} (input : Input) (self : JTBot)
  : JTBot * list Effect :=
  match input with
  | Message ev => handle_new_message ev self
  | SetCooldown minutes => (receive_cooldown minutes self, [])
  end.

Fixpoint run_inputs `{PyText} (inputs : list Input) (self : JTBot)
  : JTBot * list Effect :=
  match inputs with
  | [] => (self, [])
  | input :: rest =>
      let '(self, e1) := handle_input input self in
      let '(self, e2) := run_inputs rest self in
      (self, e1 ++ e2)
  end.

(** ** DMAccountManager *)

(** [datetime.isoformat] and [datetime.fromisoformat] ([None] when the
    string is rejected with [ValueError]); a [datetime] is its number of
    microseconds. *)
Class PyClock := {
  isoformat : Z -> pystr;
  fromisoformat : pystr -> option Z
}.

Module DMAccountManager.

Inductive category :=
  | geo_warning | active | restricted | spam | banned | frozen.

Definition STATUS_PATTERNS (c : category) : list pystr :=
  match c with
  | geo_warning =>
      [ u "some phone numbers may trigger a harsh response";
        u "phone numbers may trigger" ]
  | active =>
      [ u "good news, no limits are currently applied";
        u "you're free as a bird";
        u "no limits";
        u "free as a bird";
        u "no restrictions";
        u "all good";
        u "account is free";
        u "not limited";
        u "正常";
        u "没有限制";
        u "无限制" ]
  | restricted =>
      [ u "account is now limited until";
        u "limited until";
        u "moderators have confirmed the report";
        u "users found your messages annoying";
        u "will be automatically released";
        u "temporarily limited";
        u "暂时限制";
        u "临时限制" ]
  | spam =>
      [ u "actions can trigger a harsh response from our anti-spam systems";
        u "account was limited";
        u "you will not be able to send messages";
        u "违规" ]
  | banned =>
      [ u "permanently banned";
        u "account has been frozen permanently";
        u "permanently restricted";
        u "banned permanently";
        u "blocked for violations";
        u "terms of service";
        u "banned";
        u "suspended";
        u "永久限制";
        u "永久封禁" ]
  | frozen =>
      [ u "wait";
        u "pending";
        u "verification";
        u "等待";
        u "审核中" ]
  end.

Definition TRANSLATIONS : list (pystr * pystr) :=
  [ (u "ограничения", u "limitations");
    (u "заблокирован", u "blocked");
    (u "хорошие новости", u "good news");
    (u "нет ограничений", u "no limits");
    (u "正常", u "all good");
    (u "没有限制", u "no limits");
    (u "永久封禁", u "permanently banned");
    (u "限制", u "limited");
    (u "暂时", u "temporarily");
    (u "验证", u "verification") ].

Fixpoint translate_loop (items : list (pystr * pystr)) (text_lower : pystr)
  : pystr :=
  match items with
  | [] => text_lower
  | (src, dst) :: rest =>
      if contains src text_lower
      then translate_loop rest (replace src dst text_lower)
      else translate_loop rest text_lower
  end.

Definition translate_text `{PyText} (text : pystr) : pystr :=
  translate_loop TRANSLATIONS (lower text).

(** [for pattern in patterns: if pattern.lower() in translated: return] *)
Fixpoint matches_any `{PyText} (patterns : list pystr) (translated : pystr)
  : bool :=
  match patterns with
  | [] => false
  | pattern :: rest =>
      if contains (lower pattern) translated then true
      else matches_any rest translated
  end.

Definition detect_status_from_spambot `{PyText} (message_text : pystr)
  : pystr * bool :=
  let translated := translate_text message_text in
  if matches_any (STATUS_PATTERNS geo_warning) translated
  then (u "active", true)
  else if matches_any (STATUS_PATTERNS active) translated
  then (u "active", true)
  else if matches_any (STATUS_PATTERNS restricted) translated
  then (u "restricted", false)
  else if matches_any (STATUS_PATTERNS spam) translated
  then (u "spam", false)
  else if matches_any (STATUS_PATTERNS banned) translated
  then (u "banned", false)
  else if matches_any (STATUS_PATTERNS frozen) translated
  then (u "frozen", false)
  else (u "unknown", false).

(** An account dictionary.  The fields read with [acc.get] may be
    missing in a loaded file and are optional; [last_sent_date] is
    [None] also when the stored value is [None]. *)
Record account := {
  phone : pystr;
  session_file : pystr;
  name : pystr;
  username : pystr;
  acc_user_id : Z;
  status : option pystr;
  can_send_dm : option bool;
  connection_type : pystr;
  daily_sent : option Z;
  last_sent_date : option pystr;
  added_at : pystr;
  updated_at : pystr
}.

Fixpoint has_phone (p : pystr) (accounts : list account) : bool :=
  match accounts with
  | [] => false
  | acc :: rest => str_eqb (phone acc) p || has_phone p rest
  end.

(** [acc.update({...})] of [add_account] on the first account of the
    phone. *)
Fixpoint update_existing (p nm un : pystr) (uid : Z) (st ct now : pystr)
    (accounts : list account) : list account :=
  match accounts with
  | [] => []
  | acc :: rest =>
      if str_eqb (phone acc) p then
        {| phone := phone acc; session_file := session_file acc;
           name := nm; username := un; acc_user_id := uid;
           status := Some st; can_send_dm := can_send_dm acc;
           connection_type := ct; daily_sent := daily_sent acc;
           last_sent_date := last_sent_date acc;
           added_at := added_at acc; updated_at := now |} :: rest
      else acc :: update_existing p nm un uid st ct now rest
  end.

Definition add_account `{PyClock} (now : Z) (p sf nm un : pystr) (uid : Z)
    (st ct : pystr) (accounts : list account) : list account :=
  if has_phone p accounts
  then update_existing p nm un uid st ct (isoformat now) accounts
  else
    accounts ++
    [ {| phone := p; session_file := sf; name := nm; username := un;
         acc_user_id := uid; status := Some st;
         can_send_dm := Some (str_eqb st (u "active"));
         connection_type := ct; daily_sent := Some 0;
         last_sent_date := None;
         added_at := isoformat now; updated_at := isoformat now |} ].

Definition set_status (acc : account) (st : pystr) (cs : bool)
    (now : pystr) : account :=
  {| phone := phone acc; session_file := session_file acc;
     name := name acc; username := username acc;
     acc_user_id := acc_user_id acc;
     status := Some st; can_send_dm := Some cs;
     connection_type := connection_type acc;
     daily_sent := daily_sent acc; last_sent_date := last_sent_date acc;
     added_at := added_at acc; updated_at := now |}.

Fixpoint update_account_status `{PyClock} (now : Z) (p st : pystr)
    (can_send : option bool) (accounts : list account) : list account :=
  match accounts with
  | [] => []
  | acc :: rest =>
      if str_eqb (phone acc) p then
        set_status acc st
          (match can_send with
           | Some b => b
           | None => str_eqb st (u "active")
           end)
          (isoformat now) :: rest
      else acc :: update_account_status now p st can_send rest
  end.

Definition set_counter (acc : account) (n : Z) (date : pystr) : account :=
  {| phone := phone acc; session_file := session_file acc;
     name := name acc; username := username acc;
     acc_user_id := acc_user_id acc;
     status := status acc; can_send_dm := can_send_dm acc;
     connection_type := connection_type acc;
     daily_sent := Some n; last_sent_date := Some date;
     added_at := added_at acc; updated_at := updated_at acc |}.

Definition set_daily_sent (acc : account) (n : Z) : account :=
  {| phone := phone acc; session_file := session_file acc;
     name := name acc; username := username acc;
     acc_user_id := acc_user_id acc;
     status := status acc; can_send_dm := can_send_dm acc;
     connection_type := connection_type acc;
     daily_sent := Some n; last_sent_date := last_sent_date acc;
     added_at := added_at acc; updated_at := updated_at acc |}.

Definition is_today (acc : account) (today : pystr) : bool :=
  bool_decide (last_sent_date acc = Some today).

(** Returns [(available, self.accounts)]; the dictionaries in
    [available] are the ones in the pool, as they are after the call. *)
Fixpoint get_available_accounts (today : pystr) (daily_limit : Z)
    (accounts : list account) : list account * list account :=
  match accounts with
  | [] => ([], [])
  | acc :: rest =>
      let '(available, rest') :=
        get_available_accounts today daily_limit rest in
      if negb (bool_decide (status acc = Some (u "active")))
         || negb (default false (can_send_dm acc))
      then (available, acc :: rest')
      else
        let acc' := if is_today acc today then acc
                    else set_counter acc 0 today in
        let sent := if is_today acc today then default 0 (daily_sent acc)
                    else 0 in
        if sent <? daily_limit
        then (acc' :: available, acc' :: rest')
        else (available, acc' :: rest')
  end.

Fixpoint increment_sent_count (today : pystr) (p : pystr)
    (accounts : list account) : list account :=
  match accounts with
  | [] => []
  | acc :: rest =>
      if str_eqb (phone acc) p then
        let acc' := if is_today acc today then acc
                    else set_counter acc 0 today in
        set_daily_sent acc' (default 0 (daily_sent acc') + 1) :: rest
      else acc :: increment_sent_count today p rest
  end.

End DMAccountManager.

(** ** random

    The generator is a stream of draws; [random.choice] and
    [random.randint] each consume one. *)

Record Rng := { draws : nat -> nat; pos : nat }.

Definition M (A : Type) : Type := Rng -> A * Rng.

Definition ret {A} (a : A) : M A := fun g => (a, g).

Definition bind {A B} (m : M A) (f : A -> M B) : M B :=
  fun g => let '(a, g') := m g in f a g'.

Notation "x <- m ;; k" := (bind m (fun x => k))
  (at level 100, m at next level, right associativity).

Definition draw : M nat :=
  fun g => (draws g (pos g), {| draws := draws g; pos := S (pos g) |}).

(** [random.choice(seq)] on a non-empty sequence; [d] stands for what an
    empty sequence would raise on. *)
Definition choice {A} (d : A) (seq : list A) : M A :=
  n <- draw ;; ret (nth (n mod length seq)%nat seq d).

(** [random.randint(a, b)]; [None] is the [ValueError] that an empty
    range, [b < a], raises before anything is drawn. *)
Definition randint (a b : Z) : M (option Z) :=
  if b <? a then ret None
  else n <- draw ;; ret (Some (a + Z.of_nat n mod (b - a + 1))).

(** ** DMTemplateManager *)

Module DMTemplateManager.

(** The content dictionary of a text template; the options are read with
    [content.get] and may be absent. *)
Record content := {
  text : pystr;
  use_emoji : option bool;
  use_timestamp : option bool;
  use_synonym : option bool
}.

Record template := {
  id : Z;
  type : pystr;
  tpl_content : content;
  created_at : pystr
}.

Definition add_template `{PyClock} (now : Z) (template_type : pystr)
    (c : content) (templates : list template) : list template * Z :=
  let template_id := Z.of_nat (length templates) + 1 in
  (templates ++
     [ {| id := template_id; type := template_type; tpl_content := c;
          created_at := isoformat now |} ],
   template_id).

Fixpoint remove_template (template_id : Z) (templates : list template)
  : list template * bool :=
  match templates with
  | [] => ([], false)
  | tpl :: rest =>
      if id tpl =? template_id then (rest, true)
      else let '(rest', found) := remove_template template_id rest in
           (tpl :: rest', found)
  end.

Fixpoint get_template (template_id : Z) (templates : list template)
  : option template :=
  match templates with
  | [] => None
  | tpl :: rest =>
      if id tpl =? template_id then Some tpl
      else get_template template_id rest
  end.

Definition get_random_template (templates : list template)
  : M (option template) :=
  match templates with
  | [] => ret None
  | tpl :: _ => t <- choice tpl templates ;; ret (Some t)
  end.

Definition lbrace : N := 123%N.
Definition rbrace : N := 125%N.
Definition bar : N := 124%N.

(** The run [[^}]+] and the closing brace of the pattern
    [\{([^}]+)\}], tried just after an opening brace: the group and what
    follows the match. *)
Fixpoint group (s : pystr) : option (pystr * pystr) :=
  match s with
  | [] => None
  | c :: s' =>
      if (c =? rbrace)%N then Some ([], s')
      else match group s' with
           | Some (g, rest) => Some (c :: g, rest)
           | None => None
           end
  end.

(** [re.sub(pattern, replace_choice, text)]: the matches are found from
    the left and do not overlap; [skip] counts the characters of the
    current match that are still to be passed over. *)
Fixpoint sub_go (skip : nat) (s : pystr) : M pystr :=
  match s with
  | [] => ret []
  | c :: s' =>
      match skip with
      | S k => sub_go k s'
      | O =>
          if (c =? lbrace)%N then
            match group s' with
            | Some (g0 :: g, _) =>
                pick <- choice [] (split bar (g0 :: g)) ;;
                out <- sub_go (S (length g) + 1) s' ;;
                ret (pick ++ out)
            | _ => out <- sub_go 0 s' ;; ret (c :: out)
            end
          else out <- sub_go 0 s' ;; ret (c :: out)
      end
  end.

Definition process_spintax (t : pystr) : M pystr := sub_go 0 t.

Definition emojis : list pystr :=
  [ u "😊"; u "👋"; u "✨"; u "🌟"; u "💫";
    u "🎯"; u "🔥"; u "💪"; u "👍"; u "🙏" ].

(** [f"{text} {random.choice(emojis)}"] *)
Definition add_random_emoji (t : pystr) : M pystr :=
  e <- choice [] emojis ;; ret (t ++ u " " ++ e).

(** U+200B, U+200C, U+200D and U+2060 *)
Definition zero_width_chars : list pystr :=
  [ [8203%N]; [8204%N]; [8205%N]; [8288%N] ].

Fixpoint invisible (n : nat) : M pystr :=
  match n with
  | O => ret []
  | S n' =>
      c <- choice [] zero_width_chars ;;
      rest <- invisible n' ;;
      ret (c ++ rest)
  end.

(** [random.randint(6, 10)] does not raise: the branch of [None] is
    never taken. *)
Definition add_invisible_timestamp (t : pystr) : M pystr :=
  len <- randint 6 10 ;;
  match len with
  | Some len => inv <- invisible (Z.to_nat len) ;; ret (t ++ inv)
  | None => ret t
  end.

Definition generate_text_variant (t : pystr)
    (use_emoji use_timestamp use_synonym : bool) : M pystr :=
  result <- process_spintax t ;;
  result <- (if use_emoji then add_random_emoji result else ret result) ;;
  result <- (if use_timestamp then add_invisible_timestamp result
             else ret result) ;;
  ret result.

End DMTemplateManager.

(** The text that [_send_dm_by_template] builds for a template of type
    [text], before the mentions are turned into links and the message is
    handed to the client. *)
Definition send_text_result (c : DMTemplateManager.content) : M pystr :=
  let use_emoji := default true (DMTemplateManager.use_emoji c) in
  let use_timestamp := default true (DMTemplateManager.use_timestamp c) in
  result <- DMTemplateManager.process_spintax (DMTemplateManager.text c) ;;
  result <- (if use_emoji then DMTemplateManager.add_random_emoji result
             else ret result) ;;
  result <- (if use_timestamp
             then DMTemplateManager.add_invisible_timestamp result
             else ret result) ;;
  ret result.

(** ** DMRecordManager *)

Module DMRecordManager.

Record record := {
  r_user_id : Z;
  r_username : pystr;
  r_dm_account : pystr;
  r_template_id : Z;
  r_template_type : pystr;
  r_status : pystr;
  r_time : pystr;
  r_error : option pystr
}.

(** [reset_hours] is the number of hours of the reset window; every
    caller leaves it at its default, 24. *)
Definition is_user_sent `{PyClock} (now : Z) (user_id : Z)
    (reset_hours : Z) (sent_users : gmap pystr pystr) : bool :=
  match sent_users !! str_of_Z user_id with
  | None => false
  | Some stamp =>
      match fromisoformat stamp with
      | None => false
      | Some sent_time =>
          if hours reset_hours <? now - sent_time then false else true
      end
  end.

Definition add_sent_user `{PyClock} (now : Z) (user_id : Z)
    (sent_users : gmap pystr pystr) : gmap pystr pystr :=
  <[str_of_Z user_id := isoformat now]> sent_users.

Definition clear_sent_users (sent_users : gmap pystr pystr)
  : gmap pystr pystr := ∅.

Definition add_record (records : list record) (r : record) : list record :=
  let records := records ++ [r] in
  if (Z.to_nat 10000 <? length records)%nat
  then drop (length records - Z.to_nat 10000) records
  else records.

End DMRecordManager.

(** ** DMSettingsManager *)

Module DMSettingsManager.

Record settings := {
  enabled : bool;
  delay_min : Z;
  delay_max : Z;
  daily_limit : Z;
  active_hours_start : Z;
  active_hours_end : Z
}.

Definition defaults : settings :=
  {| enabled := true; delay_min := 30; delay_max := 120;
     daily_limit := 50; active_hours_start := 9;
     active_hours_end := 22 |}.

Definition is_active_hour (self : settings) (current_hour : Z) : bool :=
  (active_hours_start self <=? current_hour)
  && (current_hour <? active_hours_end self).

End DMSettingsManager.

(** ** JTBot: the dispatch side *)

Record DMState := {
  dm_settings_manager : DMSettingsManager.settings;
  dm_account_manager : list DMAccountManager.account;
  dm_template_manager : list DMTemplateManager.template;
  sent_users : gmap pystr pystr;
  dm_records : list DMRecordManager.record
}.

(** What one run of [_auto_send_dm] reads from its surroundings: the clock
    at the eligibility checks and after the send, the state of the
    clients and what the transport answers. *)
Record DispatchEnv := {
  env_now : Z;
  env_hour : Z;
  env_today : pystr;
  env_connected : pystr -> bool;
  env_connected_after_delay : bool;
  env_reconnected : bool;
  env_send_ok : bool;
  env_now_sent : Z;
  env_today_sent : pystr
}.

Inductive DmEffect :=
  | Sleep (delay : Z)
  | SendAttempt (dm_phone : pystr) (user : User)
                (template : DMTemplateManager.template)
  | Notify (user_id : Z).

Definition with_accounts (self : DMState)
    (accs : list DMAccountManager.account) : DMState :=
  {| dm_settings_manager := dm_settings_manager self;
     dm_account_manager := accs;
     dm_template_manager := dm_template_manager self;
     sent_users := sent_users self;
     dm_records := dm_records self |}.

Definition dm_record `{PyClock} (env : DispatchEnv) (sender : User)
    (dm_phone : pystr) (template : DMTemplateManager.template)
    (st : pystr) (err : option pystr) : DMRecordManager.record :=
  {| DMRecordManager.r_user_id := user_id sender;
     DMRecordManager.r_username := or_empty (user_username sender);
     DMRecordManager.r_dm_account := dm_phone;
     DMRecordManager.r_template_id := DMTemplateManager.id template;
     DMRecordManager.r_template_type := DMTemplateManager.type template;
     DMRecordManager.r_status := st;
     DMRecordManager.r_time := isoformat (env_now_sent env);
     DMRecordManager.r_error := err |}.

(** The outcome of a dispatch attempt after the delay. *)
Definition send_and_record `{PyClock} (env : DispatchEnv) (sender : User)
    (dm_phone : pystr) (template : DMTemplateManager.template)
    (self : DMState) : DMState * list DmEffect :=
  if env_send_ok env then
    ({| dm_settings_manager := dm_settings_manager self;
        dm_account_manager :=
          DMAccountManager.increment_sent_count
            (env_today_sent env) dm_phone (dm_account_manager self);
        dm_template_manager := dm_template_manager self;
        sent_users :=
          DMRecordManager.add_sent_user (env_now_sent env) (user_id sender)
                                        (sent_users self);
        dm_records :=
          DMRecordManager.add_record (dm_records self)
            (dm_record env sender dm_phone template (u "success") None) |},
     [SendAttempt dm_phone sender template; Notify (user_id sender)])
  else
    ({| dm_settings_manager := dm_settings_manager self;
        dm_account_manager := dm_account_manager self;
        dm_template_manager := dm_template_manager self;
        sent_users := sent_users self;
        dm_records :=
          DMRecordManager.add_record (dm_records self)
            (dm_record env sender dm_phone template (u "failed")
                       (Some (u "SEND_FAILED"))) |},
     [SendAttempt dm_phone sender template]).

Definition _auto_send_dm `{PyClock} (env : DispatchEnv) (sender : User)
    (self : DMState) : M (DMState * list DmEffect) :=
  if negb (DMSettingsManager.enabled (dm_settings_manager self))
  then ret (self, [])
  else if negb (truthy (user_username sender)) then ret (self, [])
  else if DMRecordManager.is_user_sent (env_now env) (user_id sender) 24
                                       (sent_users self)
  then ret (self, [])
  else if negb (DMSettingsManager.is_active_hour (dm_settings_manager self)
                                                 (env_hour env))
  then ret (self, [])
  else
    let '(available_accounts, accounts) :=
      DMAccountManager.get_available_accounts
        (env_today env)
        (DMSettingsManager.daily_limit (dm_settings_manager self))
        (dm_account_manager self) in
    let self := with_accounts self accounts in
    match available_accounts with
    | [] => ret (self, [])
    | acc0 :: _ =>
        dm_account <- choice acc0 available_accounts ;;
        let dm_phone := DMAccountManager.phone dm_account in
        if negb (env_connected env dm_phone) then ret (self, [])
        else
          template <- DMTemplateManager.get_random_template
                        (dm_template_manager self) ;;
          match template with
          | None => ret (self, [])
          | Some template =>
              delay <- randint
                         (DMSettingsManager.delay_min (dm_settings_manager self))
                         (DMSettingsManager.delay_max (dm_settings_manager self)) ;;
              match delay with
              | None => ret (self, [])
              | Some delay =>
                  if negb (env_connected_after_delay env)
                     && negb (env_reconnected env)
                  then ret (self, [Sleep delay])
                  else
                    let '(self, effects) :=
                      send_and_record env sender dm_phone template self in
                    ret (self, Sleep delay :: effects)
              end
          end
    end.

(** ** Definitions used to state the properties *)

(** [DMAccountManager.get_account]: the first account of the phone. *)
Fixpoint get_account (p : pystr) (accounts : list DMAccountManager.account)
  : option DMAccountManager.account :=
  match accounts with
  | [] => None
  | acc :: rest =>
      if str_eqb (DMAccountManager.phone acc) p then Some acc
      else get_account p rest
  end.

(** The derived-field invariant of an account: it can send exactly when
    it is active. *)
Definition coherent (acc : DMAccountManager.account) : Prop :=
  DMAccountManager.can_send_dm acc = Some true
  <-> DMAccountManager.status acc = Some (u "active").

(** A codec on which the model can be run: a [datetime] is written as the
    decimal numeral of its microseconds. *)
Fixpoint digits_value (acc : Z) (s : pystr) : option Z :=
  match s with
  | [] => Some acc
  | c :: s' =>
      if ((48 <=? c) && (c <=? 57))%N
      then digits_value (acc * 10 + Z.of_N (c - 48)) s'
      else None
  end.

Definition parse_Z (s : pystr) : option Z :=
  match s with
  | [] => None
  | c :: s' =>
      if (c =? 45)%N then
        match s' with
        | [] => None
        | _ :: _ => Z.opp <$> digits_value 0 s'
        end
      else digits_value 0 s
  end.

Definition decimal_clock : PyClock :=
  {| isoformat := str_of_Z; fromisoformat := parse_Z |}.

(** A keyword of at most 10 characters. *)
Definition short (k : pystr) : Prop := (length k <= 10)%nat.

(** The ids of the stored templates. *)
Definition ids (templates : list DMTemplateManager.template) : list Z :=
  map DMTemplateManager.id templates.

(** The check that opens the loop of [get_available_accounts]. *)
Definition passes_status_check (acc : DMAccountManager.account) : bool :=
  bool_decide (DMAccountManager.status acc = Some (u "active"))
  && default false (DMAccountManager.can_send_dm acc).

(** The lazy reset of the daily counter. *)
Definition refreshed (today : pystr) (acc : DMAccountManager.account)
  : DMAccountManager.account :=
  if DMAccountManager.is_today acc today then acc
  else DMAccountManager.set_counter acc 0 today.

(** Today's count of an account: what it has sent on the day [today]. *)
Definition sent_on (today : pystr) (acc : DMAccountManager.account) : Z :=
  if DMAccountManager.is_today acc today
  then default 0 (DMAccountManager.daily_sent acc)
  else 0.

(** What the loop of [get_available_accounts] does to one account. *)
Definition inspected (today : pystr) (acc : DMAccountManager.account)
  : DMAccountManager.account :=
  if passes_status_check acc then refreshed today acc else acc.

Definition eligible (today : pystr) (daily_limit : Z)
    (acc : DMAccountManager.account) : bool :=
  passes_status_check acc && (sent_on today acc <? daily_limit).

(** An account of the pool that was banned on an earlier day. *)
Definition stale_banned_account : DMAccountManager.account :=
  {| DMAccountManager.phone := u "+100";
     DMAccountManager.session_file := u "a.session";
     DMAccountManager.name := u "A";
     DMAccountManager.username := u "a";
     DMAccountManager.acc_user_id := 7;
     DMAccountManager.status := Some (u "banned");
     DMAccountManager.can_send_dm := Some false;
     DMAccountManager.connection_type := u "local";
     DMAccountManager.daily_sent := Some 5;
     DMAccountManager.last_sent_date := Some (u "2024-01-01");
     DMAccountManager.added_at := u "0";
     DMAccountManager.updated_at := u "0" |}.

(** The classifier as the specification words it (section 4.3): the
    pattern categories in a fixed priority order, each with the status it
    stands for; the first category with a pattern contained in the text
    wins, and [unknown] is the answer when none has. *)
Definition priority_order
  : list (DMAccountManager.category * (pystr * bool)) :=
  [ (DMAccountManager.geo_warning, (u "active", true));
    (DMAccountManager.active, (u "active", true));
    (DMAccountManager.restricted, (u "restricted", false));
    (DMAccountManager.spam, (u "spam", false));
    (DMAccountManager.banned, (u "banned", false));
    (DMAccountManager.frozen, (u "frozen", false)) ].

Definition category_matches `{PyText} (c : DMAccountManager.category)
    (translated : pystr) : bool :=
  existsb (fun pattern => contains (lower pattern) translated)
          (DMAccountManager.STATUS_PATTERNS c).

Fixpoint first_match `{PyText}
    (rules : list (DMAccountManager.category * (pystr * bool)))
    (translated : pystr) : pystr * bool :=
  match rules with
  | [] => (u "unknown", false)
  | (c, verdict) :: rest =>
      if category_matches c translated then verdict
      else first_match rest translated
  end.

(** A phrase of ASCII characters, and a translation source that starts and
    ends outside ASCII and does not contain the phrase: replacing the
    source cannot break an occurrence of the phrase. *)
Definition is_ascii (p : pystr) : bool := forallb (fun c => (c <? 128)%N) p.

Definition outside_ascii_ends (src : pystr) : bool :=
  match src, last src with
  | a :: _, Some z => (128 <=? a)%N && (128 <=? z)%N
  | _, _ => false
  end.

Definition harmless (p : pystr) (item : pystr * pystr) : bool :=
  outside_ascii_ends item.1 && negb (contains p item.1).

(** A zero-width character of the padding alphabet. *)
Definition zero_width (c : N) : Prop :=
  [c] ∈ DMTemplateManager.zero_width_chars.

(** ** Reading the caches and the effects *)

Definition cache_keys (c : TTLCache.t) : list pystr :=
  map TTLCache.key (TTLCache.links c).

(** A state of the cache as the dictionary of links has it: one link per
    key. *)
Definition cache_wf (c : TTLCache.t) : Prop := NoDup (cache_keys c).

(** The cache holds a link for [k] that expires at [e], with at most [b]
    links after it. *)
Definition held (k : pystr) (e : Z) (b : nat) (c : TTLCache.t) : Prop :=
  exists front l back,
    TTLCache.links c = front ++ l :: back
    /\ TTLCache.key l = k /\ TTLCache.expires l = e
    /\ (length back <= b)%nat.

(** The alerts among the effects, in order: time, sender and keyword. *)
Definition alert_of (e : Effect) : option (Z * Z * pystr) :=
  match e with
  | SendAlert sender_id keyword ev => Some (ev_time ev, sender_id, keyword)
  | _ => None
  end.

Definition alerts (effects : list Effect) : list (Z * Z * pystr) :=
  omap alert_of effects.

Definition task_of (e : Effect) : option User :=
  match e with
  | CreateTask sender => Some sender
  | _ => None
  end.

Definition tasks (effects : list Effect) : list User := omap task_of effects.

Definition record_of (e : Effect) : option RecordManager.record :=
  match e with
  | SaveRecord r => Some r
  | _ => None
  end.

Definition saved_records (effects : list Effect)
  : list RecordManager.record := omap record_of effects.

(** The cooldown entries written, in order: time, sender and keyword.
    The loop writes one just before each alert, sent or not. *)
Definition entry_of (e : Effect) : option (Z * Z * pystr) :=
  match e with
  | SendAlert sender_id keyword ev => Some (ev_time ev, sender_id, keyword)
  | AlertNotSent sender_id keyword ev =>
      Some (ev_time ev, sender_id, keyword)
  | _ => None
  end.

Definition cooldown_log (effects : list Effect) : list (Z * Z * pystr) :=
  omap entry_of effects.

(** The alerts whose sending raised. *)
Definition not_sent_of (e : Effect) : option (Z * Z * pystr) :=
  match e with
  | AlertNotSent sender_id keyword ev =>
      Some (ev_time ev, sender_id, keyword)
  | _ => None
  end.

Definition alerts_not_sent (effects : list Effect) : list (Z * Z * pystr) :=
  omap not_sent_of effects.

(** What the loop of [handle_new_message] sends out for one keyword that
    is not under cooldown and whose alert is sent. *)
Definition keyword_effects (ev : NewMessage) (sender : User) (chat_id : Z)
    (text keyword : pystr) : list Effect :=
  [ SendAlert (user_id sender) keyword ev;
    SaveRecord (trigger_record ev sender chat_id text keyword);
    CreateTask sender ].

(** Keywords taken in order until the sending of an alert raises: those
    whose alert is sent, and those with the one whose alert raised. *)
Fixpoint sent_prefix (sent : pystr -> bool) (keywords : list pystr)
  : list pystr :=
  match keywords with
  | [] => []
  | k :: rest => if sent k then k :: sent_prefix sent rest else []
  end.

Fixpoint tried_prefix (sent : pystr -> bool) (keywords : list pystr)
  : list pystr :=
  match keywords with
  | [] => []
  | k :: rest => if sent k then k :: tried_prefix sent rest else [k]
  end.

(** What the loop sends out for keywords none of which is under
    cooldown: the effects of each keyword whose alert is sent, up to the
    first alert whose sending raises. *)
Fixpoint fresh_effects (ev : NewMessage) (sender : User) (chat_id : Z)
    (text : pystr) (fresh : list pystr) : list Effect :=
  match fresh with
  | [] => []
  | k :: rest =>
      if ev_alert_sent ev k
      then keyword_effects ev sender chat_id text k
             ++ fresh_effects ev sender chat_id text rest
      else [AlertNotSent (user_id sender) k ev]
  end.

(** The matched keywords of an event that are not under cooldown in the
    monitor [self]. *)
Definition fresh_keywords `{PyText} (ev : NewMessage) (sender : User)
    (self : JTBot) : list pystr :=
  filter (fun k => TTLCache.contains (ev_time ev)
                     (cache_key (user_id sender) k) (cooldown_cache self)
                   = false)
         (KeywordManager.match_ (keyword_manager self)
                                (or_empty (ev_text ev))).

(** The event gets as far as the loop over the matched keywords: it is
    no duplicate, has a text and a sender that is a user, and passes the
    blacklist, the length limit and the user filter. *)
Definition reaches_loop `{PyText} (ev : NewMessage) (sender : User)
    (self : JTBot) : Prop :=
  TTLCache.contains (ev_time ev) (msg_key (ev_chat_id ev) (ev_msg_id ev))
                    (processed_messages self) = false
  /\ or_empty (ev_text ev) <> []
  /\ ev_sender ev = Some sender
  /\ BlacklistManager.is_user_blocked (blacklist_manager self)
                                      (user_id sender) = false
  /\ BlacklistManager.is_chat_blocked (blacklist_manager self)
       (from_option chat_ident 0 (ev_chat ev)) = false
  /\ Z.of_nat (length (or_empty (ev_text ev)))
     <= FilterManager.max_message_length (filter_manager self)
  /\ (FilterManager.check_user_filter (filter_manager self) sender).1
     = true.

(** The cooldown cache has room for an entry for every keyword. *)
Definition cooldown_room (self : JTBot) : Prop :=
  (length (TTLCache.links (cooldown_cache self))
   + length (keyword_manager self)
   <= TTLCache.maxsize (cooldown_cache self))%nat.

(** Events handled at clock readings that do not go back, from [now] on. *)
Fixpoint nondecreasing (now : Z) (evs : list NewMessage) : Prop :=
  match evs with
  | [] => True
  | ev :: rest => now <= ev_time ev /\ nondecreasing (ev_time ev) rest
  end.

(** The part of a record that identifies the alert it belongs to. *)
Definition record_alert (r : RecordManager.record) : Z * Z * pystr :=
  (RecordManager.r_time r, RecordManager.r_user_id r,
   RecordManager.r_keyword r).

(** ** Sample inputs *)

Definition bob : User :=
  {| user_id := 42; user_username := Some (u "bob");
     user_first_name := Some (u "Bob"); user_last_name := None;
     user_photo := true |}.

Definition market : Chat :=
  {| chat_ident := 1001; chat_title := Some (u "market");
     chat_username := None |}.

(** A monitor just started with the keywords [buy] and [sell], the default
    filter settings, no record and an empty blacklist. *)
Definition two_keyword_bot : JTBot :=
  JTBot_init [u "buy"; u "sell"] FilterManager.defaults []
             BlacklistManager.empty.

Definition buy_and_sell : NewMessage :=
  {| ev_time := 0; ev_chat_id := -1001; ev_msg_id := 7;
     ev_text := Some (u "Buy and sell"); ev_sender := Some bob;
     ev_chat := Some market; ev_monitor_phone := u "+100";
     ev_alert_sent := fun _ => true |}.

(** The same message when the alert for [sell] cannot be delivered. *)
Definition buy_and_sell_unsent : NewMessage :=
  {| ev_time := 0; ev_chat_id := -1001; ev_msg_id := 7;
     ev_text := Some (u "Buy and sell"); ev_sender := Some bob;
     ev_chat := Some market; ev_monitor_phone := u "+100";
     ev_alert_sent := fun k => bool_decide (k = u "buy") |}.

(** Entries of a log for the same sender and keyword lie at least [ttl]
    apart whenever fewer than [maxsize] entries come between them. *)
Definition spaced (maxsize : nat) (ttl : Z) (log : list (Z * Z * pystr))
  : Prop :=
  forall A B C t1 t2 uid k,
    log = A ++ (t1, uid, k) :: B ++ (t2, uid, k) :: C ->
    (length B < maxsize)%nat ->
    t1 + ttl <= t2.

(** Alerts for the same sender and keyword among the effects lie at
    least [ttl] apart whenever fewer than [maxsize] cooldown entries were
    written between them. *)
Definition alerts_spaced (maxsize : nat) (ttl : Z) (effects : list Effect)
  : Prop :=
  forall E1 E2 E3 uid k ev1 ev2,
    effects = E1 ++ SendAlert uid k ev1 :: E2 ++ SendAlert uid k ev2 :: E3 ->
    (length (cooldown_log E2) < maxsize)%nat ->
    ev_time ev1 + ttl <= ev_time ev2.

(** What the cooldown cache remembers of the entries written so far: an
    entry that is still in its window and has fewer than [maxsize]
    entries after it has its link in the cache, with at most that many
    links after it. *)
Definition cooldown_inv (log : list (Z * Z * pystr)) (c : TTLCache.t)
    (now : Z) : Prop :=
  cache_wf c
  /\ forall A B t uid k,
       log = A ++ (t, uid, k) :: B ->
       (length B < TTLCache.maxsize c)%nat ->
       now < t + TTLCache.ttl c ->
       held (cache_key uid k) (t + TTLCache.ttl c) (length B) c.

(** A second message of the same sender, one second later. *)
Definition buy_again : NewMessage :=
  {| ev_time := seconds 1; ev_chat_id := -1001; ev_msg_id := 8;
     ev_text := Some (u "buy"); ev_sender := Some bob;
     ev_chat := Some market; ev_monitor_phone := u "+100";
     ev_alert_sent := fun _ => true |}.

(** ** A burst of messages

    Message [i] of the burst comes from user [i], in the chat [market],
    with message id [i] and the text [buy]; the messages are 20
    milliseconds apart. *)

Definition flood_time (i : nat) : Z := 20000 * Z.of_nat i.

Definition flood_user (i : nat) : User :=
  {| user_id := Z.of_nat i; user_username := Some (u "a");
     user_first_name := None; user_last_name := None;
     user_photo := false |}.

Definition buy_message (time : Z) (msg_id sender : nat) : NewMessage :=
  {| ev_time := time; ev_chat_id := -1001; ev_msg_id := Z.of_nat msg_id;
     ev_text := Some (u "buy"); ev_sender := Some (flood_user sender);
     ev_chat := Some market; ev_monitor_phone := u "+100";
     ev_alert_sent := fun _ => true |}.

Definition flood_event (i : nat) : NewMessage :=
  buy_message (flood_time i) i i.

(** One message more than the caches have room for. *)
Definition burst : list NewMessage :=
  map flood_event (seq 0 (S cache_maxsize)).

(** Message 0 of the burst, seen again by another monitoring account 201
    seconds after it, one second after the end of the burst. *)
Definition first_again : NewMessage := buy_message (seconds 201) 0 0.

(** Another message of user 0 with the same keyword, one second after the
    end of the burst. *)
Definition first_sender_again : NewMessage :=
  buy_message (seconds 201) (S cache_maxsize) 0.

Definition cooldown_link (i : nat) : TTLCache.link :=
  TTLCache.Link (cache_key (Z.of_nat i) (u "buy")) (flood_time i)
                (flood_time i + seconds 300).

Definition processed_link (i : nat) : TTLCache.link :=
  TTLCache.Link (msg_key (-1001) (Z.of_nat i)) (flood_time i)
                (flood_time i + seconds 300).

(** The monitor after the first [n] messages of the burst. *)
Definition flooded (n : nat) (s : JTBot) : Prop :=
  keyword_manager s = [u "buy"; u "sell"]
  /\ filter_manager s = FilterManager.defaults
  /\ blacklist_manager s = BlacklistManager.empty
  /\ cooldown_cache s
     = TTLCache.Cache cache_maxsize (seconds 300)
         (drop (n - cache_maxsize) (map cooldown_link (seq 0 n)))
  /\ processed_messages s
     = TTLCache.Cache cache_maxsize (seconds 300)
         (drop (n - cache_maxsize) (map processed_link (seq 0 n))).

(** ** The gates of the handler, and what a run leaves behind *)

(** An alert for [keyword] and the user [uid], raised for the event [ev],
    has passed the gates of [handle_new_message] in the monitor [self]. *)
Definition gated `{PyText} (self : JTBot) (uid : Z) (keyword : pystr)
    (ev : NewMessage) : Prop :=
  exists sender,
    ev_sender ev = Some sender
    /\ user_id sender = uid
    /\ BlacklistManager.is_user_blocked (blacklist_manager self) uid = false
    /\ BlacklistManager.is_chat_blocked (blacklist_manager self)
         (from_option chat_ident 0 (ev_chat ev)) = false
    /\ Z.of_nat (length (or_empty (ev_text ev)))
       <= FilterManager.max_message_length (filter_manager self)
    /\ (FilterManager.check_user_filter (filter_manager self) sender).1
       = true
    /\ keyword ∈ keyword_manager self
    /\ contains (lower keyword) (lower (or_empty (ev_text ev))) = true.

(** [records[-10000:]] *)
Definition last_records (records : list RecordManager.record)
  : list RecordManager.record :=
  drop (length records - Z.to_nat 10000) records.

(** The cooldown cache is the one that [JTBot.__init__] and
    [receive_cooldown] create for the configured cooldown. *)
Definition cooldown_synced (self : JTBot) : Prop :=
  TTLCache.ttl (cooldown_cache self)
  = seconds (FilterManager.cooldown_minutes (filter_manager self) * 60)
  /\ TTLCache.maxsize (cooldown_cache self) = cache_maxsize.

(** ** The keyword handlers of the admin bot

    The handlers of the admin bot are modelled for messages and button
    presses of the admin; those of another user are dropped, or answered
    with a refusal, before anything is read or changed. *)

(** The separator of a batch of keywords. *)
Definition pipe : N := 124%N.

(** [sep.join(items)] *)
Fixpoint join (sep : pystr) (items : list pystr) : pystr :=
  match items with
  | [] => []
  | [x] => x
  | x :: rest => x ++ sep ++ join sep rest
  end.

Definition added_reply (added : nat) : pystr :=
  u "✅ 成功添加 " ++ str_of_Z (Z.of_nat added) ++ u " 个关键词".

Definition ignored_warning (ignored : nat) : pystr :=
  [10%N] ++ u "⚠️ " ++ str_of_Z (Z.of_nat ignored)
  ++ u " 个关键词因长度超过10字符被忽略".

(** [receive_keywords]: the keywords of the message are added, and the
    reply counts the ones added and, when there are any, the ones that
    were not.  Returns [(self.keyword_manager.keywords, response)]. *)
Definition receive_keywords (message_text : pystr)
    (self_keywords : list pystr) : list pystr * pystr :=
  let keywords := map strip (split pipe message_text) in
  let total := length keywords in
  let '(self_keywords, added) :=
    KeywordManager.add_keywords self_keywords keywords in
  let response := added_reply added in
  let response :=
    if (added <? total)%nat
    then response ++ ignored_warning (total - added)
    else response in
  (self_keywords, response).

(** The [for kw in keywords_to_delete] loop of [process_delete_keywords];
    [keywords] is the copy of the list taken before the loop, the state is
    [(self.keyword_manager.keywords, deleted, not_found)]. *)
Fixpoint delete_loop (keywords : list pystr)
    (keywords_to_delete : list pystr)
    (st : list pystr * list pystr * list pystr)
  : list pystr * list pystr * list pystr :=
  match keywords_to_delete with
  | [] => st
  | kw :: rest =>
      let '(self_keywords, deleted, not_found) := st in
      if bool_decide (kw ∈ keywords) then
        let '(self_keywords, removed) :=
          KeywordManager.remove_keyword self_keywords kw in
        delete_loop keywords rest
          (self_keywords, if removed then deleted ++ [kw] else deleted,
           not_found)
      else
        delete_loop keywords rest
          (self_keywords, deleted, not_found ++ [kw])
  end.

(** The keywords that [process_delete_keywords] reads from the message. *)
Definition keywords_to_delete (message_text : pystr) : list pystr :=
  map strip
    (filter (fun kw => strip kw <> []) (split pipe (strip message_text))).

Definition delete_result_text (deleted not_found : list pystr) : pystr :=
  let result_text :=
    match deleted with
    | [] => []
    | _ :: _ =>
        u "✅ 成功删除 " ++ str_of_Z (Z.of_nat (length deleted))
        ++ u " 个关键词: " ++ join (u ", ") deleted ++ [10%N]
    end in
  let result_text :=
    match not_found with
    | [] => result_text
    | _ :: _ =>
        result_text ++ u "❌ 以下关键词不存在: " ++ join (u ", ") not_found
    end in
  match result_text with
  | [] => u "❌ 未找到要删除的关键词"
  | _ :: _ => result_text
  end.

(** Returns [(self.keyword_manager.keywords, deleted, not_found,
    result_text)]. *)
Definition process_delete_keywords (message_text : pystr)
    (self_keywords : list pystr)
  : list pystr * list pystr * list pystr * pystr :=
  let '(self_keywords', deleted, not_found) :=
    delete_loop self_keywords (keywords_to_delete message_text)
                (self_keywords, [], []) in
  (self_keywords', deleted, not_found,
   delete_result_text deleted not_found).

(** ** Reading the record store *)

(** [l[start:]]: a negative [start] counts from the end of the list and
    stops at its beginning. *)
Definition slice_from {A} (start : Z) (l : list A) : list A :=
  if start <? 0
  then drop (Z.to_nat (Z.max 0 (Z.of_nat (length l) + start))) l
  else drop (Z.to_nat start) l.

(** [RecordManager.get_recent_records] and
    [DMRecordManager.get_recent_records]: [self.records[-limit:]]. *)
Definition get_recent_records {A} (records : list A) (limit : Z) : list A :=
  slice_from (- limit) records.

(** [RecordManager.filter_records].  The [time] entry of a record is the
    ISO string of the clock reading [r_time]; a record whose time does
    not parse is left out when a bound is given.  [keywords] filters only
    when it is a non-empty list. *)
Definition in_time_range `{PyClock} (start_time end_time : option Z)
    (record : RecordManager.record) : bool :=
  match fromisoformat (isoformat (RecordManager.r_time record)) with
  | None => false
  | Some record_time =>
      match start_time with
      | Some s => if record_time <? s then false
                  else match end_time with
                       | Some e => negb (e <? record_time)
                       | None => true
                       end
      | None => match end_time with
                | Some e => negb (e <? record_time)
                | None => true
                end
      end
  end.

Definition filter_records `{PyClock} (start_time end_time : option Z)
    (keywords : option (list pystr)) (records : list RecordManager.record)
  : list RecordManager.record :=
  let filtered := records in
  let filtered :=
    match start_time, end_time with
    | None, None => filtered
    | _, _ =>
        filter (fun record => in_time_range start_time end_time record = true)
               filtered
    end in
  match keywords with
  | Some ((_ :: _) as kws) =>
      filter (fun record => RecordManager.r_keyword record ∈ kws) filtered
  | _ => filtered
  end.

(** ** BlacklistManager: the lists and their lookup sets

    [self.users] and [self.chats] are lists of dictionaries with an id
    ([user_id] or [chat_id]), a label ([username] or [title]) and the time
    of blocking; [self._user_ids] and [self._chat_ids] are the sets that
    the handler looks up. *)

Module Blacklist.

Record entry := { entry_id : Z; label : pystr; blocked_at : pystr }.

Record t := {
  users : list entry;
  chats : list entry;
  sets : BlacklistManager.t
}.

(** [load_blacklist] on a file that holds [users] and [chats]: the sets
    are rebuilt from the lists. *)
Definition load_blacklist (users chats : list entry) : t :=
  {| users := users; chats := chats;
     sets :=
       {| BlacklistManager._user_ids := list_to_set (map entry_id users);
          BlacklistManager._chat_ids := list_to_set (map entry_id chats) |} |}.

(** [for i, e in enumerate(l): if e[id] == wanted: l.pop(i)]: the list
    without the first entry of the id, or [None] when there is none. *)
Fixpoint pop_first (wanted : Z) (l : list entry) : option (list entry) :=
  match l with
  | [] => None
  | e :: l' =>
      if entry_id e =? wanted then Some l'
      else match pop_first wanted l' with
           | Some l'' => Some (e :: l'')
           | None => None
           end
  end.

Definition add_user `{PyClock} (now : Z) (user_id : Z) (username : pystr)
    (self : t) : t * bool :=
  if bool_decide (user_id ∈ BlacklistManager._user_ids (sets self))
  then (self, false)
  else
    ({| users := users self
                 ++ [ {| entry_id := user_id; label := username;
                         blocked_at := isoformat now |} ];
        chats := chats self;
        sets :=
          {| BlacklistManager._user_ids :=
               BlacklistManager._user_ids (sets self) ∪ {[ user_id ]};
             BlacklistManager._chat_ids :=
               BlacklistManager._chat_ids (sets self) |} |},
     true).

Definition add_chat `{PyClock} (now : Z) (chat_id : Z) (title : pystr)
    (self : t) : t * bool :=
  if bool_decide (chat_id ∈ BlacklistManager._chat_ids (sets self))
  then (self, false)
  else
    ({| users := users self;
        chats := chats self
                 ++ [ {| entry_id := chat_id; label := title;
                         blocked_at := isoformat now |} ];
        sets :=
          {| BlacklistManager._user_ids :=
               BlacklistManager._user_ids (sets self);
             BlacklistManager._chat_ids :=
               BlacklistManager._chat_ids (sets self) ∪ {[ chat_id ]} |} |},
     true).

Definition remove_user (user_id : Z) (self : t) : t * bool :=
  match pop_first user_id (users self) with
  | Some users' =>
      ({| users := users'; chats := chats self;
          sets :=
            {| BlacklistManager._user_ids :=
                 BlacklistManager._user_ids (sets self) ∖ {[ user_id ]};
               BlacklistManager._chat_ids :=
                 BlacklistManager._chat_ids (sets self) |} |},
       true)
  | None => (self, false)
  end.

Definition remove_chat (chat_id : Z) (self : t) : t * bool :=
  match pop_first chat_id (chats self) with
  | Some chats' =>
      ({| users := users self; chats := chats';
          sets :=
            {| BlacklistManager._user_ids :=
                 BlacklistManager._user_ids (sets self);
               BlacklistManager._chat_ids :=
                 BlacklistManager._chat_ids (sets self) ∖ {[ chat_id ]} |} |},
       true)
  | None => (self, false)
  end.

Definition clear_users (self : t) : t :=
  {| users := []; chats := chats self;
     sets := {| BlacklistManager._user_ids := ∅;
                BlacklistManager._chat_ids :=
                  BlacklistManager._chat_ids (sets self) |} |}.

Definition clear_chats (self : t) : t :=
  {| users := users self; chats := [];
     sets := {| BlacklistManager._user_ids :=
                  BlacklistManager._user_ids (sets self);
                BlacklistManager._chat_ids := ∅ |} |}.

Definition is_user_blocked (self : t) (user_id : Z) : bool :=
  BlacklistManager.is_user_blocked (sets self) user_id.

Definition is_chat_blocked (self : t) (chat_id : Z) : bool :=
  BlacklistManager.is_chat_blocked (sets self) chat_id.

End Blacklist.

(** The lists and the sets of the blacklist agree, and no id is listed
    twice. *)
Definition blacklist_inv (self : Blacklist.t) : Prop :=
  BlacklistManager._user_ids (Blacklist.sets self)
  = list_to_set (map Blacklist.entry_id (Blacklist.users self))
  /\ BlacklistManager._chat_ids (Blacklist.sets self)
     = list_to_set (map Blacklist.entry_id (Blacklist.chats self))
  /\ NoDup (map Blacklist.entry_id (Blacklist.users self))
  /\ NoDup (map Blacklist.entry_id (Blacklist.chats self)).

(** The monitor with the lookup sets of a blacklist. *)
Definition with_blacklist (self : JTBot) (bl : Blacklist.t) : JTBot :=
  {| keyword_manager := keyword_manager self;
     filter_manager := filter_manager self;
     record_manager := record_manager self;
     blacklist_manager := Blacklist.sets bl;
     cooldown_cache := cooldown_cache self;
     processed_messages := processed_messages self;
     stats := stats self |}.

(** ** AccountManager: the monitoring accounts *)

Module AccountManager.

Record account := {
  phone : pystr;
  session_file : pystr;
  name : pystr;
  username : pystr;
  acc_user_id : Z;
  enabled : bool;
  added_at : pystr
}.

Record t := { accounts : list account; max_accounts : Z }.

Definition add_account `{PyClock} (now : Z) (p sf nm un : pystr) (uid : Z)
    (self : t) : t * bool :=
  if max_accounts self <=? Z.of_nat (length (accounts self))
  then (self, false)
  else if existsb (fun acc => str_eqb (phone acc) p) (accounts self)
  then (self, false)
  else
    ({| accounts :=
          accounts self
          ++ [ {| phone := p; session_file := sf; name := nm;
                  username := un; acc_user_id := uid; enabled := true;
                  added_at := isoformat now |} ];
        max_accounts := max_accounts self |},
     true).

(** [for i, acc in enumerate(self.accounts): if acc['phone'] == phone:
    self.accounts.pop(i)] *)
Fixpoint pop_phone (p : pystr) (l : list account) : option (list account) :=
  match l with
  | [] => None
  | acc :: l' =>
      if str_eqb (phone acc) p then Some l'
      else match pop_phone p l' with
           | Some l'' => Some (acc :: l'')
           | None => None
           end
  end.

Definition remove_account (p : pystr) (self : t) : t * bool :=
  match pop_phone p (accounts self) with
  | Some accounts' =>
      ({| accounts := accounts'; max_accounts := max_accounts self |}, true)
  | None => (self, false)
  end.

Fixpoint find_phone (p : pystr) (l : list account) : option account :=
  match l with
  | [] => None
  | acc :: l' => if str_eqb (phone acc) p then Some acc else find_phone p l'
  end.

Definition get_account (p : pystr) (self : t) : option account :=
  find_phone p (accounts self).

Fixpoint set_enabled (p : pystr) (b : bool) (l : list account)
  : list account :=
  match l with
  | [] => []
  | acc :: l' =>
      if str_eqb (phone acc) p then
        {| phone := phone acc; session_file := session_file acc;
           name := name acc; username := username acc;
           acc_user_id := acc_user_id acc; enabled := b;
           added_at := added_at acc |} :: l'
      else acc :: set_enabled p b l'
  end.

Definition update_account_status (p : pystr) (b : bool) (self : t) : t :=
  {| accounts := set_enabled p b (accounts self);
     max_accounts := max_accounts self |}.

End AccountManager.

(** The monitoring accounts are within the limit and no phone is
    registered twice. *)
Definition accounts_inv (self : AccountManager.t) : Prop :=
  Z.of_nat (length (AccountManager.accounts self))
  <= AccountManager.max_accounts self
  /\ NoDup (map AccountManager.phone (AccountManager.accounts self)).

(** ** DMAccountManager: removal *)

(** [DMAccountManager.remove_account]: returns
    [(self.accounts, removed)]. *)
Fixpoint remove_account (p : pystr) (accounts : list DMAccountManager.account)
  : list DMAccountManager.account * bool :=
  match accounts with
  | [] => ([], false)
  | acc :: rest =>
      if str_eqb (DMAccountManager.phone acc) p then (rest, true)
      else let '(rest', removed) := remove_account p rest in
           (acc :: rest', removed)
  end.

(** The phones of the pool. *)
Definition phones (accounts : list DMAccountManager.account) : list pystr :=
  map DMAccountManager.phone accounts.

(** ** The send-configuration handlers of the admin bot *)

(** [int(s)], with [None] for [ValueError]: an interface of the Python
    runtime, like [str.lower]. *)
Class PyInt := { int_ : pystr -> option Z }.

(** [int] on the decimal numerals that [str] writes; used to run the
    model. *)
Definition decimal_int : PyInt := {| int_ := parse_Z |}.

(** [parts = message.text.strip().split('|')], two parts wanted, each
    read with [int(part.strip())]. *)
Definition int_pair `{PyInt} (message_text : pystr) : option (Z * Z) :=
  match split pipe (strip message_text) with
  | [a; b] =>
      match int_ (strip a), int_ (strip b) with
      | Some x, Some y => Some (x, y)
      | _, _ => None
      end
  | _ => None
  end.

Definition set_delay (self : DMSettingsManager.settings) (lo hi : Z)
  : DMSettingsManager.settings :=
  {| DMSettingsManager.enabled := DMSettingsManager.enabled self;
     DMSettingsManager.delay_min := lo;
     DMSettingsManager.delay_max := hi;
     DMSettingsManager.daily_limit := DMSettingsManager.daily_limit self;
     DMSettingsManager.active_hours_start :=
       DMSettingsManager.active_hours_start self;
     DMSettingsManager.active_hours_end :=
       DMSettingsManager.active_hours_end self |}.

Definition set_daily_limit (self : DMSettingsManager.settings) (n : Z)
  : DMSettingsManager.settings :=
  {| DMSettingsManager.enabled := DMSettingsManager.enabled self;
     DMSettingsManager.delay_min := DMSettingsManager.delay_min self;
     DMSettingsManager.delay_max := DMSettingsManager.delay_max self;
     DMSettingsManager.daily_limit := n;
     DMSettingsManager.active_hours_start :=
       DMSettingsManager.active_hours_start self;
     DMSettingsManager.active_hours_end :=
       DMSettingsManager.active_hours_end self |}.

Definition set_active_hours (self : DMSettingsManager.settings)
    (start_hour end_hour : Z) : DMSettingsManager.settings :=
  {| DMSettingsManager.enabled := DMSettingsManager.enabled self;
     DMSettingsManager.delay_min := DMSettingsManager.delay_min self;
     DMSettingsManager.delay_max := DMSettingsManager.delay_max self;
     DMSettingsManager.daily_limit := DMSettingsManager.daily_limit self;
     DMSettingsManager.active_hours_start := start_hour;
     DMSettingsManager.active_hours_end := end_hour |}.

(** The three handlers return the settings and whether the input was
    accepted; an input that raises in the [try] block leaves the settings
    as they are. *)
Definition receive_delay_config `{PyInt} (message_text : pystr)
    (self : DMSettingsManager.settings)
  : DMSettingsManager.settings * bool :=
  match int_pair message_text with
  | Some (delay_min, delay_max) =>
      if (delay_min <? 10) || (600 <? delay_max) || (delay_max <=? delay_min)
      then (self, false)
      else (set_delay self delay_min delay_max, true)
  | None => (self, false)
  end.

Definition receive_daily_limit_config `{PyInt} (message_text : pystr)
    (self : DMSettingsManager.settings)
  : DMSettingsManager.settings * bool :=
  match int_ (strip message_text) with
  | Some daily_limit =>
      if (daily_limit <? 1) || (200 <? daily_limit)
      then (self, false)
      else (set_daily_limit self daily_limit, true)
  | None => (self, false)
  end.

Definition receive_active_hours_config `{PyInt} (message_text : pystr)
    (self : DMSettingsManager.settings)
  : DMSettingsManager.settings * bool :=
  match int_pair message_text with
  | Some (start_hour, end_hour) =>
      if (start_hour <? 0) || (23 <? start_hour) || (end_hour <? 0)
         || (23 <? end_hour)
      then (self, false)
      else if end_hour <=? start_hour then (self, false)
      else (set_active_hours self start_hour end_hour, true)
  | None => (self, false)
  end.

(** The ranges that the handlers accept. *)
Definition settings_ok (self : DMSettingsManager.settings) : Prop :=
  10 <= DMSettingsManager.delay_min self
  /\ DMSettingsManager.delay_min self < DMSettingsManager.delay_max self
  /\ DMSettingsManager.delay_max self <= 600
  /\ 1 <= DMSettingsManager.daily_limit self <= 200
  /\ 0 <= DMSettingsManager.active_hours_start self
  /\ DMSettingsManager.active_hours_start self
     < DMSettingsManager.active_hours_end self
  /\ DMSettingsManager.active_hours_end self <= 23.

(** ** The dispatch, split at its sleep

    [_auto_send_dm] awaits nothing before [asyncio.sleep(delay)]: the
    checks, the choice of the account and of the template and the draw of
    the delay run without interruption.  What follows the sleep sends the
    message and records the outcome. *)

Record DmPlan := {
  plan_phone : pystr;
  plan_template : DMTemplateManager.template;
  plan_delay : Z
}.

Definition _auto_send_dm_checks `{PyClock} (env : DispatchEnv)
    (sender : User) (self : DMState) : M (DMState * option DmPlan) :=
  if negb (DMSettingsManager.enabled (dm_settings_manager self))
  then ret (self, None)
  else if negb (truthy (user_username sender)) then ret (self, None)
  else if DMRecordManager.is_user_sent (env_now env) (user_id sender) 24
                                       (sent_users self)
  then ret (self, None)
  else if negb (DMSettingsManager.is_active_hour (dm_settings_manager self)
                                                 (env_hour env))
  then ret (self, None)
  else
    let '(available_accounts, accounts) :=
      DMAccountManager.get_available_accounts
        (env_today env)
        (DMSettingsManager.daily_limit (dm_settings_manager self))
        (dm_account_manager self) in
    let self := with_accounts self accounts in
    match available_accounts with
    | [] => ret (self, None)
    | acc0 :: _ =>
        dm_account <- choice acc0 available_accounts ;;
        let dm_phone := DMAccountManager.phone dm_account in
        if negb (env_connected env dm_phone) then ret (self, None)
        else
          template <- DMTemplateManager.get_random_template
                        (dm_template_manager self) ;;
          match template with
          | None => ret (self, None)
          | Some template =>
              delay <- randint
                         (DMSettingsManager.delay_min (dm_settings_manager self))
                         (DMSettingsManager.delay_max (dm_settings_manager self)) ;;
              match delay with
              | None => ret (self, None)
              | Some delay =>
                  ret (self, Some {| plan_phone := dm_phone;
                                     plan_template := template;
                                     plan_delay := delay |})
              end
          end
    end.

Definition _auto_send_dm_after_sleep `{PyClock} (env : DispatchEnv)
    (sender : User) (plan : option DmPlan) (self : DMState)
  : DMState * list DmEffect :=
  match plan with
  | None => (self, [])
  | Some plan =>
      if negb (env_connected_after_delay env) && negb (env_reconnected env)
      then (self, [Sleep (plan_delay plan)])
      else
        let '(self, effects) :=
          send_and_record env sender (plan_phone plan) (plan_template plan)
                          self in
        (self, Sleep (plan_delay plan) :: effects)
  end.

(** Two tasks for the same sender, as the event loop runs them when the
    second is created while the first is asleep: the checks of the first,
    the checks of the second, then what follows the sleep of the first
    and of the second. *)
Definition two_tasks `{PyClock} (env1 env2 : DispatchEnv) (sender : User)
    (self : DMState) : M (DMState * list DmEffect) :=
  r1 <- _auto_send_dm_checks env1 sender self ;;
  r2 <- _auto_send_dm_checks env2 sender r1.1 ;;
  let '(self, e1) := _auto_send_dm_after_sleep env1 sender r1.2 r2.1 in
  let '(self, e2) := _auto_send_dm_after_sleep env2 sender r2.2 self in
  ret (self, e1 ++ e2).

(** One task after the other. *)
Definition one_by_one `{PyClock} (env1 env2 : DispatchEnv) (sender : User)
    (self : DMState) : M (DMState * list DmEffect) :=
  r1 <- _auto_send_dm env1 sender self ;;
  r2 <- _auto_send_dm env2 sender r1.1 ;;
  ret (r2.1, r1.2 ++ r2.2).

(** Any number of tasks, each run to its end before the next. *)
Fixpoint run_dispatches `{PyClock} (dispatches : list (DispatchEnv * User))
    (self : DMState) : M (DMState * list DmEffect) :=
  match dispatches with
  | [] => ret (self, [])
  | (env, sender) :: rest =>
      r1 <- _auto_send_dm env sender self ;;
      r2 <- run_dispatches rest r1.1 ;;
      ret (r2.1, r1.2 ++ r2.2)
  end.

(** [dm_clear_sent_users]: the admin empties the sent registry. *)
Definition dm_clear_sent_users (self : DMState) : DMState :=
  {| dm_settings_manager := dm_settings_manager self;
     dm_account_manager := dm_account_manager self;
     dm_template_manager := dm_template_manager self;
     sent_users := DMRecordManager.clear_sent_users (sent_users self);
     dm_records := dm_records self |}.

(** The send attempts among the effects of the dispatch. *)
Definition attempt_of (e : DmEffect)
  : option (pystr * User * DMTemplateManager.template) :=
  match e with
  | SendAttempt dm_phone user template => Some (dm_phone, user, template)
  | _ => None
  end.

Definition attempts (effects : list DmEffect)
  : list (pystr * User * DMTemplateManager.template) :=
  omap attempt_of effects.

(** A pool with one active account and one text template, nobody written
    to yet; a dispatch environment at noon with every client connected
    and a transport that delivers; a generator that always draws 0. *)
Definition active_account : DMAccountManager.account :=
  DMAccountManager.set_status stale_banned_account (u "active") true (u "0").

Definition hello_template : DMTemplateManager.template :=
  {| DMTemplateManager.id := 1;
     DMTemplateManager.type := u "text";
     DMTemplateManager.tpl_content :=
       {| DMTemplateManager.text := u "{Hi|Hello}";
          DMTemplateManager.use_emoji := None;
          DMTemplateManager.use_timestamp := None;
          DMTemplateManager.use_synonym := None |};
     DMTemplateManager.created_at := u "0" |}.

Definition one_account_pool : DMState :=
  {| dm_settings_manager := DMSettingsManager.defaults;
     dm_account_manager := [active_account];
     dm_template_manager := [hello_template];
     sent_users := ∅;
     dm_records := [] |}.

Definition noon : DispatchEnv :=
  {| env_now := 0; env_hour := 12; env_today := u "2024-01-02";
     env_connected := fun _ => true;
     env_connected_after_delay := true;
     env_reconnected := true;
     env_send_ok := true;
     env_now_sent := seconds 60;
     env_today_sent := u "2024-01-02" |}.

Definition zero_rng : Rng := {| draws := fun _ => O; pos := O |}.

(** The same surroundings an hour after [noon]. *)
Definition an_hour_later : DispatchEnv :=
  {| env_now := hours 1; env_hour := 13; env_today := u "2024-01-02";
     env_connected := fun _ => true;
     env_connected_after_delay := true;
     env_reconnected := true;
     env_send_ok := true;
     env_now_sent := hours 1 + seconds 60;
     env_today_sent := u "2024-01-02" |}.

(** ** The paged lists of the admin bot *)

(** An index of a slice, as Python normalises it for a list of length
    [len]. *)
Definition slice_index (len i : Z) : Z :=
  if i <? 0 then Z.max 0 (len + i) else Z.min i len.

(** [l[a:b]] *)
Definition slice {A} (a b : Z) (l : list A) : list A :=
  let len := Z.of_nat (length l) in
  drop (Z.to_nat (slice_index len a)) (take (Z.to_nat (slice_index len b)) l).

(** The navigation row of [Keyboards.blacklist_users_list] and of
    [Keyboards.dm_accounts_list_buttons]: the pages that the buttons
    "previous" and "next" ask for.  The button in the middle asks for no
    page. *)
Definition nav_buttons (page total_pages : Z) : list Z :=
  if 1 <? total_pages then
    (if 1 <? page then [page - 1] else [])
    ++ (if page <? total_pages then [page + 1] else [])
  else [].

Record page_view (A : Type) := {
  view_page : Z;
  view_total_pages : Z;
  view_items : list A;
  view_nav : list Z
}.
Arguments view_page {A} _.
Arguments view_total_pages {A} _.
Arguments view_items {A} _.
Arguments view_nav {A} _.

(** The page computed by [show_blacklist_users_page] and by
    [show_dm_accounts_page]; [None] stands for the message that tells
    that the list is empty. *)
Definition show_page {A} (items : list A) (page : Z) : option (page_view A) :=
  let total := Z.of_nat (length items) in
  if total =? 0 then None
  else
    let per_page := 20 in
    let total_pages := (total + per_page - 1) / per_page in
    let page := Z.max 1 (Z.min page total_pages) in
    let start_idx := (page - 1) * per_page in
    let end_idx := Z.min (start_idx + per_page) total in
    Some {| view_page := page;
            view_total_pages := total_pages;
            view_items := slice start_idx end_idx items;
            view_nav := nav_buttons page total_pages |}.

Definition show_blacklist_users_page (users : list Blacklist.entry)
    (page : Z) : option (page_view Blacklist.entry) :=
  show_page users page.

Definition show_dm_accounts_page (accounts : list DMAccountManager.account)
    (page : Z) : option (page_view DMAccountManager.account) :=
  show_page accounts page.

(** The items of a page, and nothing for the empty list. *)
Definition page_items {A} (items : list A) (page : Z) : list A :=
  match show_page items page with
  | Some v => view_items v
  | None => []
  end.

(** ** The buttons of the accounts, and the phone behind a button *)

(** [hash(s)] for a string: an interface of the Python runtime. *)
Class PyHash := { hash : pystr -> Z }.

(** [abs(hash(phone)) % 100000], the number that
    [Keyboards.account_detail] and [Keyboards.accounts_list_buttons] put
    into the callback data of the buttons of an account. *)
Definition phone_hash `{PyHash} (p : pystr) : Z := Z.abs (hash p) mod 100000.

(** [_update_phone_hash_map] and [_update_dm_phone_hash_map], from the
    phones of the accounts in the order of the list. *)
Definition _update_phone_hash_map `{PyHash} (account_phones : list pystr)
  : gmap Z pystr :=
  foldl (fun m p => <[phone_hash p := p]> m) ∅ account_phones.

Definition _get_phone_by_hash (phone_hash_map : gmap Z pystr) (h : Z)
  : option pystr :=
  phone_hash_map !! h.


(** ** The buttons under an alert *)

Inductive button :=
  | UrlButton (url : pystr)
  | CallbackButton (callback_data : pystr).

(** [Keyboards.message_action_buttons]: the keyboard, row by row. *)
Definition message_action_buttons (chat_id msg_id user_id : Z)
    (username chat_username : option pystr) : list (list button) :=
  let dm_button :=
    if truthy username
    then UrlButton (u "https://t.me/" ++ or_empty username)
    else CallbackButton (u "dm_nousername_" ++ str_of_Z user_id) in
  let msg_button :=
    if truthy chat_username
    then UrlButton (u "https://t.me/" ++ or_empty chat_username ++ u "/"
                    ++ str_of_Z msg_id)
    else CallbackButton (u "msg_link_" ++ str_of_Z chat_id ++ u "_"
                         ++ str_of_Z msg_id) in
  [ [ msg_button; dm_button ];
    [ CallbackButton (u "block_user_" ++ str_of_Z user_id);
      CallbackButton (u "block_chat_" ++ str_of_Z chat_id) ] ].

Definition underscore : N := 95%N.

(** [msg_link], for a press by the administrator: the text of the answer
    to a press of the message button; where [int] raises, the answer of
    the [except] branch. *)
Definition msg_link `{PyInt} (callback_data : pystr) : pystr :=
  let parts := split underscore (replace (u "msg_link_") [] callback_data) in
  match parts with
  | p0 :: p1 :: _ =>
      match int_ p0, int_ p1 with
      | Some chat_id, Some msg_id =>
          let link :=
            if chat_id <? 0 then
              let chat_id_str := str_of_Z chat_id in
              if startswith (u "-100") chat_id_str
              then u "https://t.me/c/" ++ drop 4 chat_id_str ++ u "/"
                   ++ str_of_Z msg_id
              else u "私有群组，无法生成链接"
            else u "私有群组，无法生成链接" in
          u "📎 消息链接:" ++ [10%N] ++ link
      | _, _ => u "❌ 数据格式错误"
      end
  | _ => u "❌ 无效的消息数据"
  end.

(** [block_user] and [block_chat], for a press by the administrator:
    the blacklist after the press and the text of the answer. *)
Definition block_user `{PyInt} `{PyClock} (now : Z) (callback_data : pystr)
    (self : Blacklist.t) : Blacklist.t * pystr :=
  match int_ (replace (u "block_user_") [] callback_data) with
  | Some user_id =>
      let '(self, added) := Blacklist.add_user now user_id [] self in
      (self, if added then u "✅ 已将用户加入黑名单"
             else u "⚠️ 用户已在黑名单中")
  | None => (self, u "❌ 屏蔽失败")
  end.

Definition block_chat `{PyInt} `{PyClock} (now : Z) (callback_data : pystr)
    (self : Blacklist.t) : Blacklist.t * pystr :=
  match int_ (replace (u "block_chat_") [] callback_data) with
  | Some chat_id =>
      let '(self, added) := Blacklist.add_chat now chat_id [] self in
      (self, if added then u "✅ 已将群组加入黑名单"
             else u "⚠️ 群组已在黑名单中")
  | None => (self, u "❌ 屏蔽失败")
  end.

(** A character of a decimal numeral: a digit or the minus sign. *)
Definition numeral_char (c : N) : Prop := (48 <= c <= 57)%N \/ c = 45%N.

(** ** Proxy lines *)

Definition colon : N := 58%N.
Definition at_sign : N := 64%N.

(** [s.split(sep, 1)] for a one-character separator: the text before
    the first separator and the text after it, or the text alone. *)
Fixpoint split1_go (sep : N) (cur : pystr) (s : pystr) : list pystr :=
  match s with
  | [] => [reverse cur]
  | c :: s' =>
      if (c =? sep)%N then [reverse cur; s']
      else split1_go sep (c :: cur) s'
  end.

Definition split1 (sep : N) (s : pystr) : list pystr := split1_go sep [] s.

(** [s.rsplit(sep, 1)]: the same from the right. *)
Definition rsplit1 (sep : N) (s : pystr) : list pystr :=
  match split1 sep (reverse s) with
  | [b; a] => [reverse a; reverse b]
  | _ => [s]
  end.

Module ProxyParser.

(** [socks.SOCKS5] and [socks.HTTP]. *)
Inductive socks_type := SOCKS5 | HTTP.

(** The dictionary that [parse_proxy] returns. *)
Record proxy := {
  proxy_type : socks_type;
  addr : option pystr;
  port : option Z;
  username : option pystr;
  password : option pystr;
  rdns : bool
}.

(** What [parse_proxy] reads of [urlparse(proxy_str)]; reading [port]
    raises [ValueError] for a port that is no number in range, which is
    [None] here. *)
Record ParseResult := {
  scheme : pystr;
  hostname : option pystr;
  parsed_port : option (option Z);
  parsed_username : option pystr;
  parsed_password : option pystr
}.

(** [urlparse], with [None] for [ValueError]: an interface of the Python
    library. *)
Class PyUrl := { urlparse : pystr -> option ParseResult }.

(** A [urlparse] that reads nothing; used to run the model on lines
    without a scheme. *)
Definition no_urls : PyUrl := {| urlparse := fun _ => None |}.

Definition socks5_proxy (host : pystr) (port_number : Z)
    (user pass : option pystr) : proxy :=
  {| proxy_type := SOCKS5; addr := Some host; port := Some port_number;
     username := user; password := pass; rdns := true |}.

(** [parse_proxy]; whatever is raised on the way is caught and gives
    [None]. *)
Definition parse_proxy `{PyInt} `{PyUrl} (proxy_str : pystr)
  : option proxy :=
  let proxy_str := strip proxy_str in
  if bool_decide (proxy_str = []) || startswith (u "#") proxy_str then None
  else if contains (u "://") proxy_str then
    match urlparse proxy_str with
    | None => None
    | Some parsed =>
        let proxy_type :=
          replace (u "socks5h") (u "socks5") (scheme parsed) in
        if negb (bool_decide
                   (proxy_type ∈ [u "socks5"; u "http"; u "https"]))
        then None
        else
          let proxy_type_code :=
            if str_eqb proxy_type (u "socks5") then SOCKS5 else HTTP in
          match parsed_port parsed with
          | None => None
          | Some port_number =>
              Some {| proxy_type := proxy_type_code;
                      addr := hostname parsed;
                      port := port_number;
                      username := parsed_username parsed;
                      password := parsed_password parsed;
                      rdns := true |}
          end
    end
  else if contains (u "@") proxy_str then
    match split1 at_sign proxy_str with
    | [auth; address] =>
        match split1 colon auth with
        | [user; pass] =>
            match rsplit1 colon address with
            | [host; port_text] =>
                match int_ port_text with
                | Some port_number =>
                    Some (socks5_proxy host port_number
                                       (Some user) (Some pass))
                | None => None
                end
            | _ => None
            end
        | _ => None
        end
    | _ => None
    end
  else
    match split colon proxy_str with
    | [host; port_text; user; pass] =>
        match int_ port_text with
        | Some port_number =>
            Some (socks5_proxy host port_number (Some user) (Some pass))
        | None => None
        end
    | [host; port_text] =>
        match int_ port_text with
        | Some port_number => Some (socks5_proxy host port_number None None)
        | None => None
        end
    | _ => None
    end.

(** [load_proxy_from_file], on the lines of the file; [None] for the
    lines when there is no file. *)
Fixpoint first_proxy `{PyInt} `{PyUrl} (lines : list pystr)
  : option proxy :=
  match lines with
  | [] => None
  | line :: rest =>
      match parse_proxy line with
      | Some proxy => Some proxy
      | None => first_proxy rest
      end
  end.

Definition load_proxy_from_file `{PyInt} `{PyUrl}
    (file : option (list pystr)) : option proxy :=
  match file with
  | None => None
  | Some lines => first_proxy lines
  end.

End ProxyParser.

(** A character that is no white space and none of [:], [@], [/] and
    [#]. *)
Definition plain (c : N) : bool :=
  negb (isspace c) && negb (bool_decide (c ∈ [colon; at_sign; 47%N; 35%N])).

(** A line that [parse_proxy] skips: blank, or a comment. *)
Definition skipped_line (line : pystr) : bool :=
  bool_decide (strip line = []) || startswith (u "#") (strip line).

(** A character of a line without white space, [/] and [#]. *)
Definition lineish (c : N) : Prop :=
  isspace c = false /\ c <> 47%N /\ c <> 35%N.

(** ** The export of the user list *)

(** The loop of [export_user_list] over the records: [users], the
    dictionary from user id to the user name kept for it, in the order
    of insertion. *)
Fixpoint export_users_loop (users : list (Z * pystr))
    (records : list RecordManager.record) : list (Z * pystr) :=
  match records with
  | [] => users
  | record :: rest =>
      let user_id := RecordManager.r_user_id record in
      if bool_decide (user_id ∈ users.*1)
      then export_users_loop users rest
      else export_users_loop
             (users ++ [(user_id, RecordManager.r_username record)]) rest
  end.

Definition export_users (records : list RecordManager.record)
  : list (Z * pystr) :=
  export_users_loop [] records.

(** [f"{username},{user_id}\n"], with [username or '无']. *)
Definition user_line (entry : Z * pystr) : pystr :=
  (match entry.2 with [] => u "无" | _ :: _ => entry.2 end)
  ++ u "," ++ str_of_Z entry.1 ++ [10%N].

Definition export_user_list (records : list RecordManager.record) : pystr :=
  foldl (fun output entry => output ++ user_line entry)
        (u "用户名,用户ID" ++ [10%N]) (export_users records).

(** The user id and the user name of a record. *)
Definition user_of (r : RecordManager.record) : Z * pystr :=
  (RecordManager.r_user_id r, RecordManager.r_username r).

(** ** DMStickerManager: a sticker that was not sent yet *)

(** [x[i], x[j] = x[j], x[i]] *)
Definition swap {A} (i j : nat) (x : list A) : list A :=
  match x !! i, x !! j with
  | Some a, Some b => <[j := a]> (<[i := b]> x)
  | _, _ => x
  end.

(** [random.shuffle(x)]: [for i in reversed(range(1, len(x)))], with
    [j = randbelow(i + 1)]. *)
Fixpoint shuffle_loop {A} (i : nat) (x : list A) : M (list A) :=
  match i with
  | O => ret x
  | S i' =>
      n <- draw ;;
      shuffle_loop i' (swap i (n mod (i + 1))%nat x)
  end.

Definition shuffle {A} (x : list A) : M (list A) :=
  shuffle_loop (length x - 1) x.

Module DMStickerManager.

(** A document of a sticker set; the method reads its [id]. *)
Record document := { id : Z; access_hash : Z }.

Record t := {
  sticker_sets : list pystr;
  used_sticker_ids : gset Z;
  sticker_cache : gmap pystr (list document)
}.

(** The answer of the client to [GetStickerSetRequest] for a short name:
    the documents of the set, or [None] where the request raises. *)
Definition Client := pystr -> option (list document).

Definition set_cache (self : t) (set_name : pystr)
    (sticker_set : list document) : t :=
  {| sticker_sets := sticker_sets self;
     used_sticker_ids := used_sticker_ids self;
     sticker_cache := <[set_name := sticker_set]> (sticker_cache self) |}.

Definition set_used (self : t) (used : gset Z) : t :=
  {| sticker_sets := sticker_sets self;
     used_sticker_ids := used;
     sticker_cache := sticker_cache self |}.

(** [get_sticker_set] *)
Definition get_sticker_set (client : Client) (set_name : pystr) (self : t)
  : t * option (list document) :=
  match sticker_cache self !! set_name with
  | None =>
      match client set_name with
      | Some sticker_set =>
          let self := set_cache self set_name sticker_set in
          (self, sticker_cache self !! set_name)
      | None => (self, None)
      end
  | Some _ => (self, sticker_cache self !! set_name)
  end.

(** The loop of [get_random_sticker] over the shuffled sets. *)
Fixpoint pick_sticker (client : Client) (shuffled_sets : list pystr)
    (self : t) : M (t * option document) :=
  match shuffled_sets with
  | [] => ret (self, None)
  | set_name :: rest =>
      let '(self, sticker_set) := get_sticker_set client set_name self in
      match sticker_set with
      | None => pick_sticker client rest self
      | Some documents =>
          let available :=
            filter (fun s => id s ∉ used_sticker_ids self) documents in
          match available with
          | [] => pick_sticker client rest self
          | first :: _ =>
              sticker <- choice first available ;;
              ret (set_used self (used_sticker_ids self ∪ {[ id sticker ]}),
                   Some sticker)
          end
      end
  end.

(** [get_random_sticker]; [fuel] bounds the depth of the recursion, and
    [None] is the call that has not returned within it. *)
Fixpoint get_random_sticker (fuel : nat) (client : Client) (self : t)
  : M (option (t * option document)) :=
  match fuel with
  | O => ret None
  | S fuel =>
      match sticker_sets self with
      | [] => ret (Some (self, None))
      | _ :: _ =>
          shuffled_sets <- shuffle (sticker_sets self) ;;
          picked <- pick_sticker client shuffled_sets self ;;
          match picked.2 with
          | Some sticker => ret (Some (picked.1, Some sticker))
          | None => get_random_sticker fuel client (set_used picked.1 ∅)
          end
      end
  end.

(** The documents of a set as [get_sticker_set] answers them: from the
    cache, and from the client for a set that is not cached. *)
Definition documents_of (client : Client) (self : t) (set_name : pystr)
  : option (list document) :=
  match sticker_cache self !! set_name with
  | Some sticker_set => Some sticker_set
  | None => client set_name
  end.

(** A sticker of one of the configured sets. *)
Definition in_stock (client : Client) (self : t) (sticker : document)
  : Prop :=
  exists set_name documents,
    set_name ∈ sticker_sets self
    /\ documents_of client self set_name = Some documents
    /\ sticker ∈ documents.

End DMStickerManager.

(** * Properties *)

(** ** Strings *)

Lemma startswith_spec (p s : pystr) :
  startswith p s = true <-> exists t, s = p ++ t.
Proof.
  revert s; induction p as [|a p IH]; intros s; simpl.
  - split; [intros _; by exists s | done].
  - destruct s as [|b s]; simpl.
    + split; [done | intros [t Ht]; discriminate].
    + rewrite andb_true_iff, N.eqb_eq, IH. split.
      * intros [-> [t ->]]. by exists t.
      * intros [t Ht]. injection Ht as -> ->. split; [done | by exists t].
Qed.

Lemma contains_spec (p s : pystr) :
  contains p s = true <-> exists a b, s = a ++ p ++ b.
Proof.
  induction s as [|c s IH]; simpl.
  - rewrite orb_false_r, startswith_spec. split.
    + intros [t Ht]. by exists [], t.
    + intros [a [b Hab]]. destruct a; [by exists b | discriminate].
  - rewrite orb_true_iff, startswith_spec, IH. split.
    + intros [[t Ht] | [a [b Hab]]].
      * by exists [], t.
      * exists (c :: a), b. by rewrite Hab.
    + intros [a [b Hab]]. destruct a as [|c' a].
      * left. by exists b.
      * right. injection Hab as -> ->. by exists a, b.
Qed.

(** ** KeywordManager *)

Section Keywords.
Import KeywordManager.

Lemma add_keywords_app kws b1 b2 :
  add_keywords kws (b1 ++ b2)
  = foldl add_keywords_step (add_keywords kws b1) b2.
Proof. unfold add_keywords. by rewrite foldl_app. Qed.

Lemma add_keywords_step_cases st k :
  (add_keywords_step st k = st
   /\ ((10 < length (strip k))%nat \/ strip k = [] \/ strip k ∈ st.1))
  \/ (add_keywords_step st k = (st.1 ++ [strip k], S st.2)
      /\ short (strip k) /\ strip k <> [] /\ strip k ∉ st.1).
Proof.
  unfold add_keywords_step, short, str_eqb.
  destruct (10 <? length (strip k))%nat eqn:Hlen.
  - apply Nat.ltb_lt in Hlen. left. split; [done | by left].
  - apply Nat.ltb_ge in Hlen.
    case_bool_decide as He; simpl.
    + left. split; [done | right; by left].
    + case_bool_decide as Hin; simpl.
      * left. split; [done | right; by right].
      * right. done.
Qed.

Lemma add_keywords_step_skip st k :
  (10 < length (strip k))%nat \/ strip k = [] \/ strip k ∈ st.1 ->
  add_keywords_step st k = st.
Proof.
  intros H. destruct (add_keywords_step_cases st k) as [[He _] | [_ (Hs & Hn & Hi)]];
    [done |].
  unfold short in Hs. destruct H as [H | [H | H]]; [lia | done | done].
Qed.

(** What a batch preserves and establishes, by induction on the batch
    from its end. *)
Lemma add_keywords_inv kws batch :
  let r := add_keywords kws batch in
  kws `prefix_of` r.1
  /\ length r.1 = (length kws + r.2)%nat
  /\ (NoDup kws -> NoDup r.1)
  /\ (forall k', k' ∈ r.1 ->
        k' ∈ kws
        \/ exists k, k ∈ batch /\ k' = strip k /\ k' <> [] /\ short k').
Proof.
  induction batch as [|k batch IH] using rev_ind; cbv zeta.
  - unfold add_keywords; simpl.
    split; [done |]. split; [lia |]. split; [done |]. intros; by left.
  - rewrite add_keywords_app; simpl.
    destruct IH as (Hpre & Hlen & Hnd & Hnew).
    destruct (add_keywords_step_cases (add_keywords kws batch) k)
      as [[-> _] | [-> (Hs & Hn & Hi)]]; simpl.
    + split; [done |]. split; [done |]. split; [done |].
      intros k' Hk'. destruct (Hnew k' Hk') as [Hold | (k0 & Hk0 & Hrest)];
        [by left | right].
      exists k0. split; [apply elem_of_app; by left | done].
    + split; [by apply prefix_app_r |].
      split; [rewrite length_app; simpl; lia |].
      split.
      * intros Hkws. apply NoDup_app. split; [by apply Hnd |].
        split; [| apply NoDup_singleton].
        intros x Hx Hx'. apply list_elem_of_singleton in Hx'. by subst.
      * intros k' Hk'. apply elem_of_app in Hk' as [Hk' | Hk'].
        -- destruct (Hnew k' Hk') as [Hold | (k0 & Hk0 & Hrest)];
             [by left | right].
           exists k0. split; [apply elem_of_app; by left | done].
        -- apply list_elem_of_singleton in Hk' as ->. right.
           exists k. split; [apply elem_of_app; right; by left | done].
Qed.

Lemma add_keywords_short kws batch :
  Forall short kws -> Forall short (add_keywords kws batch).1.
Proof.
  intros Hkws. apply Forall_forall. intros k' Hk'.
  destruct (add_keywords_inv kws batch) as (_ & _ & _ & Hnew).
  destruct (Hnew k' Hk') as [Hold | (k0 & _ & _ & _ & Hs)]; [| done].
  by eapply Forall_forall in Hkws.
Qed.

Lemma add_keywords_drop kws pre k post :
  (10 < length (strip k))%nat \/ strip k = [] \/ strip k ∈ kws ->
  add_keywords kws (pre ++ k :: post) = add_keywords kws (pre ++ post).
Proof.
  intros H. rewrite !add_keywords_app; simpl.
  rewrite add_keywords_step_skip; [done |].
  destruct H as [H | [H | H]]; [by left | right; by left | right; right].
  destruct (add_keywords_inv kws pre) as ([t ->] & _). set_solver.
Qed.

(** C9.  A keyword of a batch that is longer than 10 characters once
    stripped, empty once stripped, or already in the set has no effect
    on the outcome of [add_keywords] (the batch gives what it gives
    without it; alone it leaves the set as it is and counts 0); a set
    with unique entries of at most 10 characters stays so; and the
    count returned is the number of entries by which the set grew. *)
Theorem add_keywords_rejects_and_counts (kws batch : list pystr) :
  let r := add_keywords kws batch in
  (forall pre k post,
      batch = pre ++ k :: post ->
      (10 < length (strip k))%nat \/ strip k = [] \/ strip k ∈ kws ->
      add_keywords kws (pre ++ post) = r)
  /\ (forall k,
        (10 < length (strip k))%nat \/ strip k = [] \/ strip k ∈ kws ->
        add_keywords kws [k] = (kws, O))
  /\ (NoDup kws -> Forall short kws -> NoDup r.1 /\ Forall short r.1)
  /\ kws `prefix_of` r.1
  /\ length r.1 = (length kws + r.2)%nat.
Proof.
  cbv zeta.
  destruct (add_keywords_inv kws batch) as (Hpre & Hlen & Hnd & Hnew).
  split; [| split; [| split; [| split]]]; try done.
  - intros pre k post -> H. symmetry. by apply add_keywords_drop.
  - intros k H. exact (add_keywords_drop kws [] k [] H).
  - intros Hkws Hs. split; [by apply Hnd | by apply add_keywords_short].
Qed.

Lemma add_keywords_rejects_and_counts_witness :
  add_keywords [u "buy"] [u "a keyword too long"] = ([u "buy"], O)
  /\ add_keywords [u "buy"] [u " sell "; u "a keyword too long"; u "buy"]
     = ([u "buy"; u "sell"], 1%nat)
  /\ NoDup (add_keywords [u "buy"] [u " sell "; u "buy"]).1.
Proof.
  split; [| split].
  - apply (add_keywords_rejects_and_counts [u "buy"] []).
    left. vm_compute. lia.
  - rewrite <- (proj1 (add_keywords_rejects_and_counts [u "buy"]
               [u " sell "; u "a keyword too long"; u "buy"])
               [u " sell "] (u "a keyword too long") [u "buy"]).
    + reflexivity.
    + reflexivity.
    + left. vm_compute. lia.
  - apply (add_keywords_rejects_and_counts [u "buy"] [u " sell "; u "buy"]).
    + apply NoDup_singleton.
    + apply Forall_singleton. unfold short. vm_compute. lia.
Defined.

End Keywords.

(** ** DMTemplateManager: identifiers *)

Section TemplateIds.
Import DMTemplateManager.
Context `{PyClock}.

Lemma add_template_ids now ty c templates :
  ids (add_template now ty c templates).1
  = ids templates ++ [Z.of_nat (length templates) + 1]
  /\ (add_template now ty c templates).2 = Z.of_nat (length templates) + 1.
Proof. unfold add_template, ids; simpl. by rewrite map_app. Qed.

(** While nothing is removed, the store holds the ids 1, 2, ..., n and the
    next template gets n + 1. *)
Lemma add_template_fresh_without_removal now ty c templates :
  ids templates = map (fun i => Z.of_nat i + 1) (seq 0 (length templates)) ->
  let r := add_template now ty c templates in
  ids r.1 = map (fun i => Z.of_nat i + 1) (seq 0 (length r.1))
  /\ Forall (fun i => i < r.2) (ids templates)
  /\ NoDup (ids r.1).
Proof.
  intros Hids. cbv zeta.
  destruct (add_template_ids now ty c templates) as [Hi Hr].
  assert (Hlen : length (add_template now ty c templates).1
                 = S (length templates)).
  { unfold add_template; simpl. rewrite length_app; simpl. lia. }
  assert (Hall : ids (add_template now ty c templates).1
                 = map (fun i => Z.of_nat i + 1)
                       (seq 0 (length (add_template now ty c templates).1))).
  { rewrite Hi, Hlen, seq_S, map_app, <- Hids. done. }
  split; [done |]. split.
  - rewrite Hr, Hids. apply Forall_forall. intros i Hi'.
    apply list_elem_of_fmap in Hi' as (j & -> & Hj).
    apply elem_of_seq in Hj. lia.
  - rewrite Hall. apply NoDup_fmap_2; [| apply NoDup_seq].
    intros i j Hij. lia.
Qed.

End TemplateIds.

(** C10 (the code departs from it).  After two additions, the removal of
    template 1 and one more addition, the store holds two templates with
    id 2: the id handed out is the length of the list plus one, which a
    removal makes fall back on an id still in use. *)
Theorem add_template_reuses_id :
  let c := {| DMTemplateManager.text := u "hi";
              DMTemplateManager.use_emoji := None;
              DMTemplateManager.use_timestamp := None;
              DMTemplateManager.use_synonym := None |} in
  let add := @DMTemplateManager.add_template decimal_clock 0 (u "text") c in
  let s1 := (add []).1 in
  let s2 := (add s1).1 in
  let s3 := (DMTemplateManager.remove_template 1 s2).1 in
  let s4 := add s3 in
  (add []).2 = 1 /\ (add s1).2 = 2 /\ s4.2 = 2
  /\ ids s4.1 = [2; 2] /\ ~ NoDup (ids s4.1).
Proof.
  cbv zeta. repeat split.
  intros Hnd. apply NoDup_cons in Hnd as [Hnot _].
  apply Hnot. vm_compute. by left.
Qed.

(** ** DMAccountManager: status and the derived flag *)

Section AccountStatus.
Import DMAccountManager.
Context `{PyClock}.

Lemma str_eqb_eq (p q : pystr) : str_eqb p q = true <-> p = q.
Proof. unfold str_eqb. apply bool_decide_eq_true. Qed.

Lemma set_status_coherent acc st now :
  coherent (set_status acc st (str_eqb st (u "active")) now).
Proof.
  unfold coherent; simpl. split.
  - intros [= Hb]. apply str_eqb_eq in Hb. by subst.
  - intros [= ->]. done.
Qed.

Lemma update_account_status_get now p st cs accounts :
  has_phone p accounts = true ->
  exists acc,
    get_account p accounts = Some acc
    /\ get_account p (update_account_status now p st cs accounts)
       = Some (set_status acc st
                 (match cs with
                  | Some b => b
                  | None => str_eqb st (u "active")
                  end)
                 (isoformat now)).
Proof.
  induction accounts as [|a accounts IH]; simpl; [done |].
  destruct (str_eqb (phone a) p) eqn:Hp; simpl.
  - intros _. exists a. by rewrite Hp.
  - intros Hhas. destruct (IH Hhas) as (acc & Hg & Hg'). exists acc.
    by rewrite Hp.
Qed.

Lemma update_account_status_absent now p st cs accounts :
  has_phone p accounts = false ->
  update_account_status now p st cs accounts = accounts.
Proof.
  induction accounts as [|a accounts IH]; simpl; [done |].
  destruct (str_eqb (phone a) p); simpl; [done |].
  intros Hhas. by rewrite IH.
Qed.

Lemma update_account_status_coherent now p st accounts :
  Forall coherent accounts ->
  Forall coherent (update_account_status now p st None accounts).
Proof.
  induction 1 as [|a accounts Ha Hrest IH]; simpl; [done |].
  destruct (str_eqb (phone a) p); constructor; try done.
  apply set_status_coherent.
Qed.

(** The two paths that recompute the flag.  After [update_account_status]
    without a can-send override the account of the phone has the new
    status, and its [can_send_dm] is true exactly when that status is
    ['active']; a pool in which every account has [can_send_dm] true iff
    its status is ['active'] stays so; and an account created by
    [add_account] (a phone not yet in the pool) is appended with
    [can_send_dm] computed from its status in the same way. *)
Lemma can_send_dm_recomputed_from_status now p st accounts :
  (has_phone p accounts = true ->
   exists acc,
     get_account p (update_account_status now p st None accounts) = Some acc
     /\ status acc = Some st
     /\ can_send_dm acc = Some (bool_decide (st = u "active"))
     /\ coherent acc)
  /\ (Forall coherent accounts ->
      Forall coherent (update_account_status now p st None accounts))
  /\ (forall sf nm un uid ct,
        has_phone p accounts = false ->
        exists acc,
          add_account now p sf nm un uid st ct accounts = accounts ++ [acc]
          /\ phone acc = p
          /\ status acc = Some st
          /\ can_send_dm acc = Some (bool_decide (st = u "active"))
          /\ coherent acc
          /\ (Forall coherent accounts ->
              Forall coherent
                (add_account now p sf nm un uid st ct accounts))).
Proof.
  split; [| split].
  - intros Hhas.
    destruct (update_account_status_get now p st None accounts Hhas)
      as (acc & _ & Hg).
    eexists. split; [exact Hg |]. simpl.
    split; [done |]. split; [done |]. apply set_status_coherent.
  - apply update_account_status_coherent.
  - intros sf nm un uid ct Hno. unfold add_account. rewrite Hno.
    eexists. split; [reflexivity |]. simpl.
    assert (Hc : coherent
      {| phone := p; session_file := sf; name := nm; username := un;
         acc_user_id := uid; status := Some st;
         can_send_dm := Some (str_eqb st (u "active"));
         connection_type := ct; daily_sent := Some 0;
         last_sent_date := None; added_at := isoformat now;
         updated_at := isoformat now |}).
    { unfold coherent; simpl. split.
      - intros [= Hb]. apply str_eqb_eq in Hb. by subst.
      - intros [= ->]. done. }
    repeat (split; [done |]).
    intros Hall. apply Forall_app. split; [done |]. by constructor.
Qed.

End AccountStatus.

Lemma can_send_dm_recomputed_from_status_witness :
  let acc := {| DMAccountManager.phone := u "+100";
                DMAccountManager.session_file := u "a.session";
                DMAccountManager.name := u "A";
                DMAccountManager.username := u "a";
                DMAccountManager.acc_user_id := 7;
                DMAccountManager.status := Some (u "active");
                DMAccountManager.can_send_dm := Some true;
                DMAccountManager.connection_type := u "local";
                DMAccountManager.daily_sent := Some 0;
                DMAccountManager.last_sent_date := None;
                DMAccountManager.added_at := u "0";
                DMAccountManager.updated_at := u "0" |} in
  Forall coherent
    (@DMAccountManager.update_account_status decimal_clock 5 (u "+100")
       (u "banned") None [acc])
  /\ exists acc',
       get_account (u "+100")
         (@DMAccountManager.update_account_status decimal_clock 5 (u "+100")
            (u "banned") None [acc]) = Some acc'
       /\ DMAccountManager.can_send_dm acc' = Some false.
Proof.
  cbv zeta.
  match goal with
  | |- Forall coherent (DMAccountManager.update_account_status _ _ _ _ ?l) /\ _ =>
      pose proof (@can_send_dm_recomputed_from_status decimal_clock 5
                    (u "+100") (u "banned") l) as (H1 & H2 & _)
  end.
  split.
  - apply H2. constructor; [| constructor]. unfold coherent; simpl. done.
  - destruct (H1 eq_refl) as (acc' & Hg & _ & Hc & _).
    exists acc'. split; [exact Hg | exact Hc].
Defined.

(** C3.  The branch of [add_account] that updates an account already in
    the pool is a status update without a can-send override, and it
    writes the status and leaves [can_send_dm] as it was.  A banned
    account, imported again once it is active, has status ['active'] and
    [can_send_dm] false afterwards: the flag is stale.  On the same pool
    [update_account_status] without override sets the flag to true, and
    [add_account] for a phone not in the pool creates the account with
    the flag true. *)
Theorem add_account_existing_keeps_flag :
  let imported :=
    @DMAccountManager.add_account decimal_clock 5 (u "+100") (u "a.session")
      (u "A") (u "a") 7 (u "active") (u "local") [stale_banned_account] in
  let updated :=
    @DMAccountManager.update_account_status decimal_clock 5 (u "+100")
      (u "active") None [stale_banned_account] in
  let created :=
    @DMAccountManager.add_account decimal_clock 5 (u "+100") (u "a.session")
      (u "A") (u "a") 7 (u "active") (u "local") [] in
  DMAccountManager.has_phone (u "+100") [stale_banned_account] = true
  /\ coherent stale_banned_account
  /\ (exists acc,
        imported = [acc]
        /\ DMAccountManager.status acc = Some (u "active")
        /\ DMAccountManager.can_send_dm acc = Some false
        /\ ~ coherent acc)
  /\ (exists acc,
        updated = [acc]
        /\ DMAccountManager.status acc = Some (u "active")
        /\ DMAccountManager.can_send_dm acc = Some true)
  /\ (exists acc,
        created = [acc]
        /\ DMAccountManager.status acc = Some (u "active")
        /\ DMAccountManager.can_send_dm acc = Some true).
Proof.
  cbv zeta. split; [reflexivity |]. split.
  { unfold coherent; simpl. split; discriminate. }
  split; [| split]; eexists; (split; [reflexivity |]); simpl.
  - split; [reflexivity |]. split; [reflexivity |].
    unfold coherent; simpl. intros [_ Hc].
    specialize (Hc eq_refl). discriminate.
  - split; reflexivity.
  - split; reflexivity.
Qed.

(** ** DMAccountManager: quota *)

Section Quota.
Import DMAccountManager.

Lemma passes_status_check_spec acc :
  passes_status_check acc = true
  <-> status acc = Some (u "active") /\ can_send_dm acc = Some true.
Proof.
  unfold passes_status_check.
  rewrite andb_true_iff, bool_decide_eq_true.
  destruct (can_send_dm acc) as [[|]|]; simpl; split; intros [H1 H2]; done.
Qed.

Lemma sent_on_refreshed today acc :
  default 0 (daily_sent (refreshed today acc)) = sent_on today acc.
Proof. unfold refreshed, sent_on. by destruct (is_today acc today). Qed.

Lemma refreshed_date today acc :
  last_sent_date (refreshed today acc) = Some today.
Proof.
  unfold refreshed, is_today. case_bool_decide as Hd; [done | reflexivity].
Qed.

Lemma get_available_accounts_spec today daily_limit accounts :
  get_available_accounts today daily_limit accounts
  = (map (inspected today)
         (List.filter (eligible today daily_limit) accounts),
     map (inspected today) accounts).
Proof.
  induction accounts as [|acc accounts IH]; simpl; [done |].
  rewrite IH, <- negb_andb. fold (passes_status_check acc).
  unfold eligible, inspected, sent_on, refreshed.
  destruct (passes_status_check acc) eqn:Hp; simpl; [| done].
  destruct (is_today acc today) eqn:Hd; simpl;
    destruct (_ <? daily_limit) eqn:Hl; simpl; by rewrite ?Hp, ?Hd.
Qed.

Lemma passes_status_check_refreshed today acc :
  passes_status_check (refreshed today acc) = passes_status_check acc.
Proof. unfold refreshed. by destruct (is_today acc today). Qed.

Lemma inspected_eligible today daily_limit acc :
  passes_status_check (inspected today acc)
  && (default 0 (daily_sent (inspected today acc)) <? daily_limit)
  = eligible today daily_limit acc.
Proof.
  unfold inspected, eligible.
  destruct (passes_status_check acc) eqn:Hp; simpl.
  - by rewrite sent_on_refreshed, passes_status_check_refreshed, Hp.
  - by rewrite Hp.
Qed.

Lemma increment_sent_count_get today p accounts :
  has_phone p accounts = true ->
  exists acc,
    get_account p accounts = Some acc
    /\ get_account p (increment_sent_count today p accounts)
       = Some (set_daily_sent (refreshed today acc) (sent_on today acc + 1)).
Proof.
  induction accounts as [|a accounts IH]; simpl; [done |].
  destruct (str_eqb (phone a) p) eqn:Hp; simpl.
  - intros _. exists a. split; [done |].
    fold (refreshed today a). rewrite sent_on_refreshed.
    assert (Hph : phone (refreshed today a) = phone a)
      by (unfold refreshed; by destruct (is_today a today)).
    simpl. by rewrite Hph, Hp.
  - intros Hhas. destruct (IH Hhas) as (acc & Hg & Hg'). exists acc.
    by rewrite Hp.
Qed.

(** C8, as the code has it.  [get_available_accounts] returns exactly the
    accounts whose status is ['active'], whose [can_send_dm] is true and
    whose count for today is below the limit.  The lazy reset (counter to
    0 and date to today when the stored date is another day) is made on
    every account that passes the status check, whether or not it is
    returned; an account that fails the check is left as it is.
    [increment_sent_count] makes the same reset on the account of the
    phone and then adds one to its counter. *)
Theorem get_available_accounts_resets_checked today daily_limit accounts :
  let r := get_available_accounts today daily_limit accounts in
  r.2 = map (inspected today) accounts
  /\ r.1 = List.filter
             (fun acc => passes_status_check acc
                         && (default 0 (daily_sent acc) <? daily_limit)) r.2
  /\ r.1 = map (inspected today)
              (List.filter (eligible today daily_limit) accounts)
  /\ (forall acc,
        passes_status_check acc = true ->
        last_sent_date (inspected today acc) = Some today
        /\ default 0 (daily_sent (inspected today acc)) = sent_on today acc
        /\ (last_sent_date acc <> Some today ->
            daily_sent (inspected today acc) = Some 0))
  /\ (forall acc,
        passes_status_check acc = false -> inspected today acc = acc)
  /\ (forall p,
        has_phone p accounts = true ->
        exists acc acc',
          get_account p accounts = Some acc
          /\ get_account p (increment_sent_count today p accounts) = Some acc'
          /\ last_sent_date acc' = Some today
          /\ daily_sent acc' = Some (sent_on today acc + 1)).
Proof.
  cbv zeta. rewrite get_available_accounts_spec; simpl.
  split; [done |]. split; [| split; [done |]].
  - rewrite List.filter_map_swap. f_equal.
    apply List.filter_ext. intros acc. symmetry.
    apply inspected_eligible.
  - split; [| split].
    + intros acc Hp. unfold inspected. rewrite Hp.
      split; [apply refreshed_date |]. split; [apply sent_on_refreshed |].
      intros Hd. unfold refreshed, is_today.
      by rewrite bool_decide_eq_false_2.
    + intros acc Hp. unfold inspected. by rewrite Hp.
    + intros p Hhas.
      destruct (increment_sent_count_get today p accounts Hhas)
        as (acc & Hg & Hg').
      exists acc. eexists. split; [done |]. split; [exact Hg' |]. simpl.
      split; [apply refreshed_date | done].
Qed.

End Quota.

(** An account that is not active is inspected and skipped before the
    reset: its counter and its date stay those of the earlier day. *)
Lemma lazy_reset_skips_inactive :
  let pool :=
    (DMAccountManager.get_available_accounts (u "2024-01-02") 50
       [stale_banned_account]).2 in
  pool = [stale_banned_account]
  /\ ~ (forall acc, acc ∈ pool ->
          DMAccountManager.last_sent_date acc = Some (u "2024-01-02")).
Proof.
  cbv zeta. split; [reflexivity |].
  intros Hall. specialize (Hall stale_banned_account).
  assert (Hin : stale_banned_account
                ∈ (DMAccountManager.get_available_accounts
                     (u "2024-01-02") 50 [stale_banned_account]).2)
    by (simpl; by left).
  apply Hall in Hin. vm_compute in Hin. discriminate Hin.
Qed.

Lemma get_available_accounts_resets_checked_witness :
  let acc :=
    {| DMAccountManager.phone := u "+100";
       DMAccountManager.session_file := u "a.session";
       DMAccountManager.name := u "A";
       DMAccountManager.username := u "a";
       DMAccountManager.acc_user_id := 7;
       DMAccountManager.status := Some (u "active");
       DMAccountManager.can_send_dm := Some true;
       DMAccountManager.connection_type := u "local";
       DMAccountManager.daily_sent := Some 5;
       DMAccountManager.last_sent_date := Some (u "2024-01-01");
       DMAccountManager.added_at := u "0";
       DMAccountManager.updated_at := u "0" |} in
  DMAccountManager.daily_sent (inspected (u "2024-01-02") acc) = Some 0
  /\ DMAccountManager.last_sent_date (inspected (u "2024-01-02") acc)
     = Some (u "2024-01-02").
Proof.
  cbv zeta.
  match goal with
  | |- DMAccountManager.daily_sent (inspected _ ?a) = _ /\ _ =>
      pose proof (get_available_accounts_resets_checked
                    (u "2024-01-02") 50 [a]) as (_ & _ & _ & H & _);
      destruct (H a eq_refl) as (Hd & _ & H0)
  end.
  split; [apply H0; vm_compute; discriminate | exact Hd].
Defined.

(** ** DMRecordManager: the sent registry *)

Lemma bytes_of_inj (s1 s2 : string) : bytes_of s1 = bytes_of s2 -> s1 = s2.
Proof.
  revert s2; induction s1 as [|a s1 IH]; intros [|b s2]; simpl; try done.
  intros [= Hab Hs]. f_equal; [| by apply IH].
  rewrite <- (Ascii.ascii_N_embedding a), <- (Ascii.ascii_N_embedding b).
  by rewrite Hab.
Qed.

Lemma str_of_Z_inj (a b : Z) : str_of_Z a = str_of_Z b -> a = b.
Proof. intros Hab. apply bytes_of_inj in Hab. by apply (inj pretty) in Hab. Qed.

Section SentRegistry.
Import DMRecordManager.
Context `{PyClock}.

Lemma is_user_sent_entry (now uid reset_hours : Z)
    (registry : gmap pystr pystr) (t0 : Z) :
  registry !! str_of_Z uid = Some (isoformat t0) ->
  fromisoformat (isoformat t0) = Some t0 ->
  is_user_sent now uid reset_hours registry
  = negb (hours reset_hours <? now - t0).
Proof.
  intros Hreg Hrt. unfold is_user_sent. rewrite Hreg, Hrt.
  by destruct (hours reset_hours <? now - t0).
Qed.

(** A send to another user leaves the entry of this one. *)
Lemma add_sent_user_other (now uid uid' : Z) (registry : gmap pystr pystr) :
  uid <> uid' ->
  add_sent_user now uid' registry !! str_of_Z uid = registry !! str_of_Z uid.
Proof.
  intros Hne. unfold add_sent_user. apply lookup_insert_ne.
  intros Heq. apply str_of_Z_inj in Heq. congruence.
Qed.

End SentRegistry.

(** ** Strings: replacement keeps ASCII phrases *)

Section Replace.
Variables (src dst : pystr).
Hypothesis src_ends : outside_ascii_ends src = true.

Lemma src_head : exists a src', src = a :: src' /\ (128 <= a)%N.
Proof.
  unfold outside_ascii_ends in src_ends.
  destruct src as [|a src']; [done |].
  destruct (last (a :: src')); [| done].
  apply andb_true_iff in src_ends as [Ha _]. apply N.leb_le in Ha. eauto.
Qed.

Lemma src_last : exists z, last src = Some z /\ (128 <= z)%N.
Proof.
  unfold outside_ascii_ends in src_ends.
  destruct src as [|a src']; [done |].
  destruct (last (a :: src')) as [z|]; [| done].
  apply andb_true_iff in src_ends as [_ Hz]. apply N.leb_le in Hz. eauto.
Qed.

Lemma replace_go_skip k s :
  replace_go src dst k s = replace_go src dst 0 (drop k s).
Proof.
  revert k; induction s as [|c s IH]; intros [|k]; simpl; done.
Qed.

Lemma replace_go_cons_match c s :
  startswith src (c :: s) = true ->
  replace_go src dst 0 (c :: s) = dst ++ replace_go src dst (length src - 1) s.
Proof. intros Hsw. simpl. by rewrite Hsw. Qed.

Lemma replace_go_cons_other c s :
  startswith src (c :: s) = false ->
  replace_go src dst 0 (c :: s) = c :: replace_go src dst 0 s.
Proof. intros Hsw. simpl. by rewrite Hsw. Qed.

Lemma replace_go_match rest :
  replace_go src dst 0 (src ++ rest) = dst ++ replace_go src dst 0 rest.
Proof.
  destruct src_head as (a & src' & Hsrc & _).
  assert (Hsw : startswith src (a :: src' ++ rest) = true).
  { apply startswith_spec. exists rest. by rewrite Hsrc. }
  replace (src ++ rest) with (a :: src' ++ rest) by (by rewrite Hsrc).
  rewrite (replace_go_cons_match _ _ Hsw), replace_go_skip. f_equal. f_equal.
  replace (length src - 1)%nat with (length src') by (rewrite Hsrc; simpl; lia).
  by rewrite drop_app_length.
Qed.

Lemma replace_go_ascii_prefix p b :
  is_ascii p = true ->
  replace_go src dst 0 (p ++ b) = p ++ replace_go src dst 0 b.
Proof.
  destruct src_head as (a & src' & Hsrc & Ha).
  induction p as [|x p IH]; simpl; [done |].
  intros Hp. apply andb_true_iff in Hp as [Hx Hp]. apply N.ltb_lt in Hx.
  rewrite <- IH by done. apply replace_go_cons_other.
  rewrite Hsrc; simpl.
  assert (Hax : (a =? x)%N = false) by (apply N.eqb_neq; lia).
  by rewrite Hax.
Qed.

Lemma is_ascii_elem p c : is_ascii p = true -> c ∈ p -> (c < 128)%N.
Proof.
  unfold is_ascii. rewrite forallb_forall. intros Hall Hc.
  apply N.ltb_lt, Hall. by apply list_elem_of_In.
Qed.

(** An occurrence of [p] in [src ++ rest] lies in [rest]. *)
Lemma occurrence_after_src p rest a b :
  is_ascii p = true -> contains p src = false ->
  src ++ rest = a ++ p ++ b ->
  exists a', rest = a' ++ p ++ b.
Proof.
  intros Hp Hnot Heq.
  destruct src_last as (z & Hlast & Hz).
  destruct (decide (length src <= length a)%nat) as [Hle | Hgt].
  - exists (drop (length src) a).
    apply (f_equal (drop (length src))) in Heq.
    rewrite drop_app_length in Heq. rewrite Heq.
    by rewrite drop_app_le.
  - exfalso. destruct (decide (length a + length p <= length src)%nat) as [Hin | Hover].
    + assert (Hc : contains p src = true); [| congruence].
      apply contains_spec. exists a, (take (length src - length a - length p)%nat b).
      apply (f_equal (take (length src))) in Heq.
      rewrite take_app_length in Heq.
      rewrite take_app_ge in Heq by lia. rewrite take_app_ge in Heq by lia.
      exact Heq.
    + rewrite last_lookup in Hlast.
      assert (Hi : (src ++ rest) !! pred (length src) = Some z).
      { rewrite lookup_app_l; [done |]. lia. }
      rewrite Heq in Hi. rewrite lookup_app_r in Hi by lia.
      rewrite lookup_app_l in Hi by lia.
      apply list_elem_of_lookup_2 in Hi.
      pose proof (is_ascii_elem p z Hp Hi). lia.
Qed.

Lemma replace_go_keeps_bounded p :
  is_ascii p = true -> contains p src = false ->
  forall n s, (length s < n)%nat ->
    contains p s = true -> contains p (replace_go src dst 0 s) = true.
Proof.
  intros Hp Hnot n.
  induction n as [|n IH]; intros s Hn Hocc; [lia |].
  apply contains_spec in Hocc as (a & b & Hs).
  destruct (startswith src s) eqn:Hsw.
  - apply startswith_spec in Hsw as [rest Hrest].
    rewrite Hrest, replace_go_match.
    rewrite Hrest in Hs.
    destruct (occurrence_after_src p rest a b Hp Hnot Hs) as [a' Ha'].
    assert (Hrec : contains p (replace_go src dst 0 rest) = true).
    { apply IH.
      - destruct src_head as (x & src' & Hsrc & _).
        rewrite Hrest, Hsrc, length_app in Hn; simpl in Hn. lia.
      - apply contains_spec. by exists a', b. }
    apply contains_spec in Hrec as (a2 & b2 & Hrec).
    apply contains_spec. exists (dst ++ a2), b2.
    by rewrite Hrec, <- app_assoc.
  - destruct a as [|c a].
    + simpl in Hs. rewrite Hs, replace_go_ascii_prefix by done.
      apply contains_spec. by exists [], (replace_go src dst 0 b).
    + rewrite Hs in Hsw |- *. simpl app in Hsw |- *.
      rewrite (replace_go_cons_other _ _ Hsw).
      assert (Hrec : contains p (replace_go src dst 0 (a ++ p ++ b)) = true).
      { apply IH.
        - rewrite Hs in Hn; simpl in Hn. lia.
        - apply contains_spec. by exists a, b. }
      simpl. rewrite Hrec. apply orb_true_r.
Qed.

Lemma replace_keeps p s :
  is_ascii p = true -> contains p src = false ->
  contains p s = true -> contains p (replace src dst s) = true.
Proof.
  intros Hp Hnot Hocc. destruct src_head as (a & src' & Hsrc & _).
  unfold replace. rewrite Hsrc, <- Hsrc.
  by apply (replace_go_keeps_bounded p Hp Hnot (S (length s))); [lia |].
Qed.

End Replace.

(** ** DMAccountManager: the classifier of SpamBot replies *)

Section Classifier.
Import DMAccountManager.
Context `{PyText}.

Lemma matches_any_existsb patterns translated :
  matches_any patterns translated
  = existsb (fun pattern => contains (lower pattern) translated) patterns.
Proof.
  induction patterns as [|p patterns IH]; simpl; [done |].
  rewrite IH. by destruct (contains (lower p) translated).
Qed.

Lemma matches_any_true patterns translated :
  matches_any patterns translated = true
  <-> exists p, p ∈ patterns /\ contains (lower p) translated = true.
Proof.
  rewrite matches_any_existsb, existsb_exists.
  split; intros (p & Hin & Hp); exists p; split; try done;
    by apply list_elem_of_In.
Qed.

Lemma matches_any_false patterns translated :
  (forall p, p ∈ patterns -> contains (lower p) translated = false) ->
  matches_any patterns translated = false.
Proof.
  intros Hall. apply not_true_is_false. intros Hm.
  apply matches_any_true in Hm as (p & Hin & Hp).
  rewrite (Hall p Hin) in Hp. discriminate.
Qed.

Lemma detect_status_refines message_text :
  detect_status_from_spambot message_text
  = first_match priority_order (translate_text message_text).
Proof.
  unfold detect_status_from_spambot, first_match, priority_order,
    category_matches.
  by rewrite !matches_any_existsb.
Qed.

Lemma translate_loop_keeps p items s :
  is_ascii p = true -> forallb (harmless p) items = true ->
  contains p s = true -> contains p (translate_loop items s) = true.
Proof.
  intros Hp. revert s.
  induction items as [|[src dst] items IH]; simpl; intros s Hall Hs; [done |].
  apply andb_true_iff in Hall as [Hh Hall].
  apply andb_true_iff in Hh as [Hends Hnot]. simpl in Hends, Hnot.
  apply negb_true_iff in Hnot.
  destruct (contains src s); apply IH; try done.
  by apply replace_keeps.
Qed.

Lemma geo_warning_survives_translation :
  forallb (fun g => is_ascii g && forallb (harmless g) TRANSLATIONS)
          (STATUS_PATTERNS geo_warning) = true.
Proof. vm_compute. reflexivity. Qed.

(** A geo-notice phrase of the lower-cased reply is still there after
    the translation. *)
Lemma translate_text_keeps_geo_warning g message_text :
  g ∈ STATUS_PATTERNS geo_warning ->
  contains g (lower message_text) = true ->
  contains g (translate_text message_text) = true.
Proof.
  intros Hg Hocc. unfold translate_text.
  pose proof geo_warning_survives_translation as Hall.
  rewrite forallb_forall in Hall.
  apply list_elem_of_In, Hall, andb_true_iff in Hg as [Hp Hh].
  by apply translate_loop_keeps.
Qed.

(** C6.  The classifier is the first-match-wins reading of the priority
    list geo-notice, active, restricted, spam, banned, frozen over the
    translated text, and depends on the reply through that text only.  A
    translated text with a geo-notice phrase is classified active with
    can-send true, whatever banned phrase it also has; so is a reply whose
    lower-cased text has a geo-notice phrase (the phrases are their own
    lower case), since the translation keeps it.  A translated text in
    which no pattern occurs is classified unknown with can-send false. *)
Theorem detect_status_first_match_wins (message_text : pystr) :
  let translated := translate_text message_text in
  detect_status_from_spambot message_text
  = first_match priority_order translated
  /\ (forall other,
        translate_text other = translated ->
        detect_status_from_spambot other
        = detect_status_from_spambot message_text)
  /\ (forall g b,
        g ∈ STATUS_PATTERNS geo_warning -> b ∈ STATUS_PATTERNS banned ->
        contains (lower g) translated = true ->
        contains (lower b) translated = true ->
        detect_status_from_spambot message_text = (u "active", true))
  /\ (forall g b,
        g ∈ STATUS_PATTERNS geo_warning -> b ∈ STATUS_PATTERNS banned ->
        lower g = g ->
        contains g (lower message_text) = true ->
        contains (lower b) translated = true ->
        detect_status_from_spambot message_text = (u "active", true))
  /\ ((forall c p, p ∈ STATUS_PATTERNS c ->
                   contains (lower p) translated = false) ->
      detect_status_from_spambot message_text = (u "unknown", false)).
Proof.
  cbv zeta.
  assert (Hgeo : forall g,
             g ∈ STATUS_PATTERNS geo_warning ->
             contains (lower g) (translate_text message_text) = true ->
             detect_status_from_spambot message_text = (u "active", true)).
  { intros g Hg Hocc. unfold detect_status_from_spambot.
    assert (Hm : matches_any (STATUS_PATTERNS geo_warning)
                             (translate_text message_text) = true)
      by (apply matches_any_true; by exists g).
    by rewrite Hm. }
  split; [apply detect_status_refines |].
  split; [intros other Ho; by rewrite !detect_status_refines, Ho |].
  split; [intros g b Hg _ Hocc _; by apply (Hgeo g) |].
  split.
  - intros g b Hg _ Hlow Hocc _. apply (Hgeo g Hg). rewrite Hlow.
    by apply translate_text_keeps_geo_warning.
  - intros Hnone. unfold detect_status_from_spambot.
    by rewrite !matches_any_false by (intros p Hp; by eapply Hnone).
Qed.

End Classifier.

Lemma detect_status_first_match_wins_witness :
  @DMAccountManager.detect_status_from_spambot ascii_text
    (u "Some phone numbers may trigger a harsh response. You are banned.")
  = (u "active", true)
  /\ @DMAccountManager.detect_status_from_spambot ascii_text (u "hello")
     = (u "unknown", false).
Proof.
  split.
  - apply (proj1 (proj2 (proj2 (proj2
             (@detect_status_first_match_wins ascii_text _))))
             (u "phone numbers may trigger") (u "banned")).
    + vm_compute. right. by left.
    + vm_compute. do 6 right. by left.
    + reflexivity.
    + reflexivity.
    + reflexivity.
  - apply (proj2 (proj2 (proj2 (proj2
             (@detect_status_first_match_wins ascii_text _))))).
    intros c p Hp.
    destruct c; vm_compute in Hp;
      repeat (apply elem_of_cons in Hp as [-> | Hp]; [reflexivity |]);
      by apply elem_of_nil in Hp.
Defined.

(** ** DMTemplateManager: rendering *)

Section Rendering.
Import DMTemplateManager.

Lemma choice_in {A} (d : A) (seq : list A) (g : Rng) :
  seq <> [] ->
  (choice d seq g).1 ∈ seq /\ (choice d seq g).2 = (draw g).2.
Proof.
  intros Hne. unfold choice, bind, ret; simpl. split; [| done].
  apply list_elem_of_In, nth_In.
  apply Nat.mod_upper_bound. by destruct seq.
Qed.

Lemma randint_range (a b : Z) (g : Rng) :
  a <= b ->
  exists n,
    randint a b g = (Some n, (draw g).2) /\ a <= n <= b.
Proof.
  intros Hab. unfold randint. rewrite (proj2 (Z.ltb_ge b a)) by done.
  unfold bind, ret; simpl. eexists. split; [reflexivity |].
  pose proof (Z.mod_pos_bound (Z.of_nat (draws g (pos g))) (b - a + 1)).
  lia.
Qed.

(** [randint] raises on an empty range and leaves the generator as it
    is. *)
Lemma randint_empty (a b : Z) (g : Rng) :
  b < a -> randint a b g = (None, g).
Proof.
  intros Hab. unfold randint. by rewrite (proj2 (Z.ltb_lt b a)).
Qed.

Lemma randint_Some (a b n : Z) (g : Rng) :
  (randint a b g).1 = Some n -> a <= n <= b.
Proof.
  destruct (Z.lt_ge_cases b a) as [Hlt | Hge].
  - by rewrite randint_empty.
  - destruct (randint_range a b g) as (m & -> & Hm); [lia |].
    simpl. by intros [= <-].
Qed.

Lemma split_go_nonempty sep cur s : split_go sep cur s <> [].
Proof.
  revert cur; induction s as [|c s IH]; intros cur; simpl; [done |].
  destruct (c =? sep)%N; [done | apply IH].
Qed.

Lemma add_random_emoji_spec t g :
  exists e, e ∈ emojis /\ (add_random_emoji t g).1 = t ++ u " " ++ e.
Proof.
  unfold add_random_emoji, bind, ret.
  destruct (choice_in [] emojis g) as [Hin _]; [done |].
  destruct (choice [] emojis g) as [e g'] eqn:He. simpl in *.
  by exists e.
Qed.

Lemma invisible_spec n g :
  length (invisible n g).1 = n /\ Forall zero_width (invisible n g).1.
Proof.
  revert g; induction n as [|n IH]; intros g; simpl; [by split |].
  unfold bind, ret.
  destruct (choice_in [] zero_width_chars g) as [Hin _]; [done |].
  destruct (choice [] zero_width_chars g) as [c g1]. simpl in Hin.
  specialize (IH g1). destruct (invisible n g1) as [rest g2]. simpl in *.
  destruct IH as [Hlen Hall].
  assert (Hc : exists x, c = [x] /\ zero_width x).
  { unfold zero_width_chars in Hin.
    repeat (apply elem_of_cons in Hin as [-> | Hin];
            [eexists; split; [reflexivity |];
             unfold zero_width, zero_width_chars;
             repeat (first [by left | right]) |]).
    by apply elem_of_nil in Hin. }
  destruct Hc as (x & -> & Hx). simpl. split; [by rewrite Hlen |].
  by constructor.
Qed.

Lemma add_invisible_timestamp_spec t g :
  exists pad,
    (add_invisible_timestamp t g).1 = t ++ pad
    /\ (6 <= length pad <= 10)%nat /\ Forall zero_width pad.
Proof.
  unfold add_invisible_timestamp, bind, ret.
  destruct (randint_range 6 10 g) as (len & -> & Hr); [lia |].
  set (g1 := (draw g).2).
  destruct (invisible_spec (Z.to_nat len) g1) as [Hlen Hall].
  destruct (invisible (Z.to_nat len) g1) as [pad g2]. simpl in *.
  exists pad. split; [done |]. split; [lia | done].
Qed.

Lemma sub_go_skip k s g : sub_go k s g = sub_go 0 (drop k s) g.
Proof. revert k; induction s as [|c s IH]; intros [|k]; simpl; done. Qed.

Lemma group_spec body post :
  rbrace ∉ body -> group (body ++ rbrace :: post) = Some (body, post).
Proof.
  induction body as [|c body IH]; simpl; intros Hno.
  - done.
  - apply not_elem_of_cons in Hno as [Hc Hno].
    assert (Hcb : (c =? rbrace)%N = false) by (apply N.eqb_neq; congruence).
    by rewrite Hcb, IH.
Qed.

(** Text without an opening brace is copied. *)
Lemma sub_go_plain pre s g :
  lbrace ∉ pre ->
  sub_go 0 (pre ++ s) g = ((pre ++ (sub_go 0 s g).1), (sub_go 0 s g).2).
Proof.
  induction pre as [|c pre IH]; simpl; intros Hno.
  - by destruct (sub_go 0 s g).
  - apply not_elem_of_cons in Hno as [Hc Hno].
    assert (Hcb : (c =? lbrace)%N = false) by (apply N.eqb_neq; congruence).
    rewrite Hcb. unfold bind, ret. rewrite IH by done. done.
Qed.

(** A span is replaced by the alternative that the draw picks, and the
    text after it is processed with the next draws. *)
Lemma sub_go_span body post g :
  body <> [] -> rbrace ∉ body ->
  sub_go 0 (lbrace :: body ++ rbrace :: post) g
  = (((choice [] (split bar body) g).1
      ++ (sub_go 0 post (choice [] (split bar body) g).2).1),
     (sub_go 0 post (choice [] (split bar body) g).2).2).
Proof.
  intros Hne Hno. destruct body as [|b0 bs]; [done |].
  cbn [sub_go]. rewrite N.eqb_refl, group_spec by done.
  unfold bind, ret.
  destruct (choice [] (split bar (b0 :: bs)) g) as [pick g1].
  rewrite sub_go_skip.
  replace (drop (S (length bs) + 1) ((b0 :: bs) ++ rbrace :: post))
    with post.
  - simpl. by destruct (sub_go 0 post g1).
  - replace (S (length bs) + 1)%nat with (length (b0 :: bs) + 1)%nat
      by (simpl; lia).
    rewrite <- drop_drop, drop_app_length. done.
Qed.

Lemma process_spintax_span pre body post g :
  lbrace ∉ pre -> body <> [] -> rbrace ∉ body ->
  exists alt,
    alt ∈ split bar body
    /\ (process_spintax (pre ++ lbrace :: body ++ rbrace :: post) g).1
       = pre ++ alt ++ (process_spintax post (draw g).2).1.
Proof.
  intros Hpre Hne Hno. unfold process_spintax.
  rewrite sub_go_plain, sub_go_span by done. cbn [fst snd].
  destruct (choice_in [] (split bar body) g) as [Hin Hg];
    [apply split_go_nonempty |].
  exists (choice [] (split bar body) g).1. split; [done |].
  by rewrite Hg.
Qed.

Lemma generate_text_variant_layers t use_emoji use_timestamp use_synonym g :
  exists e pad,
    e ∈ emojis /\ (6 <= length pad <= 10)%nat /\ Forall zero_width pad
    /\ (generate_text_variant t use_emoji use_timestamp use_synonym g).1
       = (process_spintax t g).1
         ++ (if use_emoji then u " " ++ e else [])
         ++ (if use_timestamp then pad else [])
    /\ (generate_text_variant t use_emoji false use_synonym g).1
       = (process_spintax t g).1 ++ (if use_emoji then u " " ++ e else []).
Proof.
  unfold generate_text_variant, bind, ret.
  destruct (process_spintax t g) as [r1 g1]. cbn [fst snd].
  destruct (add_random_emoji_spec r1 g1) as (e & He & Hr2).
  destruct use_emoji.
  - destruct (add_random_emoji r1 g1) as [r2 g2]. cbn [fst] in Hr2. subst r2.
    destruct (add_invisible_timestamp_spec (r1 ++ u " " ++ e) g2)
      as (pad & Hpad & Hlen & Hzw).
    exists e, pad. repeat (split; [done |]).
    destruct use_timestamp.
    + destruct (add_invisible_timestamp _ g2) as [r3 g3]. cbn [fst] in *.
      subst r3. split; [by rewrite <- !app_assoc | done].
    + cbn [fst]. split; [by rewrite app_nil_r | done].
  - destruct (add_invisible_timestamp_spec r1 g1)
      as (pad & Hpad & Hlen & Hzw).
    exists e, pad. repeat (split; [done |]).
    destruct use_timestamp.
    + destruct (add_invisible_timestamp r1 g1) as [r3 g3]. cbn [fst] in *.
      subst r3. split; [done | by rewrite app_nil_r].
    + cbn [fst]. split; by rewrite ?app_nil_r.
Qed.

(** C7.  [process_spintax] renders ["{a|b}"] to ["a"] or to ["b"], and in
    general replaces a span by one of the alternatives listed between its
    braces.  [generate_text_variant] (and the text that
    [_send_dm_by_template] builds, which is the same function of the
    content) is the substituted text, followed when decoration is on by a
    space and one emoji of the fixed set, followed when padding is on by 6
    to 10 characters of the zero-width alphabet: the padding is a suffix
    of the result, which is that many characters longer than the
    decorated text. *)
Theorem text_variant_rendering (t : pystr)
    (use_emoji use_timestamp use_synonym : bool) (g : Rng) :
  ((process_spintax (u "{a|b}") g).1 = u "a"
   \/ (process_spintax (u "{a|b}") g).1 = u "b")
  /\ (forall pre body post,
        lbrace ∉ pre -> body <> [] -> rbrace ∉ body ->
        exists alt,
          alt ∈ split bar body
          /\ (process_spintax (pre ++ lbrace :: body ++ rbrace :: post) g).1
             = pre ++ alt ++ (process_spintax post (draw g).2).1)
  /\ (exists e pad,
        e ∈ emojis /\ (6 <= length pad <= 10)%nat /\ Forall zero_width pad
        /\ (generate_text_variant t use_emoji use_timestamp use_synonym g).1
           = (process_spintax t g).1
             ++ (if use_emoji then u " " ++ e else [])
             ++ (if use_timestamp then pad else [])
        /\ (generate_text_variant t use_emoji true use_synonym g).1
           = (generate_text_variant t use_emoji false use_synonym g).1 ++ pad
        /\ length (generate_text_variant t use_emoji true use_synonym g).1
           = (length (generate_text_variant t use_emoji false use_synonym g).1
              + length pad)%nat)
  /\ (forall c,
        send_text_result c
        = generate_text_variant (text c)
            (default true (DMTemplateManager.use_emoji c))
            (default true (DMTemplateManager.use_timestamp c))
            (default false (DMTemplateManager.use_synonym c))).
Proof.
  split; [| split; [| split]].
  - destruct (process_spintax_span [] (u "a|b") [] g) as (alt & Hin & Heq);
      [apply not_elem_of_nil | done | |].
    { vm_compute. intros Hin.
      repeat (apply elem_of_cons in Hin as [Hin | Hin]; [discriminate |]).
      by apply elem_of_nil in Hin. }
    change ([] ++ lbrace :: u "a|b" ++ [rbrace]) with (u "{a|b}") in Heq.
    rewrite Heq. cbn [process_spintax sub_go ret fst app].
    rewrite app_nil_r.
    change (split bar (u "a|b")) with [u "a"; u "b"] in Hin.
    apply elem_of_cons in Hin as [-> | Hin]; [by left |].
    apply elem_of_cons in Hin as [-> | Hin]; [by right |].
    by apply elem_of_nil in Hin.
  - intros pre body post. apply process_spintax_span.
  - destruct (generate_text_variant_layers t use_emoji true use_synonym g)
      as (e & pad & He & Hlen & Hzw & Hon & Hoff).
    destruct (generate_text_variant_layers t use_emoji use_timestamp
                use_synonym g) as (e' & pad' & _ & _ & _ & Hany & Hoff').
    assert (Hon' : (generate_text_variant t use_emoji true use_synonym g).1
                   = (generate_text_variant t use_emoji false use_synonym g).1
                     ++ pad) by (by rewrite Hon, Hoff, <- app_assoc).
    exists e, pad. repeat (split; [done |]).
    split; [| split; [done |]].
    + destruct use_timestamp; [done |].
      rewrite Hoff' in Hoff. apply app_inv_head in Hoff.
      by rewrite Hany, Hoff.
    + by rewrite Hon', length_app.
  - intros c. reflexivity.
Qed.

End Rendering.

Lemma text_variant_rendering_witness :
  let g := {| draws := fun n => n; pos := O |} in
  exists alt,
    alt ∈ [u "there"; u "you"]
    /\ (DMTemplateManager.process_spintax (u "Hi {there|you}!") g).1
       = u "Hi " ++ alt ++ u "!".
Proof.
  cbv zeta.
  destruct (proj1 (proj2
    (text_variant_rendering [] false false false
       {| draws := fun n => n; pos := O |}))
    (u "Hi ") (u "there|you") (u "!")) as (alt & Hin & Heq).
  - vm_compute. intros Hin.
    repeat (apply elem_of_cons in Hin as [Hin | Hin]; [discriminate |]).
    by apply elem_of_nil in Hin.
  - done.
  - vm_compute. intros Hin.
    repeat (apply elem_of_cons in Hin as [Hin | Hin]; [discriminate |]).
    by apply elem_of_nil in Hin.
  - exists alt. split; [exact Hin | exact Heq].
Defined.

(** Both alternatives of ["{a|b}"] are rendered by some draw. *)
Remark spintax_reaches_both_alternatives :
  (DMTemplateManager.process_spintax (u "{a|b}")
     {| draws := fun _ => O; pos := O |}).1 = u "a"
  /\ (DMTemplateManager.process_spintax (u "{a|b}")
        {| draws := fun _ => 1%nat; pos := O |}).1 = u "b".
Proof. split; reflexivity. Qed.

(** ** TTLCache *)

Section Cache.
Import TTLCache.

Lemma getlink_Some k ls l :
  getlink k ls = Some l -> l ∈ ls /\ key l = k.
Proof.
  induction ls as [|x ls IH]; simpl; [done |].
  destruct (str_eqb (key x) k) eqn:Hx.
  - intros [= ->]. apply str_eqb_eq in Hx. split; [by left | done].
  - intros Hg. destruct (IH Hg). split; [by right | done].
Qed.

Lemma getlink_None k ls : getlink k ls = None <-> k ∉ map key ls.
Proof.
  induction ls as [|x ls IH]; simpl.
  - split; [intros _; apply not_elem_of_nil | done].
  - destruct (str_eqb (key x) k) eqn:Hx.
    + apply str_eqb_eq in Hx. split; [done |]. intros Hn. exfalso.
      apply Hn. rewrite Hx. by left.
    + rewrite IH, not_elem_of_cons. split; [| by intros [_ ?]].
      intros Hn. split; [| done]. intros ->.
      unfold str_eqb in Hx. by rewrite bool_decide_eq_true_2 in Hx.
Qed.

Lemma getlink_middle k front l back :
  key l = k -> k ∉ map key front ->
  getlink k (front ++ l :: back) = Some l.
Proof.
  intros Hl. induction front as [|x front IH]; simpl; intros Hn.
  - unfold str_eqb. by rewrite bool_decide_eq_true_2.
  - apply not_elem_of_cons in Hn as [Hx Hn].
    unfold str_eqb. rewrite bool_decide_eq_false_2 by congruence.
    by apply IH.
Qed.

(** With one link per key, a held link answers [key in cache]. *)
Lemma contains_held time k e b c :
  cache_wf c -> held k e b c -> contains time k c = (time <? e).
Proof.
  intros Hwf (front & l & back & Hls & Hk & He & _).
  unfold contains. unfold cache_wf, cache_keys in Hwf. rewrite Hls in *.
  rewrite map_app in Hwf. apply NoDup_app in Hwf as (_ & Hdisj & _).
  rewrite (getlink_middle k front l back Hk), He; [done |].
  intros Hin. apply (Hdisj k Hin). simpl. rewrite Hk. by left.
Qed.

(** [expire] drops links from the front only, and none that is still
    valid. *)
Lemma expire_suffix time ls : exists gone, ls = gone ++ expire time ls.
Proof.
  induction ls as [|x ls [gone IH]]; simpl; [by exists [] |].
  destruct (time <? expires x); [by exists [] |].
  exists (x :: gone). simpl. by rewrite <- IH.
Qed.

Lemma expire_keeps time front l back :
  time < expires l ->
  exists front', expire time (front ++ l :: back) = front' ++ l :: back
                 /\ (exists gone, front = gone ++ front').
Proof.
  intros Hl. induction front as [|x front IH]; simpl.
  - apply Z.ltb_lt in Hl. rewrite Hl. exists []. split; [done | by exists []].
  - destruct (time <? expires x).
    + exists (x :: front). split; [done | by exists []].
    + destruct IH as (front' & Heq & gone & Hfront).
      exists front'. split; [done |]. exists (x :: gone). by rewrite Hfront.
Qed.

Lemma unlink_keeps k' front l back :
  key l <> k' ->
  exists front' back',
    unlink k' (front ++ l :: back) = front' ++ l :: back'
    /\ (length back' <= length back)%nat.
Proof.
  intros Hl. induction front as [|x front IH]; simpl.
  - unfold str_eqb. rewrite bool_decide_eq_false_2 by done.
    exists []. revert Hl. clear. intros _.
    induction back as [|y back IH]; simpl.
    + by exists [].
    + destruct (str_eqb (key y) k').
      * exists back. split; [done | lia].
      * destruct IH as (back' & Heq & Hlen). injection Heq as Heq.
        exists (y :: back'). rewrite Heq. split; [done | simpl; lia].
  - destruct (str_eqb (key x) k').
    + exists front, back. split; [done | lia].
    + destruct IH as (front' & back' & Heq & Hlen).
      exists (x :: front'), back'. by rewrite Heq.
Qed.

(** A valid link survives the insertion of another key, with one more
    link after it, unless it is the oldest of a full cache. *)
Lemma held_setitem time k e b k' v c :
  held k e b c -> time < e -> k' <> k -> (b + 2 <= maxsize c)%nat ->
  held k e (S b) (setitem time k' v c).
Proof.
  intros (front & l & back & Hls & Hk & He & Hb) Ht Hne Hroom.
  unfold setitem. destruct (maxsize c) as [|m] eqn:Hm; [lia |].
  rewrite Hls. subst e.
  destruct (expire_keeps time front l back Ht) as (front' & -> & _).
  destruct (getlink k' (front' ++ l :: back)) as [l'|] eqn:Hg.
  - destruct (unlink_keeps k' front' l back) as (f2 & b2 & -> & Hlen);
      [congruence |].
    exists f2, l, (b2 ++ [Link k' v (time + ttl c)]). simpl.
    rewrite <- app_assoc. repeat (split; [done |]).
    rewrite length_app; simpl. lia.
  - exists (drop (length (front' ++ l :: back) + 1 - S m) front'), l,
           (back ++ [Link k' v (time + ttl c)]). simpl.
    split.
    + rewrite drop_app_le.
      * by rewrite <- app_assoc.
      * rewrite length_app; simpl. lia.
    + repeat (split; [done |]). rewrite length_app; simpl. lia.
Qed.

Lemma setitem_maxsize time k v c : maxsize (setitem time k v c) = maxsize c.
Proof.
  unfold setitem. destruct (maxsize c) eqn:Hm; [done |].
  by destruct (getlink k (expire time (links c))).
Qed.

Lemma setitem_ttl time k v c : ttl (setitem time k v c) = ttl c.
Proof.
  unfold setitem. destruct (maxsize c) eqn:Hm; [done |].
  by destruct (getlink k (expire time (links c))).
Qed.

(** After [cache[k] = v] the cache holds [k] as its newest link. *)
Lemma setitem_held time k v c :
  (0 < maxsize c)%nat -> held k (time + ttl c) 0 (setitem time k v c).
Proof.
  intros Hm. unfold setitem. destruct (maxsize c) as [|m]; [lia |].
  destruct (getlink k (expire time (links c))); simpl;
    eexists _, (Link k v (time + ttl c)), []; by repeat split.
Qed.

Lemma NoDup_keys_drop n (ls : list link) :
  NoDup (map key ls) -> NoDup (map key (drop n ls)).
Proof.
  intros Hnd. rewrite <- (take_drop n ls), map_app in Hnd.
  by apply NoDup_app in Hnd as (_ & _ & ?).
Qed.

Lemma elem_of_keys_drop k n (ls : list link) :
  k ∈ map key (drop n ls) -> k ∈ map key ls.
Proof.
  intros Hin. rewrite <- (take_drop n ls), map_app.
  apply elem_of_app. by right.
Qed.

Lemma unlink_keys k ls x : x ∈ map key (unlink k ls) -> x ∈ map key ls.
Proof.
  induction ls as [|y ls IH]; simpl; [done |].
  destruct (str_eqb (key y) k); simpl.
  - intros Hx. by right.
  - intros Hx. apply elem_of_cons in Hx as [-> | Hx]; [by left |].
    right. by apply IH.
Qed.

Lemma unlink_NoDup k ls :
  NoDup (map key ls) -> NoDup (map key (unlink k ls)).
Proof.
  induction ls as [|y ls IH]; simpl; [done |].
  intros Hnd. apply NoDup_cons in Hnd as [Hy Hnd].
  destruct (str_eqb (key y) k); simpl; [done |].
  apply NoDup_cons. split; [| by apply IH].
  intros Hin. by apply Hy, (unlink_keys k).
Qed.

Lemma unlink_not_in k ls : NoDup (map key ls) -> k ∉ map key (unlink k ls).
Proof.
  induction ls as [|x ls IH]; simpl; [intros _; apply not_elem_of_nil |].
  intros Hnd. apply NoDup_cons in Hnd as [Hx Hnd].
  destruct (str_eqb (key x) k) eqn:Hk.
  - apply str_eqb_eq in Hk. by rewrite <- Hk.
  - simpl. apply not_elem_of_cons. split; [| by apply IH].
    intros ->. unfold str_eqb in Hk. by rewrite bool_decide_eq_true_2 in Hk.
Qed.

Lemma setitem_wf time k v c : cache_wf c -> cache_wf (setitem time k v c).
Proof.
  unfold cache_wf, cache_keys, setitem. intros Hwf.
  destruct (maxsize c) as [|m]; [done |].
  destruct (expire_suffix time (links c)) as [gone Hgone].
  assert (Hexp : NoDup (map key (expire time (links c)))).
  { rewrite Hgone, map_app in Hwf. by apply NoDup_app in Hwf as (_ & _ & ?). }
  destruct (getlink k (expire time (links c))) as [l|] eqn:Hg; simpl.
  - rewrite map_app. apply NoDup_app. split; [| split].
    + by apply unlink_NoDup.
    + intros x Hx Hx'. simpl in Hx'. apply list_elem_of_singleton in Hx'.
      subst x. by apply (unlink_not_in k (expire time (links c))).
    + apply NoDup_singleton.
  - rewrite map_app. apply NoDup_app. split; [| split].
    + by apply NoDup_keys_drop.
    + intros x Hx Hx'. simpl in Hx'. apply list_elem_of_singleton in Hx'.
      subst x. apply getlink_None in Hg. apply Hg.
      by apply elem_of_keys_drop in Hx.
    + apply NoDup_singleton.
Qed.

Lemma getlink_app k a b :
  getlink k (a ++ b)
  = match getlink k a with Some l => Some l | None => getlink k b end.
Proof.
  induction a as [|x a IH]; simpl; [done |].
  by destruct (str_eqb (key x) k).
Qed.

Lemma getlink_unlink_ne k k' ls :
  k' <> k -> getlink k' (unlink k ls) = getlink k' ls.
Proof.
  intros Hne. induction ls as [|x ls IH]; simpl; [done |].
  destruct (str_eqb (key x) k) eqn:Hx.
  - apply str_eqb_eq in Hx. unfold str_eqb.
    rewrite bool_decide_eq_false_2 by congruence. done.
  - simpl. by rewrite IH.
Qed.

(** Whether a key is in the cache does not depend on the expired links
    having been unlinked. *)
Lemma valid_expire time k ls :
  NoDup (map key ls) ->
  match getlink k (expire time ls) with
  | None => false
  | Some l => time <? expires l
  end
  = match getlink k ls with
    | None => false
    | Some l => time <? expires l
    end.
Proof.
  induction ls as [|x ls IH]; simpl; [done |]. intros Hnd.
  apply NoDup_cons in Hnd as [Hx Hnd].
  destruct (time <? expires x) eqn:Ht; [done |].
  rewrite IH by done.
  destruct (str_eqb (key x) k) eqn:Hk; [| done].
  apply str_eqb_eq in Hk. rewrite Ht.
  rewrite (proj2 (getlink_None k ls)); [done | congruence].
Qed.

Lemma expire_length time ls : (length (expire time ls) <= length ls)%nat.
Proof.
  destruct (expire_suffix time ls) as [gone Hg].
  rewrite Hg at 2. rewrite length_app. lia.
Qed.

Lemma unlink_length k ls : (length (unlink k ls) <= length ls)%nat.
Proof.
  induction ls as [|x ls IH]; simpl; [done |].
  destruct (str_eqb (key x) k); simpl; lia.
Qed.

Lemma setitem_length time k v c :
  (length (links (setitem time k v c)) <= S (length (links c)))%nat.
Proof.
  unfold setitem. destruct (maxsize c); [lia |].
  pose proof (expire_length time (links c)).
  destruct (getlink k (expire time (links c))); simpl;
    rewrite length_app; simpl.
  - pose proof (unlink_length k (expire time (links c))). lia.
  - rewrite length_drop. lia.
Qed.

(** Writing one key leaves the answer for another key as it is, while
    the cache has room. *)
Lemma contains_setitem_ne time k k' v c :
  cache_wf c -> k' <> k -> (length (links c) < maxsize c)%nat ->
  contains time k' (setitem time k v c) = contains time k' c.
Proof.
  intros Hwf Hne Hroom. unfold contains at 2.
  rewrite <- (valid_expire time k' (links c) Hwf).
  unfold contains, setitem. destruct (maxsize c) as [|m] eqn:Hm; [lia |].
  pose proof (expire_length time (links c)) as Hlen.
  assert (Hnew : getlink k' [Link k v (time + ttl c)] = None).
  { simpl. unfold str_eqb. by rewrite bool_decide_eq_false_2 by congruence. }
  destruct (getlink k (expire time (links c))); simpl.
  - rewrite getlink_app, getlink_unlink_ne, Hnew by done.
    by destruct (getlink k' (expire time (links c))).
  - replace (length (expire time (links c)) + 1 - S m)%nat with O by lia.
    rewrite drop_0, getlink_app, Hnew.
    by destruct (getlink k' (expire time (links c))).
Qed.

(** A key just written is in the cache until its window has passed. *)
Lemma contains_setitem_eq time time' k v c :
  cache_wf c -> (0 < maxsize c)%nat -> time' < time + ttl c ->
  contains time' k (setitem time k v c) = true.
Proof.
  intros Hwf Hm Ht.
  rewrite (contains_held time' k (time + ttl c) 0).
  - by apply Z.ltb_lt.
  - by apply setitem_wf.
  - by apply setitem_held.
Qed.

End Cache.

(** ** JTBot.handle_new_message *)

Section Monitor.
Context `{PyText}.

Lemma run_cons ev rest self :
  run (ev :: rest) self
  = ((run rest (handle_new_message ev self).1).1,
     (handle_new_message ev self).2
       ++ (run rest (handle_new_message ev self).1).2).
Proof.
  simpl. destruct (handle_new_message ev self) as [s1 e1]. simpl.
  by destruct (run rest s1).
Qed.

Lemma cooldown_loop_cons ev sender chat_id text keyword rest self :
  cooldown_loop ev sender chat_id text (keyword :: rest) self
  = if TTLCache.contains (ev_time ev) (cache_key (user_id sender) keyword)
                         (cooldown_cache self)
    then cooldown_loop ev sender chat_id text rest self
    else
      let self0 :=
        count_matched
          (with_cooldown self
             (TTLCache.setitem (ev_time ev)
                (cache_key (user_id sender) keyword) (ev_time ev)
                (cooldown_cache self))) in
      if ev_alert_sent ev keyword then
        let self1 :=
          with_records self0
            (RecordManager.add_record (record_manager self)
               (trigger_record ev sender chat_id text keyword)) in
        ((cooldown_loop ev sender chat_id text rest self1).1,
         keyword_effects ev sender chat_id text keyword
           ++ (cooldown_loop ev sender chat_id text rest self1).2)
      else (self0, [AlertNotSent (user_id sender) keyword ev]).
Proof.
  simpl.
  destruct (TTLCache.contains _ _ _); [done |].
  destruct (ev_alert_sent ev keyword); [| done].
  by destruct (cooldown_loop ev sender chat_id text rest _).
Qed.

(** The effects of the loop: those of the keywords that it found out of
    cooldown, in the order of the matched keywords, up to the first alert
    whose sending raised. *)
Lemma cooldown_loop_effects ev sender chat_id text keywords self :
  exists tried,
    sublist tried keywords
    /\ (cooldown_loop ev sender chat_id text keywords self).2
       = fresh_effects ev sender chat_id text tried.
Proof.
  revert self. induction keywords as [|k keywords IH]; intros self.
  - by exists [].
  - rewrite cooldown_loop_cons.
    destruct (TTLCache.contains _ _ _).
    + destruct (IH self) as (tried & Hsub & Heq).
      exists tried. split; [by apply sublist_cons | done].
    + cbv zeta. destruct (ev_alert_sent ev k) eqn:Hsent.
      * cbn [snd].
        match goal with
        | |- context [cooldown_loop _ _ _ _ keywords ?s] =>
            destruct (IH s) as (tried & Hsub & Heq)
        end.
        exists (k :: tried). split; [by apply sublist_skip |].
        simpl. by rewrite Hsent, Heq.
      * exists [k]. split; [apply sublist_skip, sublist_nil_l |].
        simpl. by rewrite Hsent.
Qed.

(** The loop touches the cooldown cache, the records and the counters
    only. *)
Lemma cooldown_loop_frame ev sender chat_id text keywords self :
  let self' := (cooldown_loop ev sender chat_id text keywords self).1 in
  keyword_manager self' = keyword_manager self
  /\ filter_manager self' = filter_manager self
  /\ blacklist_manager self' = blacklist_manager self
  /\ processed_messages self' = processed_messages self
  /\ filtered_count (stats self') = filtered_count (stats self)
  /\ messages_received (stats self') = messages_received (stats self).
Proof.
  revert self. induction keywords as [|k keywords IH]; intros self.
  - done.
  - cbv zeta. rewrite cooldown_loop_cons.
    destruct (TTLCache.contains _ _ _); [apply IH |].
    cbv zeta. destruct (ev_alert_sent ev k); [| done]. cbn [fst].
    match goal with
    | |- context [cooldown_loop _ _ _ _ keywords ?s] =>
        destruct (IH s) as (H1 & H2 & H3 & H4 & H5 & H6)
    end.
    rewrite H1, H2, H3, H4, H5, H6. done.
Qed.

(** The outcome of the handler, gate by gate. *)
Lemma handle_new_message_duplicate ev self :
  TTLCache.contains (ev_time ev) (msg_key (ev_chat_id ev) (ev_msg_id ev))
                    (processed_messages self) = true ->
  handle_new_message ev self = (count_received self, []).
Proof. intros Hc. unfold handle_new_message. simpl. by rewrite Hc. Qed.

Lemma handle_new_message_processed ev self :
  TTLCache.contains (ev_time ev) (msg_key (ev_chat_id ev) (ev_msg_id ev))
                    (processed_messages self) = false ->
  processed_messages (handle_new_message ev self).1
  = TTLCache.setitem (ev_time ev) (msg_key (ev_chat_id ev) (ev_msg_id ev))
                     (ev_time ev) (processed_messages self).
Proof.
  intros Hc. unfold handle_new_message. simpl. rewrite Hc.
  destruct (or_empty (ev_text ev)) as [|c0 text]; [done |].
  destruct (ev_sender ev) as [sender|]; [| done].
  repeat match goal with
         | |- context [if ?b then _ else _] => destruct b; try done
         end.
  match goal with
  | |- context [cooldown_loop ?e ?sn ?c ?t ?kws ?s] =>
      destruct (cooldown_loop_frame e sn c t kws s) as (_ & _ & _ & H4 & _)
  end.
  by rewrite H4.
Qed.

(** Either the handler stops at a gate, with no effect and with the
    cooldown cache and the records as they were, or it runs the loop over
    the matched keywords from the state in which the message is marked
    as processed. *)
Lemma handle_new_message_cases ev self :
  ((handle_new_message ev self).2 = []
   /\ cooldown_cache (handle_new_message ev self).1 = cooldown_cache self
   /\ record_manager (handle_new_message ev self).1 = record_manager self)
  \/ (exists sender chat_id,
        ev_sender ev = Some sender
        /\ TTLCache.contains (ev_time ev)
             (msg_key (ev_chat_id ev) (ev_msg_id ev))
             (processed_messages self) = false
        /\ handle_new_message ev self
           = cooldown_loop ev sender chat_id (or_empty (ev_text ev))
               (KeywordManager.match_ (keyword_manager self)
                                      (or_empty (ev_text ev)))
               (with_processed (count_received self)
                  (TTLCache.setitem (ev_time ev)
                     (msg_key (ev_chat_id ev) (ev_msg_id ev)) (ev_time ev)
                     (processed_messages self)))).
Proof.
  unfold handle_new_message. simpl.
  destruct (TTLCache.contains _ _ _) eqn:Hc; [by left |].
  destruct (or_empty (ev_text ev)) as [|c0 text] eqn:Ht; [by left |].
  destruct (ev_sender ev) as [sender|]; [| by left].
  destruct (BlacklistManager.is_user_blocked _ _); [by left |].
  destruct (BlacklistManager.is_chat_blocked _ _); [by left |].
  destruct (_ <? _); [by left |].
  destruct (KeywordManager.match_ _ _) as [|k ks] eqn:Hm; [by left |].
  destruct (FilterManager.check_user_filter _ _).1; [| by left].
  right. exists sender, (from_option chat_ident 0 (ev_chat ev)).
  done.
Qed.

(** The handler of an event that gets as far as the loop. *)
Lemma handle_new_message_reaches ev sender self :
  reaches_loop ev sender self ->
  handle_new_message ev self
  = cooldown_loop ev sender (from_option chat_ident 0 (ev_chat ev))
      (or_empty (ev_text ev))
      (KeywordManager.match_ (keyword_manager self) (or_empty (ev_text ev)))
      (with_processed (count_received self)
         (TTLCache.setitem (ev_time ev)
            (msg_key (ev_chat_id ev) (ev_msg_id ev)) (ev_time ev)
            (processed_messages self))).
Proof.
  intros (Hc & Ht & Hs & Hub & Hcb & Hlen & Hf).
  unfold handle_new_message. simpl. rewrite Hc, Hs.
  destruct (or_empty (ev_text ev)) as [|c0 text]; [done |].
  rewrite Hub, Hcb. rewrite (proj2 (Z.ltb_ge _ _)) by done.
  destruct (KeywordManager.match_ _ _) as [|k ks]; [done |].
  by rewrite Hf.
Qed.

(** An event with an effect got as far as the loop. *)
Lemma handle_new_message_effects_reach ev self :
  (handle_new_message ev self).2 <> [] ->
  exists sender, reaches_loop ev sender self.
Proof.
  unfold handle_new_message, reaches_loop. simpl.
  destruct (TTLCache.contains _ _ _) eqn:Hc; [done |].
  destruct (or_empty (ev_text ev)) as [|c0 text] eqn:Ht; [done |].
  destruct (ev_sender ev) as [sender|]; [| done].
  destruct (BlacklistManager.is_user_blocked _ _) eqn:Hub; [done |].
  destruct (BlacklistManager.is_chat_blocked _ _) eqn:Hcb; [done |].
  destruct (_ <? _) eqn:Hlen; [done |].
  destruct (KeywordManager.match_ _ _) as [|k ks] eqn:Hm; [done |].
  destruct (FilterManager.check_user_filter _ _).1 eqn:Hf; [| done].
  intros _. exists sender. apply Z.ltb_ge in Hlen. done.
Qed.

Lemma alerts_fresh_effects ev sender chat_id text tried :
  alerts (fresh_effects ev sender chat_id text tried)
  = map (fun k => (ev_time ev, user_id sender, k))
        (sent_prefix (ev_alert_sent ev) tried).
Proof.
  induction tried as [|k tried IH]; simpl; [done |].
  destruct (ev_alert_sent ev k); simpl; [by rewrite IH | done].
Qed.

Lemma tasks_fresh_effects ev sender chat_id text tried :
  tasks (fresh_effects ev sender chat_id text tried)
  = map (fun _ => sender) (sent_prefix (ev_alert_sent ev) tried).
Proof.
  induction tried as [|k tried IH]; simpl; [done |].
  destruct (ev_alert_sent ev k); simpl; [by rewrite IH | done].
Qed.

Lemma saved_records_fresh_effects ev sender chat_id text tried :
  saved_records (fresh_effects ev sender chat_id text tried)
  = map (trigger_record ev sender chat_id text)
        (sent_prefix (ev_alert_sent ev) tried).
Proof.
  induction tried as [|k tried IH]; simpl; [done |].
  destruct (ev_alert_sent ev k); simpl; [by rewrite IH | done].
Qed.

Lemma cooldown_log_fresh_effects ev sender chat_id text tried :
  cooldown_log (fresh_effects ev sender chat_id text tried)
  = map (fun k => (ev_time ev, user_id sender, k))
        (tried_prefix (ev_alert_sent ev) tried).
Proof.
  induction tried as [|k tried IH]; simpl; [done |].
  destruct (ev_alert_sent ev k); simpl; [by rewrite IH | done].
Qed.

Lemma sent_prefix_all sent keywords :
  Forall (fun k => sent k = true) keywords ->
  sent_prefix sent keywords = keywords.
Proof.
  induction 1 as [|k keywords Hk _ IH]; simpl; [done |].
  by rewrite Hk, IH.
Qed.

Lemma sent_prefix_sublist sent keywords :
  sublist (sent_prefix sent keywords) keywords.
Proof.
  induction keywords as [|k keywords IH]; simpl; [done |].
  destruct (sent k); [by apply sublist_skip | apply sublist_nil_l].
Qed.

Lemma cache_key_keyword_inj uid k k' :
  cache_key uid k = cache_key uid k' -> k = k'.
Proof.
  unfold cache_key. intros Heq.
  by apply app_inv_head in Heq; apply app_inv_head in Heq.
Qed.

Lemma match_loop_sublist text_lower keywords :
  sublist (KeywordManager.match_loop text_lower keywords) keywords.
Proof.
  induction keywords as [|k keywords IH]; simpl; [done |].
  destruct (contains _ _); [by apply sublist_skip | by apply sublist_cons].
Qed.

(** The matched keywords are keywords of the list, in its order. *)
Lemma match_sublist keywords text :
  sublist (KeywordManager.match_ keywords text) keywords.
Proof.
  unfold KeywordManager.match_. destruct text; [apply sublist_nil_l |].
  apply match_loop_sublist.
Qed.

(** The loop over keywords that are pairwise different, in a cache with
    room for them: it tries the keywords that were out of cooldown when
    it started, in order, up to the first alert whose sending raised;
    [c0] is a cache that answers for these keywords as the cache of
    [self] does. *)
Lemma cooldown_loop_exact ev sender chat_id text keywords self c0 :
  NoDup keywords ->
  cache_wf (cooldown_cache self) ->
  (length (TTLCache.links (cooldown_cache self)) + length keywords
   <= TTLCache.maxsize (cooldown_cache self))%nat ->
  (forall k, k ∈ keywords ->
     TTLCache.contains (ev_time ev) (cache_key (user_id sender) k)
                       (cooldown_cache self)
     = TTLCache.contains (ev_time ev) (cache_key (user_id sender) k) c0) ->
  (cooldown_loop ev sender chat_id text keywords self).2
  = fresh_effects ev sender chat_id text
      (filter (fun k => TTLCache.contains (ev_time ev)
                          (cache_key (user_id sender) k) c0 = false)
              keywords).
Proof.
  revert self. induction keywords as [|k keywords IH];
    intros self Hnd Hwf Hroom Hsame; [done |].
  apply NoDup_cons in Hnd as [Hk Hnd]. simpl in Hroom.
  rewrite cooldown_loop_cons, filter_cons.
  rewrite <- (Hsame k) by by left.
  destruct (TTLCache.contains _ _ (cooldown_cache self)) eqn:Hc.
  - rewrite decide_False by done.
    apply IH; [done | done | lia |].
    intros k' Hk'. apply Hsame. by right.
  - rewrite decide_True by done. cbv zeta. cbn [fresh_effects].
    destruct (ev_alert_sent ev k); [| done]. cbn [snd]. f_equal.
    apply IH; [done | | |].
    + by apply setitem_wf.
    + cbn [cooldown_cache with_records count_matched with_cooldown
           with_stats].
      rewrite setitem_maxsize.
      pose proof (setitem_length (ev_time ev)
                    (cache_key (user_id sender) k) (ev_time ev)
                    (cooldown_cache self)). lia.
    + intros k' Hk'.
      cbn [cooldown_cache with_records count_matched with_cooldown
           with_stats].
      rewrite contains_setitem_ne; [apply Hsame; by right | done | | lia].
      intros Heq. apply cache_key_keyword_inj in Heq. congruence.
Qed.

(** After the loop, under the same conditions and with a cooldown that
    is positive, the keys that were under cooldown still are and every
    keyword that the loop tried is under cooldown. *)
Lemma cooldown_loop_entries ev sender chat_id text keywords self c0 key :
  NoDup keywords ->
  cache_wf (cooldown_cache self) ->
  (length (TTLCache.links (cooldown_cache self)) + length keywords
   <= TTLCache.maxsize (cooldown_cache self))%nat ->
  0 < TTLCache.ttl (cooldown_cache self) ->
  (forall k, k ∈ keywords ->
     TTLCache.contains (ev_time ev) (cache_key (user_id sender) k)
                       (cooldown_cache self)
     = TTLCache.contains (ev_time ev) (cache_key (user_id sender) k) c0) ->
  TTLCache.contains (ev_time ev) key (cooldown_cache self) = true
  \/ key ∈ map (cache_key (user_id sender))
              (tried_prefix (ev_alert_sent ev)
                 (filter (fun k => TTLCache.contains (ev_time ev)
                                     (cache_key (user_id sender) k) c0
                                   = false)
                         keywords)) ->
  TTLCache.contains (ev_time ev) key
    (cooldown_cache (cooldown_loop ev sender chat_id text keywords self).1)
  = true.
Proof.
  revert self. induction keywords as [|k keywords IH];
    intros self Hnd Hwf Hroom Httl Hsame Hkey.
  - simpl in *. destruct Hkey as [? | Hin]; [done |].
    by apply elem_of_nil in Hin.
  - apply NoDup_cons in Hnd as [Hk Hnd]. simpl in Hroom.
    rewrite cooldown_loop_cons. rewrite filter_cons in Hkey.
    rewrite <- (Hsame k) in Hkey by by left.
    destruct (TTLCache.contains _ (cache_key (user_id sender) k)
                (cooldown_cache self)) eqn:Hc.
    + rewrite decide_False in Hkey by done.
      apply IH; [done | done | lia | done | | done].
      intros k' Hk'. apply Hsame. by right.
    + rewrite decide_True in Hkey by done. cbv zeta.
      assert (Hstep :
        TTLCache.contains (ev_time ev) key (cooldown_cache self) = true
        \/ key = cache_key (user_id sender) k ->
        TTLCache.contains (ev_time ev) key
          (TTLCache.setitem (ev_time ev) (cache_key (user_id sender) k)
                            (ev_time ev) (cooldown_cache self)) = true).
      { intros [Hold | ->].
        - destruct (decide (key = cache_key (user_id sender) k)) as [-> | Hne].
          + by rewrite Hold in Hc.
          + rewrite contains_setitem_ne; [done | done | done | lia].
        - apply contains_setitem_eq; [done | lia | lia]. }
      cbn [tried_prefix] in Hkey.
      destruct (ev_alert_sent ev k).
      * cbn [fst]. apply IH; [done | | | | |].
        -- by apply setitem_wf.
        -- cbn [cooldown_cache with_records count_matched with_cooldown
                with_stats].
           rewrite setitem_maxsize.
           pose proof (setitem_length (ev_time ev)
                         (cache_key (user_id sender) k) (ev_time ev)
                         (cooldown_cache self)). lia.
        -- cbn [cooldown_cache with_records count_matched with_cooldown
                with_stats]. by rewrite setitem_ttl.
        -- intros k' Hk'.
           cbn [cooldown_cache with_records count_matched with_cooldown
                with_stats].
           rewrite contains_setitem_ne; [apply Hsame; by right | done | | lia].
           intros Heq. apply cache_key_keyword_inj in Heq. congruence.
        -- cbn [cooldown_cache with_records count_matched with_cooldown
                with_stats].
           destruct Hkey as [Hold | Hin].
           ++ left. apply Hstep. by left.
           ++ simpl in Hin. apply elem_of_cons in Hin as [-> | Hin].
              ** left. apply Hstep. by right.
              ** by right.
      * cbn [fst cooldown_cache with_records count_matched with_cooldown
             with_stats].
        apply Hstep. destruct Hkey as [Hold | Hin]; [by left |].
        simpl in Hin. apply list_elem_of_singleton in Hin. by right.
Qed.

(** C5, as the code has it.  Handling one message creates one dispatch
    task for each alert it sends, each for the sender of the message.
    With a keyword list without repetition and a cooldown cache that has
    room, a message that gets as far as the loop has its alerts sent for
    the matched keywords that are out of cooldown, in order, up to the
    first alert whose sending raises: as many tasks as such keywords
    when every alert is sent, and none when every matched keyword is
    under cooldown.  A message stopped at a gate creates no task. *)
Theorem one_task_per_alert ev self :
  let effects := (handle_new_message ev self).2 in
  length (tasks effects) = length (alerts effects)
  /\ Forall (fun sender => ev_sender ev = Some sender) (tasks effects)
  /\ (tasks effects <> [] -> exists sender, reaches_loop ev sender self)
  /\ (forall sender,
        reaches_loop ev sender self ->
        NoDup (keyword_manager self) ->
        cache_wf (cooldown_cache self) ->
        cooldown_room self ->
        let sent :=
          sent_prefix (ev_alert_sent ev) (fresh_keywords ev sender self) in
        alerts effects
        = map (fun k => (ev_time ev, user_id sender, k)) sent
        /\ tasks effects = map (fun _ => sender) sent
        /\ (Forall (fun k => ev_alert_sent ev k = true)
                   (fresh_keywords ev sender self) ->
            length (tasks effects)
            = length (fresh_keywords ev sender self))
        /\ (fresh_keywords ev sender self = [] -> effects = [])).
Proof.
  cbv zeta. split; [| split; [| split]].
  - destruct (handle_new_message_cases ev self)
      as [(-> & _) | (sender & chat_id & Hs & _ & ->)]; [done |].
    match goal with
    | |- context [cooldown_loop ?e ?sn ?c ?t ?kws ?s] =>
        destruct (cooldown_loop_effects e sn c t kws s) as (tried & _ & ->)
    end.
    by rewrite alerts_fresh_effects, tasks_fresh_effects, !length_map.
  - destruct (handle_new_message_cases ev self)
      as [(-> & _) | (sender & chat_id & Hs & _ & ->)]; [done |].
    match goal with
    | |- context [cooldown_loop ?e ?sn ?c ?t ?kws ?s] =>
        destruct (cooldown_loop_effects e sn c t kws s) as (tried & _ & ->)
    end.
    rewrite tasks_fresh_effects. apply Forall_forall. intros x Hx.
    by apply list_elem_of_fmap in Hx as (? & -> & _).
  - intros Hne. apply handle_new_message_effects_reach.
    intros Hnil. by rewrite Hnil in Hne.
  - intros sender Hreach Hnd Hwf Hroom.
    rewrite (handle_new_message_reaches ev sender self Hreach).
    pose proof (match_sublist (keyword_manager self)
                  (or_empty (ev_text ev))) as Hsub.
    rewrite (cooldown_loop_exact ev sender _ _ _ _ (cooldown_cache self));
      [| exact (sublist_NoDup _ _ Hnd Hsub) | done
       | apply sublist_length in Hsub; unfold cooldown_room in Hroom;
         cbn [cooldown_cache with_processed count_received with_stats]; lia
       | done].
    fold (fresh_keywords ev sender self).
    rewrite alerts_fresh_effects, tasks_fresh_effects.
    split; [done |]. split; [done |]. split.
    + intros Hall. by rewrite sent_prefix_all, length_map.
    + by intros ->.
Qed.

End Monitor.

Lemma one_task_per_alert_witness :
  fresh_keywords (H := ascii_text) buy_and_sell_unsent bob two_keyword_bot
  = [u "buy"; u "sell"]
  /\ alerts (@handle_new_message ascii_text buy_and_sell_unsent
                                 two_keyword_bot).2
     = [(0, 42, u "buy")]
  /\ tasks (@handle_new_message ascii_text buy_and_sell_unsent
                                two_keyword_bot).2
     = [bob].
Proof.
  split; [vm_compute; reflexivity |].
  destruct (@one_task_per_alert ascii_text buy_and_sell_unsent
              two_keyword_bot) as (_ & _ & _ & Hloop).
  destruct (Hloop bob) as (Ha & Ht & _).
  - repeat split; try (vm_compute; reflexivity); vm_compute; discriminate.
  - apply NoDup_cons. split.
    + intros Hin. apply list_elem_of_singleton in Hin. vm_compute in Hin.
      discriminate.
    + apply NoDup_cons. split; [apply not_elem_of_nil | apply NoDup_nil_2].
  - apply NoDup_nil_2.
  - vm_compute. lia.
  - split; [rewrite Ha | rewrite Ht]; vm_compute; reflexivity.
Defined.

(** A message that matches two keywords creates two dispatch tasks for
    its sender. *)
Lemma two_keywords_two_tasks :
  tasks (@handle_new_message ascii_text buy_and_sell two_keyword_bot).2
  = [bob; bob].
Proof. vm_compute. reflexivity. Qed.

(** ** The dedup gate *)

Section Dedup.
Context `{PyText}.

Lemma held_mono k e b b' c : held k e b c -> (b <= b')%nat -> held k e b' c.
Proof.
  intros (front & l & back & Hls & Hk & He & Hb) Hbb.
  exists front, l, back. repeat (split; [done |]). lia.
Qed.

Lemma handle_new_message_processed_eq ev self :
  processed_messages (handle_new_message ev self).1
  = if TTLCache.contains (ev_time ev)
         (msg_key (ev_chat_id ev) (ev_msg_id ev)) (processed_messages self)
    then processed_messages self
    else TTLCache.setitem (ev_time ev)
           (msg_key (ev_chat_id ev) (ev_msg_id ev)) (ev_time ev)
           (processed_messages self).
Proof.
  destruct (TTLCache.contains _ _ _) eqn:Hc.
  - by rewrite handle_new_message_duplicate.
  - by apply handle_new_message_processed.
Qed.

Lemma handle_new_message_processed_wf ev self :
  cache_wf (processed_messages self) ->
  cache_wf (processed_messages (handle_new_message ev self).1).
Proof.
  intros Hwf. rewrite handle_new_message_processed_eq.
  destruct (TTLCache.contains _ _ _); [done | by apply setitem_wf].
Qed.

Lemma handle_new_message_processed_maxsize ev self :
  TTLCache.maxsize (processed_messages (handle_new_message ev self).1)
  = TTLCache.maxsize (processed_messages self).
Proof.
  rewrite handle_new_message_processed_eq.
  destruct (TTLCache.contains _ _ _); [done | apply setitem_maxsize].
Qed.

(** A valid entry of the dedup cache survives the handling of one more
    event, unless it is the oldest of a full cache. *)
Lemma handle_new_message_keeps_held ev self k e b :
  cache_wf (processed_messages self) ->
  held k e b (processed_messages self) ->
  ev_time ev < e ->
  (b + 2 <= TTLCache.maxsize (processed_messages self))%nat ->
  held k e (S b) (processed_messages (handle_new_message ev self).1).
Proof.
  intros Hwf Hheld Ht Hroom. rewrite handle_new_message_processed_eq.
  destruct (TTLCache.contains _ _ _) eqn:Hc.
  - apply (held_mono k e b); [done | lia].
  - apply held_setitem; try done.
    intros Heq. rewrite Heq in Hc.
    rewrite (contains_held _ k e b _ Hwf Hheld) in Hc.
    apply Z.ltb_ge in Hc. lia.
Qed.

Lemma run_keeps_held evs self k e b :
  cache_wf (processed_messages self) ->
  held k e b (processed_messages self) ->
  Forall (fun ev => ev_time ev < e) evs ->
  (b + length evs + 1 <= TTLCache.maxsize (processed_messages self))%nat ->
  cache_wf (processed_messages (run evs self).1)
  /\ held k e (b + length evs) (processed_messages (run evs self).1).
Proof.
  revert self b. induction evs as [|ev evs IH]; intros self b Hwf Hheld Ht Hroom.
  - simpl. split; [done |]. by rewrite Nat.add_0_r.
  - rewrite run_cons. cbn [fst]. apply Forall_cons in Ht as [Hev Ht].
    simpl in Hroom.
    replace (b + length (ev :: evs))%nat with (S b + length evs)%nat
      by (simpl; lia).
    apply IH.
    + by apply handle_new_message_processed_wf.
    + apply handle_new_message_keeps_held; try done. lia.
    + done.
    + rewrite handle_new_message_processed_maxsize. lia.
Qed.

(** C1, as the code has it.  An event whose key is in the dedup cache is
    ignored: no effect, and only the counter of received messages moves.
    An event whose key is not in the cache gets it inserted with the
    current time whatever gate stops it later, and the key is then in the
    cache until the window of the cache has passed.  So of two events
    with the same chat id and message id, the second is ignored when the
    first was processed, the second arrives before the window of the
    first has passed, and fewer events than the cache has room for
    (10,000 for the monitor) were handled in between. *)
Theorem duplicate_ignored_within_window (ev : NewMessage) (self : JTBot) :
  let key := msg_key (ev_chat_id ev) (ev_msg_id ev) in
  let window := TTLCache.ttl (processed_messages self) in
  (TTLCache.contains (ev_time ev) key (processed_messages self) = true ->
   handle_new_message ev self = (count_received self, [])
   /\ record_manager (handle_new_message ev self).1 = record_manager self
   /\ cooldown_cache (handle_new_message ev self).1 = cooldown_cache self
   /\ filtered_count (stats (handle_new_message ev self).1)
      = filtered_count (stats self))
  /\ (TTLCache.contains (ev_time ev) key (processed_messages self) = false ->
      processed_messages (handle_new_message ev self).1
      = TTLCache.setitem (ev_time ev) key (ev_time ev)
                         (processed_messages self)
      /\ (cache_wf (processed_messages self) ->
          (0 < TTLCache.maxsize (processed_messages self))%nat ->
          forall t, t < ev_time ev + window ->
            TTLCache.contains t key
              (processed_messages (handle_new_message ev self).1) = true))
  /\ (forall evs ev2,
        cache_wf (processed_messages self) ->
        TTLCache.contains (ev_time ev) key (processed_messages self)
        = false ->
        ev_chat_id ev2 = ev_chat_id ev -> ev_msg_id ev2 = ev_msg_id ev ->
        Forall (fun e => ev_time e < ev_time ev + window) evs ->
        ev_time ev2 < ev_time ev + window ->
        (length evs < TTLCache.maxsize (processed_messages self))%nat ->
        let before := (run evs (handle_new_message ev self).1).1 in
        handle_new_message ev2 before = (count_received before, [])).
Proof.
  cbv zeta. split; [| split].
  - intros Hc. by rewrite handle_new_message_duplicate.
  - intros Hc. split; [by apply handle_new_message_processed |].
    intros Hwf Hm t Ht. rewrite handle_new_message_processed by done.
    rewrite (contains_held t _ (ev_time ev + TTLCache.ttl
               (processed_messages self)) 0).
    + by apply Z.ltb_lt.
    + by apply setitem_wf.
    + by apply setitem_held.
  - intros evs ev2 Hwf Hc Hchat Hmsg Hevs Ht2 Hlen.
    destruct (run_keeps_held evs (handle_new_message ev self).1
                (msg_key (ev_chat_id ev) (ev_msg_id ev))
                (ev_time ev + TTLCache.ttl (processed_messages self)) 0)
      as [Hwf' Hheld].
    + by apply handle_new_message_processed_wf.
    + rewrite handle_new_message_processed by done.
      apply setitem_held. lia.
    + done.
    + rewrite handle_new_message_processed_maxsize. lia.
    + apply handle_new_message_duplicate. rewrite Hchat, Hmsg.
      rewrite (contains_held _ _ _ _ _ Hwf' Hheld). by apply Z.ltb_lt.
Qed.

End Dedup.

Lemma duplicate_ignored_within_window_witness :
  let s1 := (@handle_new_message ascii_text buy_and_sell two_keyword_bot).1 in
  @handle_new_message ascii_text buy_and_sell s1 = (count_received s1, []).
Proof.
  cbv zeta.
  apply (proj2 (proj2 (@duplicate_ignored_within_window ascii_text
                         buy_and_sell two_keyword_bot)) [] buy_and_sell).
  - apply NoDup_nil_2.
  - reflexivity.
  - reflexivity.
  - reflexivity.
  - apply Forall_nil_2.
  - change (0 < 0 + seconds 300). unfold seconds. lia.
  - change (0 < Z.to_nat 10000)%nat. lia.
Defined.

(** ** The cooldown gate *)

Section Cooldown.
Context `{PyText}.

Lemma cooldown_inv_advance log c now now' :
  cooldown_inv log c now -> now <= now' -> cooldown_inv log c now'.
Proof.
  intros [Hwf Hinv] Hle. split; [done |].
  intros A B t uid k Hlog Hb Ht. apply (Hinv A B); [done | done | lia].
Qed.

Lemma snoc_inv {A} (l1 l2 : list A) (x y : A) (B : list A) :
  l1 ++ [x] = l2 ++ y :: B ->
  (B = [] /\ l1 = l2 /\ x = y)
  \/ (exists B', B = B' ++ [x] /\ l1 = l2 ++ y :: B').
Proof.
  destruct B as [|z B _] using rev_ind; intros Heq.
  - left. apply app_inj_tail in Heq as [-> ->]. done.
  - right. exists B.
    replace (l2 ++ y :: B ++ [z]) with ((l2 ++ y :: B) ++ [z]) in Heq
      by (by rewrite <- app_assoc).
    apply app_inj_tail in Heq as [-> ->]. done.
Qed.

(** One more alert, sent after a check that found its key out of the
    cache. *)
Lemma cooldown_alert_step log c t uid k :
  cooldown_inv log c t ->
  spaced (TTLCache.maxsize c) (TTLCache.ttl c) log ->
  TTLCache.contains t (cache_key uid k) c = false ->
  let c' := TTLCache.setitem t (cache_key uid k) t c in
  cooldown_inv (log ++ [(t, uid, k)]) c' t
  /\ spaced (TTLCache.maxsize c) (TTLCache.ttl c) (log ++ [(t, uid, k)]).
Proof.
  intros [Hwf Hinv] Hsp Hc. cbv zeta. split; [split |].
  - by apply setitem_wf.
  - intros A B t1 uid1 k1 Hlog Hb Ht.
    rewrite setitem_maxsize in Hb. rewrite setitem_ttl in Ht |- *.
    apply snoc_inv in Hlog as [(-> & -> & [= -> -> ->]) | (B' & -> & ->)].
    + apply setitem_held. simpl in Hb. lia.
    + rewrite length_app in Hb |- *. simpl in Hb |- *.
      replace (length B' + 1)%nat with (S (length B')) by lia.
      assert (Hheld : held (cache_key uid1 k1) (t1 + TTLCache.ttl c)
                           (length B') c)
        by (apply (Hinv A B'); [done | lia | done]).
      apply held_setitem; [done | done | | lia].
      intros Heq. rewrite Heq in Hc.
      rewrite (contains_held _ _ _ _ _ Hwf Hheld) in Hc.
      apply Z.ltb_ge in Hc. lia.
  - intros A B C t1 t2 uid1 k1 Hlog Hb.
    replace (A ++ (t1, uid1, k1) :: B ++ (t2, uid1, k1) :: C)
      with ((A ++ (t1, uid1, k1) :: B) ++ (t2, uid1, k1) :: C) in Hlog
      by (by rewrite <- app_assoc).
    apply snoc_inv in Hlog as [(-> & -> & [= -> -> ->]) | (C' & -> & ->)].
    + destruct (decide (t2 < t1 + TTLCache.ttl c)) as [Hin | Hout]; [| lia].
      exfalso.
      assert (Hheld : held (cache_key uid1 k1) (t1 + TTLCache.ttl c)
                           (length B) c)
        by (by apply (Hinv A B)).
      rewrite (contains_held _ _ _ _ _ Hwf Hheld) in Hc.
      apply Z.ltb_ge in Hc. lia.
    + apply (Hsp A B C' t1 t2 uid1 k1); [| done]. by rewrite <- app_assoc.
Qed.

Lemma alerts_app e1 e2 : alerts (e1 ++ e2) = alerts e1 ++ alerts e2.
Proof. unfold alerts. apply omap_app. Qed.

Lemma saved_records_app e1 e2 :
  saved_records (e1 ++ e2) = saved_records e1 ++ saved_records e2.
Proof. unfold saved_records. apply omap_app. Qed.

Lemma cooldown_log_app e1 e2 :
  cooldown_log (e1 ++ e2) = cooldown_log e1 ++ cooldown_log e2.
Proof. unfold cooldown_log. apply omap_app. Qed.

Lemma cooldown_loop_inv ev sender chat_id text keywords self log :
  cooldown_inv log (cooldown_cache self) (ev_time ev) ->
  spaced (TTLCache.maxsize (cooldown_cache self))
         (TTLCache.ttl (cooldown_cache self)) log ->
  let r := cooldown_loop ev sender chat_id text keywords self in
  cooldown_inv (log ++ cooldown_log r.2) (cooldown_cache r.1) (ev_time ev)
  /\ spaced (TTLCache.maxsize (cooldown_cache self))
            (TTLCache.ttl (cooldown_cache self)) (log ++ cooldown_log r.2)
  /\ TTLCache.maxsize (cooldown_cache r.1)
     = TTLCache.maxsize (cooldown_cache self)
  /\ TTLCache.ttl (cooldown_cache r.1) = TTLCache.ttl (cooldown_cache self).
Proof.
  revert self log. induction keywords as [|k keywords IH];
    intros self log Hinv Hsp; cbv zeta.
  - simpl. by rewrite app_nil_r.
  - rewrite cooldown_loop_cons.
    destruct (TTLCache.contains _ _ _) eqn:Hc; [by apply IH |].
    cbv zeta.
    destruct (cooldown_alert_step log (cooldown_cache self) (ev_time ev)
                (user_id sender) k Hinv Hsp Hc) as [Hinv' Hsp'].
    destruct (ev_alert_sent ev k).
    + cbn [fst snd].
      match goal with
      | |- context [cooldown_loop _ _ _ _ keywords ?s] =>
          specialize (IH s (log ++ [(ev_time ev, user_id sender, k)]))
      end.
      cbn [cooldown_cache with_records count_matched with_cooldown
           with_stats] in IH.
      rewrite setitem_maxsize, setitem_ttl in IH.
      destruct (IH Hinv' Hsp') as (H1 & H2 & H3 & H4).
      rewrite cooldown_log_app.
      cbn [cooldown_log keyword_effects omap entry_of].
      simpl app. rewrite <- app_assoc in H1, H2. done.
    + cbn [fst snd cooldown_cache count_matched with_cooldown with_stats
           cooldown_log omap entry_of].
      by rewrite setitem_maxsize, setitem_ttl.
Qed.

Lemma handle_new_message_inv ev self log now :
  cooldown_inv log (cooldown_cache self) now ->
  spaced (TTLCache.maxsize (cooldown_cache self))
         (TTLCache.ttl (cooldown_cache self)) log ->
  now <= ev_time ev ->
  let r := handle_new_message ev self in
  cooldown_inv (log ++ cooldown_log r.2) (cooldown_cache r.1) (ev_time ev)
  /\ spaced (TTLCache.maxsize (cooldown_cache self))
            (TTLCache.ttl (cooldown_cache self)) (log ++ cooldown_log r.2)
  /\ TTLCache.maxsize (cooldown_cache r.1)
     = TTLCache.maxsize (cooldown_cache self)
  /\ TTLCache.ttl (cooldown_cache r.1) = TTLCache.ttl (cooldown_cache self).
Proof.
  intros Hinv Hsp Hnow. cbv zeta.
  apply (cooldown_inv_advance _ _ _ (ev_time ev)) in Hinv; [| done].
  destruct (handle_new_message_cases ev self)
    as [(-> & -> & _) | (sender & chat_id & _ & _ & ->)].
  - simpl. by rewrite app_nil_r.
  - match goal with
    | |- context [cooldown_loop ev sender chat_id ?t ?kws ?s] =>
        exact (cooldown_loop_inv ev sender chat_id t kws s log Hinv Hsp)
    end.
Qed.

Lemma run_inv evs self log now :
  cooldown_inv log (cooldown_cache self) now ->
  spaced (TTLCache.maxsize (cooldown_cache self))
         (TTLCache.ttl (cooldown_cache self)) log ->
  nondecreasing now evs ->
  spaced (TTLCache.maxsize (cooldown_cache self))
         (TTLCache.ttl (cooldown_cache self))
         (log ++ cooldown_log (run evs self).2).
Proof.
  revert self log now. induction evs as [|ev evs IH];
    intros self log now Hinv Hsp Hnd.
  - simpl. by rewrite app_nil_r.
  - destruct Hnd as [Hnow Hnd]. rewrite run_cons. cbn [snd].
    destruct (handle_new_message_inv ev self log now Hinv Hsp Hnow)
      as (Hinv' & Hsp' & Hm & Ht).
    rewrite cooldown_log_app, app_assoc. rewrite <- Hm, <- Ht.
    apply (IH _ _ (ev_time ev)); [done | by rewrite Hm, Ht | done].
Qed.

(** A cache with one link per key knows of an empty log all there is to
    know. *)
Lemma cooldown_inv_nil c now : cache_wf c -> cooldown_inv [] c now.
Proof. intros Hwf. split; [done |]. intros A B t uid k Hnil. by destruct A. Qed.

Lemma spaced_nil maxsize ttl : spaced maxsize ttl [].
Proof. intros A B C t1 t2 uid k Hnil. by destruct A. Qed.

(** Alerts lie as far apart as the entries written before them. *)
Lemma spaced_alerts maxsize ttl effects :
  spaced maxsize ttl (cooldown_log effects) ->
  alerts_spaced maxsize ttl effects.
Proof.
  intros Hsp E1 E2 E3 uid k ev1 ev2 -> Hlen.
  apply (Hsp (cooldown_log E1) (cooldown_log E2) (cooldown_log E3)
             (ev_time ev1) (ev_time ev2) uid k); [| done].
  assert (Hcons : forall ev E,
            cooldown_log (SendAlert uid k ev :: E)
            = (ev_time ev, uid, k) :: cooldown_log E) by done.
  by rewrite cooldown_log_app, Hcons, cooldown_log_app, Hcons.
Qed.

Lemma handle_new_message_cooldown_wf ev self :
  cache_wf (cooldown_cache self) ->
  cache_wf (cooldown_cache (handle_new_message ev self).1).
Proof.
  intros Hwf.
  destruct (handle_new_message_inv ev self [] (ev_time ev)
              (cooldown_inv_nil _ _ Hwf) (spaced_nil _ _) (Z.le_refl _))
    as ([Hwf' _] & _).
  done.
Qed.

(** [receive_cooldown] with an accepted value leaves no key under
    cooldown. *)
Lemma receive_cooldown_forgets minutes time key self :
  1 <= minutes <= 60 ->
  TTLCache.contains time key (cooldown_cache (receive_cooldown minutes self))
  = false.
Proof.
  intros Hm. unfold receive_cooldown.
  rewrite (proj2 (Z.leb_le 1 minutes)), (proj2 (Z.leb_le minutes 60)) by lia.
  done.
Qed.

Lemma receive_cooldown_wf minutes self :
  cache_wf (cooldown_cache self) ->
  cache_wf (cooldown_cache (receive_cooldown minutes self)).
Proof.
  intros Hwf. unfold receive_cooldown.
  destruct ((1 <=? minutes) && (minutes <=? 60)); [| done].
  apply NoDup_nil_2.
Qed.

Lemma run_inputs_cons input rest self :
  run_inputs (input :: rest) self
  = ((run_inputs rest (handle_input input self).1).1,
     (handle_input input self).2
       ++ (run_inputs rest (handle_input input self).1).2).
Proof.
  simpl. destruct (handle_input input self) as [s1 e1]. simpl.
  by destruct (run_inputs rest s1).
Qed.

Lemma run_inputs_app inputs1 inputs2 self :
  run_inputs (inputs1 ++ inputs2) self
  = ((run_inputs inputs2 (run_inputs inputs1 self).1).1,
     (run_inputs inputs1 self).2
       ++ (run_inputs inputs2 (run_inputs inputs1 self).1).2).
Proof.
  revert self. induction inputs1 as [|input inputs1 IH]; intros self.
  - simpl. by destruct (run_inputs inputs2 self).
  - rewrite <- app_comm_cons, !run_inputs_cons, IH. cbn [fst snd].
    by rewrite app_assoc.
Qed.

(** Messages alone are handled as [run] handles them. *)
Lemma run_inputs_messages evs self :
  run_inputs (map Message evs) self = run evs self.
Proof.
  revert self. induction evs as [|ev evs IH]; intros self; [done |].
  cbn [map]. rewrite run_inputs_cons, run_cons, IH. done.
Qed.

Lemma run_inputs_wf inputs self :
  cache_wf (cooldown_cache self) ->
  cache_wf (cooldown_cache (run_inputs inputs self).1).
Proof.
  revert self. induction inputs as [|input inputs IH]; intros self Hwf;
    [done |].
  rewrite run_inputs_cons. cbn [fst]. apply IH.
  destruct input as [ev | minutes]; simpl.
  - by apply handle_new_message_cooldown_wf.
  - by apply receive_cooldown_wf.
Qed.

Lemma cooldown_loop_records ev sender chat_id text keywords self :
  map record_alert
      (saved_records (cooldown_loop ev sender chat_id text keywords self).2)
  = alerts (cooldown_loop ev sender chat_id text keywords self).2.
Proof.
  destruct (cooldown_loop_effects ev sender chat_id text keywords self)
    as (tried & _ & ->).
  rewrite alerts_fresh_effects, saved_records_fresh_effects.
  generalize (sent_prefix (ev_alert_sent ev) tried). clear.
  intros sent. induction sent as [|k sent IH]; simpl; [done | by f_equal].
Qed.

Lemma run_records evs self :
  map record_alert (saved_records (run evs self).2)
  = alerts (run evs self).2.
Proof.
  revert self. induction evs as [|ev evs IH]; intros self; [done |].
  rewrite run_cons. cbn [snd].
  rewrite saved_records_app, alerts_app, map_app, IH. f_equal.
  destruct (handle_new_message_cases ev self)
    as [(-> & _) | (sender & chat_id & _ & _ & ->)]; [done |].
  apply cooldown_loop_records.
Qed.

(** C2, as the code has it.  Take any run of the monitor, messages and
    cooldown settings of the admin, and in it a stretch of messages
    [evs], handled at times that do not go back, during which the admin
    does not set the cooldown.  In that stretch two alerts for the same
    sender and keyword are at least one cooldown window apart whenever
    fewer cooldown entries than the cache has room for (10,000 for the
    monitor) were written between them, an entry being written before
    each alert, sent or not; every alert comes with exactly one saved
    record, for the same time, sender and keyword.  A cooldown setting
    that is accepted leaves no key under cooldown.  A message that gets
    as far as the loop, with a keyword list without repetition, room in
    the cache and a positive cooldown: the matched keywords that are out
    of cooldown are tried in order, those under cooldown are skipped;
    each keyword tried gets its own entry and is under cooldown
    afterwards, as are the keys that were before; the alerts and the
    records are those of the keywords tried whose alert is sent, and
    the first alert whose sending raises ends the loop. *)
Theorem one_alert_per_cooldown_window
    (before after : list Input) (evs : list NewMessage) (self : JTBot)
    (now : Z) :
  cache_wf (cooldown_cache self) ->
  nondecreasing now evs ->
  let s1 := (run_inputs before self).1 in
  let effects := (run evs s1).2 in
  (run_inputs (before ++ map Message evs ++ after) self).2
  = (run_inputs before self).2 ++ effects
      ++ (run_inputs after (run evs s1).1).2
  /\ spaced (TTLCache.maxsize (cooldown_cache s1))
            (TTLCache.ttl (cooldown_cache s1)) (cooldown_log effects)
  /\ alerts_spaced (TTLCache.maxsize (cooldown_cache s1))
                   (TTLCache.ttl (cooldown_cache s1)) effects
  /\ map record_alert (saved_records effects) = alerts effects
  /\ (forall minutes time key s,
        1 <= minutes <= 60 ->
        TTLCache.contains time key
          (cooldown_cache (receive_cooldown minutes s)) = false)
  /\ (forall ev sender s,
        reaches_loop ev sender s ->
        NoDup (keyword_manager s) ->
        cache_wf (cooldown_cache s) ->
        cooldown_room s ->
        0 < TTLCache.ttl (cooldown_cache s) ->
        let fresh := fresh_keywords ev sender s in
        let r := handle_new_message ev s in
        cooldown_log r.2
        = map (fun k => (ev_time ev, user_id sender, k))
              (tried_prefix (ev_alert_sent ev) fresh)
        /\ alerts r.2
           = map (fun k => (ev_time ev, user_id sender, k))
                 (sent_prefix (ev_alert_sent ev) fresh)
        /\ saved_records r.2
           = map (trigger_record ev sender
                    (from_option chat_ident 0 (ev_chat ev))
                    (or_empty (ev_text ev)))
                 (sent_prefix (ev_alert_sent ev) fresh)
        /\ (forall k,
              k ∈ tried_prefix (ev_alert_sent ev) fresh ->
              TTLCache.contains (ev_time ev) (cache_key (user_id sender) k)
                                (cooldown_cache r.1) = true)
        /\ (forall key,
              TTLCache.contains (ev_time ev) key (cooldown_cache s) = true ->
              TTLCache.contains (ev_time ev) key (cooldown_cache r.1)
              = true)).
Proof.
  intros Hwf Hnd. cbv zeta.
  pose proof (run_inputs_wf before self Hwf) as Hwf1.
  split; [| split; [| split; [| split; [| split]]]].
  - rewrite !run_inputs_app, run_inputs_messages. cbn [fst snd]. done.
  - apply (run_inv evs _ [] now); [by apply cooldown_inv_nil | | done].
    apply spaced_nil.
  - apply spaced_alerts.
    apply (run_inv evs _ [] now); [by apply cooldown_inv_nil | | done].
    apply spaced_nil.
  - apply run_records.
  - intros minutes time key s Hm. by apply receive_cooldown_forgets.
  - intros ev sender s Hreach Hnodup Hwfs Hroom Httl.
    rewrite (handle_new_message_reaches ev sender s Hreach).
    pose proof (match_sublist (keyword_manager s)
                  (or_empty (ev_text ev))) as Hsub.
    assert (Hnd' : NoDup (KeywordManager.match_ (keyword_manager s)
                            (or_empty (ev_text ev))))
      by exact (sublist_NoDup _ _ Hnodup Hsub).
    assert (Hroom' :
      (length (TTLCache.links (cooldown_cache s))
       + length (KeywordManager.match_ (keyword_manager s)
                   (or_empty (ev_text ev)))
       <= TTLCache.maxsize (cooldown_cache s))%nat).
    { apply sublist_length in Hsub. unfold cooldown_room in Hroom. lia. }
    rewrite (cooldown_loop_exact ev sender _ _ _ _ (cooldown_cache s))
      by done.
    fold (fresh_keywords ev sender s).
    split; [apply cooldown_log_fresh_effects |].
    split; [apply alerts_fresh_effects |].
    split; [apply saved_records_fresh_effects |].
    split.
    + intros k Hk.
      apply (cooldown_loop_entries ev sender _ _ _ _ (cooldown_cache s));
        try done.
      right. fold (fresh_keywords ev sender s).
      by apply list_elem_of_fmap_2.
    + intros key Hkey.
      apply (cooldown_loop_entries ev sender _ _ _ _ (cooldown_cache s));
        try done.
      by left.
Qed.

End Cooldown.

Lemma one_alert_per_cooldown_window_witness :
  alerts_spaced (Z.to_nat 10000) (seconds 120)
    (@run ascii_text [buy_and_sell; buy_again]
       (@run_inputs ascii_text [SetCooldown 2] two_keyword_bot).1).2
  /\ alerts (@run ascii_text [buy_and_sell; buy_again]
               (@run_inputs ascii_text [SetCooldown 2] two_keyword_bot).1).2
     = [(0, 42, u "buy"); (0, 42, u "sell")].
Proof.
  split; [| vm_compute; reflexivity].
  apply (@one_alert_per_cooldown_window ascii_text
           [SetCooldown 2] [] [buy_and_sell; buy_again] two_keyword_bot 0).
  - apply NoDup_nil_2.
  - simpl. unfold seconds. lia.
Defined.

(** ** The caches under a burst *)

Section Burst.
Import TTLCache.

Lemma cache_maxsize_pos : (0 < cache_maxsize)%nat.
Proof. unfold cache_maxsize. lia. Qed.

Lemma setitem_fresh time k v c :
  (0 < maxsize c)%nat ->
  getlink k (expire time (links c)) = None ->
  setitem time k v c
  = Cache (maxsize c) (ttl c)
      (drop (length (expire time (links c)) + 1 - maxsize c)
            (expire time (links c))
       ++ [Link k v (time + ttl c)]).
Proof.
  intros Hm Hg. unfold setitem. destruct (maxsize c) as [|m]; [lia |].
  by rewrite Hg.
Qed.

Lemma expire_valid time ls :
  Forall (fun l => time < expires l) ls -> expire time ls = ls.
Proof.
  destruct 1 as [|l ls Hl _]; simpl; [done |].
  apply Z.ltb_lt in Hl. by rewrite Hl.
Qed.

(** The links of a burst: a window of the last [M] of them. *)
Lemma drop_window {A} (M n : nat) (f : nat -> A) :
  (0 < M)%nat ->
  let ls := drop (n - M) (map f (seq 0 n)) in
  drop (length ls + 1 - M) ls ++ [f n]
  = drop (S n - M) (map f (seq 0 (S n))).
Proof.
  intros HM. cbv zeta.
  rewrite seq_S, map_app. simpl.
  rewrite length_drop, length_map, length_seq.
  rewrite drop_drop.
  rewrite drop_app_le by (rewrite length_map, length_seq; lia).
  do 2 f_equal. lia.
Qed.

Lemma elem_of_window {A B} (g : A -> B) (f : nat -> A) (d n : nat) (x : B) :
  x ∈ map g (drop d (map f (seq 0 n))) ->
  exists i, (d <= i < n)%nat /\ x = g (f i).
Proof.
  intros Hx. apply list_elem_of_fmap in Hx as (y & -> & Hy).
  apply list_elem_of_lookup in Hy as [j Hj].
  rewrite lookup_drop in Hj.
  rewrite list_lookup_fmap in Hj.
  destruct (seq 0 n !! (d + j)%nat) as [i|] eqn:Hi; [| done].
  apply lookup_seq in Hi as [-> Hi]. injection Hj as <-.
  exists (d + j)%nat. split; [lia | done].
Qed.

Lemma msg_key_inj c (i j : nat) :
  msg_key c (Z.of_nat i) = msg_key c (Z.of_nat j) -> i = j.
Proof.
  unfold msg_key. intros Heq. apply app_inv_head in Heq.
  apply app_inv_head in Heq. apply str_of_Z_inj in Heq. lia.
Qed.

Lemma cache_key_inj (i j : nat) k :
  cache_key (Z.of_nat i) k = cache_key (Z.of_nat j) k -> i = j.
Proof.
  unfold cache_key. intros Heq. apply app_inv_tail in Heq.
  apply str_of_Z_inj in Heq. lia.
Qed.

Lemma window_valid {f : nat -> link} time d n :
  (forall i, time < expires (f i)) ->
  Forall (fun l => time < expires l) (drop d (map f (seq 0 n))).
Proof.
  intros Hf. apply Forall_forall. intros l Hl.
  apply list_elem_of_lookup in Hl as [j Hj].
  rewrite lookup_drop, list_lookup_fmap in Hj.
  destruct (seq 0 n !! (d + j)%nat) as [i|]; [| done].
  injection Hj as <-. apply Hf.
Qed.

(** A key of the burst that is outside the window is not in the cache. *)
Lemma window_getlink_cooldown d n j :
  (j < d \/ n <= j)%nat ->
  getlink (cache_key (Z.of_nat j) (u "buy"))
          (drop d (map cooldown_link (seq 0 n))) = None.
Proof.
  intros Hj. apply getlink_None. intros Hin.
  apply (elem_of_window key cooldown_link) in Hin as (i & Hi & Heq).
  apply cache_key_inj in Heq. lia.
Qed.

Lemma window_getlink_processed d n j :
  (j < d \/ n <= j)%nat ->
  getlink (msg_key (-1001) (Z.of_nat j))
          (drop d (map processed_link (seq 0 n))) = None.
Proof.
  intros Hj. apply getlink_None. intros Hin.
  apply (elem_of_window key processed_link) in Hin as (i & Hi & Heq).
  apply msg_key_inj in Heq. lia.
Qed.

Lemma window_contains_cooldown time d n j :
  (j < d \/ n <= j)%nat ->
  contains time (cache_key (Z.of_nat j) (u "buy"))
    (Cache cache_maxsize (seconds 300)
           (drop d (map cooldown_link (seq 0 n)))) = false.
Proof.
  intros Hj. unfold contains. cbn [links].
  by rewrite window_getlink_cooldown.
Qed.

Lemma window_contains_processed time d n j :
  (j < d \/ n <= j)%nat ->
  contains time (msg_key (-1001) (Z.of_nat j))
    (Cache cache_maxsize (seconds 300)
           (drop d (map processed_link (seq 0 n)))) = false.
Proof.
  intros Hj. unfold contains. cbn [links].
  by rewrite window_getlink_processed.
Qed.

(** Inserting the next key of the burst moves the window by one. *)
Lemma window_setitem (f : nat -> link) (k : pystr) n t :
  (forall i, t < expires (f i)) ->
  f n = Link k t (t + seconds 300) ->
  getlink k (drop (n - cache_maxsize) (map f (seq 0 n))) = None ->
  setitem t k t
    (Cache cache_maxsize (seconds 300)
           (drop (n - cache_maxsize) (map f (seq 0 n))))
  = Cache cache_maxsize (seconds 300)
          (drop (S n - cache_maxsize) (map f (seq 0 (S n)))).
Proof.
  intros Hexp Hfn Hg.
  assert (Hvalid : expire t (drop (n - cache_maxsize) (map f (seq 0 n)))
                   = drop (n - cache_maxsize) (map f (seq 0 n)))
    by (by apply expire_valid, window_valid).
  rewrite setitem_fresh; cbn [maxsize ttl links].
  - rewrite Hvalid, <- Hfn. f_equal.
    apply (drop_window cache_maxsize n f cache_maxsize_pos).
  - apply cache_maxsize_pos.
  - by rewrite Hvalid.
Qed.

(** Until the end of the burst no link of it has expired. *)
Lemma flood_time_valid n i :
  (n <= S cache_maxsize)%nat -> flood_time n < flood_time i + seconds 300.
Proof. unfold flood_time, seconds, cache_maxsize. lia. Qed.

End Burst.

Section BurstHandling.

Lemma handle_new_message_loop `{PyText} ev self sender :
  TTLCache.contains (ev_time ev) (msg_key (ev_chat_id ev) (ev_msg_id ev))
                    (processed_messages self) = false ->
  or_empty (ev_text ev) <> [] ->
  ev_sender ev = Some sender ->
  BlacklistManager.is_user_blocked (blacklist_manager self) (user_id sender)
  = false ->
  BlacklistManager.is_chat_blocked (blacklist_manager self)
    (from_option chat_ident 0 (ev_chat ev)) = false ->
  (FilterManager.max_message_length (filter_manager self)
   <? Z.of_nat (length (or_empty (ev_text ev)))) = false ->
  KeywordManager.match_ (keyword_manager self) (or_empty (ev_text ev))
  <> [] ->
  (FilterManager.check_user_filter (filter_manager self) sender).1 = true ->
  handle_new_message ev self
  = cooldown_loop ev sender (from_option chat_ident 0 (ev_chat ev))
      (or_empty (ev_text ev))
      (KeywordManager.match_ (keyword_manager self) (or_empty (ev_text ev)))
      (with_processed (count_received self)
         (TTLCache.setitem (ev_time ev)
            (msg_key (ev_chat_id ev) (ev_msg_id ev)) (ev_time ev)
            (processed_messages self))).
Proof.
  intros Hc Ht Hs Hub Hcb Hlen Hm Hf.
  unfold handle_new_message. simpl. rewrite Hc, Hs.
  destruct (or_empty (ev_text ev)) as [|c0 text]; [done |].
  rewrite Hub, Hcb, Hlen.
  destruct (KeywordManager.match_ _ _) as [|k ks]; [done |].
  by rewrite Hf.
Qed.

Lemma flood_user_passes i :
  (FilterManager.check_user_filter FilterManager.defaults
                                   (flood_user i)).1 = true.
Proof.
  unfold FilterManager.check_user_filter, FilterManager._estimate_account_age.
  cbn [FilterManager.filter_no_username FilterManager.filter_no_avatar
       FilterManager.min_account_age_days FilterManager.defaults
       flood_user user_id user_username user_photo truthy negb andb].
  destruct (Z.of_nat i <? 1000000000); [reflexivity |].
  destruct (Z.of_nat i <? 2000000000); [reflexivity |].
  destruct (Z.of_nat i <? 5000000000); reflexivity.
Qed.

Lemma not_blocked_empty x y :
  BlacklistManager.is_user_blocked BlacklistManager.empty x = false
  /\ BlacklistManager.is_chat_blocked BlacklistManager.empty y = false.
Proof.
  unfold BlacklistManager.is_user_blocked, BlacklistManager.is_chat_blocked.
  split; apply bool_decide_eq_false_2, not_elem_of_empty.
Qed.

Lemma match_buy :
  @KeywordManager.match_ ascii_text [u "buy"; u "sell"] (u "buy")
  = [u "buy"].
Proof. reflexivity. Qed.

(** A message [buy] of a user of the burst, when neither its message key
    nor its cooldown key is in the caches. *)
Lemma handle_buy_message time msg_id sender self :
  keyword_manager self = [u "buy"; u "sell"] ->
  filter_manager self = FilterManager.defaults ->
  blacklist_manager self = BlacklistManager.empty ->
  TTLCache.contains time (msg_key (-1001) (Z.of_nat msg_id))
                    (processed_messages self) = false ->
  TTLCache.contains time (cache_key (Z.of_nat sender) (u "buy"))
                    (cooldown_cache self) = false ->
  let r := @handle_new_message ascii_text (buy_message time msg_id sender)
                               self in
  alerts r.2 = [(time, Z.of_nat sender, u "buy")]
  /\ keyword_manager r.1 = [u "buy"; u "sell"]
  /\ filter_manager r.1 = FilterManager.defaults
  /\ blacklist_manager r.1 = BlacklistManager.empty
  /\ cooldown_cache r.1
     = TTLCache.setitem time (cache_key (Z.of_nat sender) (u "buy")) time
                        (cooldown_cache self)
  /\ processed_messages r.1
     = TTLCache.setitem time (msg_key (-1001) (Z.of_nat msg_id)) time
                        (processed_messages self).
Proof.
  intros Hk Hf Hb Hp Hc. cbv zeta.
  destruct (not_blocked_empty (Z.of_nat sender) 1001) as [Hub Hcb].
  rewrite (@handle_new_message_loop ascii_text (buy_message time msg_id sender)
             self (flood_user sender)).
  - cbn [buy_message ev_text ev_chat ev_time ev_chat_id ev_msg_id or_empty
         default from_option market chat_ident id].
    rewrite Hk, match_buy, cooldown_loop_cons.
    cbn [cooldown_cache with_processed count_received with_stats flood_user
         user_id ev_time buy_message].
    rewrite Hc. cbv zeta. cbn [cooldown_loop fst snd].
    rewrite app_nil_r.
    cbn [keyword_manager filter_manager blacklist_manager cooldown_cache
         processed_messages with_records count_matched with_cooldown
         with_processed count_received with_stats].
    done.
  - exact Hp.
  - done.
  - reflexivity.
  - rewrite Hb. exact Hub.
  - rewrite Hb. exact Hcb.
  - rewrite Hf. reflexivity.
  - cbn [buy_message ev_text or_empty default from_option id].
    by rewrite Hk, match_buy.
  - rewrite Hf. apply flood_user_passes.
Qed.


(** One message of the burst: it raises its alert and moves both windows
    by one. *)
Lemma flood_step n self :
  (n <= S cache_maxsize)%nat ->
  flooded n self ->
  flooded (S n) (@handle_new_message ascii_text (flood_event n) self).1
  /\ alerts (@handle_new_message ascii_text (flood_event n) self).2
     = [(flood_time n, Z.of_nat n, u "buy")].
Proof.
  intros Hn (Hk & Hf & Hb & Hc & Hp). unfold flood_event.
  destruct (handle_buy_message (flood_time n) n n self Hk Hf Hb)
    as (Ha & Hk' & Hf' & Hb' & Hc' & Hp').
  - rewrite Hp. apply window_contains_processed. lia.
  - rewrite Hc. apply window_contains_cooldown. lia.
  - split; [| done]. repeat (split; [done |]). split.
    + rewrite Hc', Hc. apply window_setitem; [| done |].
      * intros i. by apply flood_time_valid.
      * apply window_getlink_cooldown. lia.
    + rewrite Hp', Hp. apply window_setitem; [| done |].
      * intros i. by apply flood_time_valid.
      * apply window_getlink_processed. lia.
Qed.

Lemma flood_run k m self :
  (m + k <= S (S cache_maxsize))%nat ->
  flooded m self ->
  flooded (m + k) (@run ascii_text (map flood_event (seq m k)) self).1.
Proof.
  revert m self. induction k as [|k IH]; intros m self Hmk Hfl.
  - simpl. by rewrite Nat.add_0_r.
  - cbn [seq map]. rewrite run_cons. cbn [fst].
    replace (m + S k)%nat with (S m + k)%nat by lia.
    apply IH; [lia |]. apply flood_step; [lia | done].
Qed.

Lemma flooded_start : flooded 0 two_keyword_bot.
Proof. by repeat split. Qed.

(** After the burst, the keys of its message 0 are in neither cache. *)
Lemma after_burst :
  let s := (@run ascii_text burst two_keyword_bot).1 in
  keyword_manager s = [u "buy"; u "sell"]
  /\ filter_manager s = FilterManager.defaults
  /\ blacklist_manager s = BlacklistManager.empty
  /\ (forall time,
        TTLCache.contains time (cache_key 0 (u "buy")) (cooldown_cache s)
        = false)
  /\ (forall time,
        TTLCache.contains time (msg_key (-1001) 0) (processed_messages s)
        = false)
  /\ (forall time,
        TTLCache.contains time (msg_key (-1001) (Z.of_nat (S cache_maxsize)))
                          (processed_messages s) = false).
Proof.
  cbv zeta. unfold burst.
  assert (Hle : (0 + S cache_maxsize <= S (S cache_maxsize))%nat) by lia.
  pose proof (flood_run (S cache_maxsize) 0 two_keyword_bot Hle flooded_start)
    as Hfl.
  clear Hle. revert Hfl.
  generalize (@run ascii_text (map flood_event (seq 0 (S cache_maxsize)))
                   two_keyword_bot).1.
  intros s (Hk & Hf & Hb & Hc & Hp).
  split; [exact Hk |]. split; [exact Hf |]. split; [exact Hb |].
  split; [| split]; intros time.
  - rewrite Hc. apply (window_contains_cooldown time _ _ 0). lia.
  - rewrite Hp. apply (window_contains_processed time _ _ 0). lia.
  - rewrite Hp. apply window_contains_processed. lia.
Qed.

(** The messages of the burst, and one more after its end, come at times
    that do not go back. *)
Lemma flood_nondecreasing (last : NewMessage) k m now :
  now <= flood_time m ->
  flood_time (m + k) <= ev_time last ->
  nondecreasing now (map flood_event (seq m k) ++ [last]).
Proof.
  revert m now. induction k as [|k IH]; intros m now Hnow Hlast.
  - rewrite Nat.add_0_r in Hlast. simpl. split; [lia | done].
  - cbn [seq map app nondecreasing]. split; [exact Hnow |].
    apply IH.
    + unfold flood_event, buy_message, flood_time. cbn [ev_time]. lia.
    + by replace (S m + k)%nat with (m + S k)%nat by lia.
Qed.

Lemma burst_nondecreasing (last : NewMessage) :
  seconds 201 <= ev_time last -> nondecreasing 0 (burst ++ [last]).
Proof.
  intros Hlast. apply flood_nondecreasing.
  - unfold flood_time. lia.
  - revert Hlast. unfold flood_time, seconds, cache_maxsize. lia.
Qed.

Lemma run_app `{PyText} evs1 evs2 self :
  run (evs1 ++ evs2) self
  = ((run evs2 (run evs1 self).1).1,
     (run evs1 self).2 ++ (run evs2 (run evs1 self).1).2).
Proof.
  revert self. induction evs1 as [|ev evs1 IH]; intros self.
  - simpl. by destruct (run evs2 self).
  - rewrite <- app_comm_cons, !run_cons, IH. cbn [fst snd].
    by rewrite app_assoc.
Qed.

Lemma run_singleton `{PyText} ev self :
  run [ev] self = handle_new_message ev self.
Proof.
  rewrite run_cons. simpl. rewrite app_nil_r.
  by destruct (handle_new_message ev self).
Qed.

Lemma burst_first_alert :
  exists between,
    alerts (@run ascii_text burst two_keyword_bot).2
    = (0, 0, u "buy") :: between.
Proof.
  exists (alerts (@run ascii_text (map flood_event (seq 1 cache_maxsize))
                   (@handle_new_message ascii_text (flood_event 0)
                                        two_keyword_bot).1).2).
  change burst with (flood_event 0 :: map flood_event (seq 1 cache_maxsize)).
  rewrite (@run_cons ascii_text). cbn [snd].
  rewrite alerts_app.
  rewrite (proj2 (flood_step 0 two_keyword_bot (Nat.le_0_l _) flooded_start)).
  reflexivity.
Qed.

End BurstHandling.

(** The burst is 10,001 messages [buy] from as many senders, 20
    milliseconds apart, so that it ends after 200 seconds.  Its message 0
    raises an alert at time 0; the same message, seen again at 201 seconds
    and so inside the dedup window of 300 seconds, is handled a second time
    and raises the alert again: the 10,000 messages that came after it have
    pushed its key out of the dedup cache. *)
Lemma duplicate_processed_after_burst :
  head burst = Some (flood_event 0)
  /\ ev_chat_id first_again = ev_chat_id (flood_event 0)
  /\ ev_msg_id first_again = ev_msg_id (flood_event 0)
  /\ nondecreasing 0 (burst ++ [first_again])
  /\ ev_time first_again
     < ev_time (flood_event 0)
       + TTLCache.ttl (processed_messages two_keyword_bot)
  /\ alerts (@handle_new_message ascii_text (flood_event 0)
                                 two_keyword_bot).2
     = [(0, 0, u "buy")]
  /\ alerts (@handle_new_message ascii_text first_again
               (@run ascii_text burst two_keyword_bot).1).2
     = [(seconds 201, 0, u "buy")].
Proof.
  split; [reflexivity |]. split; [reflexivity |]. split; [reflexivity |].
  split; [by apply burst_nondecreasing |].
  split; [reflexivity |].
  split;
    [exact (proj2 (flood_step 0 two_keyword_bot (Nat.le_0_l _)
                              flooded_start)) |].
  pose proof after_burst as Hab. cbv zeta in Hab. revert Hab.
  generalize (@run ascii_text burst two_keyword_bot).1.
  intros s (Hk & Hf & Hb & Hc & Hp & _).
  destruct (handle_buy_message (seconds 201) 0 0 s Hk Hf Hb
              (Hp (seconds 201)) (Hc (seconds 201))) as (Ha & _).
  exact Ha.
Qed.

(** With the same burst, user 0 raises an alert for [buy] at time 0 and,
    with another message at 201 seconds and so inside the cooldown window
    of 300 seconds, a second one: the 10,000 alerts sent in between have
    pushed the key out of the cooldown cache. *)
Lemma second_alert_after_burst :
  exists between,
    alerts (@run ascii_text (burst ++ [first_sender_again])
                 two_keyword_bot).2
    = (0, 0, u "buy") :: between ++ [(seconds 201, 0, u "buy")]
    /\ nondecreasing 0 (burst ++ [first_sender_again])
    /\ seconds 201 < 0 + TTLCache.ttl (cooldown_cache two_keyword_bot).
Proof.
  destruct burst_first_alert as [between Hbetween]. exists between.
  split; [| split; [by apply burst_nondecreasing | reflexivity]].
  rewrite (@run_app ascii_text). cbn [snd].
  rewrite alerts_app, Hbetween, (@run_singleton ascii_text).
  pose proof after_burst as Hab. cbv zeta in Hab. revert Hab.
  generalize (@run ascii_text burst two_keyword_bot).1.
  intros s (Hk & Hf & Hb & Hc & _ & Hp).
  destruct (handle_buy_message (seconds 201) (S cache_maxsize) 0 s Hk Hf Hb
              (Hp (seconds 201)) (Hc (seconds 201))) as (Ha & _).
  unfold first_sender_again. rewrite Ha. reflexivity.
Qed.

(** ** The gates of the handler over a run *)

Section Gates.
Context `{PyText}.

Lemma match_loop_elem text_lower ks k :
  k ∈ KeywordManager.match_loop text_lower ks
  <-> k ∈ ks /\ contains (lower k) text_lower = true.
Proof.
  induction ks as [|k0 ks IH]; simpl.
  - split; [by intros ?%elem_of_nil | by intros [?%elem_of_nil _]].
  - destruct (contains (lower k0) text_lower) eqn:Hc.
    + rewrite !elem_of_cons, IH. split.
      * intros [-> | [? ?]]; [by split; [left |] | by split; [right |]].
      * intros [[-> | ?] ?]; [by left | by right].
    + rewrite IH, elem_of_cons. split.
      * intros [? ?]. by split; [right |].
      * intros [[-> | ?] ?]; [congruence | done].
Qed.

Lemma match_elem ks text k :
  k ∈ KeywordManager.match_ ks text
  <-> text <> [] /\ k ∈ ks /\ contains (lower k) (lower text) = true.
Proof.
  unfold KeywordManager.match_. destruct text as [|c text].
  - split; [by intros ?%elem_of_nil | by intros [? _]].
  - rewrite match_loop_elem. split; [by intros [? ?] | by intros (_ & ? & ?)].
Qed.

(** The handler leaves the keywords, the filter settings and the
    blacklist as they are. *)
Lemma handle_new_message_frame ev self :
  keyword_manager (handle_new_message ev self).1 = keyword_manager self
  /\ filter_manager (handle_new_message ev self).1 = filter_manager self
  /\ blacklist_manager (handle_new_message ev self).1
     = blacklist_manager self.
Proof.
  unfold handle_new_message. simpl.
  destruct (TTLCache.contains _ _ _); [done |].
  destruct (or_empty (ev_text ev)) as [|c0 text]; [done |].
  destruct (ev_sender ev) as [sender|]; [| done].
  destruct (BlacklistManager.is_user_blocked _ _); [done |].
  destruct (BlacklistManager.is_chat_blocked _ _); [done |].
  destruct (_ <? _); [done |].
  destruct (KeywordManager.match_ _ _) as [|k ks]; [done |].
  destruct (FilterManager.check_user_filter _ _).1; [| done].
  match goal with
  | |- context [cooldown_loop ?e ?sn ?c ?t ?kws ?s] =>
      destruct (cooldown_loop_frame e sn c t kws s) as (H1 & H2 & H3 & _)
  end.
  by rewrite H1, H2, H3.
Qed.

Lemma run_frame evs self :
  keyword_manager (run evs self).1 = keyword_manager self
  /\ filter_manager (run evs self).1 = filter_manager self
  /\ blacklist_manager (run evs self).1 = blacklist_manager self.
Proof.
  revert self. induction evs as [|ev evs IH]; intros self; [done |].
  rewrite run_cons. cbn [fst].
  destruct (IH (handle_new_message ev self).1) as (H1 & H2 & H3).
  destruct (handle_new_message_frame ev self) as (H4 & H5 & H6).
  by rewrite H1, H2, H3, H4, H5, H6.
Qed.

Lemma elem_of_fresh_effects ev sender chat_id text tried uid k ev' :
  SendAlert uid k ev' ∈ fresh_effects ev sender chat_id text tried ->
  ev' = ev /\ uid = user_id sender /\ k ∈ tried.
Proof.
  induction tried as [|k0 tried IH]; simpl.
  - by intros ?%elem_of_nil.
  - destruct (ev_alert_sent ev k0); simpl.
    + rewrite !elem_of_cons. intros [Heq | [Heq | [Heq | Hin]]];
        try discriminate.
      * injection Heq as -> -> ->. split; [done |]. split; [done | by left].
      * destruct (IH Hin) as (? & ? & ?).
        split; [done |]. split; [done | by right].
    + rewrite elem_of_cons. intros [Heq | Hin]; [discriminate |].
      by apply elem_of_nil in Hin.
Qed.

Lemma handle_new_message_gated ev self uid k ev' :
  SendAlert uid k ev' ∈ (handle_new_message ev self).2 ->
  ev' = ev /\ gated self uid k ev.
Proof.
  unfold handle_new_message. simpl.
  destruct (TTLCache.contains _ _ _); [by intros ?%elem_of_nil |].
  destruct (or_empty (ev_text ev)) as [|c0 text] eqn:Ht;
    [by intros ?%elem_of_nil |].
  destruct (ev_sender ev) as [sender|] eqn:Hs; [| by intros ?%elem_of_nil].
  destruct (BlacklistManager.is_user_blocked _ _) eqn:Hub;
    [by intros ?%elem_of_nil |].
  destruct (BlacklistManager.is_chat_blocked _ _) eqn:Hcb;
    [by intros ?%elem_of_nil |].
  destruct (_ <? _) eqn:Hlen; [by intros ?%elem_of_nil |].
  destruct (KeywordManager.match_ _ _) as [|k0 ks] eqn:Hm;
    [by intros ?%elem_of_nil |].
  destruct (FilterManager.check_user_filter _ _).1 eqn:Hf;
    [| by intros ?%elem_of_nil].
  match goal with
  | |- context [cooldown_loop ?e ?sn ?c ?t ?kws ?s] =>
      destruct (cooldown_loop_effects e sn c t kws s) as (passed & Hsub & ->)
  end.
  intros Hin. apply elem_of_fresh_effects in Hin as (-> & -> & Hk).
  split; [done |].
  assert (Hkm : k ∈ KeywordManager.match_ (keyword_manager self) (c0 :: text)).
  { cbn [keyword_manager count_received with_stats with_processed] in Hm.
    rewrite Hm. eapply elem_of_sublist; eassumption. }
  apply match_elem in Hkm as (_ & Hin & Hc).
  exists sender. rewrite Ht.
  cbn [blacklist_manager filter_manager count_received with_stats
       with_processed] in Hub, Hcb, Hlen, Hf.
  split; [done |]. split; [done |]. split; [done |]. split; [done |].
  split; [by apply Z.ltb_ge in Hlen |]. done.
Qed.

(** An alert is never for a sender on the user blacklist of the monitor
    that handled the run. *)
Lemma alerts_blocked_sender evs self uid keyword ev :
  SendAlert uid keyword ev ∈ (run evs self).2 ->
  BlacklistManager.is_user_blocked (blacklist_manager self) uid = false.
Proof.
  revert self. induction evs as [|ev0 evs IH]; intros self.
  - by intros ?%elem_of_nil.
  - rewrite run_cons. cbn [snd]. rewrite elem_of_app.
    intros [Hin | Hin].
    + apply handle_new_message_gated in Hin as [_ (s & _ & _ & Hb & _)].
      done.
    + apply IH in Hin.
      by destruct (handle_new_message_frame ev0 self) as (_ & _ & <-).
Qed.

(** X1.  Over any run of the monitor, every alert is raised for an event
    of the run whose sender is a user, and has passed every gate: the
    sender is not on the user blacklist, the chat is not on the chat
    blacklist, the text is no longer than [max_message_length], the
    sender passes the user filter, and the keyword is one of the
    configured keywords and occurs in the text once both are
    lower-cased. *)
Theorem alerts_pass_every_gate (evs : list NewMessage) (self : JTBot)
    (uid : Z) (keyword : pystr) (ev : NewMessage) :
  SendAlert uid keyword ev ∈ (run evs self).2 ->
  ev ∈ evs /\ gated self uid keyword ev.
Proof.
  revert self. induction evs as [|ev0 evs IH]; intros self.
  - by intros ?%elem_of_nil.
  - rewrite run_cons. cbn [snd]. rewrite elem_of_app.
    intros [Hin | Hin].
    + apply handle_new_message_gated in Hin as [-> Hg].
      split; [by left | done].
    + apply IH in Hin as [Hev (sender & Hg)].
      split; [by right |].
      destruct (handle_new_message_frame ev0 self) as (H1 & H2 & H3).
      exists sender. by rewrite <- H1, <- H2, <- H3.
Qed.

End Gates.

Lemma alerts_pass_every_gate_witness :
  buy_and_sell ∈ [buy_and_sell; buy_again]
  /\ @gated ascii_text two_keyword_bot 42 (u "sell") buy_and_sell.
Proof.
  apply (@alerts_pass_every_gate ascii_text).
  vm_compute. right; right; right; left.
Defined.

(** ** What a run leaves in the counters, the records and the cache *)

Section RunState.
Context `{PyText}.

Lemma cooldown_loop_matched ev sender chat_id text keywords self :
  keywords_matched (stats (cooldown_loop ev sender chat_id text keywords
                                         self).1)
  = keywords_matched (stats self)
    + Z.of_nat (length (cooldown_log (cooldown_loop ev sender chat_id text
                                                    keywords self).2)).
Proof.
  revert self. induction keywords as [|k keywords IH]; intros self.
  - simpl. lia.
  - rewrite cooldown_loop_cons.
    destruct (TTLCache.contains _ _ _); [apply IH |].
    cbv zeta. destruct (ev_alert_sent ev k).
    + cbn [fst snd]. rewrite IH, cooldown_log_app, length_app. simpl. lia.
    + simpl. lia.
Qed.

(** An entry is written for every alert, sent or not. *)
Lemma cooldown_log_length effects :
  length (cooldown_log effects)
  = (length (alerts effects) + length (alerts_not_sent effects))%nat.
Proof.
  induction effects as [|e effects IH]; [done |].
  destruct e; simpl; unfold cooldown_log, alerts, alerts_not_sent in *;
    simpl; lia.
Qed.

Lemma alerts_not_sent_app e1 e2 :
  alerts_not_sent (e1 ++ e2) = alerts_not_sent e1 ++ alerts_not_sent e2.
Proof. unfold alerts_not_sent. apply omap_app. Qed.

Lemma alerts_not_sent_fresh_effects ev sender chat_id text tried :
  (length (alerts_not_sent (fresh_effects ev sender chat_id text tried))
   <= 1)%nat.
Proof.
  induction tried as [|k tried IH]; simpl; [lia |].
  destruct (ev_alert_sent ev k); simpl; [done | lia].
Qed.

Lemma handle_new_message_counts ev self :
  let r := handle_new_message ev self in
  messages_received (stats r.1) = messages_received (stats self) + 1
  /\ keywords_matched (stats r.1)
     = keywords_matched (stats self) + Z.of_nat (length (cooldown_log r.2))
  /\ (length (alerts_not_sent r.2) <= 1)%nat
  /\ ((filtered_count (stats r.1) = filtered_count (stats self))
      \/ (filtered_count (stats r.1) = filtered_count (stats self) + 1
          /\ r.2 = [])).
Proof.
  cbv zeta. unfold handle_new_message. simpl.
  destruct (TTLCache.contains _ _ _);
    [simpl; split; [done |]; split; [lia |]; split; [lia | by left] |].
  destruct (or_empty (ev_text ev)) as [|c0 text];
    [simpl; split; [done |]; split; [lia |]; split; [lia | by left] |].
  destruct (ev_sender ev) as [sender|];
    [| simpl; split; [done |]; split; [lia |]; split; [lia | by left]].
  destruct (BlacklistManager.is_user_blocked _ _);
    [simpl; split; [done |]; split; [lia |]; split; [lia | by right] |].
  destruct (BlacklistManager.is_chat_blocked _ _);
    [simpl; split; [done |]; split; [lia |]; split; [lia | by right] |].
  destruct (_ <? _);
    [simpl; split; [done |]; split; [lia |]; split; [lia | by right] |].
  destruct (KeywordManager.match_ _ _) as [|k ks];
    [simpl; split; [done |]; split; [lia |]; split; [lia | by left] |].
  destruct (FilterManager.check_user_filter _ _).1;
    [| simpl; split; [done |]; split; [lia |]; split; [lia | by right]].
  rewrite cooldown_loop_matched.
  match goal with
  | |- context [cooldown_loop ?e ?sn ?c ?t ?kws ?s] =>
      destruct (cooldown_loop_frame e sn c t kws s)
        as (_ & _ & _ & _ & H5 & H6);
      destruct (cooldown_loop_effects e sn c t kws s) as (tried & _ & Heff)
  end.
  rewrite H5, H6, Heff. simpl. split; [done |]. split; [done |].
  split; [apply alerts_not_sent_fresh_effects | by left].
Qed.

(** X2.  The counters after a run: [messages_received] has grown by the
    number of events, duplicates included; [keywords_matched] has grown
    by the number of alerts sent and of alerts whose sending raised, of
    which there is at most one per event; [filtered_count] has grown by
    at most one per event. *)
Theorem run_counters (evs : list NewMessage) (self : JTBot) :
  let r := run evs self in
  messages_received (stats r.1)
  = messages_received (stats self) + Z.of_nat (length evs)
  /\ keywords_matched (stats r.1)
     = keywords_matched (stats self) + Z.of_nat (length (alerts r.2))
       + Z.of_nat (length (alerts_not_sent r.2))
  /\ (length (alerts_not_sent r.2) <= length evs)%nat
  /\ filtered_count (stats self) <= filtered_count (stats r.1)
     <= filtered_count (stats self) + Z.of_nat (length evs).
Proof.
  cbv zeta. revert self. induction evs as [|ev evs IH]; intros self.
  - simpl. lia.
  - rewrite run_cons. cbn [fst snd].
    destruct (IH (handle_new_message ev self).1) as (H1 & H2 & H3 & H4).
    destruct (handle_new_message_counts ev self) as (H5 & H6 & H7 & H8).
    rewrite cooldown_log_length in H6.
    rewrite H1, H2, H5, H6, alerts_app, alerts_not_sent_app, !length_app.
    cbn [length].
    split; [lia |]. split; [lia |]. split; [lia |].
    destruct H8 as [H8 | [H8 _]]; rewrite H8 in H4; lia.
Qed.

Lemma add_record_last records r :
  RecordManager.add_record records r = last_records (records ++ [r]).
Proof.
  unfold RecordManager.add_record, last_records. cbv zeta.
  destruct (_ <? _)%nat eqn:Hlen; [done |].
  apply Nat.ltb_ge in Hlen.
  by replace (length (records ++ [r]) - Z.to_nat 10000)%nat with O by lia.
Qed.

Lemma last_records_snoc records r :
  last_records (last_records records ++ [r]) = last_records (records ++ [r]).
Proof.
  unfold last_records. rewrite !length_app, length_drop. cbn [length].
  destruct (decide (length records <= Z.to_nat 10000)%nat) as [Hle | Hgt].
  - replace (length records - Z.to_nat 10000)%nat with O by lia.
    by rewrite Nat.sub_0_r.
  - rewrite (drop_app_le records); [| lia].
    rewrite drop_app_le; [| rewrite length_drop; lia].
    rewrite drop_drop. f_equal. f_equal. lia.
Qed.

Lemma foldl_add_record records saved :
  saved <> [] ->
  foldl RecordManager.add_record records saved
  = last_records (records ++ saved).
Proof.
  induction saved as [|r saved IH] using rev_ind; [done |]. intros _.
  rewrite foldl_app. cbn [foldl]. rewrite add_record_last.
  destruct saved as [|r0 saved]; [done |].
  rewrite IH; [| done]. by rewrite last_records_snoc, app_assoc.
Qed.

Lemma cooldown_loop_saved ev sender chat_id text keywords self :
  record_manager (cooldown_loop ev sender chat_id text keywords self).1
  = foldl RecordManager.add_record (record_manager self)
      (saved_records (cooldown_loop ev sender chat_id text keywords self).2).
Proof.
  revert self. induction keywords as [|k keywords IH]; intros self.
  - done.
  - rewrite cooldown_loop_cons.
    destruct (TTLCache.contains _ _ _); [apply IH |].
    cbv zeta. destruct (ev_alert_sent ev k); [| done].
    cbn [fst snd]. rewrite IH, saved_records_app, foldl_app.
    done.
Qed.

Lemma run_saved evs self :
  record_manager (run evs self).1
  = foldl RecordManager.add_record (record_manager self)
      (saved_records (run evs self).2).
Proof.
  revert self. induction evs as [|ev evs IH]; intros self; [done |].
  rewrite run_cons. cbn [fst snd]. rewrite IH, saved_records_app, foldl_app.
  f_equal.
  destruct (handle_new_message_cases ev self)
    as [(-> & _ & ->) | (sender & chat_id & _ & _ & ->)]; [done |].
  by rewrite cooldown_loop_saved.
Qed.

(** X3.  The record store after a run: when the run saved no record the
    store is as it was; otherwise it is the last 10,000 entries of the
    old store followed by the records saved, in the order of the alerts.
    So the store never grows beyond 10,000 records once a record is
    added, the newest records are the ones kept, and the oldest are the
    ones dropped. *)
Theorem run_keeps_last_records (evs : list NewMessage) (self : JTBot) :
  let saved := saved_records (run evs self).2 in
  record_manager (run evs self).1
  = match saved with
    | [] => record_manager self
    | _ :: _ => last_records (record_manager self ++ saved)
    end
  /\ (saved <> [] ->
      (length (record_manager (run evs self).1) <= Z.to_nat 10000)%nat
      /\ last (record_manager (run evs self).1) = last saved).
Proof.
  cbv zeta. rewrite run_saved.
  destruct (saved_records (run evs self).2) as [|r saved] eqn:Hs.
  - done.
  - rewrite foldl_add_record; [| done]. split; [done |]. intros _.
    unfold last_records. split; [rewrite length_drop; lia |].
    assert (Hne : r :: saved <> []) by done.
    destruct (exists_last Hne) as (front & z & ->).
    rewrite last_snoc, app_assoc.
    rewrite drop_app_le; [by rewrite last_snoc |].
    rewrite !length_app. simpl. lia.
Qed.

Lemma cooldown_loop_cache_shape ev sender chat_id text keywords self :
  TTLCache.ttl (cooldown_cache
                  (cooldown_loop ev sender chat_id text keywords self).1)
  = TTLCache.ttl (cooldown_cache self)
  /\ TTLCache.maxsize (cooldown_cache
                  (cooldown_loop ev sender chat_id text keywords self).1)
     = TTLCache.maxsize (cooldown_cache self).
Proof.
  revert self. induction keywords as [|k keywords IH]; intros self.
  - done.
  - rewrite cooldown_loop_cons.
    destruct (TTLCache.contains _ _ _); [apply IH |].
    cbv zeta. destruct (ev_alert_sent ev k).
    + cbn [fst].
      match goal with
      | |- context [cooldown_loop _ _ _ _ keywords ?s] =>
          destruct (IH s) as [H1 H2]
      end.
      rewrite H1, H2. cbn [cooldown_cache with_records count_matched
                           with_stats with_cooldown].
      by rewrite setitem_ttl, setitem_maxsize.
    + cbn [fst cooldown_cache count_matched with_stats with_cooldown].
      by rewrite setitem_ttl, setitem_maxsize.
Qed.

Lemma handle_new_message_synced ev self :
  cooldown_synced self -> cooldown_synced (handle_new_message ev self).1.
Proof.
  intros [Ht Hm]. unfold cooldown_synced.
  destruct (handle_new_message_frame ev self) as (_ & -> & _).
  destruct (handle_new_message_cases ev self)
    as [(_ & -> & _) | (sender & chat_id & _ & _ & ->)]; [done |].
  destruct (cooldown_loop_cache_shape ev sender chat_id
              (or_empty (ev_text ev))
              (KeywordManager.match_ (keyword_manager self)
                                     (or_empty (ev_text ev)))
              (with_processed (count_received self)
                 (TTLCache.setitem (ev_time ev)
                    (msg_key (ev_chat_id ev) (ev_msg_id ev)) (ev_time ev)
                    (processed_messages self)))) as [-> ->].
  done.
Qed.

(** X4.  The cooldown cache follows the configured cooldown: the cache
    that [JTBot.__init__] creates has the configured cooldown as its
    time-to-live and room for 10,000 keys, handling events keeps it so,
    and so does [receive_cooldown].  A value from 1 to 60 is stored and
    replaces the cache by an empty one, so that every cooldown under way
    is forgotten; any other value leaves the monitor as it is. *)
Theorem cooldown_follows_setting :
  (forall keywords fs records bl,
      cooldown_synced (JTBot_init keywords fs records bl))
  /\ (forall evs self,
        cooldown_synced self -> cooldown_synced (run evs self).1)
  /\ (forall minutes self,
        cooldown_synced self ->
        cooldown_synced (receive_cooldown minutes self))
  /\ (forall minutes self,
        1 <= minutes <= 60 ->
        FilterManager.cooldown_minutes
          (filter_manager (receive_cooldown minutes self)) = minutes
        /\ forall time key,
             TTLCache.contains time key
               (cooldown_cache (receive_cooldown minutes self)) = false)
  /\ (forall minutes self,
        ~ 1 <= minutes <= 60 -> receive_cooldown minutes self = self).
Proof.
  split; [done |]. split; [| split; [| split]].
  - intros evs. induction evs as [|ev evs IH]; intros self Hs; [done |].
    rewrite run_cons. cbn [fst]. by apply IH, handle_new_message_synced.
  - intros minutes self Hs. unfold receive_cooldown.
    by destruct ((1 <=? minutes) && (minutes <=? 60)).
  - intros minutes self Hm. unfold receive_cooldown.
    replace ((1 <=? minutes) && (minutes <=? 60)) with true
      by (symmetry; apply andb_true_iff; split; apply Z.leb_le; lia).
    done.
  - intros minutes self Hm. unfold receive_cooldown.
    replace ((1 <=? minutes) && (minutes <=? 60)) with false; [done |].
    symmetry. apply andb_false_iff.
    destruct (decide (1 <= minutes)) as [H1 | H1].
    + right. apply Z.leb_gt. lia.
    + left. apply Z.leb_gt. lia.
Qed.

End RunState.

(** ** Keywords: removal, round trips and the admin handlers *)

Section Strip.

Lemma lstrip_head s :
  lstrip s = [] \/ exists c t, lstrip s = c :: t /\ isspace c = false.
Proof.
  induction s as [|c s IH]; simpl; [by left |].
  destruct (isspace c) eqn:Hc; [done |]. right. by exists c, s.
Qed.

Lemma lstrip_fixed c t : isspace c = false -> lstrip (c :: t) = c :: t.
Proof. intros Hc. simpl. by rewrite Hc. Qed.

Lemma lstrip_idemp s : lstrip (lstrip s) = lstrip s.
Proof.
  destruct (lstrip_head s) as [-> | (c & t & -> & Hc)]; [done |].
  by apply lstrip_fixed.
Qed.

Lemma lstrip_snoc l c : isspace c = false -> lstrip (l ++ [c]) = lstrip l ++ [c].
Proof.
  intros Hc. induction l as [|a l IH]; simpl; [by rewrite Hc |].
  by destruct (isspace a).
Qed.

(** [strip] is idempotent. *)
Lemma strip_idemp s : strip (strip s) = strip s.
Proof.
  unfold strip.
  destruct (lstrip_head s) as [-> | (c & t & -> & Hc)]; [done |].
  rewrite reverse_cons, (lstrip_snoc _ c Hc), reverse_app. simpl.
  rewrite Hc. simpl.
  rewrite reverse_cons, (lstrip_snoc _ c Hc), reverse_app. simpl.
  by rewrite reverse_involutive, lstrip_idemp.
Qed.

End Strip.

Section KeywordHandlers.
Import KeywordManager.

Lemma add_keywords_snoc kws batch k :
  add_keywords kws (batch ++ [k])
  = add_keywords_step (add_keywords kws batch) k.
Proof. by rewrite add_keywords_app. Qed.

Lemma add_keywords_count_le kws batch :
  ((add_keywords kws batch).2 <= length batch)%nat.
Proof.
  induction batch as [|k batch IH] using rev_ind; [done |].
  rewrite add_keywords_snoc, length_app. simpl.
  destruct (add_keywords_step_cases (add_keywords kws batch) k)
    as [[-> _] | [-> _]]; simpl; lia.
Qed.

(** When every keyword of the batch is added, the list is the old one
    followed by the batch, stripped. *)
Lemma add_keywords_all kws batch :
  (add_keywords kws batch).2 = length batch ->
  (add_keywords kws batch).1 = kws ++ map strip batch.
Proof.
  induction batch as [|k batch IH] using rev_ind.
  - intros _. simpl. by rewrite app_nil_r.
  - rewrite add_keywords_snoc, length_app, map_app. simpl.
    pose proof (add_keywords_count_le kws batch) as Hle.
    destruct (add_keywords_step_cases (add_keywords kws batch) k)
      as [[-> _] | [-> _]]; simpl; intros Hn; [lia |].
    rewrite IH; [| lia]. by rewrite app_assoc.
Qed.

(** The batches of which every keyword is added. *)
Lemma add_keywords_all_iff kws batch :
  (add_keywords kws batch).2 = length batch
  <-> NoDup (map strip batch)
      /\ Forall (fun k => strip k <> [] /\ short (strip k) /\ strip k ∉ kws)
                batch.
Proof.
  induction batch as [|k batch IH] using rev_ind.
  - simpl. split; [intros _; split; [apply NoDup_nil_2 | done] | done].
  - rewrite add_keywords_snoc, length_app, map_app, Forall_app. simpl.
    pose proof (add_keywords_count_le kws batch) as Hle.
    destruct (add_keywords_inv kws batch) as ([t Hpre] & _ & _ & Hnew).
    destruct (add_keywords_step_cases (add_keywords kws batch) k)
      as [[-> Hwhy] | [-> (Hs & Hn & Hi)]]; simpl.
    + split; [lia |]. intros (Hnd & _ & Hk). exfalso.
      apply Forall_singleton in Hk as (Hk1 & Hk2 & Hk3).
      destruct Hwhy as [Hlong | [He | Hin]];
        [unfold short in Hk2; lia | done |].
      destruct (Hnew _ Hin) as [Hold | (k0 & Hk0 & Heq & _)]; [done |].
      apply NoDup_app in Hnd as (_ & Hnd & _).
      apply (Hnd (strip k)); [| by left].
      rewrite Heq. apply list_elem_of_fmap. by exists k0.
    + split.
      * intros Hn'. assert (Hall : (add_keywords kws batch).2 = length batch)
          by lia.
        pose proof (add_keywords_all kws batch Hall) as Heq.
        apply IH in Hall as [Hnd Hfa].
        split; [| split; [done |]].
        -- apply NoDup_app. split; [done |].
           split; [| apply NoDup_singleton].
           intros x Hx Hx'. apply list_elem_of_singleton in Hx' as ->.
           apply Hi. rewrite Heq. apply elem_of_app. by right.
        -- apply Forall_singleton. split; [done |]. split; [done |].
           intros Hin. apply Hi. rewrite Hpre. apply elem_of_app. by left.
      * intros (Hnd & Hfa & _).
        apply NoDup_app in Hnd as (Hnd & _ & _).
        assert ((add_keywords kws batch).2 = length batch) by by apply IH.
        lia.
Qed.

(** X5.  The reply of [receive_keywords].  The keywords counted as added
    are never more than the pieces of the message; the reply carries the
    warning about keywords ignored for being longer than 10 characters
    exactly when some piece was not added, and its count is the number of
    pieces not added, whatever the reason: every piece is added only when
    the pieces, once stripped, are pairwise different, not empty, at most
    10 characters long and not yet in the list. *)
Theorem receive_keywords_reply (message_text : pystr) (kws : list pystr) :
  let pieces := map strip (split pipe message_text) in
  let r := add_keywords kws pieces in
  (r.2 <= length pieces)%nat
  /\ receive_keywords message_text kws
     = (r.1,
        if bool_decide (NoDup pieces
                        /\ Forall (fun k => k <> [] /\ short k /\ k ∉ kws)
                                  pieces)
        then added_reply r.2
        else added_reply r.2 ++ ignored_warning (length pieces - r.2)).
Proof.
  cbv zeta. split; [apply add_keywords_count_le |].
  unfold receive_keywords.
  pose proof (add_keywords_count_le kws (map strip (split pipe message_text)))
    as Hle.
  pose proof (add_keywords_all_iff kws (map strip (split pipe message_text)))
    as Hiff.
  assert (Hmap : map strip (map strip (split pipe message_text))
                 = map strip (split pipe message_text)).
  { rewrite map_map. apply map_ext. intros k. apply strip_idemp. }
  rewrite Hmap in Hiff.
  assert (Hfa : Forall (fun k => strip k <> [] /\ short (strip k)
                                 /\ strip k ∉ kws)
                       (map strip (split pipe message_text))
                <-> Forall (fun k => k <> [] /\ short k /\ k ∉ kws)
                           (map strip (split pipe message_text))).
  { rewrite !Forall_fmap. apply Forall_iff. intros k. simpl.
    by rewrite strip_idemp. }
  rewrite Hfa in Hiff.
  destruct (add_keywords kws (map strip (split pipe message_text)))
    as [kws' added]. simpl in *.
  case_bool_decide as Hall.
  - apply Hiff in Hall. rewrite Hall, Nat.ltb_irrefl. done.
  - destruct (added <? _)%nat eqn:Hlt; [done |].
    apply Nat.ltb_ge in Hlt. exfalso. apply Hall, Hiff. lia.
Qed.

Lemma filter_all {A} (P : A -> Prop) `{forall x, Decision (P x)}
    (l : list A) :
  (forall x, x ∈ l -> P x) -> filter P l = l.
Proof.
  induction l as [|y l IH]; intros Hall; [done |].
  rewrite filter_cons_True by (apply Hall; by left).
  f_equal. apply IH. intros x Hx. apply Hall. by right.
Qed.

Lemma filter_ext_in {A} (P Q : A -> Prop) `{forall x, Decision (P x)}
    `{forall x, Decision (Q x)} (l : list A) :
  (forall x, x ∈ l -> P x <-> Q x) -> filter P l = filter Q l.
Proof.
  induction l as [|y l IH]; intros Hall; [done |].
  assert (Hl : filter P l = filter Q l).
  { apply IH. intros x Hx. apply Hall. by right. }
  destruct (decide (P y)) as [Hy | Hy].
  - rewrite (filter_cons_True P) by done.
    rewrite (filter_cons_True Q) by (apply Hall; [by left | done]).
    by rewrite Hl.
  - rewrite (filter_cons_False P) by done.
    rewrite (filter_cons_False Q)
      by (intros HQ; apply Hy, Hall; [by left | done]).
    done.
Qed.

Lemma list_remove_filter x (l : list pystr) :
  NoDup l -> list_remove x l = filter (fun y => y <> x) l.
Proof.
  induction 1 as [|y l Hy Hnd IH]; simpl; [done |].
  unfold str_eqb. case_bool_decide as He.
  - subst y. rewrite filter_cons_False by (by intros ?).
    symmetry. apply filter_all. by intros z Hz ->.
  - rewrite filter_cons_True by done. by rewrite IH.
Qed.

Lemma remove_keyword_filter kws k :
  NoDup kws ->
  remove_keyword kws k
  = (filter (fun y => y <> k) kws, bool_decide (k ∈ kws)).
Proof.
  intros Hnd. unfold remove_keyword. case_bool_decide as Hin.
  - by rewrite list_remove_filter.
  - f_equal. symmetry. apply filter_all. by intros z Hz ->.
Qed.

Lemma filter_not_in_cons (k : pystr) rest (l : list pystr) :
  filter (fun y => y ∉ rest) (filter (fun y => y <> k) l)
  = filter (fun y => y ∉ k :: rest) l.
Proof.
  rewrite list_filter_filter. apply list_filter_iff. intros x.
  rewrite not_elem_of_cons. tauto.
Qed.

Lemma delete_loop_spec keywords req cur deleted not_found :
  NoDup cur ->
  (forall k, k ∈ cur -> k ∈ keywords) ->
  NoDup deleted ->
  (forall k, k ∈ deleted -> k ∉ cur) ->
  let r := delete_loop keywords req (cur, deleted, not_found) in
  r.1.1 = filter (fun k => k ∉ req) cur
  /\ NoDup r.1.2
  /\ (forall k, k ∈ r.1.2 <-> k ∈ deleted \/ (k ∈ req /\ k ∈ cur))
  /\ r.2 = not_found ++ filter (fun k => k ∉ keywords) req.
Proof.
  revert cur deleted not_found.
  induction req as [|kw req IH]; intros cur deleted not_found H1 H2 H3 H4.
  - cbv zeta. simpl. split; [| split; [done |]; split].
    + symmetry. apply filter_all. intros k _ Hk. by apply elem_of_nil in Hk.
    + intros k. split; [by left |]. intros [? | [Hk _]]; [done |].
      by apply elem_of_nil in Hk.
    + by rewrite app_nil_r.
  - cbv zeta. cbn [delete_loop]. case_bool_decide as Hin.
    + rewrite remove_keyword_filter by done.
      assert (Hnd1 : NoDup (filter (fun y => y <> kw) cur))
        by by apply NoDup_filter.
      assert (Hsub1 : forall k, k ∈ filter (fun y => y <> kw) cur ->
                                k ∈ keywords).
      { intros k Hk. apply list_elem_of_filter in Hk as [_ Hk]. by apply H2. }
      case_bool_decide as Hcur.
      * assert (Hnd2 : NoDup (deleted ++ [kw])).
        { apply NoDup_app. split; [done |].
          split; [| apply NoDup_singleton].
          intros x Hx Hx'. apply list_elem_of_singleton in Hx' as ->.
          by apply (H4 kw). }
        assert (Hdis : forall k, k ∈ deleted ++ [kw] ->
                                 k ∉ filter (fun y => y <> kw) cur).
        { intros k Hk Hk'. apply list_elem_of_filter in Hk' as [Hne Hk'].
          apply elem_of_app in Hk as [Hk | Hk].
          - by apply (H4 k).
          - by apply list_elem_of_singleton in Hk. }
        destruct (IH _ _ not_found Hnd1 Hsub1 Hnd2 Hdis)
          as (E1 & E2 & E3 & E4).
        split; [by rewrite E1, filter_not_in_cons |].
        split; [done |]. split.
        -- intros k. rewrite E3, elem_of_app, list_elem_of_singleton,
             list_elem_of_filter, elem_of_cons.
           split.
           ++ intros [[? | ->] | (? & ? & ?)];
                [by left | right; by split; [left |]
                | right; by split; [right |]].
           ++ intros [? | [[-> | ?] ?]]; [by left; left | by left; right |].
              destruct (decide (k = kw)) as [-> | Hne];
                [by left; right | by right].
        -- rewrite E4. f_equal.
           by rewrite filter_cons_False by (intros Hk; by apply Hk).
      * assert (Hdis : forall k, k ∈ deleted ->
                                 k ∉ filter (fun y => y <> kw) cur).
        { intros k Hk Hk'. apply list_elem_of_filter in Hk' as [Hne Hk'].
          by apply (H4 k). }
        destruct (IH _ _ not_found Hnd1 Hsub1 H3 Hdis)
          as (E1 & E2 & E3 & E4).
        split; [by rewrite E1, filter_not_in_cons |].
        split; [done |]. split.
        -- intros k. rewrite E3, list_elem_of_filter, elem_of_cons.
           split.
           ++ intros [? | (? & ? & ?)]; [by left | right; by split; [right |]].
           ++ intros [? | [[-> | ?] ?]]; [by left | done |].
              destruct (decide (k = kw)) as [-> | Hne]; [done | by right].
        -- rewrite E4. f_equal.
           by rewrite filter_cons_False by (intros Hk; by apply Hk).
    + destruct (IH cur deleted (not_found ++ [kw]) H1 H2 H3 H4)
        as (E1 & E2 & E3 & E4).
      assert (Hcur : kw ∉ cur) by (intros Hk; by apply Hin, H2).
      split; [| split; [done |]; split].
      * rewrite E1. apply filter_ext_in. intros x Hx.
        rewrite not_elem_of_cons. split; [| tauto].
        intros Hr. split; [by intros -> | done].
      * intros k. rewrite E3, elem_of_cons.
        split; [intros [? | [? ?]]; [by left | right; by split; [right |]] |].
        intros [? | [[-> | ?] ?]]; [by left | done | by right].
      * rewrite E4, filter_cons_True by done. by rewrite <- app_assoc.
Qed.

(** X6.  [process_delete_keywords] on a keyword list without duplicates.
    After the handler none of the keywords named in the message is left,
    and the other keywords are where they were; [deleted] names each
    keyword that was removed exactly once, however often the message
    names it; [not_found] names the keywords of the message that were not
    in the list, as often as the message names them; the reply is built
    from these two lists. *)
Theorem process_delete_keywords_removes_named
    (message_text : pystr) (kws : list pystr) :
  NoDup kws ->
  let req := keywords_to_delete message_text in
  let r := process_delete_keywords message_text kws in
  r.1.1.1 = filter (fun k => k ∉ req) kws
  /\ NoDup r.1.1.2
  /\ (forall k, k ∈ r.1.1.2 <-> k ∈ req /\ k ∈ kws)
  /\ r.1.2 = filter (fun k => k ∉ kws) req
  /\ r.2 = delete_result_text r.1.1.2 r.1.2.
Proof.
  intros Hnd. cbv zeta. unfold process_delete_keywords.
  destruct (delete_loop_spec kws (keywords_to_delete message_text) kws [] []
              Hnd (fun _ H => H) (NoDup_nil_2)
              (fun k H => False_rect _ (proj1 (elem_of_nil k) H)))
    as (E1 & E2 & E3 & E4).
  destruct (delete_loop kws (keywords_to_delete message_text) (kws, [], []))
    as [[kws' deleted] not_found].
  simpl in *. split; [done |]. split; [done |]. split; [| done].
  intros k. rewrite E3. split; [| by right].
  intros [Hk | ?]; [by apply elem_of_nil in Hk | done].
Qed.

(** X7.  Adding, matching and removing a keyword.  A keyword that, once
    stripped, is not empty, at most 10 characters long and not yet in
    the list is added at the end of the list; from then on it is
    reported for every text in which it occurs once both are
    lower-cased; removing it gives back the list as it was before.  From
    a list without duplicates, a removed keyword is never matched
    afterwards. *)
Theorem keyword_add_match_remove `{PyText} (kws : list pystr)
    (k text : pystr) :
  strip k <> [] -> short (strip k) -> strip k ∉ kws ->
  add_keywords kws [k] = (kws ++ [strip k], 1%nat)
  /\ (text <> [] -> contains (lower (strip k)) (lower text) = true ->
      strip k ∈ match_ (add_keywords kws [k]).1 text)
  /\ remove_keyword (add_keywords kws [k]).1 (strip k) = (kws, true)
  /\ (NoDup kws ->
      forall k0, k0 ∉ match_ (remove_keyword kws k0).1 text).
Proof.
  intros Hne Hs Hnin.
  assert (Hadd : add_keywords kws [k] = (kws ++ [strip k], 1%nat)).
  { unfold add_keywords. cbn [foldl].
    destruct (add_keywords_step_cases (kws, O) k)
      as [[_ Hwhy] | [-> _]]; [| done].
    unfold short in Hs. destruct Hwhy as [? | [? | ?]]; [lia | done | done]. }
  rewrite Hadd. cbn [fst]. split; [done |]. split; [| split].
  - intros Ht Hc. apply match_elem. split; [done |].
    split; [apply elem_of_app; right; by left | done].
  - unfold remove_keyword. rewrite bool_decide_eq_true_2
      by (apply elem_of_app; right; by left).
    f_equal. clear Hadd. induction kws as [|y kws IH]; simpl.
    + unfold str_eqb. by rewrite bool_decide_eq_true_2.
    + unfold str_eqb. rewrite bool_decide_eq_false_2
        by (intros ->; apply Hnin; by left).
      f_equal. apply IH. intros Hin. apply Hnin. by right.
  - intros Hnd k0 Hin. rewrite remove_keyword_filter in Hin by done.
    apply match_elem in Hin as (_ & Hin & _).
    by apply list_elem_of_filter in Hin as [Hk0 _].
Qed.

End KeywordHandlers.

Lemma process_delete_keywords_removes_named_witness :
  process_delete_keywords (u "sell| rent |sell") [u "buy"; u "sell"]
  = ([u "buy"], [u "sell"], [u "rent"],
     delete_result_text [u "sell"] [u "rent"])
  /\ (process_delete_keywords (u "sell| rent |sell")
                              [u "buy"; u "sell"]).1.2
     = filter (fun k => k ∉ [u "buy"; u "sell"])
              (keywords_to_delete (u "sell| rent |sell")).
Proof.
  split; [vm_compute; reflexivity |].
  apply (process_delete_keywords_removes_named (u "sell| rent |sell")
           [u "buy"; u "sell"]).
  apply (bool_decide_unpack _). vm_compute. exact I.
Defined.

Lemma keyword_add_match_remove_witness :
  KeywordManager.add_keywords [u "buy"] [u " Sell "]
  = ([u "buy"; u "Sell"], 1%nat)
  /\ u "Sell"
     ∈ @KeywordManager.match_ ascii_text [u "buy"; u "Sell"] (u "I SELL it").
Proof.
  destruct (@keyword_add_match_remove ascii_text [u "buy"] (u " Sell ")
              (u "I SELL it")) as (H1 & H2 & _).
  - vm_compute. discriminate.
  - vm_compute. lia.
  - apply (bool_decide_unpack _). vm_compute. exact I.
  - split; [exact H1 |]. rewrite H1 in H2. apply H2.
    + vm_compute. discriminate.
    + vm_compute. reflexivity.
Defined.

(** ** The user filter and the record store *)

(** X8.  The age check of [check_user_filter].  A user passes the filter
    exactly when the user name and avatar checks that are switched on are
    met and the estimated age reaches the configured minimum.  The
    estimate depends on the user id alone, takes one of four values
    between 30 and 1825 days and does not grow with the id; so a minimum
    of 30 days or less rejects nobody for age, and a minimum above 1825
    days rejects everybody. *)
Theorem check_user_filter_age (self : FilterManager.settings) (user : User) :
  let passed := (FilterManager.check_user_filter self user).1 in
  let profile :=
    (FilterManager.filter_no_username self = true ->
     truthy (user_username user) = true)
    /\ (FilterManager.filter_no_avatar self = true ->
        user_photo user = true) in
  let age := FilterManager._estimate_account_age (user_id user) in
  (passed = true
   <-> profile /\ (FilterManager.min_account_age_days self <= 0
                   \/ FilterManager.min_account_age_days self <= age))
  /\ age ∈ [365 * 5; 365 * 2; 180; 30]
  /\ (forall uid, user_id user <= uid ->
        FilterManager._estimate_account_age uid <= age)
  /\ (FilterManager.min_account_age_days self <= 30 ->
      (passed = true <-> profile))
  /\ (365 * 5 < FilterManager.min_account_age_days self -> passed = false).
Proof.
  cbv zeta.
  assert (Hage : FilterManager._estimate_account_age (user_id user)
                 ∈ [365 * 5; 365 * 2; 180; 30]).
  { unfold FilterManager._estimate_account_age.
    repeat (destruct (_ <? _); [set_solver |]). set_solver. }
  assert (Hmain :
    (FilterManager.check_user_filter self user).1 = true
    <-> ((FilterManager.filter_no_username self = true ->
          truthy (user_username user) = true)
         /\ (FilterManager.filter_no_avatar self = true ->
             user_photo user = true))
        /\ (FilterManager.min_account_age_days self <= 0
            \/ FilterManager.min_account_age_days self
               <= FilterManager._estimate_account_age (user_id user))).
  { unfold FilterManager.check_user_filter.
    destruct (FilterManager.filter_no_username self) eqn:Hu,
             (truthy (user_username user)) eqn:Ht; simpl;
      try (split; [done | intros [[Hx _] _]; by specialize (Hx eq_refl)]);
      (destruct (FilterManager.filter_no_avatar self) eqn:Ha,
                (user_photo user) eqn:Hp; simpl;
       try (split; [done | intros [[_ Hy] _]; by specialize (Hy eq_refl)]));
      (destruct (Z.ltb_spec 0 (FilterManager.min_account_age_days self));
       simpl;
       [ destruct (Z.ltb_spec
                     (FilterManager._estimate_account_age (user_id user))
                     (FilterManager.min_account_age_days self)); simpl;
         [ split; [done | intros [_ [? | ?]]; lia]
         | split; [intros _; split; [by split | by right] | done] ]
       | split; [intros _; split; [by split | by left] | done] ]). }
  split; [exact Hmain |]. split; [exact Hage |]. split; [| split].
  - intros uid Hle. unfold FilterManager._estimate_account_age.
    repeat match goal with
           | |- context [?a <? ?b] => destruct (Z.ltb_spec a b)
           end; lia.
  - intros Hmin. rewrite Hmain. split; [by intros [? _] |].
    intros Hp. split; [done |]. right.
    repeat (apply elem_of_cons in Hage as [-> | Hage]; [lia |]).
    by apply elem_of_nil in Hage.
  - intros Hmin. apply not_true_is_false. rewrite Hmain. intros [_ [? | ?]].
    + lia.
    + repeat (apply elem_of_cons in Hage as [Hage | Hage]; [lia |]).
      by apply elem_of_nil in Hage.
Qed.

(** X9.  [get_recent_records(limit)] is [records[-limit:]].  For a
    positive [limit] it returns the last [limit] records, or all of them
    when there are fewer; for [limit = 0] it returns every record, not
    none; for a negative [limit] it leaves out the first [-limit]
    records. *)
Theorem get_recent_records_slice {A} (records : list A) (limit : Z) :
  (0 < limit ->
   get_recent_records records limit
   = drop (length records - Z.to_nat limit) records
   /\ length (get_recent_records records limit)
      = Nat.min (length records) (Z.to_nat limit))
  /\ (limit = 0 -> get_recent_records records limit = records)
  /\ (limit < 0 ->
      get_recent_records records limit = drop (Z.to_nat (- limit)) records).
Proof.
  unfold get_recent_records, slice_from. split; [| split].
  - intros Hpos. replace (- limit <? 0) with true
      by (symmetry; apply Z.ltb_lt; lia).
    replace (Z.to_nat (Z.max 0 (Z.of_nat (length records) + - limit)))
      with (length records - Z.to_nat limit)%nat by lia.
    split; [done |]. rewrite length_drop. lia.
  - intros ->. done.
  - intros Hneg. replace (- limit <? 0) with false; [done |].
    symmetry. apply Z.ltb_ge. lia.
Qed.

Section FilterRecords.
Context `{PyClock}.

Lemma in_time_range_spec start_time end_time record :
  fromisoformat (isoformat (RecordManager.r_time record))
  = Some (RecordManager.r_time record) ->
  in_time_range start_time end_time record = true
  <-> (forall s, start_time = Some s -> s <= RecordManager.r_time record)
      /\ (forall e, end_time = Some e -> RecordManager.r_time record <= e).
Proof.
  intros Hrt. unfold in_time_range. rewrite Hrt.
  destruct start_time as [s|], end_time as [e|];
    repeat match goal with
           | |- context [?a <? ?b] => destruct (Z.ltb_spec a b); simpl
           end;
    (split;
     [ try done; intros _; split; intros ? [= <-]; lia
     | intros [Hlo Hhi]; try done;
       try (specialize (Hlo _ eq_refl)); try (specialize (Hhi _ eq_refl));
       lia ]).
Qed.

(** X10.  [filter_records].  The result keeps the order of the store and
    holds no record that is not in it; without bounds and keywords, or
    with an empty keyword list, nothing is filtered.  For records whose
    time is read back as it was written, a record is in the result
    exactly when its time is not before the start bound, not after the
    end bound (both bounds included), and its keyword is one of the
    keywords given, where a bound or keyword list that is not given, or
    an empty keyword list, does not restrict. *)
Theorem filter_records_selects (start_time end_time : option Z)
    (keywords : option (list pystr))
    (records : list RecordManager.record) :
  Forall (fun r => fromisoformat (isoformat (RecordManager.r_time r))
                   = Some (RecordManager.r_time r)) records ->
  sublist (filter_records start_time end_time keywords records) records
  /\ filter_records None None None records = records
  /\ filter_records start_time end_time (Some []) records
     = filter_records start_time end_time None records
  /\ forall r,
       r ∈ filter_records start_time end_time keywords records
       <-> r ∈ records
           /\ (forall s, start_time = Some s -> s <= RecordManager.r_time r)
           /\ (forall e, end_time = Some e -> RecordManager.r_time r <= e)
           /\ (forall kws, keywords = Some kws -> kws <> [] ->
                 RecordManager.r_keyword r ∈ kws).
Proof.
  intros Hrt. split; [| split; [done | split; [done |]]].
  - unfold filter_records.
    assert (Hs : sublist
                   (match start_time, end_time with
                    | None, None => records
                    | _, _ =>
                        filter (fun record =>
                                  in_time_range start_time end_time record
                                  = true) records
                    end) records).
    { destruct start_time, end_time; try apply sublist_filter; done. }
    destruct keywords as [[|k kws]|]; try done.
    etrans; [apply sublist_filter | done].
  - intros r.
    assert (Htime : forall r,
              r ∈ (match start_time, end_time with
                   | None, None => records
                   | _, _ =>
                       filter (fun record =>
                                 in_time_range start_time end_time record
                                 = true) records
                   end)
              <-> r ∈ records
                  /\ (forall s, start_time = Some s ->
                                s <= RecordManager.r_time r)
                  /\ (forall e, end_time = Some e ->
                                RecordManager.r_time r <= e)).
    { intros r0.
      assert (Hf : r0 ∈ filter (fun record =>
                                  in_time_range start_time end_time record
                                  = true) records
                   <-> r0 ∈ records
                       /\ (forall s, start_time = Some s ->
                                     s <= RecordManager.r_time r0)
                       /\ (forall e, end_time = Some e ->
                                     RecordManager.r_time r0 <= e)).
      { rewrite list_elem_of_filter. split.
        - intros [Hin Hr0]. split; [done |].
          apply in_time_range_spec; [| done].
          by eapply Forall_forall in Hrt.
        - intros [Hr0 Hin]. split; [| done].
          apply in_time_range_spec; [| done].
          by eapply Forall_forall in Hrt. }
      destruct start_time, end_time; try exact Hf.
      split; [intros ?; by split | by intros [? _]]. }
    unfold filter_records.
    destruct keywords as [[|k kws]|].
    + rewrite Htime. split.
      * intros (? & ? & ?). repeat (split; [done |]). by intros ? [= <-].
      * intros (? & ? & ? & _). done.
    + rewrite list_elem_of_filter, Htime. split.
      * intros (Hk & ? & ? & ?). repeat (split; [done |]).
        by intros ? [= <-] _.
      * intros (? & ? & ? & Hk). split; [by apply Hk | done].
    + rewrite Htime. split.
      * intros (? & ? & ?). repeat (split; [done |]). by intros ? [=].
      * intros (? & ? & ? & _). done.
Qed.

End FilterRecords.

Lemma filter_records_selects_witness :
  let r1 := trigger_record buy_and_sell bob 1001 (u "Buy and sell")
                           (u "buy") in
  let r2 := trigger_record buy_again bob 1001 (u "buy") (u "buy") in
  @filter_records decimal_clock (Some (seconds 1)) None (Some [])
                  [r1; r2]
  = @filter_records decimal_clock (Some (seconds 1)) None None [r1; r2].
Proof.
  cbv zeta.
  apply (@filter_records_selects decimal_clock (Some (seconds 1)) None None).
  repeat constructor.
Defined.

(** ** BlacklistManager *)

Section BlacklistProps.
Import Blacklist.
Context `{PyClock}.

Lemma pop_first_None wanted l :
  pop_first wanted l = None <-> wanted ∉ map entry_id l.
Proof.
  induction l as [|e l IH]; simpl.
  - split; [intros _; apply not_elem_of_nil | done].
  - destruct (Z.eqb_spec (entry_id e) wanted) as [-> | Hne].
    + split; [done |]. intros Hn. exfalso. apply Hn. by left.
    + rewrite not_elem_of_cons. destruct (pop_first wanted l).
      * split; [done |]. intros [_ Hn]. by apply IH in Hn.
      * split; [| done]. intros _. split; [done | by apply IH].
Qed.

Lemma pop_first_Some wanted l l' :
  pop_first wanted l = Some l' ->
  exists pre e post,
    l = pre ++ e :: post /\ l' = pre ++ post /\ entry_id e = wanted
    /\ wanted ∉ map entry_id pre.
Proof.
  revert l'. induction l as [|e l IH]; intros l'; simpl; [done |].
  destruct (Z.eqb_spec (entry_id e) wanted) as [He | Hne].
  - intros [= <-]. exists [], e, l. split; [done |]. split; [done |].
    split; [done | apply not_elem_of_nil].
  - destruct (pop_first wanted l) as [l''|]; [| done].
    intros [= <-]. destruct (IH l'' eq_refl) as (pre & e0 & post & -> & -> & ? & ?).
    exists (e :: pre), e0, post. split; [done |]. split; [done |].
    split; [done |]. simpl. by apply not_elem_of_cons.
Qed.

(** Popping the first entry of an id from a list without a second one:
    the id is gone and the ids are otherwise the same. *)
Lemma pop_first_ids wanted l l' :
  NoDup (map entry_id l) ->
  pop_first wanted l = Some l' ->
  NoDup (map entry_id l')
  /\ (list_to_set (map entry_id l') : gset Z)
     = list_to_set (map entry_id l) ∖ {[ wanted ]}.
Proof.
  intros Hnd Hp.
  destruct (pop_first_Some _ _ _ Hp) as (pre & e & post & -> & -> & <- & Hpre).
  rewrite map_app in Hnd. simpl in Hnd.
  apply NoDup_app in Hnd as (Hnd1 & Hdis & Hnd2).
  apply NoDup_cons in Hnd2 as [Hpost Hnd2].
  split.
  - rewrite map_app. apply NoDup_app. split; [done |]. split; [| done].
    intros x Hx Hx'. apply (Hdis x Hx). by right.
  - rewrite !map_app. simpl. rewrite !list_to_set_app_L. simpl.
    apply set_eq. intros x.
    rewrite !elem_of_union, elem_of_difference, !elem_of_union,
      !elem_of_list_to_set, elem_of_singleton.
    split.
    + intros [Hx | Hx]; (split; [tauto |]); by intros ->.
    + intros [[Hx | [Hx | Hx]] Hne]; [by left | done | by right].
Qed.

Lemma add_user_inv now user_id username self :
  blacklist_inv self -> blacklist_inv (add_user now user_id username self).1.
Proof.
  intros (Hu & Hc & Hnu & Hnc). unfold add_user.
  case_bool_decide as Hin; [done |]. unfold blacklist_inv. simpl.
  rewrite map_app, list_to_set_app_L. simpl.
  split; [by rewrite Hu, union_empty_r_L |]. split; [done |]. split; [| done].
  apply NoDup_app. split; [done |]. split; [| apply NoDup_singleton].
  intros x Hx Hx'. apply list_elem_of_singleton in Hx' as ->.
  apply Hin. rewrite Hu. by apply elem_of_list_to_set.
Qed.

Lemma add_chat_inv now chat_id title self :
  blacklist_inv self -> blacklist_inv (add_chat now chat_id title self).1.
Proof.
  intros (Hu & Hc & Hnu & Hnc). unfold add_chat.
  case_bool_decide as Hin; [done |]. unfold blacklist_inv. simpl.
  rewrite map_app, list_to_set_app_L. simpl.
  split; [done |]. split; [by rewrite Hc, union_empty_r_L |]. split; [done |].
  apply NoDup_app. split; [done |]. split; [| apply NoDup_singleton].
  intros x Hx Hx'. apply list_elem_of_singleton in Hx' as ->.
  apply Hin. rewrite Hc. by apply elem_of_list_to_set.
Qed.

Lemma remove_user_inv user_id self :
  blacklist_inv self -> blacklist_inv (remove_user user_id self).1.
Proof.
  intros (Hu & Hc & Hnu & Hnc). unfold remove_user.
  destruct (pop_first user_id (users self)) as [users'|] eqn:Hp; [| done].
  destruct (pop_first_ids _ _ _ Hnu Hp) as [Hnd Hset].
  unfold blacklist_inv. simpl. by rewrite Hset, Hu.
Qed.

Lemma remove_chat_inv chat_id self :
  blacklist_inv self -> blacklist_inv (remove_chat chat_id self).1.
Proof.
  intros (Hu & Hc & Hnu & Hnc). unfold remove_chat.
  destruct (pop_first chat_id (chats self)) as [chats'|] eqn:Hp; [| done].
  destruct (pop_first_ids _ _ _ Hnc Hp) as [Hnd Hset].
  unfold blacklist_inv. simpl. by rewrite Hset, Hc.
Qed.

(** X11.  The lists of the blacklist and its lookup sets stay in step.
    A blacklist loaded from lists that name no id twice has, in each
    set, exactly the ids of the corresponding list; adding and removing
    users and chats and clearing either list keep this, and keep each id
    listed once. *)
Theorem blacklist_sets_follow_lists :
  (forall users chats,
      NoDup (map entry_id users) -> NoDup (map entry_id chats) ->
      blacklist_inv (load_blacklist users chats))
  /\ (forall self, blacklist_inv self ->
        (forall now user_id username,
            blacklist_inv (add_user now user_id username self).1)
        /\ (forall now chat_id title,
              blacklist_inv (add_chat now chat_id title self).1)
        /\ (forall user_id, blacklist_inv (remove_user user_id self).1)
        /\ (forall chat_id, blacklist_inv (remove_chat chat_id self).1)
        /\ blacklist_inv (clear_users self)
        /\ blacklist_inv (clear_chats self)).
Proof.
  split; [done |]. intros self Hinv.
  split; [intros; by apply add_user_inv |].
  split; [intros; by apply add_chat_inv |].
  split; [intros; by apply remove_user_inv |].
  split; [intros; by apply remove_chat_inv |].
  destruct Hinv as (Hu & Hc & Hnu & Hnc).
  split; (split; [done |]; split; [done |]; split;
          [done || apply NoDup_nil_2 | done || apply NoDup_nil_2]).
Qed.

Lemma remove_user_spec user_id self :
  blacklist_inv self ->
  (remove_user user_id self).2 = is_user_blocked self user_id
  /\ (forall uid,
        is_user_blocked (remove_user user_id self).1 uid
        = if bool_decide (uid = user_id) then false
          else is_user_blocked self uid)
  /\ (forall cid,
        is_chat_blocked (remove_user user_id self).1 cid
        = is_chat_blocked self cid).
Proof.
  intros (Hu & Hc & Hnu & Hnc).
  unfold remove_user, is_user_blocked, is_chat_blocked,
    BlacklistManager.is_user_blocked, BlacklistManager.is_chat_blocked.
  destruct (pop_first user_id (users self)) as [users'|] eqn:Hp; simpl.
  - assert (Hin : user_id ∈ BlacklistManager._user_ids (sets self)).
    { rewrite Hu. apply elem_of_list_to_set.
      destruct (decide (user_id ∈ map entry_id (users self))); [done |].
      apply pop_first_None in n. congruence. }
    split; [by rewrite bool_decide_eq_true_2 |]. split; [| done].
    intros uid. destruct (decide (uid = user_id)) as [-> | Hne].
    + rewrite (bool_decide_eq_true_2 (user_id = user_id)) by done.
      apply bool_decide_eq_false_2.
      rewrite elem_of_difference, elem_of_singleton. by intros [_ ?].
    + rewrite (bool_decide_eq_false_2 (uid = user_id)) by done.
      apply bool_decide_ext.
      rewrite elem_of_difference, elem_of_singleton. tauto.
  - apply pop_first_None in Hp.
    assert (Hin : user_id ∉ BlacklistManager._user_ids (sets self)).
    { rewrite Hu. by rewrite elem_of_list_to_set. }
    split; [by rewrite bool_decide_eq_false_2 |]. split; [| done].
    intros uid. destruct (decide (uid = user_id)) as [-> | Hne].
    + rewrite (bool_decide_eq_true_2 (user_id = user_id)) by done.
      by apply bool_decide_eq_false_2.
    + by rewrite (bool_decide_eq_false_2 (uid = user_id)) by done.
Qed.

End BlacklistProps.

Section Blocking.
Context `{PyClock} `{PyText}.
Import Blacklist.

(** X12.  Blocking and unblocking a user.  [add_user] answers [False]
    exactly when the user is already blocked, and afterwards the user is
    blocked and nobody else's status has changed; from then on no run of
    the monitor raises an alert for that user.  On a blacklist whose
    lists and sets agree, [remove_user] answers whether the user was
    blocked, afterwards the user is not blocked, and the other users and
    the chats are as before. *)
Theorem block_and_unblock_user (now user_id : Z) (username : pystr)
    (self : Blacklist.t) :
  (add_user now user_id username self).2
  = negb (is_user_blocked self user_id)
  /\ (forall uid,
        is_user_blocked (add_user now user_id username self).1 uid
        = if bool_decide (uid = user_id) then true
          else is_user_blocked self uid)
  /\ (forall evs bot keyword ev,
        SendAlert user_id keyword ev
        ∉ (run evs (with_blacklist bot
                      (add_user now user_id username self).1)).2)
  /\ (blacklist_inv self ->
      (remove_user user_id self).2 = is_user_blocked self user_id
      /\ (forall uid,
            is_user_blocked (remove_user user_id self).1 uid
            = if bool_decide (uid = user_id) then false
              else is_user_blocked self uid)
      /\ (forall cid,
            is_chat_blocked (remove_user user_id self).1 cid
            = is_chat_blocked self cid)).
Proof.
  assert (Hblocked : forall uid,
    is_user_blocked (add_user now user_id username self).1 uid
    = if bool_decide (uid = user_id) then true
      else is_user_blocked self uid).
  { intros uid. unfold add_user, is_user_blocked,
      BlacklistManager.is_user_blocked.
    destruct (decide (user_id ∈ BlacklistManager._user_ids (sets self)))
      as [Hin | Hin].
    - rewrite (bool_decide_eq_true_2 _ Hin). simpl.
      destruct (decide (uid = user_id)) as [-> | Hne].
      + rewrite (bool_decide_eq_true_2 (user_id = user_id)) by done.
        by apply bool_decide_eq_true_2.
      + by rewrite (bool_decide_eq_false_2 (uid = user_id)) by done.
    - rewrite (bool_decide_eq_false_2 _ Hin). simpl.
      destruct (decide (uid = user_id)) as [-> | Hne].
      + rewrite (bool_decide_eq_true_2 (user_id = user_id)) by done.
        apply bool_decide_eq_true_2, elem_of_union. right.
        by apply elem_of_singleton.
      + rewrite (bool_decide_eq_false_2 (uid = user_id)) by done.
        apply bool_decide_ext.
        rewrite elem_of_union, elem_of_singleton. tauto. }
  split; [| split; [exact Hblocked | split]].
  - unfold add_user, is_user_blocked, BlacklistManager.is_user_blocked.
    by case_bool_decide.
  - intros evs bot keyword ev Hin.
    apply alerts_blocked_sender in Hin.
    cbn [blacklist_manager with_blacklist] in Hin.
    specialize (Hblocked user_id). unfold is_user_blocked in Hblocked.
    rewrite (bool_decide_eq_true_2 (user_id = user_id)) in Hblocked by done.
    congruence.
  - apply remove_user_spec.
Qed.

End Blocking.

(** ** AccountManager *)

Lemma str_eqb_true (x y : pystr) : x = y -> str_eqb x y = true.
Proof. intros. unfold str_eqb. by apply bool_decide_eq_true_2. Qed.

Lemma str_eqb_false (x y : pystr) : x <> y -> str_eqb x y = false.
Proof. intros. unfold str_eqb. by apply bool_decide_eq_false_2. Qed.

Section MonitoringAccounts.
Import AccountManager.
Context `{PyClock}.

Lemma existsb_phone p l :
  existsb (fun acc => str_eqb (phone acc) p) l = true <-> p ∈ map phone l.
Proof.
  induction l as [|a l IH]; simpl.
  - split; [done | by intros ?%elem_of_nil].
  - rewrite orb_true_iff, IH, elem_of_cons. unfold str_eqb.
    rewrite bool_decide_eq_true. split; (intros [-> | ?]; [by left | by right]).
Qed.

Lemma find_phone_None p l : find_phone p l = None <-> p ∉ map phone l.
Proof.
  induction l as [|a l IH]; simpl.
  - split; [intros _; apply not_elem_of_nil | done].
  - unfold str_eqb. case_bool_decide as He.
    + split; [done |]. intros Hn. exfalso. apply Hn. rewrite He. by left.
    + rewrite IH, not_elem_of_cons. split; [by split | by intros [_ ?]].
Qed.

Lemma find_phone_snoc p l acc :
  p ∉ map phone l -> phone acc = p -> find_phone p (l ++ [acc]) = Some acc.
Proof.
  intros Hn Hp. induction l as [|a l IH]; simpl.
  - unfold str_eqb. by rewrite bool_decide_eq_true_2.
  - simpl in Hn. apply not_elem_of_cons in Hn as [Hne Hn].
    unfold str_eqb. rewrite bool_decide_eq_false_2 by done. by apply IH.
Qed.

Lemma find_phone_snoc_ne q l acc :
  phone acc <> q -> find_phone q (l ++ [acc]) = find_phone q l.
Proof.
  intros Hne. induction l as [|a l IH]; simpl.
  - unfold str_eqb. by rewrite bool_decide_eq_false_2.
  - by destruct (str_eqb (phone a) q).
Qed.

Lemma pop_phone_None p l : pop_phone p l = None <-> p ∉ map phone l.
Proof.
  induction l as [|a l IH]; simpl.
  - split; [intros _; apply not_elem_of_nil | done].
  - unfold str_eqb. case_bool_decide as He.
    + split; [done |]. intros Hn. exfalso. apply Hn. rewrite He. by left.
    + rewrite not_elem_of_cons. destruct (pop_phone p l).
      * split; [done |]. intros [_ Hn]. by apply IH in Hn.
      * split; [| done]. intros _. split; [done | by apply IH].
Qed.

Lemma pop_phone_Some p l l' :
  pop_phone p l = Some l' ->
  length l = S (length l')
  /\ (forall q, q ∈ map phone l' -> q ∈ map phone l)
  /\ (NoDup (map phone l) -> NoDup (map phone l') /\ p ∉ map phone l')
  /\ (forall q, q <> p -> find_phone q l' = find_phone q l).
Proof.
  revert l'. induction l as [|a l IH]; intros l'; simpl; [done |].
  unfold str_eqb. case_bool_decide as He.
  - intros [= <-]. split; [done |]. split; [intros q ?; by right |].
    split.
    + intros [Hn Hnd]%NoDup_cons. split; [done |]. by rewrite <- He.
    + intros q Hq. by rewrite bool_decide_eq_false_2 by congruence.
  - destruct (pop_phone p l) as [l''|]; [| done].
    intros [= <-]. destruct (IH l'' eq_refl) as (H1 & H2 & H3 & H4).
    split; [simpl; lia |]. split; [| split].
    + intros q [-> | Hq]%elem_of_cons; [by left | right; by apply H2].
    + intros [Hn Hnd]%NoDup_cons. destruct (H3 Hnd) as [Hnd' Hp].
      split.
      * simpl. apply NoDup_cons. split; [| done].
        intros Hin. by apply Hn, H2.
      * simpl. by apply not_elem_of_cons.
    + intros q Hq. simpl. rewrite H4 by done. done.
Qed.

Lemma set_enabled_phones p b l : map phone (set_enabled p b l) = map phone l.
Proof.
  induction l as [|a l IH]; simpl; [done |].
  destruct (str_eqb (phone a) p); simpl; [done | by rewrite IH].
Qed.

Lemma set_enabled_find p b l q :
  find_phone q (set_enabled p b l)
  = if str_eqb q p
    then (fun acc =>
            {| phone := phone acc; session_file := session_file acc;
               name := name acc; username := username acc;
               acc_user_id := acc_user_id acc; enabled := b;
               added_at := added_at acc |}) <$> find_phone q l
    else find_phone q l.
Proof.
  induction l as [|a l IH]; simpl; [by destruct (str_eqb q p) |].
  destruct (decide (phone a = p)) as [Hap | Hap].
  - rewrite (str_eqb_true _ _ Hap). simpl.
    destruct (decide (q = p)) as [-> | Hqp].
    + by rewrite (str_eqb_true p p eq_refl), ?(str_eqb_true _ _ Hap).
    + rewrite (str_eqb_false q p Hqp).
      by rewrite ?(str_eqb_false (phone a) q) by congruence.
  - rewrite (str_eqb_false _ _ Hap). simpl. rewrite IH.
    destruct (decide (phone a = q)) as [Haq | Haq].
    + rewrite ?(str_eqb_true _ _ Haq).
      by rewrite (str_eqb_false q p) by congruence.
    + by rewrite ?(str_eqb_false _ _ Haq).
Qed.

(** X13.  The monitoring accounts.  Starting from a list within the
    limit [max_accounts] and without a phone registered twice, adding,
    removing and enabling or disabling accounts keep it so.
    [add_account] succeeds exactly when there is room and the phone is
    new; the account is then found under its phone, enabled; when it
    fails nothing changes.  [remove_account] answers whether the phone
    was registered; afterwards the phone is not found and the other
    accounts are found as before.  [update_account_status] changes the
    [enabled] flag of the account of the phone and nothing else. *)
Theorem monitoring_accounts_within_limit (self : AccountManager.t) :
  accounts_inv self ->
  (forall now p sf nm un uid,
      let r := add_account now p sf nm un uid self in
      accounts_inv r.1
      /\ (r.2 = true
          <-> Z.of_nat (length (accounts self)) < max_accounts self
              /\ p ∉ map phone (accounts self))
      /\ (r.2 = true ->
          get_account p r.1
          = Some {| phone := p; session_file := sf; name := nm;
                    username := un; acc_user_id := uid; enabled := true;
                    added_at := isoformat now |}
          /\ forall q, q <> p -> get_account q r.1 = get_account q self)
      /\ (r.2 = false -> r.1 = self))
  /\ (forall p,
        let r := remove_account p self in
        accounts_inv r.1
        /\ r.2 = bool_decide (p ∈ map phone (accounts self))
        /\ get_account p r.1 = None
        /\ forall q, q <> p -> get_account q r.1 = get_account q self)
  /\ (forall p b,
        let s := update_account_status p b self in
        accounts_inv s
        /\ map phone (accounts s) = map phone (accounts self)
        /\ (forall q, q <> p -> get_account q s = get_account q self)
        /\ enabled <$> get_account p s = (fun _ => b) <$> get_account p self).
Proof.
  intros [Hlen Hnd]. split; [| split].
  - intros now p sf nm un uid. cbv zeta. unfold add_account.
    destruct (Z.leb_spec (max_accounts self)
                         (Z.of_nat (length (accounts self)))) as [Hfull | Hroom].
    + simpl. split; [done |]. split; [split; [done | lia] |]. done.
    + destruct (existsb _ _) eqn:Hex.
      * apply existsb_phone in Hex. simpl. split; [done |].
        split; [split; [done | by intros [_ ?]] |]. done.
      * assert (Hnew : p ∉ map phone (accounts self)).
        { intros Hin. apply existsb_phone in Hin. congruence. }
        simpl. split; [| split; [done |]; split; [| done]].
        -- split; simpl.
           ++ rewrite length_app. simpl. lia.
           ++ rewrite map_app. apply NoDup_app. split; [done |].
              split; [| apply NoDup_singleton].
              intros x Hx Hx'. apply list_elem_of_singleton in Hx'.
              simpl in Hx'. by subst.
        -- intros _. unfold get_account. simpl. split.
           ++ by apply find_phone_snoc.
           ++ intros q Hq. apply find_phone_snoc_ne. simpl. congruence.
  - intros p. cbv zeta. unfold remove_account, get_account.
    destruct (pop_phone p (accounts self)) as [l'|] eqn:Hp; simpl.
    + destruct (pop_phone_Some _ _ _ Hp) as (H1 & H2 & H3 & H4).
      destruct (H3 Hnd) as [Hnd' Hgone].
      split; [split; simpl; [lia | done] |]. split.
      * symmetry. apply bool_decide_eq_true_2.
        destruct (decide (p ∈ map phone (accounts self))); [done |].
        apply pop_phone_None in n. congruence.
      * split; [by apply find_phone_None | done].
    + apply pop_phone_None in Hp. split; [done |].
      split; [symmetry; by apply bool_decide_eq_false_2 |].
      split; [by apply find_phone_None | done].
  - intros p b. cbv zeta. unfold update_account_status, get_account. simpl.
    split; [split; simpl; [| by rewrite set_enabled_phones] |].
    + replace (length (set_enabled p b (accounts self)))
        with (length (map phone (set_enabled p b (accounts self))))
        by apply length_map.
      by rewrite set_enabled_phones, length_map.
    + split; [apply set_enabled_phones |]. split.
      * intros q Hq. rewrite set_enabled_find. unfold str_eqb.
        by rewrite bool_decide_eq_false_2.
      * rewrite set_enabled_find. unfold str_eqb.
        rewrite bool_decide_eq_true_2 by done.
        by destruct (find_phone p (accounts self)).
Qed.

End MonitoringAccounts.

Lemma monitoring_accounts_within_limit_witness :
  let self := {| AccountManager.accounts := [];
                 AccountManager.max_accounts := 1 |} in
  let r1 := @AccountManager.add_account decimal_clock 0 (u "+100")
              (u "a.session") (u "A") (u "a") 7 self in
  r1.2 = true
  /\ (@AccountManager.add_account decimal_clock 1 (u "+200")
        (u "b.session") (u "B") (u "b") 8 r1.1).2 = false.
Proof.
  cbv zeta. split.
  - apply (@monitoring_accounts_within_limit decimal_clock
             {| AccountManager.accounts := [];
                AccountManager.max_accounts := 1 |}).
    + split; [simpl; lia | apply NoDup_nil_2].
    + split; [simpl; lia | apply not_elem_of_nil].
  - reflexivity.
Defined.

(** ** DMAccountManager: the pool and its phones *)

Section Pool.
Import DMAccountManager.
Context `{PyClock}.

Lemma has_phone_elem p accounts : has_phone p accounts = true <-> p ∈ phones accounts.
Proof.
  induction accounts as [|a accounts IH]; simpl.
  - split; [done | by intros ?%elem_of_nil].
  - rewrite orb_true_iff, IH, elem_of_cons, str_eqb_eq.
    split; (intros [-> | ?]; [by left | by right]).
Qed.

Lemma get_account_None p accounts :
  get_account p accounts = None <-> p ∉ phones accounts.
Proof.
  induction accounts as [|a accounts IH]; simpl.
  - split; [intros _; apply not_elem_of_nil | done].
  - destruct (decide (phone a = p)) as [Hap | Hap].
    + rewrite (str_eqb_true _ _ Hap). split; [done |].
      intros Hn. exfalso. apply Hn. rewrite Hap. by left.
    + rewrite (str_eqb_false _ _ Hap), IH, not_elem_of_cons.
      split; [by split | by intros [_ ?]].
Qed.

Lemma get_account_phone p accounts acc :
  get_account p accounts = Some acc -> phone acc = p /\ acc ∈ accounts.
Proof.
  induction accounts as [|a accounts IH]; simpl; [done |].
  destruct (decide (phone a = p)) as [Hap | Hap].
  - rewrite (str_eqb_true _ _ Hap). intros [= <-]. split; [done | by left].
  - rewrite (str_eqb_false _ _ Hap). intros Hg.
    destruct (IH Hg). split; [done | by right].
Qed.

Lemma update_existing_phones p nm un uid st ct now accounts :
  phones (update_existing p nm un uid st ct now accounts) = phones accounts.
Proof.
  induction accounts as [|a accounts IH]; simpl; [done |].
  destruct (str_eqb (phone a) p); simpl; [done | by rewrite IH].
Qed.

Lemma update_existing_get p nm un uid st ct now accounts q :
  get_account q (update_existing p nm un uid st ct now accounts)
  = if str_eqb q p
    then (fun acc =>
            {| phone := phone acc; session_file := session_file acc;
               name := nm; username := un; acc_user_id := uid;
               status := Some st; can_send_dm := can_send_dm acc;
               connection_type := ct; daily_sent := daily_sent acc;
               last_sent_date := last_sent_date acc;
               added_at := added_at acc; updated_at := now |})
         <$> get_account q accounts
    else get_account q accounts.
Proof.
  induction accounts as [|a accounts IH]; simpl; [by destruct (str_eqb q p) |].
  destruct (decide (phone a = p)) as [Hap | Hap].
  - rewrite (str_eqb_true _ _ Hap). simpl.
    destruct (decide (q = p)) as [-> | Hqp].
    + by rewrite (str_eqb_true p p eq_refl), ?(str_eqb_true _ _ Hap).
    + rewrite (str_eqb_false q p Hqp).
      by rewrite ?(str_eqb_false (phone a) q) by congruence.
  - rewrite (str_eqb_false _ _ Hap). simpl. rewrite IH.
    destruct (decide (phone a = q)) as [Haq | Haq].
    + rewrite ?(str_eqb_true _ _ Haq).
      by rewrite (str_eqb_false q p) by congruence.
    + by rewrite ?(str_eqb_false _ _ Haq).
Qed.

Lemma get_account_snoc p accounts acc :
  p ∉ phones accounts -> phone acc = p ->
  get_account p (accounts ++ [acc]) = Some acc.
Proof.
  intros Hn Hp. induction accounts as [|a accounts IH]; simpl.
  - by rewrite (str_eqb_true _ _ Hp).
  - simpl in Hn. apply not_elem_of_cons in Hn as [Hne Hn].
    rewrite (str_eqb_false (phone a) p) by done. by apply IH.
Qed.

Lemma get_account_snoc_ne q accounts acc :
  phone acc <> q -> get_account q (accounts ++ [acc]) = get_account q accounts.
Proof.
  intros Hne. induction accounts as [|a accounts IH]; simpl.
  - by rewrite (str_eqb_false _ _ Hne).
  - by destruct (str_eqb (phone a) q).
Qed.

Lemma remove_account_spec p accounts :
  let r := remove_account p accounts in
  r.2 = has_phone p accounts
  /\ length accounts = (length r.1 + if r.2 then 1 else 0)%nat
  /\ (forall q, q ∈ phones r.1 -> q ∈ phones accounts)
  /\ (NoDup (phones accounts) -> NoDup (phones r.1) /\ p ∉ phones r.1)
  /\ (forall q, q <> p -> get_account q r.1 = get_account q accounts).
Proof.
  induction accounts as [|a accounts IH]; cbv zeta; simpl.
  - split; [done |]. split; [done |]. split; [done |].
    split; [| done]. intros _. split; [apply NoDup_nil_2 | apply not_elem_of_nil].
  - destruct (decide (phone a = p)) as [Hap | Hap].
    + rewrite (str_eqb_true _ _ Hap). simpl. split; [done |].
      split; [lia |]. split; [intros q ?; by right |]. split.
      * intros [Hn Hnd]%NoDup_cons. split; [done |]. by rewrite <- Hap.
      * intros q Hq. by rewrite (str_eqb_false (phone a) q) by congruence.
    + rewrite (str_eqb_false _ _ Hap). simpl.
      destruct (remove_account p accounts) as [rest' removed] eqn:Hr.
      cbv zeta in IH. simpl in IH. destruct IH as (H1 & H2 & H3 & H4 & H5).
      simpl. split; [done |]. split; [lia |]. split; [| split].
      * intros q [-> | Hq]%elem_of_cons; [by left | right; by apply H3].
      * intros [Hn Hnd]%NoDup_cons. destruct (H4 Hnd) as [Hnd' Hp].
        split.
        -- apply NoDup_cons. split; [| done].
           intros Hin. by apply Hn, H3.
        -- by apply not_elem_of_cons.
      * intros q Hq. by rewrite H5.
Qed.

(** X14.  The pool of private-message accounts is keyed by phone.
    [add_account] on a phone of the pool updates the account of that
    phone in place and on a new phone appends an account, so the pool
    grows by at most one and a pool without a phone twice stays so;
    afterwards [get_account] finds an account of the phone with the name,
    user name, user id, status and connection type given, and the
    accounts of the other phones are found as before.
    [remove_account] answers whether the phone was in the pool and
    removes one account at most; from a pool without a phone twice the
    phone is gone afterwards, and the other phones are found as
    before. *)
Theorem pool_is_keyed_by_phone (now : Z) (p sf nm un : pystr) (uid : Z)
    (st ct : pystr) (accounts : list account) :
  let added := add_account now p sf nm un uid st ct accounts in
  let r := remove_account p accounts in
  phones added = (if has_phone p accounts then phones accounts
                  else phones accounts ++ [p])
  /\ (NoDup (phones accounts) -> NoDup (phones added))
  /\ (exists acc,
        get_account p added = Some acc
        /\ phone acc = p /\ name acc = nm /\ username acc = un
        /\ acc_user_id acc = uid /\ status acc = Some st
        /\ connection_type acc = ct)
  /\ (forall q, q <> p -> get_account q added = get_account q accounts)
  /\ r.2 = has_phone p accounts
  /\ length accounts = (length r.1 + if r.2 then 1 else 0)%nat
  /\ (NoDup (phones accounts) ->
      NoDup (phones r.1) /\ get_account p r.1 = None)
  /\ (forall q, q <> p -> get_account q r.1 = get_account q accounts).
Proof.
  cbv zeta.
  destruct (remove_account_spec p accounts) as (R1 & R2 & R3 & R4 & R5).
  cbv zeta in *.
  assert (Hadd : phones (add_account now p sf nm un uid st ct accounts)
                 = (if has_phone p accounts then phones accounts
                    else phones accounts ++ [p])).
  { unfold add_account. destruct (has_phone p accounts).
    - apply update_existing_phones.
    - unfold phones. by rewrite map_app. }
  split; [exact Hadd |]. split; [| split; [| split]].
  - intros Hnd. rewrite Hadd. destruct (has_phone p accounts) eqn:Hh; [done |].
    apply NoDup_app. split; [done |]. split; [| apply NoDup_singleton].
    intros x Hx Hx'. apply list_elem_of_singleton in Hx' as ->.
    apply has_phone_elem in Hx. congruence.
  - unfold add_account. destruct (has_phone p accounts) eqn:Hh.
    + rewrite update_existing_get, (str_eqb_true p p eq_refl).
      destruct (get_account p accounts) as [acc|] eqn:Hg.
      * destruct (get_account_phone _ _ _ Hg) as [Hp _].
        eexists. split; [reflexivity |]. simpl. by rewrite Hp.
      * apply get_account_None in Hg. apply has_phone_elem in Hh. done.
    + eexists. split.
      * apply get_account_snoc; [| reflexivity].
        intros Hin. apply has_phone_elem in Hin. congruence.
      * done.
  - intros q Hq. unfold add_account. destruct (has_phone p accounts).
    + by rewrite update_existing_get, (str_eqb_false q p).
    + apply get_account_snoc_ne. simpl. congruence.
  - split; [done |]. split; [done |]. split; [| done].
    intros Hnd. destruct (R4 Hnd) as [Hnd' Hp].
    split; [done | by apply get_account_None].
Qed.

(** [n] calls of [increment_sent_count] for the phone on the day. *)
Lemma increment_sent_count_iter today p accounts acc n :
  get_account p accounts = Some acc ->
  exists acc',
    get_account p (Nat.iter n (increment_sent_count today p) accounts)
    = Some acc'
    /\ status acc' = status acc /\ can_send_dm acc' = can_send_dm acc
    /\ (n <> O -> last_sent_date acc' = Some today)
    /\ sent_on today acc' = sent_on today acc + Z.of_nat n.
Proof.
  intros Hg. induction n as [|n IH].
  - exists acc. simpl. split; [done |]. split; [done |]. split; [done |].
    split; [done | lia].
  - destruct IH as (acc1 & Hg1 & Hs1 & Hc1 & _ & Hn1). simpl.
    assert (Hh : has_phone p (Nat.iter n (increment_sent_count today p)
                                       accounts) = true).
    { apply has_phone_elem. destruct (decide (p ∈ phones
        (Nat.iter n (increment_sent_count today p) accounts))); [done |].
      apply get_account_None in n0. congruence. }
    destruct (increment_sent_count_get today p _ Hh) as (acc2 & Hg2 & Hg3).
    rewrite Hg1 in Hg2. injection Hg2 as <-.
    eexists. split; [exact Hg3 |].
    assert (Hst : status (refreshed today acc1) = status acc1
                  /\ can_send_dm (refreshed today acc1) = can_send_dm acc1).
    { unfold refreshed. by destruct (is_today acc1 today). }
    destruct Hst as [Hst Hcs]. simpl. rewrite Hst, Hcs.
    split; [done |]. split; [done |].
    pose proof (refreshed_date today acc1) as Hd.
    split; [done |]. unfold sent_on at 1. unfold is_today. simpl.
    rewrite Hd, bool_decide_eq_true_2 by done. simpl. lia.
Qed.

(** X15.  The daily quota of an account.  After [n] messages counted for
    an account on a day, its count for that day is [n] more than before
    and its status is as it was; it is offered by
    [get_available_accounts] for that day exactly when it passes the
    status check and the count is still below the limit; and for any
    other day its count is 0 again, so that with a positive limit an
    account that passes the status check is offered. *)
Theorem daily_quota_counts_sends (today p : pystr)
    (accounts : list account) (acc : account) (n : nat) (daily_limit : Z) :
  get_account p accounts = Some acc ->
  exists acc',
    get_account p (Nat.iter n (increment_sent_count today p) accounts)
    = Some acc'
    /\ passes_status_check acc' = passes_status_check acc
    /\ sent_on today acc' = sent_on today acc + Z.of_nat n
    /\ (eligible today daily_limit acc' = true
        <-> passes_status_check acc = true
            /\ sent_on today acc + Z.of_nat n < daily_limit)
    /\ (forall tomorrow,
          n <> O -> tomorrow <> today -> 0 < daily_limit ->
          eligible tomorrow daily_limit acc' = passes_status_check acc).
Proof.
  intros Hg.
  destruct (increment_sent_count_iter today p accounts acc n Hg)
    as (acc' & Hg' & Hs & Hc & Hd & Hn).
  exists acc'. split; [done |].
  assert (Hp : passes_status_check acc' = passes_status_check acc)
    by (unfold passes_status_check; by rewrite Hs, Hc).
  split; [done |]. split; [done |]. split.
  - unfold eligible. rewrite Hp, Hn, andb_true_iff, Z.ltb_lt. done.
  - intros tomorrow Hn0 Hne Hpos. unfold eligible. rewrite Hp.
    unfold sent_on, is_today. rewrite (Hd Hn0).
    rewrite bool_decide_eq_false_2 by congruence.
    replace (0 <? daily_limit) with true by (symmetry; by apply Z.ltb_lt).
    by rewrite andb_true_r.
Qed.

End Pool.

Lemma daily_quota_counts_sends_witness :
  let acc := DMAccountManager.set_status stale_banned_account (u "active")
               true (u "0") in
  exists acc',
    get_account (u "+100")
      (Nat.iter 2 (DMAccountManager.increment_sent_count (u "2024-01-02")
                                                         (u "+100")) [acc])
    = Some acc'
    /\ sent_on (u "2024-01-02") acc' = 2
    /\ eligible (u "2024-01-02") 2 acc' = false.
Proof.
  cbv zeta.
  destruct (daily_quota_counts_sends (u "2024-01-02") (u "+100")
              [DMAccountManager.set_status stale_banned_account (u "active")
                 true (u "0")]
              (DMAccountManager.set_status stale_banned_account (u "active")
                 true (u "0")) 2 2 eq_refl)
    as (acc' & Hg & _ & Hn & He & _).
  exists acc'. split; [exact Hg |]. split; [exact Hn |].
  apply not_true_is_false. intros Ht. apply He in Ht as [_ Ht].
  vm_compute in Ht. discriminate.
Defined.

(** ** DMTemplateManager: removing and picking templates *)

Section Templates.
Import DMTemplateManager.

Lemma get_template_None i ts : get_template i ts = None <-> i ∉ ids ts.
Proof.
  induction ts as [|t ts IH]; simpl.
  - split; [intros _; apply not_elem_of_nil | done].
  - destruct (Z.eqb_spec (id t) i) as [He | Hne].
    + split; [done |]. intros Hn. exfalso. apply Hn. rewrite He. by left.
    + rewrite IH, not_elem_of_cons. split; [by split | by intros [_ ?]].
Qed.

Lemma remove_template_spec i ts :
  let r := remove_template i ts in
  r.2 = bool_decide (i ∈ ids ts)
  /\ length ts = (length r.1 + if r.2 then 1 else 0)%nat
  /\ sublist r.1 ts
  /\ (forall j, j <> i -> get_template j r.1 = get_template j ts)
  /\ (NoDup (ids ts) -> get_template i r.1 = None).
Proof.
  induction ts as [|t ts IH]; cbv zeta; cbn [remove_template ids map].
  - split; [symmetry; apply bool_decide_eq_false_2, not_elem_of_nil |].
    done.
  - destruct (Z.eqb_spec (id t) i) as [He | Hne]; simpl.
    + split; [symmetry; apply bool_decide_eq_true_2; rewrite He; by left |].
      split; [lia |]. split; [by apply sublist_cons |]. split.
      * intros j Hj. destruct (Z.eqb_spec (id t) j); [congruence | done].
      * intros [Hn _]%NoDup_cons. apply get_template_None. by rewrite <- He.
    + destruct (remove_template i ts) as [rest' found] eqn:Hr.
      cbv zeta in IH. simpl in IH. destruct IH as (H1 & H2 & H3 & H4 & H5).
      simpl. split; [| split; [lia |]; split; [by apply sublist_skip |]; split].
      * rewrite H1. apply bool_decide_ext. rewrite elem_of_cons.
        split; [by right | by intros [? | ?]].
      * intros j Hj. by rewrite H4.
      * intros [_ Hnd]%NoDup_cons.
        destruct (Z.eqb_spec (id t) i); [done | by apply H5].
Qed.

(** X16.  Removing and picking templates.  [remove_template] answers
    whether a template of the id is stored and removes the first one of
    that id; the other templates stay, in their order, and a template of
    another id is found as before.  When the ids are unique the id is not
    found afterwards.  [get_random_template] answers [None] exactly when
    no template is stored and otherwise picks one of the stored
    templates. *)
Theorem templates_remove_and_pick (i : Z) (ts : list template) (g : Rng) :
  let r := remove_template i ts in
  r.2 = bool_decide (i ∈ ids ts)
  /\ (r.2 = true <-> get_template i ts <> None)
  /\ length ts = (length r.1 + if r.2 then 1 else 0)%nat
  /\ sublist r.1 ts
  /\ (forall j, j <> i -> get_template j r.1 = get_template j ts)
  /\ (NoDup (ids ts) -> get_template i r.1 = None)
  /\ ((get_random_template ts g).1 = None <-> ts = [])
  /\ (forall t, (get_random_template ts g).1 = Some t -> t ∈ ts).
Proof.
  cbv zeta.
  destruct (remove_template_spec i ts) as (H1 & H2 & H3 & H4 & H5).
  cbv zeta in *.
  split; [done |]. split; [| split; [done |]; split; [done |];
                             split; [done |]; split; [done |]].
  - rewrite H1, bool_decide_eq_true.
    split; [intros Hin Hn; by apply get_template_None in Hn |].
    intros Hn. destruct (decide (i ∈ ids ts)); [done |].
    by apply get_template_None in n.
  - unfold get_random_template. destruct ts as [|t0 ts]; [done |].
    split; [split; [| done] |].
    + unfold bind, ret. by destruct (choice t0 (t0 :: ts) g).
    + intros t. pose proof (choice_in t0 (t0 :: ts) g) as [Hin _]; [done |].
      unfold bind, ret. destruct (choice t0 (t0 :: ts) g) as [t1 g1].
      simpl in *. by intros [= <-].
Qed.

End Templates.

(** ** The send configuration *)

Section SendConfig.
Import DMSettingsManager.
Context `{PyInt}.

Lemma receive_delay_config_spec message_text self :
  let r := receive_delay_config message_text self in
  (r.2 = true
   <-> exists lo hi,
         int_pair message_text = Some (lo, hi)
         /\ 10 <= lo /\ lo < hi /\ hi <= 600 /\ r.1 = set_delay self lo hi)
  /\ (r.2 = false -> r.1 = self).
Proof.
  cbv zeta. unfold receive_delay_config.
  destruct (int_pair message_text) as [[lo hi]|]; simpl.
  - destruct (Z.ltb_spec lo 10); simpl;
      [split; [split; [done | intros (? & ? & [= <- <-] & ?); lia] | done] |].
    destruct (Z.ltb_spec 600 hi); simpl;
      [split; [split; [done | intros (? & ? & [= <- <-] & ?); lia] | done] |].
    destruct (Z.leb_spec hi lo); simpl;
      [split; [split; [done | intros (? & ? & [= <- <-] & ?); lia] | done] |].
    split; [| done]. split; [| done]. intros _. exists lo, hi. done.
  - split; [| done]. split; [done | by intros (? & ? & ? & _)].
Qed.

Lemma receive_daily_limit_config_spec message_text self :
  let r := receive_daily_limit_config message_text self in
  (r.2 = true
   <-> exists n,
         int_ (strip message_text) = Some n
         /\ 1 <= n <= 200 /\ r.1 = set_daily_limit self n)
  /\ (r.2 = false -> r.1 = self).
Proof.
  cbv zeta. unfold receive_daily_limit_config.
  destruct (int_ (strip message_text)) as [n|]; simpl.
  - destruct (Z.ltb_spec n 1); simpl;
      [split; [split; [done | intros (? & [= <-] & ?); lia] | done] |].
    destruct (Z.ltb_spec 200 n); simpl;
      [split; [split; [done | intros (? & [= <-] & ?); lia] | done] |].
    split; [| done]. split; [| done]. intros _. exists n. split; [done |].
    split; [lia | done].
  - split; [| done]. split; [done | by intros (? & ? & _)].
Qed.

Lemma receive_active_hours_config_spec message_text self :
  let r := receive_active_hours_config message_text self in
  (r.2 = true
   <-> exists start_hour end_hour,
         int_pair message_text = Some (start_hour, end_hour)
         /\ 0 <= start_hour /\ start_hour < end_hour /\ end_hour <= 23
         /\ r.1 = set_active_hours self start_hour end_hour)
  /\ (r.2 = false -> r.1 = self).
Proof.
  cbv zeta. unfold receive_active_hours_config.
  destruct (int_pair message_text) as [[lo hi]|]; simpl.
  - destruct (Z.ltb_spec lo 0); simpl;
      [split; [split; [done | intros (? & ? & [= <- <-] & ?); lia] | done] |].
    destruct (Z.ltb_spec 23 lo); simpl;
      [split; [split; [done | intros (? & ? & [= <- <-] & ?); lia] | done] |].
    destruct (Z.ltb_spec hi 0); simpl;
      [split; [split; [done | intros (? & ? & [= <- <-] & ?); lia] | done] |].
    destruct (Z.ltb_spec 23 hi); simpl;
      [split; [split; [done | intros (? & ? & [= <- <-] & ?); lia] | done] |].
    destruct (Z.leb_spec hi lo); simpl;
      [split; [split; [done | intros (? & ? & [= <- <-] & ?); lia] | done] |].
    split; [| done]. split; [| done]. intros _. exists lo, hi. done.
  - split; [| done]. split; [done | by intros (? & ? & ? & _)].
Qed.

(** X17.  The send configuration stays within its ranges.  The default
    settings have a delay range inside 10..600 seconds with its minimum
    below its maximum, a daily limit in 1..200 and active hours with
    0 <= start < end <= 23, and the three handlers keep this whatever
    the admin sends: each accepts exactly the inputs that read as
    integers in range, stores those, and otherwise leaves the settings
    as they are.  Under such settings the active hours are the hours
    from start to end - 1, there is at least one, and hour 23 is never
    active. *)
Theorem send_config_stays_in_range (message_text : pystr)
    (self : settings) :
  settings_ok self ->
  settings_ok (receive_delay_config message_text self).1
  /\ settings_ok (receive_daily_limit_config message_text self).1
  /\ settings_ok (receive_active_hours_config message_text self).1
  /\ ((receive_delay_config message_text self).2 = true
      <-> exists lo hi,
            int_pair message_text = Some (lo, hi)
            /\ 10 <= lo /\ lo < hi /\ hi <= 600
            /\ (receive_delay_config message_text self).1
               = set_delay self lo hi)
  /\ ((receive_daily_limit_config message_text self).2 = true
      <-> exists n,
            int_ (strip message_text) = Some n /\ 1 <= n <= 200
            /\ (receive_daily_limit_config message_text self).1
               = set_daily_limit self n)
  /\ ((receive_active_hours_config message_text self).2 = true
      <-> exists start_hour end_hour,
            int_pair message_text = Some (start_hour, end_hour)
            /\ 0 <= start_hour /\ start_hour < end_hour /\ end_hour <= 23
            /\ (receive_active_hours_config message_text self).1
               = set_active_hours self start_hour end_hour)
  /\ ((receive_delay_config message_text self).2 = false ->
      (receive_delay_config message_text self).1 = self)
  /\ ((receive_daily_limit_config message_text self).2 = false ->
      (receive_daily_limit_config message_text self).1 = self)
  /\ ((receive_active_hours_config message_text self).2 = false ->
      (receive_active_hours_config message_text self).1 = self)
  /\ (forall hour,
        is_active_hour self hour = true
        <-> active_hours_start self <= hour < active_hours_end self)
  /\ is_active_hour self (active_hours_start self) = true
  /\ is_active_hour self 23 = false
  /\ settings_ok defaults.
Proof.
  intros Hok.
  destruct (receive_delay_config_spec message_text self) as [D1 D2].
  destruct (receive_daily_limit_config_spec message_text self) as [L1 L2].
  destruct (receive_active_hours_config_spec message_text self) as [A1 A2].
  cbv zeta in *.
  assert (Hact : forall hour,
            is_active_hour self hour = true
            <-> active_hours_start self <= hour < active_hours_end self).
  { intros hour. unfold is_active_hour.
    rewrite andb_true_iff, Z.leb_le, Z.ltb_lt. done. }
  destruct Hok as (K1 & K2 & K3 & K4 & K5 & K6 & K7).
  split; [| split; [| split]].
  - destruct ((receive_delay_config message_text self).2) eqn:Hr.
    + destruct (proj1 D1 eq_refl) as (lo & hi & _ & ? & ? & ? & ->).
      unfold settings_ok. simpl. lia.
    + rewrite D2 by done. unfold settings_ok. lia.
  - destruct ((receive_daily_limit_config message_text self).2) eqn:Hr.
    + destruct (proj1 L1 eq_refl) as (n & _ & ? & ->).
      unfold settings_ok. simpl. lia.
    + rewrite L2 by done. unfold settings_ok. lia.
  - destruct ((receive_active_hours_config message_text self).2) eqn:Hr.
    + destruct (proj1 A1 eq_refl) as (lo & hi & _ & ? & ? & ? & ->).
      unfold settings_ok. simpl. lia.
    + rewrite A2 by done. unfold settings_ok. lia.
  - split; [exact D1 |]. split; [exact L1 |]. split; [exact A1 |].
    split; [exact D2 |]. split; [exact L2 |]. split; [exact A2 |].
    split; [exact Hact |]. split; [apply Hact; lia |].
    split; [| unfold settings_ok; simpl; lia].
    apply not_true_is_false. rewrite Hact. lia.
Qed.

End SendConfig.

Lemma send_config_stays_in_range_witness :
  @receive_active_hours_config decimal_int (u " 8 | 23 ")
     DMSettingsManager.defaults
  = (set_active_hours DMSettingsManager.defaults 8 23, true)
  /\ settings_ok
       (@receive_active_hours_config decimal_int (u " 8 | 23 ")
          DMSettingsManager.defaults).1.
Proof.
  split; [vm_compute; reflexivity |].
  apply (@send_config_stays_in_range decimal_int (u " 8 | 23 ")
           DMSettingsManager.defaults).
  unfold settings_ok. simpl. lia.
Defined.

(** ** The dispatch: what it checks before it sends *)

Section Dispatch.
Context `{PyClock}.

(** [_auto_send_dm] is its checks followed by what comes after the
    sleep. *)
Lemma _auto_send_dm_split env sender self g :
  _auto_send_dm env sender self g
  = (_auto_send_dm_after_sleep env sender
       (_auto_send_dm_checks env sender self g).1.2
       (_auto_send_dm_checks env sender self g).1.1,
     (_auto_send_dm_checks env sender self g).2).
Proof.
  unfold _auto_send_dm, _auto_send_dm_checks.
  destruct (negb (DMSettingsManager.enabled _)); [done |].
  destruct (negb (truthy _)); [done |].
  destruct (DMRecordManager.is_user_sent _ _ _ _); [done |].
  destruct (negb (DMSettingsManager.is_active_hour _ _)); [done |].
  destruct (DMAccountManager.get_available_accounts _ _ _)
    as [available accounts].
  destruct available as [|acc0 available]; [done |].
  unfold bind.
  destruct (choice acc0 (acc0 :: available) g) as [dm_account g1].
  destruct (negb (env_connected env _)); [done |].
  destruct (DMTemplateManager.get_random_template _ g1) as [[template|] g2];
    [| done].
  destruct (randint _ _ g2) as [[delay|] g3]; [| done]. unfold ret. simpl.
  destruct (negb (env_connected_after_delay env) && negb (env_reconnected env));
    [done |].
  by destruct (send_and_record env sender _ template _).
Qed.

Lemma sent_on_refreshed_same today acc :
  sent_on today (refreshed today acc) = sent_on today acc.
Proof.
  unfold refreshed, sent_on.
  destruct (DMAccountManager.is_today acc today) eqn:Hd; [by rewrite Hd |].
  unfold DMAccountManager.is_today. simpl.
  by rewrite bool_decide_eq_true_2.
Qed.

Lemma eligible_inspected today daily_limit acc :
  eligible today daily_limit (inspected today acc)
  = eligible today daily_limit acc.
Proof.
  unfold eligible, inspected.
  destruct (passes_status_check acc) eqn:Hp; [| by rewrite Hp].
  by rewrite passes_status_check_refreshed, Hp, sent_on_refreshed_same.
Qed.

Lemma inspected_phone today acc :
  DMAccountManager.phone (inspected today acc) = DMAccountManager.phone acc.
Proof.
  unfold inspected, refreshed.
  destruct (passes_status_check acc); [| done].
  by destruct (DMAccountManager.is_today acc today).
Qed.

(** The accounts offered: the eligible ones, after the lazy reset. *)
Lemma available_elem today daily_limit accounts acc' :
  acc' ∈ (DMAccountManager.get_available_accounts today daily_limit
                                                  accounts).1
  <-> exists acc,
        acc ∈ accounts /\ eligible today daily_limit acc = true
        /\ acc' = inspected today acc.
Proof.
  rewrite get_available_accounts_spec. cbn [fst].
  rewrite list_elem_of_fmap. split.
  - intros (acc & -> & Hin). apply list_elem_of_In, List.filter_In in Hin
      as [Hin He].
    exists acc. split; [by apply list_elem_of_In | done].
  - intros (acc & Hin & He & ->). exists acc. split; [done |].
    apply list_elem_of_In, List.filter_In. split; [| done].
    by apply list_elem_of_In.
Qed.

(** What a plan stands for: every check was passed. *)
Lemma _auto_send_dm_checks_plan env sender self g plan :
  (_auto_send_dm_checks env sender self g).1.2 = Some plan ->
  DMSettingsManager.enabled (dm_settings_manager self) = true
  /\ truthy (user_username sender) = true
  /\ DMRecordManager.is_user_sent (env_now env) (user_id sender) 24
                                  (sent_users self) = false
  /\ DMSettingsManager.is_active_hour (dm_settings_manager self)
                                      (env_hour env) = true
  /\ (exists acc,
        acc ∈ dm_account_manager self
        /\ DMAccountManager.phone acc = plan_phone plan
        /\ eligible (env_today env)
             (DMSettingsManager.daily_limit (dm_settings_manager self)) acc
           = true)
  /\ env_connected env (plan_phone plan) = true
  /\ plan_template plan ∈ dm_template_manager self
  /\ (DMSettingsManager.delay_min (dm_settings_manager self)
      <= DMSettingsManager.delay_max (dm_settings_manager self) ->
      DMSettingsManager.delay_min (dm_settings_manager self)
      <= plan_delay plan
      <= DMSettingsManager.delay_max (dm_settings_manager self)).
Proof.
  unfold _auto_send_dm_checks.
  destruct (DMSettingsManager.enabled _) eqn:He; [| done]. simpl.
  destruct (truthy _) eqn:Ht; [| done]. simpl.
  destruct (DMRecordManager.is_user_sent _ _ _ _) eqn:Hs; [done |].
  destruct (DMSettingsManager.is_active_hour _ _) eqn:Ha; [| done]. simpl.
  destruct (DMAccountManager.get_available_accounts _ _ _)
    as [available accounts] eqn:Hav.
  destruct available as [|acc0 available]; [done |].
  unfold bind.
  pose proof (choice_in acc0 (acc0 :: available) g) as [Hin _]; [done |].
  destruct (choice acc0 (acc0 :: available) g) as [dm_account g1].
  simpl in Hin.
  destruct (env_connected env _) eqn:Hc; [| done]. simpl.
  cbn [dm_template_manager with_accounts dm_settings_manager].
  destruct (DMTemplateManager.get_random_template (dm_template_manager self)
              g1) as [[template|] g2] eqn:Htpl; [| done].
  destruct (randint _ _ g2) as [[delay|] g3] eqn:Hr; [| done].
  pose proof (randint_Some
                (DMSettingsManager.delay_min (dm_settings_manager self))
                (DMSettingsManager.delay_max (dm_settings_manager self))
                delay g2) as Hdelay.
  rewrite Hr in Hdelay. specialize (Hdelay eq_refl).
  unfold ret. simpl. intros [= <-]. simpl.
  split; [done |]. split; [done |]. split; [done |]. split; [done |].
  split; [| split; [done |]; split].
  - assert (Hin' : dm_account
                   ∈ (DMAccountManager.get_available_accounts (env_today env)
                        (DMSettingsManager.daily_limit
                           (dm_settings_manager self))
                        (dm_account_manager self)).1)
      by by rewrite Hav.
    apply available_elem in Hin' as (acc & Hacc & Hel & ->).
    exists acc. split; [done |]. split; [by rewrite inspected_phone | done].
  - unfold DMTemplateManager.get_random_template in Htpl.
    destruct (dm_template_manager self) as [|t0 ts]; [done |].
    pose proof (choice_in t0 (t0 :: ts) g1) as [Hin2 _]; [done |].
    unfold bind, ret in Htpl.
    destruct (choice t0 (t0 :: ts) g1) as [t1 g1']. simpl in *.
    by injection Htpl as <- _.
  - intros _. apply Hdelay.
Qed.

(** X18.  What one dispatch does.  [_auto_send_dm] makes at most one
    send attempt.  It makes one only for the sender it was started for,
    and only when the feature is enabled, the sender has a user name, the
    sent registry does not hold the sender within the last 24 hours, the
    hour is an active hour, the account used is an account of the pool
    that is active, may send and is below the daily limit and whose
    client is connected, and the template is one of the stored
    templates.  When the configured delay range is not empty, the sleep
    before the attempt lies within it. *)
Theorem dispatch_sends_only_when_allowed (env : DispatchEnv)
    (sender : User) (self : DMState) (g : Rng) :
  let effects := (_auto_send_dm env sender self g).1.2 in
  (length (attempts effects) <= 1)%nat
  /\ (forall dm_phone user template,
        (dm_phone, user, template) ∈ attempts effects ->
        user = sender
        /\ DMSettingsManager.enabled (dm_settings_manager self) = true
        /\ truthy (user_username sender) = true
        /\ DMRecordManager.is_user_sent (env_now env) (user_id sender) 24
                                        (sent_users self) = false
        /\ DMSettingsManager.is_active_hour (dm_settings_manager self)
                                            (env_hour env) = true
        /\ (exists acc,
              acc ∈ dm_account_manager self
              /\ DMAccountManager.phone acc = dm_phone
              /\ eligible (env_today env)
                   (DMSettingsManager.daily_limit (dm_settings_manager self))
                   acc = true)
        /\ env_connected env dm_phone = true
        /\ template ∈ dm_template_manager self)
  /\ (forall delay,
        Sleep delay ∈ effects ->
        DMSettingsManager.delay_min (dm_settings_manager self)
        <= DMSettingsManager.delay_max (dm_settings_manager self) ->
        DMSettingsManager.delay_min (dm_settings_manager self)
        <= delay
        <= DMSettingsManager.delay_max (dm_settings_manager self)).
Proof.
  cbv zeta. rewrite _auto_send_dm_split. cbn [fst snd].
  pose proof (_auto_send_dm_checks_plan env sender self g) as Hplan.
  destruct (_auto_send_dm_checks env sender self g) as [[s1 plan] g1].
  cbn [fst snd] in *. unfold _auto_send_dm_after_sleep.
  destruct plan as [plan|];
    [| simpl; split; [lia |]; split; intros; by apply elem_of_nil in H0].
  specialize (Hplan plan eq_refl).
  destruct Hplan as (P1 & P2 & P3 & P4 & P5 & P6 & P7 & P8).
  destruct (negb (env_connected_after_delay env) && negb (env_reconnected env)).
  - simpl. split; [lia |]. split.
    + intros ? ? ? Hin. by apply elem_of_nil in Hin.
    + intros delay Hin Hle. apply list_elem_of_singleton in Hin.
      injection Hin as ->. by apply P8.
  - unfold send_and_record. destruct (env_send_ok env); simpl.
    + split; [lia |]. split.
      * intros dm_phone user template Hin.
        apply list_elem_of_singleton in Hin. injection Hin as -> -> ->.
        done.
      * intros delay Hin Hle.
        apply elem_of_cons in Hin as [Hin | Hin].
        -- injection Hin as ->. by apply P8.
        -- apply elem_of_cons in Hin as [Hin | Hin]; [done |].
           apply list_elem_of_singleton in Hin. done.
    + split; [lia |]. split.
      * intros dm_phone user template Hin.
        apply list_elem_of_singleton in Hin. injection Hin as -> -> ->.
        done.
      * intros delay Hin Hle.
        apply elem_of_cons in Hin as [Hin | Hin].
        -- injection Hin as ->. by apply P8.
        -- apply list_elem_of_singleton in Hin. done.
Qed.

(** The checks pass when every condition is met. *)
Lemma _auto_send_dm_checks_passes env sender self g :
  DMSettingsManager.enabled (dm_settings_manager self) = true ->
  truthy (user_username sender) = true ->
  DMRecordManager.is_user_sent (env_now env) (user_id sender) 24
                               (sent_users self) = false ->
  DMSettingsManager.is_active_hour (dm_settings_manager self)
                                   (env_hour env) = true ->
  (exists acc,
      acc ∈ dm_account_manager self
      /\ eligible (env_today env)
           (DMSettingsManager.daily_limit (dm_settings_manager self)) acc
         = true) ->
  (forall p, env_connected env p = true) ->
  dm_template_manager self <> [] ->
  DMSettingsManager.delay_min (dm_settings_manager self)
  <= DMSettingsManager.delay_max (dm_settings_manager self) ->
  exists plan,
    (_auto_send_dm_checks env sender self g).1
    = (with_accounts self
         (map (inspected (env_today env)) (dm_account_manager self)),
       Some plan).
Proof.
  intros He Ht Hs Ha (acc & Hacc & Hel) Hc Htpl Hdelay.
  unfold _auto_send_dm_checks. rewrite He, Ht, Hs, Ha. simpl.
  assert (Hav : inspected (env_today env) acc
                ∈ (DMAccountManager.get_available_accounts (env_today env)
                     (DMSettingsManager.daily_limit
                        (dm_settings_manager self))
                     (dm_account_manager self)).1).
  { apply available_elem. by exists acc. }
  rewrite get_available_accounts_spec in *. cbn [fst] in Hav.
  destruct (map (inspected (env_today env))
                (List.filter _ (dm_account_manager self)))
    as [|acc0 available]; [by apply elem_of_nil in Hav |].
  unfold bind.
  destruct (choice acc0 (acc0 :: available) g) as [dm_account g1].
  rewrite Hc. simpl.
  unfold DMTemplateManager.get_random_template.
  destruct (dm_template_manager self) as [|t0 ts] eqn:Hts; [done |].
  unfold bind, ret.
  destruct (choice t0 (t0 :: ts) g1) as [t1 g2].
  cbn [dm_settings_manager with_accounts fst snd].
  destruct (randint_range _ _ g2 Hdelay) as (delay & -> & _).
  eexists. reflexivity.
Qed.

Lemma is_user_sent_absent now uid registry :
  registry !! str_of_Z uid = None ->
  DMRecordManager.is_user_sent now uid 24 registry = false.
Proof. intros Hr. unfold DMRecordManager.is_user_sent. by rewrite Hr. Qed.

Lemma attempts_after_sleep env sender plan self :
  env_connected_after_delay env = true ->
  attempts (_auto_send_dm_after_sleep env sender (Some plan) self).2
  = [(plan_phone plan, sender, plan_template plan)]
  /\ (env_send_ok env = true ->
      sent_users (_auto_send_dm_after_sleep env sender (Some plan) self).1
      = DMRecordManager.add_sent_user (env_now_sent env) (user_id sender)
                                      (sent_users self))
  /\ dm_settings_manager
       (_auto_send_dm_after_sleep env sender (Some plan) self).1
     = dm_settings_manager self.
Proof.
  intros Hc. unfold _auto_send_dm_after_sleep, send_and_record.
  rewrite Hc. simpl. by destruct (env_send_ok env).
Qed.

(** X19.  Two dispatch tasks for one sender.  [_auto_send_dm] reads the
    sent registry before its sleep and writes it after the send.  When
    two tasks for the same sender run their checks before either has
    sent, as the event loop runs them when the second task is created
    while the first is asleep, and the sender is not in the registry, an
    account is eligible, the clients are connected, a template is stored
    and the configured delay range is not empty (on an empty range
    [random.randint] raises and nothing is sent), each task makes its
    own send attempt: the sender is written to twice.  When the second
    task starts only after the first has sent, it finds the sender in
    the registry and makes no attempt. *)
Theorem interleaved_tasks_both_send (env1 env2 : DispatchEnv)
    (sender : User) (self : DMState) (g : Rng) :
  DMSettingsManager.enabled (dm_settings_manager self) = true ->
  truthy (user_username sender) = true ->
  sent_users self !! str_of_Z (user_id sender) = None ->
  DMSettingsManager.is_active_hour (dm_settings_manager self)
                                   (env_hour env1) = true ->
  DMSettingsManager.is_active_hour (dm_settings_manager self)
                                   (env_hour env2) = true ->
  env_today env2 = env_today env1 ->
  (exists acc,
      acc ∈ dm_account_manager self
      /\ eligible (env_today env1)
           (DMSettingsManager.daily_limit (dm_settings_manager self)) acc
         = true) ->
  (forall p, env_connected env1 p = true /\ env_connected env2 p = true) ->
  dm_template_manager self <> [] ->
  DMSettingsManager.delay_min (dm_settings_manager self)
  <= DMSettingsManager.delay_max (dm_settings_manager self) ->
  env_connected_after_delay env1 = true ->
  env_connected_after_delay env2 = true ->
  (exists p1 t1 p2 t2,
      attempts (two_tasks env1 env2 sender self g).1.2
      = [(p1, sender, t1); (p2, sender, t2)])
  /\ (env_send_ok env1 = true ->
      fromisoformat (isoformat (env_now_sent env1))
      = Some (env_now_sent env1) ->
      env_now env2 - env_now_sent env1 <= hours 24 ->
      exists p1 t1,
        attempts (one_by_one env1 env2 sender self g).1.2
        = [(p1, sender, t1)]).
Proof.
  intros He Ht Hreg Ha1 Ha2 Hday Hacc Hconn Htpl Hdelay Hc1 Hc2.
  assert (Hs1 : DMRecordManager.is_user_sent (env_now env1) (user_id sender)
                  24 (sent_users self) = false)
    by by apply is_user_sent_absent.
  destruct (_auto_send_dm_checks_passes env1 sender self g He Ht Hs1 Ha1
              Hacc (fun p => proj1 (Hconn p)) Htpl Hdelay) as [plan1 Hp1].
  split.
  - unfold two_tasks, bind.
    destruct (_auto_send_dm_checks env1 sender self g) as [[s1 o1] g1].
    simpl in Hp1. injection Hp1 as -> ->. cbn [fst snd].
    assert (Hacc2 : exists acc,
              acc ∈ dm_account_manager
                      (with_accounts self
                         (map (inspected (env_today env1))
                              (dm_account_manager self)))
              /\ eligible (env_today env2)
                   (DMSettingsManager.daily_limit
                      (dm_settings_manager
                         (with_accounts self
                            (map (inspected (env_today env1))
                                 (dm_account_manager self))))) acc = true).
    { destruct Hacc as (acc & Hin & Hel).
      exists (inspected (env_today env1) acc). simpl. split.
      - apply list_elem_of_fmap. by exists acc.
      - by rewrite Hday, eligible_inspected. }
    destruct (_auto_send_dm_checks_passes env2 sender
                (with_accounts self
                   (map (inspected (env_today env1))
                        (dm_account_manager self)))
                g1 He Ht (is_user_sent_absent _ _ _ Hreg) Ha2 Hacc2
                (fun p => proj2 (Hconn p)) Htpl Hdelay) as [plan2 Hp2].
    destruct (_auto_send_dm_checks env2 sender _ g1) as [[s2 o2] g2].
    simpl in Hp2. injection Hp2 as -> ->. cbn [fst snd].
    match goal with
    | |- context [_auto_send_dm_after_sleep env1 sender (Some plan1) ?s] =>
        destruct (attempts_after_sleep env1 sender plan1 s Hc1)
          as (E1 & _ & _);
        destruct (_auto_send_dm_after_sleep env1 sender (Some plan1) s)
          as [s3 e1]
    end.
    destruct (attempts_after_sleep env2 sender plan2 s3 Hc2) as (E2 & _ & _).
    destruct (_auto_send_dm_after_sleep env2 sender (Some plan2) s3)
      as [s4 e2].
    unfold ret. cbn [fst snd] in *. unfold attempts in *.
    rewrite omap_app, E1, E2.
    by exists (plan_phone plan1), (plan_template plan1),
              (plan_phone plan2), (plan_template plan2).
  - intros Hok Hrt Hin. unfold one_by_one, bind.
    rewrite _auto_send_dm_split.
    destruct (_auto_send_dm_checks env1 sender self g) as [[s1 o1] g1].
    simpl in Hp1. injection Hp1 as -> ->. cbn [fst snd].
    match goal with
    | |- context [_auto_send_dm_after_sleep env1 sender (Some plan1) ?s] =>
        destruct (attempts_after_sleep env1 sender plan1 s Hc1)
          as (E1 & E2 & E3);
        destruct (_auto_send_dm_after_sleep env1 sender (Some plan1) s)
          as [s3 e1]
    end.
    cbn [fst snd] in *. specialize (E2 Hok).
    assert (Hsent : DMRecordManager.is_user_sent (env_now env2)
                      (user_id sender) 24 (sent_users s3) = true).
    { rewrite (is_user_sent_entry _ _ _ _ (env_now_sent env1)); [| | done].
      - apply negb_true_iff, Z.ltb_ge. done.
      - rewrite E2. unfold DMRecordManager.add_sent_user.
        apply lookup_insert_eq. }
    unfold _auto_send_dm. rewrite E3. cbn [dm_settings_manager with_accounts].
    rewrite He, Ht, Hsent. unfold ret. cbn [fst snd negb].
    rewrite app_nil_r.
    by exists (plan_phone plan1), (plan_template plan1).
Qed.

(** The checks change the accounts only. *)
Lemma _auto_send_dm_checks_frame env sender self g :
  sent_users (_auto_send_dm_checks env sender self g).1.1 = sent_users self
  /\ dm_settings_manager (_auto_send_dm_checks env sender self g).1.1
     = dm_settings_manager self
  /\ dm_template_manager (_auto_send_dm_checks env sender self g).1.1
     = dm_template_manager self.
Proof.
  unfold _auto_send_dm_checks.
  destruct (negb (DMSettingsManager.enabled _)); [done |].
  destruct (negb (truthy _)); [done |].
  destruct (DMRecordManager.is_user_sent _ _ _ _); [done |].
  destruct (negb (DMSettingsManager.is_active_hour _ _)); [done |].
  destruct (DMAccountManager.get_available_accounts _ _ _)
    as [available accounts].
  destruct available as [|acc0 available]; [done |].
  unfold bind.
  destruct (choice acc0 (acc0 :: available) g) as [dm_account g1].
  destruct (negb (env_connected env _)); [done |].
  destruct (DMTemplateManager.get_random_template _ g1) as [[template|] g2];
    [| done].
  by destruct (randint _ _ g2) as [[delay|] g3].
Qed.

(** What follows the sleep writes the sender into the registry, or
    nobody; the settings and the templates stay. *)
Lemma _auto_send_dm_after_sleep_frame env sender plan self :
  (forall uid,
      user_id sender <> uid ->
      sent_users (_auto_send_dm_after_sleep env sender plan self).1
        !! str_of_Z uid
      = sent_users self !! str_of_Z uid)
  /\ dm_settings_manager (_auto_send_dm_after_sleep env sender plan self).1
     = dm_settings_manager self
  /\ dm_template_manager (_auto_send_dm_after_sleep env sender plan self).1
     = dm_template_manager self.
Proof.
  unfold _auto_send_dm_after_sleep. destruct plan as [plan|]; [| done].
  destruct (negb (env_connected_after_delay env) && negb (env_reconnected env));
    [done |].
  unfold send_and_record. destruct (env_send_ok env); simpl; [| done].
  split; [| done]. intros uid Hne. by apply add_sent_user_other.
Qed.

Lemma _auto_send_dm_frame env sender self g :
  (forall uid,
      user_id sender <> uid ->
      sent_users (_auto_send_dm env sender self g).1.1 !! str_of_Z uid
      = sent_users self !! str_of_Z uid)
  /\ dm_settings_manager (_auto_send_dm env sender self g).1.1
     = dm_settings_manager self
  /\ dm_template_manager (_auto_send_dm env sender self g).1.1
     = dm_template_manager self.
Proof.
  rewrite _auto_send_dm_split. cbn [fst].
  destruct (_auto_send_dm_checks_frame env sender self g) as (C1 & C2 & C3).
  destruct (_auto_send_dm_after_sleep_frame env sender
              (_auto_send_dm_checks env sender self g).1.2
              (_auto_send_dm_checks env sender self g).1.1)
    as (A1 & A2 & A3).
  split; [| by rewrite A2, A3].
  intros uid Hne. by rewrite A1, C1.
Qed.

(** Tasks for other users leave the entry of a user as it is. *)
Lemma run_dispatches_frame dispatches self g uid :
  Forall (fun d => user_id d.2 <> uid) dispatches ->
  sent_users (run_dispatches dispatches self g).1.1 !! str_of_Z uid
  = sent_users self !! str_of_Z uid
  /\ dm_settings_manager (run_dispatches dispatches self g).1.1
     = dm_settings_manager self
  /\ dm_template_manager (run_dispatches dispatches self g).1.1
     = dm_template_manager self.
Proof.
  revert self g. induction dispatches as [|[env sender] rest IH];
    intros self g Hall; [done |].
  apply Forall_cons in Hall as [Hne Hall]. simpl in Hne.
  cbn [run_dispatches]. unfold bind.
  destruct (_auto_send_dm_frame env sender self g) as (F1 & F2 & F3).
  destruct (_auto_send_dm env sender self g) as [r1 g1]. cbn [fst] in *.
  destruct (IH r1.1 g1 Hall) as (I1 & I2 & I3).
  destruct (run_dispatches rest r1.1 g1) as [r2 g2]. unfold ret.
  cbn [fst] in *. rewrite I1, I2, I3, F1, F2, F3 by done. done.
Qed.

(** With [delay_max] below [delay_min] the draw of the delay raises:
    the dispatch ends without a sleep and without a send attempt. *)
Lemma _auto_send_dm_empty_delay_range env sender self g :
  DMSettingsManager.delay_max (dm_settings_manager self)
  < DMSettingsManager.delay_min (dm_settings_manager self) ->
  (_auto_send_dm env sender self g).1.2 = [].
Proof.
  intros Hrange. unfold _auto_send_dm.
  destruct (negb (DMSettingsManager.enabled _)); [done |].
  destruct (negb (truthy _)); [done |].
  destruct (DMRecordManager.is_user_sent _ _ _ _); [done |].
  destruct (negb (DMSettingsManager.is_active_hour _ _)); [done |].
  destruct (DMAccountManager.get_available_accounts _ _ _)
    as [available accounts].
  destruct available as [|acc0 available]; [done |].
  unfold bind.
  destruct (choice acc0 (acc0 :: available) g) as [dm_account g1].
  destruct (negb (env_connected env _)); [done |].
  destruct (DMTemplateManager.get_random_template _ g1) as [[template|] g2];
    [| done].
  cbn [dm_settings_manager with_accounts].
  by rewrite (randint_empty _ _ g2 Hrange).
Qed.

(** A dispatch that meets every condition makes one send attempt, and
    writes the sender into the registry when the message is sent. *)
Lemma _auto_send_dm_sends env sender self g :
  DMSettingsManager.enabled (dm_settings_manager self) = true ->
  truthy (user_username sender) = true ->
  DMRecordManager.is_user_sent (env_now env) (user_id sender) 24
                               (sent_users self) = false ->
  DMSettingsManager.is_active_hour (dm_settings_manager self)
                                   (env_hour env) = true ->
  (exists acc,
      acc ∈ dm_account_manager self
      /\ eligible (env_today env)
           (DMSettingsManager.daily_limit (dm_settings_manager self)) acc
         = true) ->
  (forall p, env_connected env p = true) ->
  dm_template_manager self <> [] ->
  DMSettingsManager.delay_min (dm_settings_manager self)
  <= DMSettingsManager.delay_max (dm_settings_manager self) ->
  env_connected_after_delay env = true ->
  (exists p t, attempts (_auto_send_dm env sender self g).1.2
               = [(p, sender, t)])
  /\ (env_send_ok env = true ->
      sent_users (_auto_send_dm env sender self g).1.1
      = DMRecordManager.add_sent_user (env_now_sent env) (user_id sender)
                                      (sent_users self)).
Proof.
  intros He Ht Hs Ha Hacc Hc Htpl Hdelay Hcd.
  destruct (_auto_send_dm_checks_passes env sender self g He Ht Hs Ha Hacc
              Hc Htpl Hdelay) as [plan Hp].
  rewrite _auto_send_dm_split. cbn [fst].
  destruct (_auto_send_dm_checks env sender self g) as [[s1 o1] g1].
  simpl in Hp. injection Hp as -> ->. cbn [fst snd].
  match goal with
  | |- context [_auto_send_dm_after_sleep env sender (Some plan) ?s] =>
      destruct (attempts_after_sleep env sender plan s Hcd) as (E1 & E2 & _)
  end.
  split; [by exists (plan_phone plan), (plan_template plan) |].
  intros Hok. by rewrite E2.
Qed.

(** A dispatch for a user that the registry holds within the window
    stops at the registry check, or before it. *)
Lemma _auto_send_dm_registered env sender self g :
  DMRecordManager.is_user_sent (env_now env) (user_id sender) 24
                               (sent_users self) = true ->
  _auto_send_dm env sender self g = ((self, []), g).
Proof.
  intros Hsent. unfold _auto_send_dm. rewrite Hsent.
  destruct (negb (DMSettingsManager.enabled (dm_settings_manager self)));
    [done |].
  by destruct (negb (truthy (user_username sender))).
Qed.

(** C4, as the code has it.  A dispatch for a user that meets every
    condition makes a send attempt, and when the message is sent the
    user is written into the sent registry with the time of the send.
    From then on, whatever tasks for other users run in the meantime, a
    dispatch for the user whose check runs at most 24 hours after the
    send makes no attempt and leaves the state as it is.  Once more
    than 24 hours have passed, the registry check reports the user as
    not sent, and a dispatch that meets the other conditions makes a
    new attempt.  [dm_clear_sent_users] empties the registry: after it
    nobody is reported as sent. *)
Theorem no_second_send_within_reset_window
    (env1 env2 : DispatchEnv) (sender : User) (self : DMState)
    (others : list (DispatchEnv * User)) (g g1 g2 : Rng) :
  DMSettingsManager.enabled (dm_settings_manager self) = true ->
  truthy (user_username sender) = true ->
  DMRecordManager.is_user_sent (env_now env1) (user_id sender) 24
                               (sent_users self) = false ->
  DMSettingsManager.is_active_hour (dm_settings_manager self)
                                   (env_hour env1) = true ->
  (exists acc,
      acc ∈ dm_account_manager self
      /\ eligible (env_today env1)
           (DMSettingsManager.daily_limit (dm_settings_manager self)) acc
         = true) ->
  (forall p, env_connected env1 p = true) ->
  dm_template_manager self <> [] ->
  DMSettingsManager.delay_min (dm_settings_manager self)
  <= DMSettingsManager.delay_max (dm_settings_manager self) ->
  env_connected_after_delay env1 = true ->
  env_send_ok env1 = true ->
  fromisoformat (isoformat (env_now_sent env1)) = Some (env_now_sent env1) ->
  Forall (fun d => user_id d.2 <> user_id sender) others ->
  let first := (_auto_send_dm env1 sender self g).1 in
  let later := (run_dispatches others first.1 g1).1.1 in
  (exists p t, attempts first.2 = [(p, sender, t)])
  /\ sent_users first.1 !! str_of_Z (user_id sender)
     = Some (isoformat (env_now_sent env1))
  /\ (env_now env2 - env_now_sent env1 <= hours 24 ->
      _auto_send_dm env2 sender later g2 = ((later, []), g2))
  /\ (hours 24 < env_now env2 - env_now_sent env1 ->
      DMRecordManager.is_user_sent (env_now env2) (user_id sender) 24
                                   (sent_users later) = false
      /\ (DMSettingsManager.is_active_hour (dm_settings_manager later)
                                           (env_hour env2) = true ->
          (exists acc,
              acc ∈ dm_account_manager later
              /\ eligible (env_today env2)
                   (DMSettingsManager.daily_limit (dm_settings_manager later))
                   acc = true) ->
          (forall p, env_connected env2 p = true) ->
          env_connected_after_delay env2 = true ->
          exists p t,
            attempts (_auto_send_dm env2 sender later g2).1.2
            = [(p, sender, t)]))
  /\ (forall now uid s,
        DMRecordManager.is_user_sent now uid 24
          (sent_users (dm_clear_sent_users s)) = false).
Proof.
  intros He Ht Hs Ha Hacc Hc Htpl Hdelay Hcd Hok Hrt Hothers. cbv zeta.
  destruct (_auto_send_dm_sends env1 sender self g He Ht Hs Ha Hacc Hc Htpl
              Hdelay Hcd) as [Hatt Hreg].
  specialize (Hreg Hok).
  destruct (_auto_send_dm_frame env1 sender self g) as (_ & F2 & F3).
  assert (Hentry :
    sent_users (_auto_send_dm env1 sender self g).1.1
      !! str_of_Z (user_id sender)
    = Some (isoformat (env_now_sent env1))).
  { rewrite Hreg. unfold DMRecordManager.add_sent_user.
    apply lookup_insert_eq. }
  destruct (run_dispatches_frame others
              (_auto_send_dm env1 sender self g).1.1 g1 (user_id sender)
              Hothers) as (L1 & L2 & L3).
  rewrite Hentry in L1.
  split; [done |]. split; [done |]. split; [| split].
  - intros Hin. apply _auto_send_dm_registered.
    rewrite (is_user_sent_entry _ _ _ _ (env_now_sent env1) L1 Hrt).
    by apply negb_true_iff, Z.ltb_ge.
  - intros Hout.
    assert (Hns : DMRecordManager.is_user_sent (env_now env2)
                    (user_id sender) 24
                    (sent_users
                       (run_dispatches others
                          (_auto_send_dm env1 sender self g).1.1 g1).1.1)
                  = false).
    { rewrite (is_user_sent_entry _ _ _ _ (env_now_sent env1) L1 Hrt).
      by apply negb_false_iff, Z.ltb_lt. }
    split; [done |]. intros Ha2 Hacc2 Hc2 Hcd2.
    apply _auto_send_dm_sends; try done.
    + by rewrite L2, F2.
    + by rewrite L3, F3.
    + by rewrite L2, F2.
  - intros now uid s. unfold DMRecordManager.is_user_sent. simpl.
    unfold DMRecordManager.clear_sent_users. by rewrite lookup_empty.
Qed.

End Dispatch.

Lemma no_second_send_within_reset_window_witness :
  let first := (@_auto_send_dm decimal_clock noon bob one_account_pool
                               zero_rng).1 in
  let later := (@run_dispatches decimal_clock [(noon, flood_user 7)]
                                first.1 zero_rng).1.1 in
  (exists p t, attempts first.2 = [(p, bob, t)])
  /\ @_auto_send_dm decimal_clock an_hour_later bob later zero_rng
     = ((later, []), zero_rng).
Proof.
  cbv zeta.
  destruct (@no_second_send_within_reset_window decimal_clock noon
              an_hour_later bob one_account_pool [(noon, flood_user 7)]
              zero_rng zero_rng zero_rng) as (H1 & _ & H3 & _).
  - reflexivity.
  - reflexivity.
  - reflexivity.
  - reflexivity.
  - exists active_account. split; [by left | vm_compute; reflexivity].
  - intros p. reflexivity.
  - discriminate.
  - vm_compute. discriminate.
  - reflexivity.
  - reflexivity.
  - vm_compute. reflexivity.
  - apply Forall_cons. split; [vm_compute; discriminate | apply Forall_nil_2].
  - split; [exact H1 |]. apply H3. vm_compute. discriminate.
Defined.

(** The admin empties the sent registry an hour after a message was sent
    to [bob]: the next dispatch for [bob], well inside the 24 hours,
    writes to him again. *)
Lemma cleared_registry_sends_again :
  let first := (@_auto_send_dm decimal_clock noon bob one_account_pool
                               zero_rng).1 in
  let cleared := dm_clear_sent_users first.1 in
  attempts first.2 = [(u "+100", bob, hello_template)]
  /\ sent_users first.1 !! str_of_Z (user_id bob)
     = Some (@isoformat decimal_clock (env_now_sent noon))
  /\ env_now an_hour_later - env_now_sent noon <= hours 24
  /\ attempts (@_auto_send_dm decimal_clock an_hour_later bob cleared
                              zero_rng).1.2
     = [(u "+100", bob, hello_template)].
Proof.
  cbv zeta. split; [vm_compute; reflexivity |].
  split; [vm_compute; reflexivity |].
  split; [vm_compute; discriminate |].
  vm_compute. reflexivity.
Qed.

Lemma interleaved_tasks_both_send_witness :
  (exists p1 t1 p2 t2,
      attempts (@two_tasks decimal_clock noon noon bob one_account_pool
                           zero_rng).1.2
      = [(p1, bob, t1); (p2, bob, t2)])
  /\ (exists p1 t1,
        attempts (@one_by_one decimal_clock noon noon bob one_account_pool
                              zero_rng).1.2
        = [(p1, bob, t1)]).
Proof.
  destruct (@interleaved_tasks_both_send decimal_clock noon noon bob
              one_account_pool zero_rng) as [H1 H2].
  - reflexivity.
  - reflexivity.
  - apply lookup_empty.
  - reflexivity.
  - reflexivity.
  - reflexivity.
  - exists active_account. split; [by left | vm_compute; reflexivity].
  - intros p. split; reflexivity.
  - discriminate.
  - vm_compute. discriminate.
  - reflexivity.
  - reflexivity.
  - split; [exact H1 |]. apply H2.
    + reflexivity.
    + vm_compute. reflexivity.
    + vm_compute. discriminate.
Defined.

(** ** The paged lists *)

Section Pages.
Context {A : Type}.
Implicit Types items : list A.

Lemma slice_nonneg (a b : Z) items :
  0 <= a <= b -> b <= Z.of_nat (length items) ->
  slice a b items = take (Z.to_nat (b - a)) (drop (Z.to_nat a) items).
Proof.
  intros Hab Hb. unfold slice, slice_index. cbv zeta.
  replace (a <? 0) with false by (symmetry; apply Z.ltb_ge; lia).
  replace (b <? 0) with false by (symmetry; apply Z.ltb_ge; lia).
  rewrite !Z.min_l by lia.
  rewrite take_drop_commute. do 2 f_equal. lia.
Qed.

(** Chunks of 20 put one after the other give the list back. *)
Lemma chunks_concat (n : nat) items :
  (length items <= 20 * n)%nat ->
  concat (map (fun i => take 20 (drop (20 * i) items)) (seq 0 n)) = items.
Proof.
  revert items. induction n as [|n IH]; intros items Hlen.
  - destruct items; [done | simpl in Hlen; lia].
  - cbn [seq map concat]. rewrite <- fmap_S_seq.
    change (map ?f (S <$> ?l)) with (map f (map S l)).
    rewrite map_map.
    rewrite (map_ext _ (fun i => take 20 (drop (20 * i) (drop 20 items)))).
    + rewrite IH by (rewrite length_drop; lia).
      rewrite Nat.mul_0_r. simpl drop at 1. apply take_drop.
    + intros i. rewrite drop_drop. do 2 f_equal. lia.
Qed.

Lemma show_page_spec items page :
  items <> [] ->
  exists v,
    show_page items page = Some v
    /\ 1 <= view_page v <= view_total_pages v
    /\ view_total_pages v = (Z.of_nat (length items) + 19) / 20
    /\ view_page v = Z.max 1 (Z.min page (view_total_pages v))
    /\ view_items v
       = take 20 (drop (20 * Z.to_nat (view_page v - 1)) items)
    /\ view_nav v = nav_buttons (view_page v) (view_total_pages v).
Proof.
  intros Hne. unfold show_page. cbv zeta.
  assert (Hlen : 0 < Z.of_nat (length items)).
  { destruct items; [done | simpl; lia]. }
  replace (Z.of_nat (length items) =? 0) with false
    by (symmetry; apply Z.eqb_neq; lia).
  eexists. split; [reflexivity |]. cbn [view_page view_total_pages view_items
                                        view_nav].
  replace (Z.of_nat (length items) + 20 - 1)
    with (Z.of_nat (length items) + 19) by lia.
  set (tp := (Z.of_nat (length items) + 19) / 20).
  assert (Htp : 1 <= tp /\ 20 * (tp - 1) < Z.of_nat (length items) <= 20 * tp).
  { unfold tp.
    pose proof (Z.div_mod (Z.of_nat (length items) + 19) 20 ltac:(lia)).
    pose proof (Z.mod_pos_bound (Z.of_nat (length items) + 19) 20 ltac:(lia)).
    lia. }
  set (p := Z.max 1 (Z.min page tp)).
  assert (Hp : 1 <= p <= tp) by (unfold p; lia).
  split; [done |]. split; [done |]. split; [done |]. split; [| done].
  rewrite slice_nonneg by lia.
  replace (Z.to_nat ((p - 1) * 20)) with (20 * Z.to_nat (p - 1))%nat by lia.
  destruct (decide ((p - 1) * 20 + 20 <= Z.of_nat (length items))) as [Hf | Hl].
  - rewrite Z.min_l by lia. f_equal. lia.
  - rewrite Z.min_r by lia.
    rewrite !take_ge; [done | |]; rewrite length_drop; lia.
Qed.

(** X20.  The paged lists of blocked users and of private-message
    accounts.  For a list that is not empty and whatever page is asked
    for, the page shown is the page asked for brought into the range
    from 1 to the number of pages, which is the length divided by 20 and
    rounded up; it shows between 1 and 20 items, the items of that page
    in their order; the pages, one after the other, show every item of
    the list exactly once; and the navigation buttons ask only for
    pages in that range: the page before when there is one, and the
    page after when there is one. *)
Theorem pages_cover_the_list items (page : Z) :
  items <> [] ->
  exists v,
    show_page items page = Some v
    /\ view_total_pages v = (Z.of_nat (length items) + 19) / 20
    /\ view_page v = Z.max 1 (Z.min page (view_total_pages v))
    /\ 1 <= view_page v <= view_total_pages v
    /\ view_items v = take 20 (drop (20 * Z.to_nat (view_page v - 1)) items)
    /\ (1 <= length (view_items v) <= 20)%nat
    /\ concat (map (fun i => page_items items (Z.of_nat i))
                   (seq 1 (Z.to_nat (view_total_pages v)))) = items
    /\ (forall q, q ∈ view_nav v ->
          1 <= q <= view_total_pages v
          /\ (q = view_page v - 1 \/ q = view_page v + 1))
    /\ (1 < view_page v -> view_page v - 1 ∈ view_nav v)
    /\ (view_page v < view_total_pages v -> view_page v + 1 ∈ view_nav v).
Proof.
  intros Hne.
  destruct (show_page_spec items page Hne) as (v & Hv & Hp & Htp & Hpage & Hit & Hnav).
  exists v. split; [done |]. split; [done |]. split; [done |].
  split; [done |]. split; [done |].
  assert (Hlen : 0 < Z.of_nat (length items)).
  { destruct items; [done | simpl; lia]. }
  assert (Hbound : 20 * (view_total_pages v - 1) < Z.of_nat (length items)
                   <= 20 * view_total_pages v).
  { rewrite Htp.
    pose proof (Z.div_mod (Z.of_nat (length items) + 19) 20 ltac:(lia)).
    pose proof (Z.mod_pos_bound (Z.of_nat (length items) + 19) 20 ltac:(lia)).
    lia. }
  split; [| split; [| split; [| split]]].
  - rewrite Hit, length_take, length_drop. lia.
  - etrans; [| apply (chunks_concat (Z.to_nat (view_total_pages v)) items);
                lia].
    rewrite <- fmap_S_seq.
    change (map ?f (S <$> ?l)) with (map f (map S l)).
    rewrite map_map. f_equal. apply map_ext_in. intros i Hi.
    apply in_seq in Hi. unfold page_items.
    destruct (show_page_spec items (Z.of_nat (S i)) Hne)
      as (w & -> & Hwp & Hwtp & Hwpage & Hwit & _).
    rewrite Hwit, Hwpage, Hwtp, <- Htp. do 3 f_equal. lia.
  - intros q Hq. rewrite Hnav in Hq. unfold nav_buttons in Hq.
    destruct (Z.ltb_spec 1 (view_total_pages v)); [| by apply elem_of_nil in Hq].
    apply elem_of_app in Hq as [Hq | Hq].
    + destruct (Z.ltb_spec 1 (view_page v)); [| by apply elem_of_nil in Hq].
      apply list_elem_of_singleton in Hq. lia.
    + destruct (Z.ltb_spec (view_page v) (view_total_pages v));
        [| by apply elem_of_nil in Hq].
      apply list_elem_of_singleton in Hq. lia.
  - intros H1. rewrite Hnav. unfold nav_buttons.
    replace (1 <? view_total_pages v) with true
      by (symmetry; apply Z.ltb_lt; lia).
    replace (1 <? view_page v) with true by (symmetry; by apply Z.ltb_lt).
    apply elem_of_app. left. by left.
  - intros H1. rewrite Hnav. unfold nav_buttons.
    replace (1 <? view_total_pages v) with true
      by (symmetry; apply Z.ltb_lt; lia).
    replace (view_page v <? view_total_pages v) with true
      by (symmetry; by apply Z.ltb_lt).
    apply elem_of_app. right. by left.
Qed.

End Pages.

Lemma pages_cover_the_list_witness :
  exists v,
    show_page (seq 0 45) 7 = Some v
    /\ view_page v = 3 /\ view_items v = [40; 41; 42; 43; 44]%nat
    /\ view_nav v = [2].
Proof.
  destruct (pages_cover_the_list (seq 0 45) 7 ltac:(discriminate))
    as (v & Hv & _).
  exists v. split; [exact Hv |].
  vm_compute in Hv. injection Hv as <-. vm_compute. done.
Defined.

(** ** The phone behind a button *)

Lemma filter_none {A} (P : A -> Prop) `{forall x, Decision (P x)}
    (l : list A) :
  (forall x, x ∈ l -> ~ P x) -> filter P l = [].
Proof.
  induction l as [|y l IH]; intros Hall; [done |].
  rewrite filter_cons_False by (apply Hall; by left).
  apply IH. intros x Hx. apply Hall. by right.
Qed.

Section PhoneHash.
Context `{PyHash}.

Lemma _update_phone_hash_map_snoc ps p :
  _update_phone_hash_map (ps ++ [p])
  = <[phone_hash p := p]> (_update_phone_hash_map ps).
Proof. unfold _update_phone_hash_map. by rewrite foldl_app. Qed.

Lemma _update_phone_hash_map_lookup ps h :
  _update_phone_hash_map ps !! h
  = last (filter (fun q => phone_hash q = h) ps).
Proof.
  induction ps as [|p ps IH] using rev_ind; [done |].
  rewrite _update_phone_hash_map_snoc, filter_app.
  destruct (decide (phone_hash p = h)) as [<- | Hne].
  - rewrite lookup_insert_eq, filter_cons_True, filter_nil by done.
    by rewrite last_snoc.
  - rewrite lookup_insert_ne, filter_cons_False, filter_nil by done.
    by rewrite app_nil_r.
Qed.

(** X21.  The buttons of an account carry [abs(hash(phone)) % 100000],
    and [_get_phone_by_hash] reads the phone back from the map that
    [_update_phone_hash_map] builds.  For a number [h] the map answers
    with the last phone of the account list whose number is [h], and
    with [None] when there is none.  So the button of an account leads
    to a phone of the list with the same number, which is the account's
    own phone when no later account of the list has the same number; in
    a list without a repeated phone, when a later account has the same
    number, the buttons of the first act on a later account. *)
Theorem phone_hash_map_keeps_last (ps : list pystr) :
  (forall h,
      _get_phone_by_hash (_update_phone_hash_map ps) h
      = last (filter (fun q => phone_hash q = h) ps))
  /\ (forall h q,
        _get_phone_by_hash (_update_phone_hash_map ps) h = Some q ->
        q ∈ ps /\ phone_hash q = h /\ 0 <= h < 100000)
  /\ (forall p,
        p ∈ ps ->
        exists q,
          _get_phone_by_hash (_update_phone_hash_map ps) (phone_hash p)
          = Some q
          /\ q ∈ ps /\ phone_hash q = phone_hash p)
  /\ (forall pre p post,
        ps = pre ++ p :: post ->
        (forall q, q ∈ post -> phone_hash q <> phone_hash p) ->
        _get_phone_by_hash (_update_phone_hash_map ps) (phone_hash p)
        = Some p)
  /\ (forall pre p post q,
        ps = pre ++ p :: post -> NoDup ps ->
        q ∈ post -> phone_hash q = phone_hash p ->
        exists z,
          _get_phone_by_hash (_update_phone_hash_map ps) (phone_hash p)
          = Some z
          /\ z ∈ post /\ z <> p).
Proof.
  assert (Hlook : forall h,
    _get_phone_by_hash (_update_phone_hash_map ps) h
    = last (filter (fun q => phone_hash q = h) ps))
    by (intros h; apply _update_phone_hash_map_lookup).
  assert (Hsome : forall h q,
    _get_phone_by_hash (_update_phone_hash_map ps) h = Some q ->
    q ∈ ps /\ phone_hash q = h /\ 0 <= h < 100000).
  { intros h q. rewrite Hlook. intros Hl.
    apply last_Some in Hl as [front Hl].
    assert (Hin : q ∈ filter (fun q => phone_hash q = h) ps)
      by (rewrite Hl; apply elem_of_app; right; by left).
    apply list_elem_of_filter in Hin as [<- Hin].
    split; [done |]. split; [done |]. unfold phone_hash.
    apply Z.mod_pos_bound. lia. }
  split; [exact Hlook |]. split; [exact Hsome |]. split.
  - intros p Hp.
    destruct (_get_phone_by_hash (_update_phone_hash_map ps) (phone_hash p))
      as [q|] eqn:Hq.
    + exists q. split; [done |]. by destruct (Hsome _ _ Hq) as (? & ? & _).
    + rewrite Hlook in Hq. apply last_None in Hq.
      assert (Hin : p ∈ filter (fun q => phone_hash q = phone_hash p) ps)
        by by apply list_elem_of_filter.
      rewrite Hq in Hin. by apply elem_of_nil in Hin.
  - split.
    + intros pre p post -> Hno.
      rewrite Hlook, filter_app, filter_cons_True by done.
      rewrite (filter_none _ post) by (intros q Hq; by apply Hno).
      by rewrite last_snoc.
    + intros pre p post q -> Hnd Hq Hh.
      rewrite Hlook, filter_app, filter_cons_True by done.
      rewrite last_app_cons, last_cons.
      destruct (last (filter (fun q => phone_hash q = phone_hash p) post))
        as [z|] eqn:Hz.
      * exists z. split; [done |].
        apply last_Some in Hz as [front Hz].
        assert (Hin : z ∈ filter (fun q => phone_hash q = phone_hash p) post)
          by (rewrite Hz; apply elem_of_app; right; by left).
        apply list_elem_of_filter in Hin as [_ Hin]. split; [done |].
        intros ->. apply NoDup_app in Hnd as (_ & _ & Hnd).
        by apply NoDup_cons in Hnd as [Hnd _].
      * apply last_None in Hz.
        assert (Hin : q ∈ filter (fun q => phone_hash q = phone_hash p) post)
          by by apply list_elem_of_filter.
        rewrite Hz in Hin. by apply elem_of_nil in Hin.
Qed.

End PhoneHash.

(** ** The buttons under an alert and their handlers *)

Section Numerals.

Lemma bytes_of_app s1 s2 : bytes_of (s1 +:+ s2) = bytes_of s1 ++ bytes_of s2.
Proof.
  induction s1 as [|a s1 IH]; [done |].
  change (String a s1 +:+ s2) with (String a (s1 +:+ s2)).
  simpl. by rewrite IH.
Qed.

Lemma pretty_N_char_numeral d :
  numeral_char (Ascii.N_of_ascii (pretty_N_char d)).
Proof.
  left. destruct d as [|p]; [cbv; split; discriminate |].
  repeat (destruct p as [p|p|]; try (cbv; split; discriminate)).
Qed.

Lemma pretty_N_go_numeral x s :
  Forall numeral_char (bytes_of s) ->
  Forall numeral_char (bytes_of (pretty_N_go x s)).
Proof.
  revert s. induction (N.lt_wf_0 x) as [x _ IH]. intros s Hs.
  destruct (decide (x = 0)%N) as [-> | Hx].
  - by rewrite pretty_N_go_0.
  - rewrite pretty_N_go_step by lia. apply IH.
    + apply N.div_lt; lia.
    + simpl. constructor; [apply pretty_N_char_numeral | done].
Qed.

(** [str(n)] is made of digits and the minus sign. *)
Lemma str_of_Z_numeral n : Forall numeral_char (str_of_Z n).
Proof.
  assert (Hpos : forall p, Forall numeral_char (bytes_of (pretty (N.pos p)))).
  { intros p. unfold pretty, pretty_N.
    destruct (decide (N.pos p = 0%N)); [done |].
    apply pretty_N_go_numeral. constructor. }
  unfold str_of_Z. destruct n as [|p|p].
  - apply Forall_cons. split; [| apply Forall_nil_2].
    left. cbv. split; discriminate.
  - apply Hpos.
  - change (pretty (Z.neg p)) with ("-" +:+ pretty (N.pos p)).
    rewrite bytes_of_app. apply Forall_app. split; [| apply Hpos].
    apply Forall_cons. split; [by right | apply Forall_nil_2].
Qed.

Lemma numeral_char_ne c d :
  numeral_char c -> (d < 45 \/ 45 < d < 48 \/ 57 < d)%N -> c <> d.
Proof. unfold numeral_char. lia. Qed.

End Numerals.

Section SplitReplace.

Lemma split_go_no_sep sep cur s :
  Forall (fun c => c <> sep) s -> split_go sep cur s = [reverse cur ++ s].
Proof.
  revert cur. induction s as [|c s IH]; intros cur Hs; simpl.
  - by rewrite app_nil_r.
  - apply Forall_cons in Hs as [Hc Hs].
    rewrite (proj2 (N.eqb_neq c sep)) by done.
    rewrite IH by done. by rewrite reverse_cons, <- app_assoc.
Qed.

Lemma split_go_sep sep cur a b :
  Forall (fun c => c <> sep) a ->
  split_go sep cur (a ++ sep :: b) = (reverse cur ++ a) :: split_go sep [] b.
Proof.
  revert cur. induction a as [|c a IH]; intros cur Ha; simpl.
  - by rewrite N.eqb_refl, app_nil_r.
  - apply Forall_cons in Ha as [Hc Ha].
    rewrite (proj2 (N.eqb_neq c sep)) by done.
    rewrite IH by done. by rewrite reverse_cons, <- app_assoc.
Qed.

(** Two fields joined by a separator that neither holds are read back by
    [split]. *)
Lemma split_two sep a b :
  Forall (fun c => c <> sep) a -> Forall (fun c => c <> sep) b ->
  split sep (a ++ sep :: b) = [a; b].
Proof.
  intros Ha Hb. unfold split. rewrite split_go_sep by done.
  by rewrite split_go_no_sep by done.
Qed.

Lemma replace_go_no_head p0 p' dst s :
  Forall (fun c => c <> p0) s -> replace_go (p0 :: p') dst 0 s = s.
Proof.
  induction s as [|c s IH]; intros Hs; [done |].
  apply Forall_cons in Hs as [Hc Hs]. simpl.
  rewrite (proj2 (N.eqb_neq p0 c)) by done. simpl. by rewrite IH.
Qed.

(** Removing a prefix with [replace] from a string whose rest does not
    hold the first character of the prefix. *)
Lemma replace_prefix p0 p' s :
  Forall (fun c => c <> p0) s ->
  replace (p0 :: p') [] ((p0 :: p') ++ s) = s.
Proof.
  intros Hs. unfold replace.
  assert (Hsw : startswith (p0 :: p') (p0 :: p' ++ s) = true).
  { apply startswith_spec. by exists s. }
  rewrite <- app_comm_cons, (replace_go_cons_match _ _ _ _ Hsw).
  rewrite replace_go_skip. simpl. rewrite Nat.sub_0_r, drop_app_length.
  by apply replace_go_no_head.
Qed.

End SplitReplace.

Section AlertButtons.
Context `{PyInt} `{PyClock}.

(** X22.  The buttons under an alert are read back by their handlers.
    For an alert of a chat without a public name, on integers that
    [int] reads back from their [str], the message button carries
    [msg_link_<chat>_<message>], and [msg_link] answers for exactly that
    chat and message: with the link [https://t.me/c/<id>/<message>],
    where [<id>] is the chat id without its first four characters, when
    the chat id is negative and is written with [-100] in front, and
    with the notice that no link can be made otherwise.  The buttons
    "block user" and "block chat" carry the ids of the sender and of the
    chat, and [block_user] and [block_chat] add exactly these ids to the
    blacklist, after which the sender is blocked. *)
Theorem alert_buttons_round_trip (chat_id msg_id user_id now : Z)
    (username : option pystr) (bl : Blacklist.t) :
  int_ (str_of_Z chat_id) = Some chat_id ->
  int_ (str_of_Z msg_id) = Some msg_id ->
  int_ (str_of_Z user_id) = Some user_id ->
  exists msg_data dm_button user_data chat_data,
    message_action_buttons chat_id msg_id user_id username None
    = [ [ CallbackButton msg_data; dm_button ];
        [ CallbackButton user_data; CallbackButton chat_data ] ]
    /\ msg_link msg_data
       = u "📎 消息链接:" ++ [10%N]
         ++ (if (chat_id <? 0) && startswith (u "-100") (str_of_Z chat_id)
             then u "https://t.me/c/" ++ drop 4 (str_of_Z chat_id) ++ u "/"
                  ++ str_of_Z msg_id
             else u "私有群组，无法生成链接")
    /\ (block_user now user_data bl).1
       = (Blacklist.add_user now user_id [] bl).1
    /\ Blacklist.is_user_blocked (block_user now user_data bl).1 user_id
       = true
    /\ (block_chat now chat_data bl).1
       = (Blacklist.add_chat now chat_id [] bl).1
    /\ Blacklist.is_chat_blocked (block_chat now chat_data bl).1 chat_id
       = true.
Proof.
  intros Hc Hm Hu. unfold message_action_buttons. cbv zeta.
  cbn [truthy]. do 4 eexists. split; [reflexivity |].
  assert (Hnum : forall n d, (d < 45 \/ 45 < d < 48 \/ 57 < d)%N ->
                             Forall (fun c => c <> d) (str_of_Z n)).
  { intros n d Hd. eapply Forall_impl; [apply str_of_Z_numeral |].
    intros c Hc'. by apply numeral_char_ne. }
  split; [| split; [| split; [| split]]].
  - unfold msg_link.
    change (u "msg_link_") with (109%N :: [115; 103; 95; 108; 105; 110; 107; 95]%N).
    rewrite replace_prefix.
    + change (u "_") with [underscore].
      change (str_of_Z chat_id ++ [underscore] ++ str_of_Z msg_id)
        with (str_of_Z chat_id ++ underscore :: str_of_Z msg_id).
      rewrite split_two by (apply Hnum; unfold underscore; lia).
      lazy beta iota zeta. rewrite Hc, Hm. lazy beta iota zeta.
      destruct (chat_id <? 0); cbn [andb]; reflexivity.
    + apply Forall_app. split; [apply Hnum; lia |].
      apply Forall_app. split; [| apply Hnum; lia].
      apply Forall_cons. split; [| apply Forall_nil_2].
      cbv. discriminate.
  - unfold block_user.
    change (u "block_user_")
      with (98%N :: [108; 111; 99; 107; 95; 117; 115; 101; 114; 95]%N).
    rewrite replace_prefix by (apply Hnum; lia). rewrite Hu.
    by destruct (Blacklist.add_user now user_id [] bl).
  - unfold block_user.
    change (u "block_user_")
      with (98%N :: [108; 111; 99; 107; 95; 117; 115; 101; 114; 95]%N).
    rewrite replace_prefix by (apply Hnum; lia). rewrite Hu.
    unfold Blacklist.add_user, Blacklist.is_user_blocked,
      BlacklistManager.is_user_blocked.
    destruct (decide (user_id ∈ BlacklistManager._user_ids
                                   (Blacklist.sets bl))) as [Hin | Hin].
    + rewrite (bool_decide_eq_true_2 _ Hin). simpl.
      by apply bool_decide_eq_true_2.
    + rewrite (bool_decide_eq_false_2 _ Hin). simpl.
      apply bool_decide_eq_true_2, elem_of_union. right.
      by apply elem_of_singleton.
  - unfold block_chat.
    change (u "block_chat_")
      with (98%N :: [108; 111; 99; 107; 95; 99; 104; 97; 116; 95]%N).
    rewrite replace_prefix by (apply Hnum; lia). rewrite Hc.
    by destruct (Blacklist.add_chat now chat_id [] bl).
  - unfold block_chat.
    change (u "block_chat_")
      with (98%N :: [108; 111; 99; 107; 95; 99; 104; 97; 116; 95]%N).
    rewrite replace_prefix by (apply Hnum; lia). rewrite Hc.
    unfold Blacklist.add_chat, Blacklist.is_chat_blocked,
      BlacklistManager.is_chat_blocked.
    destruct (decide (chat_id ∈ BlacklistManager._chat_ids
                                   (Blacklist.sets bl))) as [Hin | Hin].
    + rewrite (bool_decide_eq_true_2 _ Hin). simpl.
      by apply bool_decide_eq_true_2.
    + rewrite (bool_decide_eq_false_2 _ Hin). simpl.
      apply bool_decide_eq_true_2, elem_of_union. right.
      by apply elem_of_singleton.
Qed.

End AlertButtons.

Lemma alert_buttons_round_trip_witness :
  exists msg_data dm_button user_data chat_data,
    message_action_buttons (-1001234) 7 42 (Some (u "bob")) None
    = [ [ CallbackButton msg_data; dm_button ];
        [ CallbackButton user_data; CallbackButton chat_data ] ]
    /\ @msg_link decimal_int msg_data
       = u "📎 消息链接:" ++ [10%N] ++ u "https://t.me/c/1234/7".
Proof.
  destruct (@alert_buttons_round_trip decimal_int decimal_clock
              (-1001234) 7 42 0 (Some (u "bob"))
              (Blacklist.load_blacklist [] []) eq_refl eq_refl eq_refl)
    as (d1 & b & d3 & d4 & Hb & Hl & _).
  exists d1, b, d3, d4. split; [exact Hb |]. rewrite Hl. reflexivity.
Defined.

(** ** Proxy lines *)

Section ProxyLines.
Import ProxyParser.
Context `{PyInt} `{PyUrl}.

Lemma lstrip_nospace s :
  Forall (fun c => isspace c = false) s -> lstrip s = s.
Proof. intros Hs. destruct Hs; [done | by apply lstrip_fixed]. Qed.

Lemma strip_nospace s :
  Forall (fun c => isspace c = false) s -> strip s = s.
Proof.
  intros Hs. unfold strip. rewrite (lstrip_nospace s Hs).
  rewrite lstrip_nospace by by apply Forall_reverse.
  apply reverse_involutive.
Qed.

Lemma contains_without p c s : c ∈ p -> c ∉ s -> contains p s = false.
Proof.
  intros Hp Hs. destruct (contains p s) eqn:E; [| done].
  apply contains_spec in E as (a & b & ->). destruct Hs.
  rewrite !elem_of_app. right. by left.
Qed.

Lemma contains_char c a b : contains [c] (a ++ c :: b) = true.
Proof. apply contains_spec. by exists a, b. Qed.

Lemma split1_go_sep sep cur a b :
  sep ∉ a -> split1_go sep cur (a ++ sep :: b) = [reverse cur ++ a; b].
Proof.
  revert cur. induction a as [|c a IH]; intros cur Ha; simpl.
  - by rewrite N.eqb_refl, app_nil_r.
  - apply not_elem_of_cons in Ha as [Hc Ha].
    rewrite (proj2 (N.eqb_neq c sep)) by done.
    rewrite IH by done. by rewrite reverse_cons, <- app_assoc.
Qed.

(** [split(sep, 1)] cuts at the first separator. *)
Lemma split1_sep sep a b : sep ∉ a -> split1 sep (a ++ sep :: b) = [a; b].
Proof. intros Ha. unfold split1. by rewrite split1_go_sep. Qed.

(** [rsplit(sep, 1)] cuts at the last separator. *)
Lemma rsplit1_sep sep a b : sep ∉ b -> rsplit1 sep (a ++ sep :: b) = [a; b].
Proof.
  intros Hb. unfold rsplit1.
  rewrite reverse_app, reverse_cons, <- app_assoc. simpl.
  rewrite split1_sep by by rewrite elem_of_reverse.
  by rewrite !reverse_involutive.
Qed.

Lemma plain_spec c :
  plain c = true
  <-> isspace c = false /\ c <> colon /\ c <> at_sign /\ c <> 47%N
      /\ c <> 35%N.
Proof.
  unfold plain. rewrite andb_true_iff, !negb_true_iff.
  rewrite bool_decide_eq_false, !not_elem_of_cons. 
  split; [intros (? & ? & ? & ? & ? & _) | intros (? & ? & ? & ? & ?)];
    repeat split; try done. apply not_elem_of_nil.
Qed.

Lemma numeral_plain c : numeral_char c -> plain c = true.
Proof.
  unfold numeral_char. intros Hc. apply plain_spec.
  unfold colon, at_sign. repeat split; try lia.
  unfold isspace.
  repeat (match goal with
          | |- context [(?a <=? ?b)%N] => destruct (N.leb_spec a b); try lia
          | |- context [(?a =? ?b)%N] => destruct (N.eqb_spec a b); try lia
          end); reflexivity.
Qed.

Lemma plain_lineish s : forallb plain s = true -> Forall lineish s.
Proof.
  intros Hs. apply Forall_forall. intros c Hc.
  apply list_elem_of_In in Hc.
  pose proof (proj1 (forallb_forall plain s) Hs c Hc) as Hp.
  apply plain_spec in Hp. unfold lineish. tauto.
Qed.

Lemma plain_not_elem s c :
  forallb plain s = true -> c = colon \/ c = at_sign -> c ∉ s.
Proof.
  intros Hs Hc Hin. apply list_elem_of_In in Hin.
  pose proof (proj1 (forallb_forall plain s) Hs c Hin) as Hp.
  apply plain_spec in Hp. destruct Hc; tauto.
Qed.

Lemma str_of_Z_plain n : forallb plain (str_of_Z n) = true.
Proof.
  apply forallb_forall. intros c Hc. apply list_elem_of_In in Hc.
  apply numeral_plain.
  by apply (proj1 (Forall_forall _ _) (str_of_Z_numeral n)).
Qed.

Lemma lineish_colon : lineish colon.
Proof. by vm_compute. Qed.

Lemma lineish_at : lineish at_sign.
Proof. by vm_compute. Qed.

(** A line of such characters is read as it is, is no comment and has
    no scheme. *)
Lemma lineish_line s :
  Forall lineish s ->
  strip s = s /\ startswith (u "#") s = false
  /\ contains (u "://") s = false.
Proof.
  intros Hs. split; [| split].
  - apply strip_nospace. eapply Forall_impl; [exact Hs |].
    by intros c (? & _).
  - destruct Hs as [|c s (_ & _ & Hc) _]; [done |].
    change (u "#") with [35%N]. cbn [startswith].
    by rewrite (proj2 (N.eqb_neq 35 c)).
  - apply (contains_without _ 47%N).
    + change (u "://") with [58; 47; 47]%N. set_solver.
    + intros Hin. by destruct (proj1 (Forall_forall _ _) Hs _ Hin) as (_ & ? & _).
Qed.

Lemma Forall_ne_not_elem (x : N) s : Forall (fun c => c <> x) s -> x ∉ s.
Proof. intros Hs Hin. by apply (proj1 (Forall_forall _ _) Hs _ Hin). Qed.

Lemma no_at_sign s :
  Forall (fun c => c <> at_sign) s -> contains (u "@") s = false.
Proof.
  intros Hs. apply (contains_without _ at_sign).
  - change (u "@") with [at_sign]. set_solver.
  - by apply Forall_ne_not_elem.
Qed.

Lemma skipped_line_None line :
  skipped_line line = true -> parse_proxy line = None.
Proof. unfold skipped_line, parse_proxy. cbv zeta. by intros ->. Qed.

Lemma first_proxy_skips pre line rest :
  forallb skipped_line pre = true ->
  first_proxy (pre ++ line :: rest)
  = match parse_proxy line with
    | Some proxy => Some proxy
    | None => first_proxy rest
    end.
Proof.
  induction pre as [|l pre IH]; [done |]. simpl.
  rewrite andb_true_iff. intros [Hl Hpre].
  by rewrite (skipped_line_None l Hl), IH.
Qed.

(** A property of the characters of a line, from its fields. *)
Ltac all_chars :=
  repeat (first [ apply Forall_app; split
                | apply Forall_cons; split
                | apply Forall_nil_2 ]);
  auto.

(** X23.  The notations of a proxy line.  For a host, a user name and a
    password written with plain characters (no white space, [:], [@],
    [/] or [#]) and a port that [int] reads back from its [str], and
    whatever [urlparse] does: [host:port] is read as a SOCKS5 proxy of
    that host and port without credentials; [host:port:user:pass] and
    [user:pass@host:port] are read as the same proxy, with these
    credentials; a host alone and [host:port:user] are no proxy.
    [load_proxy_from_file] skips blank lines and comment lines and
    returns what the first other line is read as when that is a proxy;
    without a file it returns nothing. *)
Theorem proxy_line_notations (host user pass : pystr) (port_number : Z) :
  forallb plain host = true ->
  forallb plain user = true ->
  forallb plain pass = true ->
  int_ (str_of_Z port_number) = Some port_number ->
  let port_text := str_of_Z port_number in
  parse_proxy (host ++ colon :: port_text)
  = Some (socks5_proxy host port_number None None)
  /\ parse_proxy (host ++ colon :: port_text ++ colon :: user
                       ++ colon :: pass)
     = Some (socks5_proxy host port_number (Some user) (Some pass))
  /\ parse_proxy (user ++ colon :: pass ++ at_sign :: host
                       ++ colon :: port_text)
     = Some (socks5_proxy host port_number (Some user) (Some pass))
  /\ parse_proxy host = None
  /\ parse_proxy (host ++ colon :: port_text ++ colon :: user) = None
  /\ (forall pre line rest proxy,
        forallb skipped_line pre = true ->
        parse_proxy line = Some proxy ->
        load_proxy_from_file (Some (pre ++ line :: rest)) = Some proxy)
  /\ (forall pre, forallb skipped_line pre = true ->
                  load_proxy_from_file (Some pre) = None)
  /\ load_proxy_from_file None = None.
Proof.
  intros Hhost Huser Hpass Hport. cbv zeta.
  pose proof (str_of_Z_plain port_number) as Hpt.
  assert (Hsep : forall s, forallb plain s = true ->
                           Forall (fun c => c <> colon) s).
  { intros s Hs. apply Forall_forall. intros c Hc ->.
    by apply (plain_not_elem s colon Hs); [left |]. }
  assert (Hat : forall s, forallb plain s = true ->
                          Forall (fun c => c <> at_sign) s).
  { intros s Hs. apply Forall_forall. intros c Hc ->.
    by apply (plain_not_elem s at_sign Hs); [right |]. }
  assert (Hca : colon <> at_sign) by done.
  assert (Hline : forall s, Forall lineish s ->
            parse_proxy s
            = if contains (u "@") s then
                match split1 at_sign s with
                | [auth; address] =>
                    match split1 colon auth with
                    | [user; pass] =>
                        match rsplit1 colon address with
                        | [host; port_text] =>
                            match int_ port_text with
                            | Some port_number =>
                                Some (socks5_proxy host port_number
                                                   (Some user) (Some pass))
                            | None => None
                            end
                        | _ => None
                        end
                    | _ => None
                    end
                | _ => None
                end
              else
                match split colon s with
                | [host; port_text; user; pass] =>
                    match int_ port_text with
                    | Some port_number =>
                        Some (socks5_proxy host port_number
                                           (Some user) (Some pass))
                    | None => None
                    end
                | [host; port_text] =>
                    match int_ port_text with
                    | Some port_number =>
                        Some (socks5_proxy host port_number None None)
                    | None => None
                    end
                | _ => None
                end).
  { intros s Hs. destruct (lineish_line s Hs) as (Hstrip & Hc & Hurl).
    unfold parse_proxy. cbv zeta. rewrite Hstrip, Hc, Hurl.
    destruct s; [| done]. done. }
  pose proof (plain_lineish _ Hhost) as Lhost.
  pose proof (plain_lineish _ Huser) as Luser.
  pose proof (plain_lineish _ Hpass) as Lpass.
  pose proof (plain_lineish _ Hpt) as Lport.
  pose proof lineish_colon as Lc. pose proof lineish_at as La.
  split; [| split; [| split; [| split; [| split; [| split; [| split]]]]]].
  - rewrite Hline by (apply Forall_app; split; [done | by constructor]).
    rewrite no_at_sign by all_chars.
    unfold split.
    rewrite split_go_sep by by apply Hsep.
    rewrite split_go_no_sep by by apply Hsep. simpl. by rewrite Hport.
  - rewrite Hline
      by (repeat (first [ apply Forall_app; split; [done |]
                        | apply Forall_cons; split; [done |] ]); done).
    rewrite no_at_sign by all_chars.
    unfold split.
    rewrite split_go_sep by by apply Hsep.
    rewrite split_go_sep by by apply Hsep.
    rewrite split_go_sep by by apply Hsep.
    rewrite split_go_no_sep by by apply Hsep. simpl. by rewrite Hport.
  - rewrite Hline
      by (repeat (first [ apply Forall_app; split; [done |]
                        | apply Forall_cons; split; [done |] ]); done).
    change (u "@") with [at_sign].
    rewrite (app_comm_cons pass), app_assoc, contains_char.
    rewrite split1_sep.
    + rewrite split1_sep by (apply plain_not_elem; [done | by left]).
      rewrite rsplit1_sep by (apply plain_not_elem; [done | by left]).
      by rewrite Hport.
    + apply Forall_ne_not_elem. all_chars.
  - rewrite Hline by done. rewrite no_at_sign by all_chars.
    unfold split. rewrite split_go_no_sep by by apply Hsep. done.
  - rewrite Hline
      by (repeat (first [ apply Forall_app; split; [done |]
                        | apply Forall_cons; split; [done |] ]); done).
    rewrite no_at_sign by all_chars.
    unfold split.
    rewrite split_go_sep by by apply Hsep.
    rewrite split_go_sep by by apply Hsep.
    rewrite split_go_no_sep by by apply Hsep. done.
  - intros pre line rest proxy Hpre Hp. simpl.
    by rewrite first_proxy_skips, Hp.
  - intros pre Hpre. simpl. induction pre as [|l pre IH]; [done |].
    simpl in Hpre. apply andb_true_iff in Hpre as [Hl Hpre]. simpl.
    by rewrite (skipped_line_None l Hl), IH.
  - done.
Qed.

End ProxyLines.

Lemma proxy_line_notations_witness :
  @ProxyParser.parse_proxy decimal_int ProxyParser.no_urls
    (u "alice:secret@127.0.0.1:1080")
  = Some (ProxyParser.socks5_proxy (u "127.0.0.1") 1080
            (Some (u "alice")) (Some (u "secret")))
  /\ @ProxyParser.parse_proxy decimal_int ProxyParser.no_urls
       (u "127.0.0.1:1080:alice:secret")
     = Some (ProxyParser.socks5_proxy (u "127.0.0.1") 1080
               (Some (u "alice")) (Some (u "secret"))).
Proof.
  destruct (@proxy_line_notations decimal_int ProxyParser.no_urls
              (u "127.0.0.1") (u "alice") (u "secret") 1080
              eq_refl eq_refl eq_refl eq_refl)
    as (_ & H3 & H2 & _).
  split; [exact H2 | exact H3].
Defined.

(** ** The export of the user list *)

Section ExportUsers.
Import RecordManager.

Lemma export_users_loop_NoDup users records :
  NoDup users.*1 -> NoDup (export_users_loop users records).*1.
Proof.
  revert users. induction records as [|r rest IH]; intros users Hnd;
    [done |]. simpl. case_bool_decide as Hin; [by apply IH |].
  apply IH. rewrite fmap_app. apply NoDup_app. split; [done |].
  split; [| apply NoDup_singleton].
  intros x Hx. simpl. rewrite list_elem_of_singleton. by intros ->.
Qed.

Lemma export_users_loop_ids users records uid :
  uid ∈ (export_users_loop users records).*1
  <-> uid ∈ users.*1 \/ exists r, r ∈ records /\ r_user_id r = uid.
Proof.
  revert users. induction records as [|r rest IH]; intros users; simpl.
  - split; [by left | intros [? | (r & Hr & _)]; [done |]].
    by apply elem_of_nil in Hr.
  - case_bool_decide as Hin; rewrite IH.
    + split.
      * intros [? | (r' & Hr' & ?)]; [by left |].
        right. exists r'. split; [by right | done].
      * intros [? | (r' & Hr' & Hid)]; [by left |].
        apply elem_of_cons in Hr' as [-> | Hr'].
        -- left. by rewrite <- Hid.
        -- right. by exists r'.
    + rewrite fmap_app, elem_of_app. simpl. rewrite list_elem_of_singleton.
      split.
      * intros [[? | ->] | (r' & Hr' & ?)].
        -- by left.
        -- right. exists r. split; [by left | done].
        -- right. exists r'. split; [by right | done].
      * intros [? | (r' & Hr' & Hid)]; [by left; left |].
        apply elem_of_cons in Hr' as [-> | Hr'].
        -- left. by right.
        -- right. by exists r'.
Qed.

(** The entries added by the loop, in the order of the records, each
    from the first record of its user. *)
Lemma export_users_loop_first users records :
  exists added,
    export_users_loop users records = users ++ added
    /\ added `sublist_of` (map user_of records)
    /\ forall uid name,
         (uid, name) ∈ added ->
         (uid ∉ users.*1)
         /\ exists pre r post,
              records = pre ++ r :: post
              /\ user_of r = (uid, name)
              /\ forall r', r' ∈ pre -> r_user_id r' <> uid.
Proof.
  revert users. induction records as [|r rest IH]; intros users; simpl.
  - exists []. rewrite app_nil_r. split; [done |]. split; [done |].
    intros uid name Hin. by apply elem_of_nil in Hin.
  - case_bool_decide as Hin.
    + destruct (IH users) as (added & -> & Hsub & Hfirst).
      exists added. split; [done |]. split; [by apply sublist_cons |].
      intros uid name Ha.
      destruct (Hfirst uid name Ha) as (Hnew & pre & r' & post & -> & Hr' & Hpre).
      split; [done |]. exists (r :: pre), r', post.
      split; [done |]. split; [done |].
      intros r0 Hr0. apply elem_of_cons in Hr0 as [-> | Hr0]; [| by apply Hpre].
      by intros <-.
    + destruct (IH (users ++ [(r_user_id r, r_username r)]))
        as (added & -> & Hsub & Hfirst).
      exists ((r_user_id r, r_username r) :: added).
      split; [by rewrite <- app_assoc |].
      split; [by apply sublist_skip |].
      intros uid name Ha. apply elem_of_cons in Ha as [Ha | Ha].
      * injection Ha as -> ->. split; [done |].
        exists [], r, rest. split; [done |]. split; [done |].
        intros r' Hr'. by apply elem_of_nil in Hr'.
      * destruct (Hfirst uid name Ha)
          as (Hnew & pre & r' & post & -> & Hr' & Hpre).
        rewrite fmap_app, not_elem_of_app in Hnew.
        destruct Hnew as [Hnew Hne]. simpl in Hne.
        rewrite list_elem_of_singleton in Hne.
        split; [done |]. exists (r :: pre), r', post.
        split; [done |]. split; [done |].
        intros r0 Hr0.
        apply elem_of_cons in Hr0 as [-> | Hr0]; [| by apply Hpre].
        by intros <-.
Qed.

Lemma foldl_user_lines output users :
  foldl (fun output entry => output ++ user_line entry) output users
  = output ++ concat (map user_line users).
Proof.
  revert output. induction users as [|e users IH]; intros output; simpl.
  - by rewrite app_nil_r.
  - by rewrite IH, <- app_assoc.
Qed.

(** X24.  The export of the user list names every user once.  The
    users listed by [export_user_list] are the users of the records;
    no user id is listed twice; the users stand in the order in which
    the records first name them; and each is listed with the user name
    of the first record of that user, whatever the later records say.
    The text is the header followed by one line [username,user_id] for
    each of them, with [无] for an empty user name. *)
Theorem export_lists_each_user_once (records : list record) :
  let users := export_users records in
  NoDup users.*1
  /\ (forall uid,
        uid ∈ users.*1 <-> exists r, r ∈ records /\ r_user_id r = uid)
  /\ users `sublist_of` (map user_of records)
  /\ (forall uid name,
        (uid, name) ∈ users ->
        exists pre r post,
          records = pre ++ r :: post
          /\ user_of r = (uid, name)
          /\ forall r', r' ∈ pre -> r_user_id r' <> uid)
  /\ export_user_list records
     = u "用户名,用户ID" ++ [10%N] ++ concat (map user_line users)
  /\ (length users <= length records)%nat.
Proof.
  cbv zeta. unfold export_users.
  destruct (export_users_loop_first [] records) as (added & E & Hsub & Hfirst).
  simpl in E. split; [| split; [| split; [| split; [| split]]]].
  - apply export_users_loop_NoDup. constructor.
  - intros uid. rewrite export_users_loop_ids. split.
    + intros [Hin | ?]; [by apply elem_of_nil in Hin | done].
    + by right.
  - by rewrite E.
  - intros uid name Hin. rewrite E in Hin.
    by destruct (Hfirst uid name Hin) as (_ & ?).
  - unfold export_user_list, export_users.
    by rewrite foldl_user_lines, <- app_assoc.
  - rewrite E. apply sublist_length in Hsub.
    by rewrite length_map in Hsub.
Qed.

End ExportUsers.

(** ** DMStickerManager: a sticker that was not sent yet *)

Section Stickers.
Import DMStickerManager.

Lemma swap_lookup {A} (i j : nat) (x : list A) (a b : A) (k : nat) :
  x !! i = Some a -> x !! j = Some b ->
  swap i j x !! k
  = if decide (k = j) then Some a
    else if decide (k = i) then Some b else x !! k.
Proof.
  intros Hi Hj. unfold swap. rewrite Hi, Hj.
  destruct (decide (k = j)) as [-> | Hkj].
  - apply list_lookup_insert_eq. rewrite length_insert.
    by apply lookup_lt_Some in Hj.
  - rewrite list_lookup_insert_ne by done.
    destruct (decide (k = i)) as [-> | Hki].
    + apply list_lookup_insert_eq. by apply lookup_lt_Some in Hi.
    + by rewrite list_lookup_insert_ne.
Qed.

(** A swap keeps the elements. *)
Lemma swap_elem {A} (i j : nat) (x : list A) (y : A) :
  y ∈ swap i j x <-> y ∈ x.
Proof.
  destruct (x !! i) as [a|] eqn:Hi; [| by unfold swap; rewrite Hi].
  destruct (x !! j) as [b|] eqn:Hj; [| by unfold swap; rewrite Hi, Hj].
  rewrite !list_elem_of_lookup. split; intros [k Hk].
  - rewrite (swap_lookup i j x a b k Hi Hj) in Hk.
    destruct (decide (k = j)); [exists i; congruence |].
    destruct (decide (k = i)); [exists j; congruence |]. by exists k.
  - destruct (decide (k = i)) as [-> | Hki].
    + exists j. rewrite (swap_lookup i j x a b j Hi Hj).
      rewrite decide_True by done. congruence.
    + destruct (decide (k = j)) as [-> | Hkj].
      * exists i. rewrite (swap_lookup i j x a b i Hi Hj).
        rewrite decide_False by done. rewrite decide_True by done.
        congruence.
      * exists k. rewrite (swap_lookup i j x a b k Hi Hj).
        by rewrite !decide_False by done.
Qed.

Lemma shuffle_loop_elem {A} (i : nat) (x : list A) (g : Rng) (y : A) :
  y ∈ (shuffle_loop i x g).1 <-> y ∈ x.
Proof.
  revert x g. induction i as [|i IH]; intros x g; [done |].
  simpl. unfold bind. simpl. by rewrite IH, swap_elem.
Qed.

(** [random.shuffle] keeps the elements. *)
Lemma shuffle_elem {A} (x : list A) (g : Rng) (y : A) :
  y ∈ (shuffle x g).1 <-> y ∈ x.
Proof. apply shuffle_loop_elem. Qed.

Lemma get_sticker_set_spec client set_name self :
  (get_sticker_set client set_name self).2
  = documents_of client self set_name
  /\ sticker_sets (get_sticker_set client set_name self).1
     = sticker_sets self
  /\ used_sticker_ids (get_sticker_set client set_name self).1
     = used_sticker_ids self
  /\ forall n,
       documents_of client (get_sticker_set client set_name self).1 n
       = documents_of client self n.
Proof.
  unfold get_sticker_set, documents_of.
  destruct (sticker_cache self !! set_name) as [cached|] eqn:Hc.
  - done.
  - destruct (client set_name) as [fetched|] eqn:Hf; simpl; [| done].
    rewrite lookup_insert_eq. repeat split; try done.
    intros n. destruct (decide (n = set_name)) as [-> | Hn].
    + by rewrite lookup_insert_eq, Hc, Hf.
    + by rewrite lookup_insert_ne.
Qed.

(** One pass over the shuffled sets: it picks a sticker that was not
    used, of one of these sets, or finds every sticker of these sets
    used. *)
Lemma pick_sticker_spec client shuffled_sets self g :
  let picked := (pick_sticker client shuffled_sets self g).1 in
  sticker_sets picked.1 = sticker_sets self
  /\ (forall n, documents_of client picked.1 n = documents_of client self n)
  /\ match picked.2 with
     | Some sticker =>
         (id sticker ∉ used_sticker_ids self)
         /\ used_sticker_ids picked.1
            = used_sticker_ids self ∪ {[ id sticker ]}
         /\ exists set_name documents,
              set_name ∈ shuffled_sets
              /\ documents_of client self set_name = Some documents
              /\ sticker ∈ documents
     | None =>
         used_sticker_ids picked.1 = used_sticker_ids self
         /\ forall set_name documents sticker,
              set_name ∈ shuffled_sets ->
              documents_of client self set_name = Some documents ->
              sticker ∈ documents ->
              id sticker ∈ used_sticker_ids self
     end.
Proof.
  cbv zeta. revert self g.
  induction shuffled_sets as [|set_name rest IH]; intros self g.
  - simpl. repeat split; try done.
    intros n docs s Hn. by apply elem_of_nil in Hn.
  - cbn [pick_sticker].
    destruct (get_sticker_set_spec client set_name self)
      as (Hdocs & Hsets & Hused & Hsame).
    destruct (get_sticker_set client set_name self) as [self1 fetched].
    simpl in Hdocs, Hsets, Hused, Hsame.
    assert (Hrest :
      forall (Hnone : forall documents sticker,
                 documents_of client self set_name = Some documents ->
                 sticker ∈ documents ->
                 id sticker ∈ used_sticker_ids self),
      let picked := (pick_sticker client rest self1 g).1 in
      sticker_sets picked.1 = sticker_sets self
      /\ (forall n, documents_of client picked.1 n
                    = documents_of client self n)
      /\ match picked.2 with
         | Some sticker =>
             (id sticker ∉ used_sticker_ids self)
             /\ used_sticker_ids picked.1
                = used_sticker_ids self ∪ {[ id sticker ]}
             /\ exists set_name0 documents,
                  set_name0 ∈ set_name :: rest
                  /\ documents_of client self set_name0 = Some documents
                  /\ sticker ∈ documents
         | None =>
             used_sticker_ids picked.1 = used_sticker_ids self
             /\ forall set_name0 documents sticker,
                  set_name0 ∈ set_name :: rest ->
                  documents_of client self set_name0 = Some documents ->
                  sticker ∈ documents ->
                  id sticker ∈ used_sticker_ids self
         end).
    { intros Hnone. cbv zeta.
      destruct (IH self1 g) as (Hs & Hd & Hm).
      split; [congruence |]. split; [intros n; by rewrite Hd |].
      destruct ((pick_sticker client rest self1 g).1.2) as [sticker|].
      - destruct Hm as (Hfresh & Hu & n & docs & Hn & Hnd & Hin).
        rewrite Hused in Hfresh, Hu. split; [done |]. split; [done |].
        exists n, docs. split; [by right |]. by rewrite <- Hsame.
      - destruct Hm as (Hu & Hall). split; [congruence |].
        intros n docs s Hn Hnd Hin.
        apply elem_of_cons in Hn as [-> | Hn]; [by eapply Hnone |].
        rewrite <- Hused. eapply Hall; [done | by rewrite Hsame | done]. }
    destruct fetched as [documents|].
    + destruct (filter (fun s => id s ∉ used_sticker_ids self1) documents)
        as [|first available] eqn:Hav.
      * apply Hrest. intros docs s Hd Hin.
        rewrite <- Hdocs in Hd. injection Hd as <-.
        destruct (decide (id s ∈ used_sticker_ids self)) as [? | Hs];
          [done |].
        assert (s ∈ filter (fun s => id s ∉ used_sticker_ids self1)
                           documents) as Hf
          by (apply list_elem_of_filter; by rewrite Hused).
        rewrite Hav in Hf. by apply elem_of_nil in Hf.
      * unfold bind, ret.
        destruct (choice_in first (first :: available) g) as [Hc _];
          [done |].
        destruct (choice first (first :: available) g) as [sticker g'].
        simpl in Hc. simpl.
        rewrite <- Hav in Hc. apply list_elem_of_filter in Hc as [Hfresh Hin].
        rewrite Hused in Hfresh |- *.
        repeat split; try done.
        exists set_name, documents. split; [by left | done].
    + apply Hrest. intros docs s Hd. by rewrite <- Hdocs in Hd.
Qed.

Lemma in_stock_same client self self' sticker :
  sticker_sets self' = sticker_sets self ->
  (forall n, documents_of client self' n = documents_of client self n) ->
  in_stock client self' sticker <-> in_stock client self sticker.
Proof.
  intros Hs Hd. unfold in_stock. rewrite Hs.
  by setoid_rewrite Hd.
Qed.

(** The call returns at once with a sticker that was not used when
    there is one. *)
Lemma get_random_sticker_fresh fuel client self g sticker0 :
  in_stock client self sticker0 ->
  id sticker0 ∉ used_sticker_ids self ->
  exists self' sticker,
    (get_random_sticker (S fuel) client self g).1
    = Some (self', Some sticker)
    /\ in_stock client self sticker
    /\ (id sticker ∉ used_sticker_ids self)
    /\ used_sticker_ids self' = used_sticker_ids self ∪ {[ id sticker ]}
    /\ sticker_sets self' = sticker_sets self
    /\ (forall n, documents_of client self' n = documents_of client self n).
Proof.
  intros (n0 & docs0 & Hn0 & Hd0 & Hin0) Hfresh0. cbn [get_random_sticker].
  destruct (sticker_sets self) as [|s0 ss] eqn:Hsets;
    [by apply elem_of_nil in Hn0 |].
  rewrite <- Hsets in *. unfold bind.
  destruct (shuffle (sticker_sets self) g) as [shuffled g1] eqn:Hsh.
  pose proof (pick_sticker_spec client shuffled self g1) as Hp.
  cbv zeta in Hp.
  destruct (pick_sticker client shuffled self g1) as [[self1 found] g2].
  simpl in Hp. simpl. destruct Hp as (Hs & Hd & Hm).
  assert (Hel : forall n, n ∈ shuffled <-> n ∈ sticker_sets self).
  { intros n. rewrite <- (shuffle_elem (sticker_sets self) g). by rewrite Hsh. }
  destruct found as [sticker|].
  - destruct Hm as (Hfresh & Hu & n & docs & Hn & Hnd & Hin).
    exists self1, sticker. repeat split; try done.
    exists n, docs. by rewrite <- Hel.
  - destruct Hm as (_ & Hall). destruct Hfresh0.
    eapply Hall; [by apply Hel | done | done].
Qed.

(** The call never returns when the configured sets hold no sticker. *)
Lemma get_random_sticker_diverges fuel client self g :
  sticker_sets self <> [] ->
  (forall sticker, ~ in_stock client self sticker) ->
  (get_random_sticker fuel client self g).1 = None.
Proof.
  revert self g. induction fuel as [|fuel IH]; intros self g Hne Hempty;
    [done |].
  cbn [get_random_sticker].
  destruct (sticker_sets self) as [|s0 ss] eqn:Hsets; [done |].
  rewrite <- Hsets in *. unfold bind.
  destruct (shuffle (sticker_sets self) g) as [shuffled g1] eqn:Hsh.
  pose proof (pick_sticker_spec client shuffled self g1) as Hp.
  cbv zeta in Hp.
  destruct (pick_sticker client shuffled self g1) as [[self1 found] g2].
  simpl in Hp. simpl. destruct Hp as (Hs & Hd & Hm).
  assert (Hel : forall n, n ∈ shuffled <-> n ∈ sticker_sets self).
  { intros n. rewrite <- (shuffle_elem (sticker_sets self) g). by rewrite Hsh. }
  destruct found as [sticker|].
  - destruct Hm as (_ & _ & n & docs & Hn & Hnd & Hin).
    destruct (Hempty sticker). exists n, docs. by rewrite <- Hel.
  - apply IH; [simpl; congruence |].
    intros sticker Hin. apply (Hempty sticker).
    by apply (in_stock_same client self (set_used self1 ∅)).
Qed.

(** X25.  [get_random_sticker] repeats no sticker before all have been
    sent.  With the client answering the same for a set throughout the
    call: without configured sets the call returns no sticker and
    changes nothing.  When a sticker of the configured sets is not yet
    marked as used, the call returns a sticker of these sets that was
    not marked, and marks it.  When the sets hold stickers and all are
    marked, the call forgets the marks, returns a sticker of the sets
    and marks that one alone.  When the sets are configured but hold no
    sticker that can be fetched, the call does not return, however deep
    the recursion is allowed to go. *)
Theorem sticker_not_repeated_until_all_used (client : Client) (self : t)
    (g : Rng) (fuel : nat) :
  (sticker_sets self = [] ->
   (get_random_sticker (S fuel) client self g).1 = Some (self, None))
  /\ ((exists sticker, in_stock client self sticker
                       /\ id sticker ∉ used_sticker_ids self) ->
      exists self' sticker,
        (get_random_sticker (S fuel) client self g).1
        = Some (self', Some sticker)
        /\ in_stock client self sticker
        /\ (id sticker ∉ used_sticker_ids self)
        /\ used_sticker_ids self'
           = used_sticker_ids self ∪ {[ id sticker ]}
        /\ sticker_sets self' = sticker_sets self)
  /\ ((exists sticker, in_stock client self sticker) ->
      (forall sticker, in_stock client self sticker ->
                       id sticker ∈ used_sticker_ids self) ->
      (get_random_sticker 1 client self g).1 = None
      /\ exists self' sticker,
           (get_random_sticker (S (S fuel)) client self g).1
           = Some (self', Some sticker)
           /\ in_stock client self sticker
           /\ used_sticker_ids self' = {[ id sticker ]}
           /\ sticker_sets self' = sticker_sets self)
  /\ (sticker_sets self <> [] ->
      (forall sticker, ~ in_stock client self sticker) ->
      (get_random_sticker fuel client self g).1 = None).
Proof.
  split; [| split; [| split]].
  - intros Hsets. cbn [get_random_sticker]. by rewrite Hsets.
  - intros (s0 & Hin0 & Hfresh0).
    destruct (get_random_sticker_fresh fuel client self g s0 Hin0 Hfresh0)
      as (self' & s & E & ? & ? & ? & ? & _).
    by exists self', s.
  - intros (s0 & Hin0) Hall.
    assert (Hne : sticker_sets self <> []).
    { destruct Hin0 as (n & _ & Hn & _). intros E. rewrite E in Hn.
      by apply elem_of_nil in Hn. }
    assert (Hstep : forall k,
      exists self1 g2,
        sticker_sets self1 = sticker_sets self
        /\ (forall n, documents_of client self1 n
                      = documents_of client self n)
        /\ get_random_sticker (S k) client self g
           = get_random_sticker k client (set_used self1 ∅) g2).
    { intros k. cbn [get_random_sticker].
      destruct (sticker_sets self) as [|n0 ns] eqn:Hsets; [done |].
      rewrite <- Hsets in *. unfold bind.
      destruct (shuffle (sticker_sets self) g) as [shuffled g1] eqn:Hsh.
      pose proof (pick_sticker_spec client shuffled self g1) as Hp.
      cbv zeta in Hp.
      destruct (pick_sticker client shuffled self g1) as [[self1 found] g2].
      simpl in Hp. simpl. destruct Hp as (Hs & Hd & Hm).
      destruct found as [sticker|].
      - destruct Hm as (Hfresh & _ & n & docs & Hn & Hnd & Hin).
        destruct Hfresh. apply Hall. exists n, docs.
        split; [| done].
        rewrite <- (shuffle_elem (sticker_sets self) g). by rewrite Hsh.
      - by exists self1, g2. }
    split.
    + destruct (Hstep 0%nat) as (self1 & g2 & _ & _ & ->). done.
    + destruct (Hstep (S fuel)) as (self1 & g2 & Hs & Hd & ->).
      assert (Hin1 : in_stock client (set_used self1 ∅) s0)
        by by apply (in_stock_same client self (set_used self1 ∅)).
      destruct (get_random_sticker_fresh fuel client (set_used self1 ∅) g2
                  s0 Hin1) as (self' & s & E & Hin & _ & Hu & Hs' & _).
      { simpl. apply not_elem_of_empty. }
      exists self', s. split; [done |].
      split; [by apply (in_stock_same client self (set_used self1 ∅)) |].
      split; [| simpl in Hs'; congruence].
      rewrite Hu. simpl. apply union_empty_l_L.
  - apply get_random_sticker_diverges.
Qed.

End Stickers.
